(* ===== verification/_CoqProject ===== *)
-Q . S2P
Prelude.v
Prog.v
Interleave.v
GoStr.v
Base64.v
Types.v
Samples.v
Api.v
Utils.v
Meta.v
Broker.v
Coordinator.v
Storage.v
Scheduler.v
RollingUpdate.v
Objects.v
BrokerClient.v
Resources.v
BrokerController.v
CoordinatorController.v
StorageController.v
ScaleDown.v
MetaController.v
ExternalStore.v
MetaServer.v
Reconciler.v
Creation.v
Finished.v
Total.v
ReconcileOrder.v
Idle.v
Bootstrap.v
Slot.v
RingBuf.v
Monitor.v
ClusterClient.v
KvChecker.v
KvKeys.v
KvSound.v
SlotTags.v
KvWitness.v
KvService.v
KvMain.v
