(* ===== verification/Prelude.v ===== *)
(** * undermoon-operator: a verification development

    The repository is a Kubernetes operator for undermoon, a Redis cluster proxy with
    a control plane.  Three Go programs are modelled.

    - The operator (src/controllers).  A reconciler runs for each [Undermoon] custom
      resource (src/api/v1alpha1): it creates services, StatefulSets, a ConfigMap and a
      Secret; waits for brokers and coordinators; elects the master broker among the
      two memory brokers and tells the coordinators; registers the server proxies of
      the storage pods in the broker, creates and scales the cluster there; shrinks
      the storage StatefulSet after the slots have moved; and rolls the StatefulSets
      when the custom resource changed.  Next to it an HTTP server keeps the brokers'
      metadata in the ConfigMap.
    - The scheduler plugin (src/scheduler/pkg): a filter that keeps the two pods of a
      shard on different nodes.
    - The checker (src/checker/pkg): goroutines that write and read random keys through
      a cluster client and compare, and a recorder of MONITOR output.

    ** How code becomes definitions

    Go code that only computes is a function.  Code that talks to a service is a
    [prog] (Prog.v): a finite tree of calls over a signature of operations, which
    returns or panics.  [run_from E h p] runs it in an environment [E] that answers each
    call from the history before it, so theorems quantify over everything the API
    server, the broker, Redis, the clock, the network or a random source may do,
    including other writers between two calls.  [wp] is the program logic: a contract
    says what answers may be relied on, which calls are allowed, and whether a panic
    is.  [(T, error)] is [result]; [if err != nil { return err }] is the notation
    [x ←? m; k].  Functions that assign to the shared [*Undermoon] are in [crM]
    (Api.v), which threads the custom resource.  Interleave.v runs programs side by
    side over a shared state, with a rule to prove them correct one by one.
    Integers are [Z]; conversions to [int32] and [int64] wrap where the code converts.

    ** Files

    - Prelude.v, Prog.v, Interleave.v, GoStr.v, Base64.v: automation, results, machine
      integers; programs and their logic; interleavings; the functions of strconv,
      strings and encoding/base64 that the code uses, with their laws.
    - Types.v, Api.v, Samples.v: the custom resource and the Kubernetes objects; the
      operations and errors of the operator; small objects for the examples.
    - Utils.v (utils.go), Meta.v (meta.go), Broker.v (broker.go), Coordinator.v
      (coordinator.go), Storage.v (storage.go): helpers, and the builders of objects,
      names and addresses.  RollingUpdate.v and Objects.v are about them together.
    - BrokerClient.v (broker_client.go): requests to the broker and the reading of
      the answers.  Resources.v: the helpers that three controllers copy.
    - BrokerController.v, CoordinatorController.v (with coordinator_client.go),
      StorageController.v, MetaController.v and ExternalStore.v (the two halves of
      meta_controller.go), MetaServer.v (meta_server.go): the controllers and the
      server.  ScaleDown.v: scaling down over several reconciliations.  Bootstrap.v:
      creation of the metadata objects, the brokers' environment and the server, one
      after the other.
    - Reconciler.v (undermoon_controller.go): a whole run of [Reconcile], every early
      return an [outcome].  About its runs: Creation.v (where the objects come from),
      Finished.v (the history of a run that ends well), Total.v (every run returns),
      ReconcileOrder.v (what may be sent when), Idle.v (nothing to do).
    - Scheduler.v (src/scheduler/pkg/plugin.go).
    - Slot.v (slot.go), RingBuf.v and Monitor.v (monitor.go), ClusterClient.v (client.go),
      KvChecker.v (kv.go, utils.go) and KvMain.v (the end of the service in kv.go);
      KvKeys.v, KvSound.v, SlotTags.v, KvWitness.v, KvService.v: their theorems.

    ** What the theorems show

    - Reconciliation: the exact history of a run that ends well, with everything
      settled at its end; a run in a settled world ends well and changes nothing;
      every run returns; masters are published before they are used; one StatefulSet is rolled at a time; storage is only shrunk after the
      slots moved and 30 seconds passed, and over several runs it is shrunk in the
      end; proxies and the cluster are changed only in a safe order; the outcome of
      changing the number of nodes.
    - Pieces of it: election, telling the coordinators, readiness, creation guards,
      scale-up, names that round trip, bounds of the replica count, when the
      rolling-update tests settle and what they compare, that the objects fit
      together (selectors, services, names, addresses and ports, the password).
    - The metadata store: no lost update, a round trip through the HTTP server, and
      that a new broker can store its metadata with what it is given; and that the
      check of the credentials does not gate an update.
    - Scheduler: which pods the filter accepts, and that shards are separated.
    - Checker: CRC16 against polynomial division, slots and tags; redirections;
      no false alarm, alone and with the three goroutines interleaved; the
      recorder is a bounded queue of the lines it read, and it is saved before the
      service ends.

    ** Bounds and fuel

    Decimal printing has the binary logarithm of the number as fuel, which is at
    least its number of digits.  A creation guard tries at most as often as the code
    says, and [Exec] sends at most five commands: these are the code's own bounds.
    Loops without a bound in the code ([loopCheck], [newSlotTags], the reading of
    MONITOR lines, reconnecting) take a fuel, and their theorems hold for every fuel
    and say what it means to run out: that the loop is still going.  The retries of
    the dump take a list of what each attempt finds, and several reconciliations are a
    list of rounds, with other writers between them.

    ** Libraries

    gzip, encoding/json, the comparison of resource quantities, environment variables
    and gin's chain of handlers are interfaces ([Class]es) whose laws are documented
    behaviour: decompression undoes compression, decoding undoes encoding, quantities
    are compared by an equivalence, a handler that does not abort is followed by the
    next.  Each has a concrete instance in the examples.

    Reads of Kubernetes objects go through the cached client of the manager, so an
    answer may be older than the last write.  The environment may answer anything;
    where a theorem relies on what a read shows, its hypothesis says so and names
    the object: no lost update holds for reads of any older state of the ConfigMap,
    and the round trips are about reads that show the last accepted write.

    ** Not modelled

    Logging, contexts other than the cancellation of the checker, timeouts; the text of
    some errors (an error of a library is opaque); defaulting by the API server
    (an answer may be any object); the state of an object passed to a failed call;
    the manager's queue, which runs one reconciliation of a resource at a time;
    starting processes (main.go, checker.go, register.go), generated deep copies and
    scheme registration, charts and scripts, and the tests. *)
From Stdlib Require Export ZArith Lia Ascii.
From stdpp Require Export base gmap strings option numbers.
From stdpp Require Export list.

Declare Scope go_scope.
Delimit Scope go_scope with go.
Open Scope go_scope.
Open Scope string_scope.
Open Scope list_scope.
Open Scope Z_scope.

(** ** Hint databases and tactics of the development *)

Create HintDb go discriminated.
#[export] Hint Constants Opaque : go.
Create Rewrite HintDb gostr.

(** Case analysis on every [match] and [decide] of the goal, closing the
    branches that computation or congruence settles. *)
Ltac go_cases :=
  repeat (case_match || case_decide); simplify_eq/=; try done.

(** Splits every boolean condition of the context into its parts. *)
Ltac go_bools :=
  repeat match goal with
  | H : (_ && _) = true |- _ => apply andb_prop in H as [? ?]
  | H : (_ || _) = false |- _ => apply orb_false_elim in H as [? ?]
  | H : negb _ = true |- _ => apply negb_true_iff in H
  | H : negb _ = false |- _ => apply negb_false_iff in H
  | H : (_ =? _)%Z = true |- _ => apply Z.eqb_eq in H
  | H : (_ =? _)%Z = false |- _ => apply Z.eqb_neq in H
  | H : (_ <=? _)%Z = true |- _ => apply Z.leb_le in H
  | H : (_ <=? _)%Z = false |- _ => apply Z.leb_gt in H
  | H : (_ <? _)%Z = true |- _ => apply Z.ltb_lt in H
  | H : (_ <? _)%Z = false |- _ => apply Z.ltb_ge in H
  | H : String.eqb _ _ = true |- _ => apply String.eqb_eq in H
  | H : String.eqb _ _ = false |- _ => apply String.eqb_neq in H
  | H : bool_decide _ = true |- _ => apply bool_decide_eq_true in H
  | H : bool_decide _ = false |- _ => apply bool_decide_eq_false in H
  end.

(** ** Values of fallible Go functions: the pair [(T, error)] *)

Inductive result (E A : Type) : Type :=
| Ok (a : A)
| Err (e : E).
Arguments Ok {_ _} _.
Arguments Err {_ _} _.

#[export] Instance result_eq_dec {E A} `{EqDecision E, EqDecision A} :
  EqDecision (result E A).
Proof. solve_decision. Defined.

Definition is_ok {E A} (r : result E A) : bool :=
  match r with Ok _ => true | Err _ => false end.

(** [if err != nil { return err }] over any monad whose values are results. *)
Definition ebind {E A B} {M : Type → Type} `{MBind M, MRet M}
    (k : A → M (result E B)) (m : M (result E A)) : M (result E B) :=
  r ← m; match r with Ok a => k a | Err e => mret (Err e) end.

Notation "x ←? m ; k" := (ebind (λ x, k) m)
  (at level 20, m at level 100, k at level 200, right associativity) : go_scope.
Notation "' x ←? m ; k" := (ebind (λ x, k) m)
  (at level 20, x pattern, m at level 100, k at level 200, right associativity) : go_scope.
Notation "m ;;? k" := (ebind (λ _, k) m)
  (at level 100, k at level 200, right associativity) : go_scope.

(** ** Machine integers *)

(** The conversions [int32(x)], [uint32(x)] and [int(x)]/[int64(x)] of Go on a
    64-bit platform: truncation to the width, two's complement. *)
Definition to_int32 (z : Z) : Z := (z + 2 ^ 31) mod 2 ^ 32 - 2 ^ 31.
Definition to_int64 (z : Z) : Z := (z + 2 ^ 63) mod 2 ^ 64 - 2 ^ 63.
Definition is_uint32 (z : Z) : Prop := 0 ≤ z < 2 ^ 32.

Lemma to_int32_id (z : Z) : - 2 ^ 31 ≤ z < 2 ^ 31 → to_int32 z = z.
Proof. intros H. unfold to_int32. rewrite Z.mod_small; lia. Qed.

Lemma to_int64_id (z : Z) : - 2 ^ 63 ≤ z < 2 ^ 63 → to_int64 z = z.
Proof. intros H. unfold to_int64. rewrite Z.mod_small; lia. Qed.

Lemma to_int32_range (z : Z) : - 2 ^ 31 ≤ to_int32 z < 2 ^ 31.
Proof.
  unfold to_int32. pose proof (Z.mod_pos_bound (z + 2 ^ 31) (2 ^ 32)). lia.
Qed.

Lemma to_int32_plus (z : Z) : to_int32 (z + 2 ^ 32) = to_int32 z.
Proof.
  unfold to_int32. replace (z + 2 ^ 32 + 2 ^ 31) with (z + 2 ^ 31 + 1 * 2 ^ 32) by lia.
  by rewrite Z.mod_add by lia.
Qed.

(** ** Lists *)

Section lists.
Context {A : Type}.

Lemma Forall_filter (P Q : A → Prop) `{∀ x, Decision (P x)} (l : list A) :
  Forall Q l → Forall Q (filter P l).
Proof. rewrite !list.Forall_forall. intros HQ x [_ Hx]%list_elem_of_filter. eauto. Qed.

(** A filter that keeps nothing, or everything. *)
Lemma filter_none (P : A → Prop) `{∀ x, Decision (P x)} (l : list A) :
  (∀ x, x ∈ l → ¬ P x) → filter P l = [].
Proof.
  induction l as [|x l IH]; [done|]. intros Hl. rewrite filter_cons_False by (apply Hl; by left).
  apply IH. intros y Hy. apply Hl. by right.
Qed.

Lemma filter_every (P : A → Prop) `{∀ x, Decision (P x)} (l : list A) :
  (∀ x, x ∈ l → P x) → filter P l = l.
Proof.
  induction l as [|x l IH]; [done|]. intros Hl. rewrite filter_cons_True by (apply Hl; by left).
  f_equal. apply IH. intros y Hy. apply Hl. by right.
Qed.

(** The last [n] elements of a list. *)
Definition lastn (n : nat) (l : list A) : list A := drop (length l - n) l.

Lemma lastn_app_short (n : nat) (l : list A) (x : A) :
  (length l < n)%nat → lastn n (l ++ [x]) = l ++ [x].
Proof.
  intros Hl. unfold lastn. rewrite length_app. simpl.
  by replace (length l + 1 - n)%nat with 0%nat by lia.
Qed.

Lemma lastn_app_full (n : nat) (l : list A) (x : A) :
  (n ≤ length l)%nat → (0 < n)%nat → lastn n (l ++ [x]) = drop 1 (lastn n l) ++ [x].
Proof.
  intros Hl Hn. unfold lastn. rewrite length_app, drop_drop. simpl.
  rewrite drop_app_le by lia. do 2 f_equal. lia.
Qed.

Lemma length_lastn (n : nat) (l : list A) :
  length (lastn n l) = Nat.min n (length l).
Proof. unfold lastn. rewrite length_drop. lia. Qed.
End lists.

Lemma foldl_app_concat {A} (ls : list (list A)) acc :
  foldl (λ a l, a ++ l) acc ls = acc ++ concat ls.
Proof.
  revert acc. induction ls as [|l ls IH]; intros acc; simpl; [by rewrite app_nil_r|].
  by rewrite IH, app_assoc.
Qed.
