(* ===== verification/Prog.v ===== *)
(** * Programs over an external interface

    The operator and the checker are sequential Go code that talks to services
    (the Kubernetes API server, the undermoon broker, Redis).  A [prog] is such
    code as a tree: it returns, panics, or calls an operation of a signature and
    continues with the answer.  Every program of the type is finite, so every
    run of it ends.  [run] executes a program against an environment that may
    answer anything, as a function of everything that happened before; [wp] is
    the program logic in which the theorems about all environments are proved,
    with a condition on the answers ([rely]) and one on the calls ([guar]). *)
From S2P Require Import Prelude.

Record sig := Sig { op : Type; ans : op → Type }.

Section prog.
Context {Σ : sig}.

Inductive prog (A : Type) : Type :=
| Ret (a : A)
| Crash
| Call (o : op Σ) (k : ans Σ o → prog A).
Arguments Ret {_} _.
Arguments Crash {_}.
Arguments Call {_} _ _.

Fixpoint bind {A B} (k : A → prog B) (p : prog A) : prog B :=
  match p with
  | Ret a => k a
  | Crash => Crash
  | Call o c => Call o (λ x, bind k (c x))
  end.

#[global] Instance prog_ret : MRet prog := @Ret.
#[global] Instance prog_bind : MBind prog := @bind.

Definition call (o : op Σ) : prog (ans Σ o) := Call o Ret.

(** ** Histories and runs *)

Inductive event : Type := Ev (o : op Σ) (a : ans Σ o).
Definition ev_op (e : event) : op Σ := match e with Ev o _ => o end.
Definition history := list event.

(** An environment answers each call from the history that precedes it. *)
Definition env := history → ∀ o : op Σ, ans Σ o.

Fixpoint run_from {A} (E : env) (h : history) (p : prog A) : history * option A :=
  match p with
  | Ret a => (h, Some a)
  | Crash => (h, None)
  | Call o k => let x := E h o in run_from E (h ++ [Ev o x]) (k x)
  end.
Definition run {A} (E : env) (p : prog A) : history * option A := run_from E [] p.

(** The calls of a history. *)
Definition calls (h : history) : list (op Σ) := ev_op <$> h.

(** [o] was called in the part of [h] after [h0]. *)
Definition sent (h0 h : history) (o : op Σ) : Prop := ∃ t x, h = h0 ++ t ∧ Ev o x ∈ t.

Lemma sent_last h0 h o x : h0 `prefix_of` h → sent h0 (h ++ [Ev o x]) o.
Proof.
  intros [t ->]. exists (t ++ [Ev o x]), x. rewrite app_assoc. split; [done|].
  apply elem_of_app. right. by left.
Qed.

Lemma sent_app h0 h t o : sent h0 h o → sent h0 (h ++ t) o.
Proof.
  intros (t0 & x & -> & Hx). exists (t0 ++ t), x. rewrite app_assoc. split; [done|].
  apply elem_of_app. by left.
Qed.

Lemma prefix_step (h0 h : history) e : h0 `prefix_of` h → h0 `prefix_of` (h ++ [e]).
Proof. intros [t ->]. exists (t ++ [e]). by rewrite app_assoc. Qed.

(** ** The program logic *)

Record contract := Contract {
  rely : history → ∀ o, ans Σ o → Prop;
  guar : history → op Σ → Prop;
  panics : Prop
}.

Fixpoint wp {A} (C : contract) (p : prog A) (Q : history → A → Prop) (h : history) : Prop :=
  match p with
  | Ret a => Q h a
  | Crash => panics C
  | Call o k => guar C h o ∧ ∀ x, rely C h o x → wp C (k x) Q (h ++ [Ev o x])
  end.

(** Answers are arbitrary, every call is allowed. *)
Definition any : contract := Contract (λ _ _ _, True) (λ _ _, True) True.
(** The same, and the program does not panic. *)
Definition nopanic : contract := Contract (λ _ _ _, True) (λ _ _, True) False.
(** Answers are arbitrary, the calls satisfy [G]. *)
Definition guarantees (G : history → op Σ → Prop) : contract :=
  Contract (λ _ _ _, True) G True.

(** The answers are those of [E]: for statements about one run. *)
Definition answers (E : env) : contract := Contract (λ h o x, x = E h o) (λ _ _, True) True.

Definition respects (C : contract) (E : env) : Prop := ∀ h o, rely C h o (E h o).

(** Each call of the part of [h] after [h0] satisfies [G] of what precedes it. *)
Definition guarded (G : history → op Σ → Prop) (h0 h : history) : Prop :=
  ∃ t, h = h0 ++ t ∧ ∀ t1 e t2, t = t1 ++ e :: t2 → G (h0 ++ t1) (ev_op e).

Lemma guarded_refl G h : guarded G h h.
Proof.
  exists []. split; [by rewrite app_nil_r|]. intros [|??] ?? [=].
Qed.

Lemma guarded_step G h o x h' :
  G h o → guarded G (h ++ [Ev o x]) h' → guarded G h h'.
Proof.
  intros Ho (t & -> & Ht). exists (Ev o x :: t). split; [by rewrite <- app_assoc|].
  intros [|e1 t1] e t2 [=]; subst.
  - by rewrite app_nil_r.
  - specialize (Ht t1 e t2 eq_refl). by rewrite <- app_assoc in Ht.
Qed.

(** Adequacy: what [wp] proves holds of every run. *)
Lemma wp_sound {A} (C : contract) (E : env) (p : prog A) Q h :
  respects C E → wp C p Q h →
  guarded (guar C) h (run_from E h p).1 ∧
  match (run_from E h p).2 with
  | Some a => Q (run_from E h p).1 a
  | None => panics C
  end.
Proof.
  intros HE. revert h. induction p as [a| |o k IH]; intros h Hwp; simpl in *.
  - auto using guarded_refl.
  - auto using guarded_refl.
  - destruct Hwp as [Ho Hk]. destruct (IH (E h o) _ (Hk _ (HE h o))) as [? ?].
    split; [by eapply guarded_step|done].
Qed.

(** Adequacy for the three uses: guarantees, results, absence of panics. *)
Lemma run_guarded {A} (G : history → op Σ → Prop) E (p : prog A) h :
  wp (guarantees G) p (λ _ _, True) h → guarded G h (run_from E h p).1.
Proof. intros Hp. by apply (wp_sound (guarantees G) E) in Hp as [? _]. Qed.

Lemma run_result {A} E (p : prog A) Q h h' a :
  wp any p Q h → run_from E h p = (h', Some a) → Q h' a.
Proof. intros Hp Hrun. apply (wp_sound any E) in Hp as [_ Hp]; [|done]. by rewrite Hrun in Hp. Qed.

Lemma run_answers {A} E (p : prog A) (P : Prop) h h' a :
  wp (answers E) p (λ h1 a1, h1 = h' → a1 = a → P) h → run_from E h p = (h', Some a) → P.
Proof.
  intros Hp Hrun. apply (wp_sound (answers E) E) in Hp as [_ Hp]; [|done].
  rewrite Hrun in Hp. by apply Hp.
Qed.

Lemma run_no_panic {A} E (p : prog A) Q h :
  wp nopanic p Q h → ∃ h' a, run_from E h p = (h', Some a) ∧ Q h' a.
Proof.
  intros Hp. apply (wp_sound nopanic E) in Hp as [_ Hp]; [|done].
  destruct (run_from E h p) as [h' [a|]]; [eauto|done].
Qed.

Lemma wp_ret {A} C (a : A) Q h : Q h a → wp C (mret a) Q h.
Proof. done. Qed.

Lemma wp_call C o Q h :
  guar C h o → (∀ x, rely C h o x → Q (h ++ [Ev o x]) x) → wp C (call o) Q h.
Proof. done. Qed.

Lemma wp_bind {A B} C (p : prog A) (k : A → prog B) Q h :
  wp C p (λ h' a, wp C (k a) Q h') h → wp C (p ≫= k) Q h.
Proof.
  unfold mbind, prog_bind. revert h.
  induction p as [a| |o c IH]; intros h; simpl; [done..|].
  intros [? Hk]. split; [done|]. intros x Hx. apply IH; auto.
Qed.

Lemma wp_bind_inv {A B} C (p : prog A) (k : A → prog B) Q h :
  wp C (p ≫= k) Q h → wp C p (λ h' a, wp C (k a) Q h') h.
Proof.
  unfold mbind, prog_bind. revert h.
  induction p as [a| |o c IH]; intros h; simpl; [done..|].
  intros [? Hk]. split; [done|]. intros x Hx. apply IH; auto.
Qed.

Lemma wp_mono {A} C (p : prog A) (Q Q' : history → A → Prop) h :
  wp C p Q h → (∀ h' a, Q h' a → Q' h' a) → wp C p Q' h.
Proof.
  intros Hp HQ. revert h Hp. induction p as [a| |o k IH]; intros h Hp; simpl in *; auto.
  destruct Hp as [? Hk]. eauto.
Qed.

Lemma wp_and {A} C (p : prog A) (Q Q' : history → A → Prop) h :
  wp C p Q h → wp C p Q' h → wp C p (λ h' a, Q h' a ∧ Q' h' a) h.
Proof.
  revert h. induction p as [a| |o k IH]; intros h Hp Hp'; simpl in *; auto.
  destruct Hp, Hp'. eauto.
Qed.

(** Nothing is known of a program but that it returns something. *)
Lemma wp_any {A} (p : prog A) (Q : history → A → Prop) h :
  (∀ h' a, Q h' a) → wp any p Q h.
Proof. intros HQ. revert h. induction p as [a| |o k IH]; intros h; simpl; auto. Qed.

(** Strengthening the rely and weakening the guarantee of a contract. *)
Lemma wp_contract {A} C C' (p : prog A) Q h :
  (∀ h o x, rely C' h o x → rely C h o x) →
  (∀ h o, guar C h o → guar C' h o) →
  (panics C → panics C') →
  wp C p Q h → wp C' p Q h.
Proof.
  intros HR HG HP. revert h. induction p as [a| |o k IH]; intros h Hp; simpl in *; [done|by apply HP|].
  destruct Hp as [Ho Hk]. split; [by apply HG|]. intros x Hx. by apply IH, Hk, HR.
Qed.

Lemma wp_answers {A} E (p : prog A) Q h : wp any p Q h → wp (answers E) p Q h.
Proof. by apply wp_contract. Qed.

(** Weakening a guarantee may use that the run started at [h]. *)
Lemma wp_weaken_guar {A} (G G' : history → op Σ → Prop) (p : prog A) Q h :
  wp (guarantees G) p Q h →
  (∀ h' o, h `prefix_of` h' → G h' o → G' h' o) →
  wp (guarantees G') p Q h.
Proof.
  revert h. induction p as [a| |o k IH]; intros h Hp HG; simpl in *; [done|done|].
  destruct Hp as [Ho Hk]. split; [by apply HG|]. intros x Hx. apply IH; [by apply Hk|].
  intros h' o' [t ->] Ho'. apply HG; [|done]. rewrite <- app_assoc. by eexists.
Qed.

(** The history only grows. *)
Lemma wp_grows {A} C (p : prog A) Q h :
  wp C p Q h → wp C p (λ h' a, Q h' a ∧ h `prefix_of` h') h.
Proof.
  revert h. induction p as [a| |o k IH]; intros h Hp; simpl in *; auto.
  destruct Hp as [? Hk]. split; [done|]. intros x Hx.
  apply (wp_mono _ _ (λ h' a, Q h' a ∧ (h ++ [Ev o x]) `prefix_of` h')); [by apply IH, Hk|].
  intros h' a [? ?]. split; [done|]. etrans; [|done]. by eexists.
Qed.

(** Every call that was made satisfied the guarantee. *)
Lemma wp_guarded {A} C (p : prog A) Q h :
  wp C p Q h → wp C p (λ h' a, Q h' a ∧ guarded (guar C) h h') h.
Proof.
  revert h. induction p as [a| |o k IH]; intros h Hp; simpl in *; auto using guarded_refl.
  destruct Hp as [Ho Hk]. split; [done|]. intros x Hx.
  eapply wp_mono; [by apply IH, Hk|]. intros h' a [? ?]. split; [done|]. by eapply guarded_step.
Qed.

(** A guarantee that does not look at the history holds of every event. *)
Lemma guarded_Forall (G : op Σ → Prop) h t :
  guarded (λ _ o, G o) h (h ++ t) → Forall (λ e, G (ev_op e)) t.
Proof.
  intros (t' & Ht & HG). apply app_inv_head in Ht as <-. apply Forall_forall. intros e He.
  apply list_elem_of_split in He as (t1 & t2 & ->). by apply (HG t1 e t2).
Qed.

(** ** Observational equivalence: equal histories and results in every
    environment.  The monad laws hold up to it, and [bind] respects it. *)
#[global] Instance prog_equiv A : Equiv (prog A) :=
  λ p q, ∀ E h, run_from E h p = run_from E h q.

#[global] Instance prog_equivalence A : Equivalence (≡@{prog A}).
Proof.
  split; unfold equiv, prog_equiv.
  - done.
  - intros p q H E h. by rewrite H.
  - intros p q r H1 H2 E h. by rewrite H1.
Qed.

Lemma run_bind {A B} E h (p : prog A) (k : A → prog B) :
  run_from E h (p ≫= k) =
    match run_from E h p with
    | (h', Some a) => run_from E h' (k a)
    | (h', None) => (h', None)
    end.
Proof.
  unfold mbind, prog_bind. revert h.
  induction p as [a| |o c IH]; intros h; simpl; [done..|]. apply IH.
Qed.

#[global] Instance bind_proper {A B} :
  Proper (pointwise_relation A (≡) ==> (≡) ==> (≡)) (@bind A B).
Proof.
  intros k k' Hk p p' Hp E h.
  change (run_from E h (p ≫= k) = run_from E h (p' ≫= k')).
  rewrite !run_bind, (Hp E h). destruct (run_from E h p') as [h' [a|]]; [|done].
  apply Hk.
Qed.

Lemma bind_ret_r {A} (p : prog A) : p ≫= mret ≡ p.
Proof. intros E h. rewrite run_bind. by destruct (run_from E h p) as [h' [a|]]. Qed.

Lemma bind_assoc {A B D} (p : prog A) (k : A → prog B) (k' : B → prog D) :
  ((p ≫= k) ≫= k') ≡ p ≫= (λ a, k a ≫= k').
Proof.
  intros E h. rewrite !run_bind. destruct (run_from E h p) as [h' [a|]]; [|done].
  by rewrite run_bind.
Qed.
End prog.
Arguments prog : clear implicits.
Arguments event : clear implicits.
Arguments history : clear implicits.
Arguments env : clear implicits.
Arguments contract : clear implicits.
Arguments Ret {_ _} _.
Arguments Crash {_ _}.
Arguments Call {_ _} _ _.
Arguments Ev {_} _ _.

#[export] Hint Resolve wp_ret sent_last sent_app prefix_step : go.

(** Symbolic execution of a program under [wp]: binds are pushed inwards, calls
    introduce their answer. *)
Ltac wp_step :=
  lazymatch goal with
  | |- wp _ (_ ≫= _) _ _ => apply wp_bind
  | |- wp _ (mbind _ _) _ _ => apply wp_bind
  | |- wp _ (mret _) _ _ => apply wp_ret
  | |- wp _ (Ret _) _ _ => apply wp_ret
  | |- wp _ (call _) _ _ => apply wp_call; [|intros ? ?]
  | |- wp _ (ebind _ _) _ _ => unfold ebind; apply wp_bind
  end.
