(* ===== verification/Interleave.v ===== *)
(** * Programs that run side by side

    Goroutines over a shared state: in each step one program makes its next call, the
    state answers it and changes.  The rule for them: programs that are correct on
    their own, each for its part of the state, are correct together, in every
    interleaving. *)
From S2P Require Import Prelude Prog.

Section interleave.
Context {Σ : sig} {A S : Type}.
(** What the shared state may answer, and what a call does to it. *)
Context (answer_ok : S → ∀ o, ans Σ o → Prop) (effect : S → event Σ → S).

Inductive istep : list (prog Σ A) * S → list (prog Σ A) * S → Prop :=
| istep_call ps s i o k x :
    ps !! i = Some (Call o k) → answer_ok s o x →
    istep (ps, s) (<[i := k x]> ps, effect s (Ev o x)).

(** Each program has a contract, what it establishes, and a view: how its own history
    tells it the part of the state that is its own. *)
Context (C : nat → contract Σ) (Q : nat → history Σ → A → Prop) (view : nat → S → history Σ → Prop).

Record separated : Prop := {
  sep_rely i s h o x : view i s h → guar (C i) h o → answer_ok s o x → rely (C i) h o x;
  sep_own i s h o x : view i s h → guar (C i) h o → answer_ok s o x →
    view i (effect s (Ev o x)) (h ++ [Ev o x]);
  sep_other i j s h h' o x : i ≠ j → view i s h → view j s h' → guar (C j) h' o →
    answer_ok s o x → view i (effect s (Ev o x)) h
}.

Definition all_correct (c : list (prog Σ A) * S) : Prop :=
  ∀ i p, c.1 !! i = Some p → ∃ h, view i c.2 h ∧ wp (C i) p (Q i) h.

Lemma istep_correct c c' : separated → istep c c' → all_correct c → all_correct c'.
Proof.
  intros Hsep [ps s j o k x Hj Hx] Hall i p Hi. cbn [fst snd] in *.
  destruct (Hall j _ Hj) as (hj & Hvj & Hg & Hk).
  destruct (decide (i = j)) as [->|Hne].
  - rewrite list_lookup_insert_eq in Hi by (by eapply lookup_lt_Some). injection Hi as <-.
    exists (hj ++ [Ev o x]). split; [by eapply sep_own|]. by eapply Hk, sep_rely.
  - rewrite list_lookup_insert_ne in Hi by done. destruct (Hall i p Hi) as (h & Hv & Hwp).
    exists h. split; [|done]. by eapply (sep_other Hsep i j s h hj).
Qed.

Lemma isteps_correct c c' : separated → rtc istep c c' → all_correct c → all_correct c'.
Proof. intros Hsep. induction 1; eauto using istep_correct. Qed.

(** What a correct program looks like where it stopped. *)
Lemma correct_ret c i a : all_correct c → c.1 !! i = Some (Ret a) → ∃ h, view i c.2 h ∧ Q i h a.
Proof. intros Hall Hi. destruct (Hall i _ Hi) as (h & Hv & Hwp). eauto. Qed.

Lemma correct_crash c i : all_correct c → c.1 !! i = Some Crash → panics (C i).
Proof. intros Hall Hi. by destruct (Hall i _ Hi) as (h & _ & Hwp). Qed.
End interleave.
