(* ===== verification/GoStr.v ===== *)
(** * The Go string functions the program uses

    Models of [strconv.FormatInt], [ParseInt], [Atoi], [FormatBool] and of
    [strings.IndexByte], [LastIndex], [SplitN(_, _, 2)], [Split], [Contains] on
    byte strings, with the laws the components need: a decimal number parses
    back, and what follows the last separator is what was put there. *)
From S2P Require Import Prelude.

#[local] Arguments String.append : simpl nomatch.

(** ** Raw strings *)

(** A Go raw string: it has no backquote, which stands for the double quote. *)
Fixpoint raw (s : string) : string :=
  match s with
  | EmptyString => EmptyString
  | String c s => String (if decide (c = "`"%char) then "034"%char else c) (raw s)
  end.

(** ** Bytes *)

Definition byte_val (c : Ascii.ascii) : Z := Z.of_N (Ascii.N_of_ascii c).
Definition val_byte (z : Z) : Ascii.ascii := Ascii.ascii_of_N (Z.to_N z).

Lemma byte_val_range c : 0 ≤ byte_val c < 256.
Proof. unfold byte_val. pose proof (Ascii.N_ascii_bounded c). lia. Qed.

Lemma byte_val_val z : 0 ≤ z < 256 → byte_val (val_byte z) = z.
Proof. intros Hz. unfold byte_val, val_byte. rewrite Ascii.N_ascii_embedding; lia. Qed.

Lemma val_byte_val c : val_byte (byte_val c) = c.
Proof. unfold byte_val, val_byte. by rewrite N2Z.id, Ascii.ascii_N_embedding. Qed.

(** ** Searching and splitting *)

Fixpoint str_In (c : Ascii.ascii) (s : string) : bool :=
  match s with
  | EmptyString => false
  | String d s' => bool_decide (c = d) || str_In c s'
  end.

(** [strings.IndexByte]: the number of bytes before the first [c]. *)
Fixpoint index_byte (c : Ascii.ascii) (s : string) : option nat :=
  match s with
  | EmptyString => None
  | String d s' => if decide (c = d) then Some O else S <$> index_byte c s'
  end.

(** [s[strings.LastIndex(s, sep)+1:]]: the suffix after the last [c], all of [s]
    when there is none ([LastIndex] is then -1). *)
Fixpoint after_last (c : Ascii.ascii) (s : string) : string :=
  match s with
  | EmptyString => EmptyString
  | String d s' => if str_In c s' then after_last c s'
                   else if decide (c = d) then s' else s
  end.

(** [s[n:]] and [s[:n]] for [n] within the string. *)
Fixpoint str_drop (n : nat) (s : string) : string :=
  match n, s with
  | S n, String _ s => str_drop n s
  | _, _ => s
  end.
Fixpoint str_take (n : nat) (s : string) : string :=
  match n, s with
  | S n, String c s => String c (str_take n s)
  | _, _ => EmptyString
  end.

(** [strings.Split(s, string(c))]. *)
Fixpoint split_byte (c : Ascii.ascii) (s : string) : list string :=
  match s with
  | EmptyString => [EmptyString]
  | String d s' =>
      if decide (c = d) then EmptyString :: split_byte c s'
      else match split_byte c s' with
           | w :: ws => String d w :: ws
           | [] => [String d EmptyString]
           end
  end.

(** [strings.SplitN(s, string(c), 2)]. *)
Fixpoint splitN2 (c : Ascii.ascii) (s : string) : list string :=
  match s with
  | EmptyString => [EmptyString]
  | String d s' =>
      if decide (c = d) then [EmptyString; s']
      else match splitN2 c s' with
           | w :: ws => String d w :: ws
           | [] => [String d EmptyString]
           end
  end.

(** [strings.Contains(s, sub)]. *)
Fixpoint contains (sub s : string) : bool :=
  String.prefix sub s ||
  match s with
  | EmptyString => false
  | String _ s' => contains sub s'
  end.

Lemma str_app_nil_r s : s +:+ "" = s.
Proof. induction s; simpl; congruence. Qed.

Lemma str_app_assoc (s t u : string) : (s +:+ t) +:+ u = s +:+ (t +:+ u).
Proof. induction s; simpl; congruence. Qed.

Lemma str_app_inj_l (s t u : string) : s +:+ t = s +:+ u → t = u.
Proof. induction s; simpl; [done|]. intros [=]; auto. Qed.

Lemma str_In_app c s t : str_In c (s +:+ t) = str_In c s || str_In c t.
Proof. induction s as [|d s IH]; simpl; [done|]. by rewrite IH, orb_assoc. Qed.

Lemma index_byte_None c s : index_byte c s = None ↔ str_In c s = false.
Proof.
  induction s as [|d s IH]; simpl; [done|].
  case_decide; simplify_eq; [by rewrite bool_decide_true|].
  rewrite bool_decide_false by done. simpl. rewrite fmap_None. apply IH.
Qed.

Lemma str_In_drop c n s : str_In c s = false → str_In c (str_drop n s) = false.
Proof.
  revert n. induction s as [|d s IH]; intros [|n] Hs; try done. simpl in Hs.
  apply orb_false_elim in Hs as [_ Hs]. by apply IH.
Qed.

Lemma index_byte_app c s t :
  str_In c s = false → index_byte c (s +:+ String c t) = Some (String.length s).
Proof.
  induction s as [|d s IH]; simpl; [by rewrite decide_True|].
  intros [Hd Hs]%orb_false_elim. apply bool_decide_eq_false in Hd.
  rewrite decide_False by done. by rewrite IH.
Qed.

Lemma str_drop_app s t : str_drop (String.length s) (s +:+ t) = t.
Proof. induction s; simpl; auto. Qed.

Lemma str_take_app s t : str_take (String.length s) (s +:+ t) = s.
Proof. induction s; simpl; congruence. Qed.

Lemma after_last_none c s : str_In c s = false → after_last c s = s.
Proof.
  destruct s as [|d s]; simpl; [done|].
  intros [Hd ->]%orb_false_elim. apply bool_decide_eq_false in Hd.
  by rewrite decide_False.
Qed.

(** What follows the last separator. *)
Lemma after_last_app c s t :
  str_In c t = false → after_last c (s +:+ String c t) = t.
Proof.
  intros Ht. induction s as [|d s IH]; simpl.
  - by rewrite Ht, decide_True.
  - rewrite str_In_app. simpl. rewrite bool_decide_true by done.
    by rewrite orb_true_r.
Qed.

Lemma after_last_app_r c s t :
  str_In c t = true → after_last c (s +:+ t) = after_last c t.
Proof.
  intros Ht. induction s as [|d s IH]; simpl; [done|].
  by rewrite str_In_app, Ht, orb_true_r.
Qed.

Lemma split_byte_none c s : str_In c s = false → split_byte c s = [s].
Proof.
  induction s as [|d s IH]; simpl; [done|].
  intros [Hd Hs]%orb_false_elim. apply bool_decide_eq_false in Hd.
  rewrite decide_False by done. by rewrite IH.
Qed.

Lemma split_byte_app c s t :
  str_In c s = false → split_byte c (s +:+ String c t) = s :: split_byte c t.
Proof.
  induction s as [|d s IH]; simpl; [by rewrite decide_True|].
  intros [Hd Hs]%orb_false_elim. apply bool_decide_eq_false in Hd.
  rewrite decide_False by done. by rewrite IH.
Qed.

(** [strings.Join(ws, string(c))], which undoes [Split]. *)
Fixpoint join_byte (c : Ascii.ascii) (ws : list string) : string :=
  match ws with
  | [] => ""
  | [w] => w
  | w :: ws => w +:+ String c (join_byte c ws)
  end.

Lemma split_byte_join c s :
  join_byte c (split_byte c s) = s ∧ Forall (λ w, str_In c w = false) (split_byte c s) ∧ split_byte c s ≠ [].
Proof.
  induction s as [|d s (IHj & IHf & IHn)]; cbn [split_byte]; [by repeat constructor|].
  case_decide as Hd; [subst d|]; destruct (split_byte c s) as [|w ws]; try done.
  - split; [|split; [by constructor|done]]. by rewrite <- IHj.
  - apply Forall_cons in IHf as [Hw Hws]. split; [|split; [constructor; [|done]|done]].
    + rewrite <- IHj. by destruct ws.
    + cbn [str_In]. by rewrite bool_decide_false, Hw by done.
Qed.

Lemma split_byte_of_join c ws :
  ws ≠ [] → Forall (λ w, str_In c w = false) ws → split_byte c (join_byte c ws) = ws.
Proof.
  induction ws as [|w ws IH]; [done|]. intros _ [Hw Hws]%Forall_cons.
  destruct ws as [|w' ws]; [by apply split_byte_none|].
  change (join_byte c (w :: w' :: ws)) with (w +:+ String c (join_byte c (w' :: ws))).
  by rewrite split_byte_app, IH.
Qed.

Lemma splitN2_none c s : str_In c s = false → splitN2 c s = [s].
Proof.
  induction s as [|d s IH]; simpl; [done|].
  intros [Hd Hs]%orb_false_elim. apply bool_decide_eq_false in Hd.
  rewrite decide_False by done. by rewrite IH.
Qed.

Lemma splitN2_app c s t : str_In c s = false → splitN2 c (s +:+ String c t) = [s; t].
Proof.
  induction s as [|d s IH]; simpl; [by rewrite decide_True|].
  intros [Hd Hs]%orb_false_elim. apply bool_decide_eq_false in Hd.
  rewrite decide_False by done. by rewrite IH.
Qed.

Lemma splitN2_inv c s a b :
  splitN2 c s = [a; b] → s = a +:+ String c b ∧ str_In c a = false.
Proof.
  revert a b. induction s as [|d s IH]; intros a b; simpl; [done|].
  case_decide as Hd; [by intros [= <- <-]; subst|].
  destruct (splitN2 c s) as [|w [|w' [|]]] eqn:E; intros [=]; subst.
  destruct (IH _ _ eq_refl) as [-> Hw]. simpl. split; [done|].
  by rewrite bool_decide_false, Hw by done.
Qed.

Lemma splitN2_cases c s : (∃ a, splitN2 c s = [a]) ∨ (∃ a b, splitN2 c s = [a; b]).
Proof.
  induction s as [|d s IH]; simpl; [by left; eexists|].
  case_decide; [right; by do 2 eexists|].
  destruct IH as [[a ->]|(a & b & ->)]; [left|right]; repeat eexists.
Qed.

(** ** Decimal numbers *)

Definition digit (z : Z) : Ascii.ascii := val_byte (48 + z).
Definition digit_val (c : Ascii.ascii) : option Z :=
  let v := byte_val c in
  if (48 <=? v) && (v <=? 57) then Some (v - 48) else None.

Fixpoint dec_digits (fuel : nat) (n : Z) (acc : string) : string :=
  match fuel with
  | O => acc
  | S f => let acc' := String (digit (n mod 10)) acc in
           if n / 10 =? 0 then acc' else dec_digits f (n / 10) acc'
  end.

(** [strconv.FormatUint(n, 10)]: the binary logarithm bounds the digits. *)
Definition utoa (n : Z) : string := dec_digits (S (Z.to_nat (Z.log2 n))) n "".
(** [strconv.FormatInt(n, 10)] and the verb [%d]. *)
Definition itoa (n : Z) : string :=
  if n <? 0 then String "-"%char (utoa (- n)) else utoa n.

Definition format_bool (b : bool) : string := if b then "true" else "false".

Fixpoint parse_digits (s : string) (acc : Z) : option Z :=
  match s with
  | EmptyString => Some acc
  | String c s' => match digit_val c with
                   | Some d => parse_digits s' (acc * 10 + d)
                   | None => None
                   end
  end.

(** The digits of [ParseUint] go beyond 64 bits before a character that is no digit. *)
Fixpoint uint_overflow (s : string) (acc : Z) : bool :=
  match s with
  | EmptyString => false
  | String c s' => match digit_val c with
                   | Some d => (2 ^ 64 - 1 <? acc * 10 + d) || uint_overflow s' (acc * 10 + d)
                   | None => false
                   end
  end.

Inductive num_error := ErrSyntax | ErrRange.

(** [strconv.ParseInt(s, 10, 64)].  On an error Go still returns a value: 0 when
    the text is not a number, the nearest bound when it does not fit; digits beyond
    64 bits do not fit whatever follows them. *)
Definition parse_int (s : string) : Z * option num_error :=
  let '(neg, body) :=
    match s with
    | String "+"%char r => (false, r)
    | String "-"%char r => (true, r)
    | _ => (false, s)
    end in
  match body with
  | EmptyString => (0, Some ErrSyntax)
  | _ => match parse_digits body 0 with
         | None =>
             if uint_overflow body 0 then (if neg then - 2 ^ 63 else 2 ^ 63 - 1, Some ErrRange)
             else (0, Some ErrSyntax)
         | Some n =>
             let v := if neg then - n else n in
             if v <? - 2 ^ 63 then (- 2 ^ 63, Some ErrRange)
             else if 2 ^ 63 - 1 <? v then (2 ^ 63 - 1, Some ErrRange)
             else (v, None)
         end
  end.

(** [strconv.Atoi] on a 64-bit platform: the value is used only without error. *)
Definition atoi (s : string) : option Z :=
  match parse_int s with (v, None) => Some v | _ => None end.

Lemma digit_val_digit z : 0 ≤ z < 10 → digit_val (digit z) = Some z.
Proof.
  intros Hz. unfold digit_val, digit. rewrite byte_val_val by lia.
  destruct (Z.leb_spec 48 (48 + z)), (Z.leb_spec (48 + z) 57); simpl; try lia.
  f_equal. lia.
Qed.

Lemma digit_inv z c : 0 ≤ z < 10 → digit z = c → 48 ≤ byte_val c ≤ 57.
Proof. intros Hz <-. unfold digit. rewrite byte_val_val; lia. Qed.

Lemma div10_range n : 0 ≤ n → 0 ≤ n / 10 ∧ 0 ≤ n mod 10 < 10 ∧ n = n / 10 * 10 + n mod 10.
Proof.
  intros Hn. pose proof (Z.div_pos n 10 Hn ltac:(lia)).
  pose proof (Z.mod_pos_bound n 10 ltac:(lia)).
  pose proof (Z.div_mod n 10 ltac:(lia)). lia.
Qed.

Lemma parse_dec_digits f n s :
  0 ≤ n < 10 ^ Z.of_nat f → parse_digits (dec_digits f n s) 0 = parse_digits s n.
Proof.
  revert n s. induction f as [|f IH]; intros n s Hn; cbn [dec_digits].
  - simpl in Hn. by replace n with 0 by lia.
  - pose proof (div10_range n ltac:(lia)) as (Hq & Hr & Hn10).
    assert (n / 10 < 10 ^ Z.of_nat f) as Hlt.
    { apply Z.div_lt_upper_bound; [lia|]. rewrite <- Z.pow_succ_r by lia.
      replace (Z.succ (Z.of_nat f)) with (Z.of_nat (S f)) by lia. lia. }
    destruct (Z.eqb_spec (n / 10) 0) as [H0|H0].
    + cbn [parse_digits]. rewrite digit_val_digit by lia. f_equal. lia.
    + rewrite IH by lia. cbn [parse_digits]. rewrite digit_val_digit by lia. f_equal. lia.
Qed.

Lemma log2_fuel n : 0 ≤ n → n < 10 ^ Z.of_nat (S (Z.to_nat (Z.log2 n))).
Proof.
  intros Hn. destruct (Z.eq_dec n 0) as [->|Hn0]; [done|].
  pose proof (Z.log2_spec n ltac:(lia)) as [_ Hlt].
  pose proof (Z.log2_nonneg n).
  rewrite Nat2Z.inj_succ, Z2Nat.id by lia.
  eapply Z.lt_le_trans; [exact Hlt|].
  apply Z.pow_le_mono_l. lia.
Qed.

Lemma parse_utoa n : 0 ≤ n → parse_digits (utoa n) 0 = Some n.
Proof. intros Hn. unfold utoa. rewrite parse_dec_digits; [done|]. auto using log2_fuel. Qed.

(** Only digits, and at least one. *)
Fixpoint all_digits (s : string) : bool :=
  match s with
  | EmptyString => true
  | String c s' => (48 <=? byte_val c) && (byte_val c <=? 57) && all_digits s'
  end.

Lemma dec_digits_all f n s :
  0 ≤ n → all_digits s = true → all_digits (dec_digits f n s) = true.
Proof.
  revert n s. induction f as [|f IH]; intros n s Hn Hs; cbn [dec_digits]; [done|].
  pose proof (div10_range n Hn) as (Hq & Hr & _).
  assert (all_digits (String (digit (n mod 10)) s) = true).
  { cbn [all_digits]. pose proof (digit_inv (n mod 10) _ ltac:(lia) eq_refl).
    rewrite Hs, andb_true_r. apply andb_true_intro. split; apply Z.leb_le; lia. }
  case_match; auto.
Qed.

Lemma dec_digits_nonempty f n s :
  s ≠ "" → dec_digits f n s ≠ "".
Proof.
  revert n s. induction f as [|f IH]; intros n s Hs; cbn [dec_digits]; [done|].
  case_match; [done|]. by apply IH.
Qed.

Lemma utoa_all_digits n : 0 ≤ n → all_digits (utoa n) = true.
Proof. intros. by apply dec_digits_all. Qed.

Lemma utoa_nonempty n : utoa n ≠ "".
Proof.
  unfold utoa. cbn [dec_digits]. case_match; [done|]. by apply dec_digits_nonempty.
Qed.

Lemma all_digits_not_In s c :
  all_digits s = true → byte_val c < 48 ∨ 57 < byte_val c → str_In c s = false.
Proof.
  intros Hs Hc. induction s as [|d s IH]; simpl in *; [done|].
  go_bools. rewrite IH by done. rewrite bool_decide_false; [done|].
  intros ->. lia.
Qed.

Lemma parse_int_digits s n :
  all_digits s = true → s ≠ "" → parse_digits s 0 = Some n → 0 ≤ n < 2 ^ 63 →
  parse_int s = (n, None).
Proof.
  intros Hs Hne Hp Hn. unfold parse_int.
  destruct s as [|c s']; [done|].
  assert (c ≠ "+"%char ∧ c ≠ "-"%char) as [Hplus Hminus].
  { simpl in Hs. go_bools. assert (48 ≤ byte_val c) as Hc by done. clear -Hc.
    split; intros ->; by vm_compute in Hc. }
  assert (∀ (X : Type) (a b d : X),
    match c with "+"%char => a | "-"%char => b | _ => d end = d) as Hc.
  { intros X a b d. clear -Hplus Hminus.
    destruct c as [[] [] [] [] [] [] [] []]; try done. }
  rewrite Hc, Hp. destruct (Z.ltb_spec n (- 2 ^ 63)); [lia|].
  destruct (Z.ltb_spec (2 ^ 63 - 1) n); [lia|done].
Qed.

(** Round trip: a printed index parses to itself. *)
Lemma parse_int_utoa n : 0 ≤ n < 2 ^ 63 → parse_int (utoa n) = (n, None).
Proof.
  intros Hn. apply parse_int_digits; [apply utoa_all_digits; lia|apply utoa_nonempty| |lia].
  apply parse_utoa. lia.
Qed.

Lemma atoi_utoa n : 0 ≤ n < 2 ^ 63 → atoi (utoa n) = Some n.
Proof. intros Hn. unfold atoi. by rewrite parse_int_utoa. Qed.

Lemma utoa_inj n m : 0 ≤ n → 0 ≤ m → utoa n = utoa m → n = m.
Proof.
  intros Hn Hm Heq. pose proof (parse_utoa n Hn) as Hp.
  rewrite Heq, parse_utoa in Hp by done. by simplify_eq.
Qed.

Lemma itoa_utoa n : 0 ≤ n → itoa n = utoa n.
Proof. intros Hn. unfold itoa. destruct (Z.ltb_spec n 0); [lia|done]. Qed.

(** A decimal text has digits and perhaps a sign. *)
Lemma itoa_not_In z c :
  byte_val c < 45 ∨ 57 < byte_val c → str_In c (itoa z) = false.
Proof.
  intros Hc. unfold itoa. destruct (Z.ltb_spec z 0).
  - cbn [str_In]. rewrite all_digits_not_In; [|apply utoa_all_digits; lia|lia].
    rewrite bool_decide_false; [done|]. intros ->. change (byte_val "-"%char) with 45 in Hc. lia.
  - apply all_digits_not_In; [apply utoa_all_digits; lia|lia].
Qed.

Lemma itoa_inj n m : itoa n = itoa m → n = m.
Proof.
  assert (∀ n m, n < 0 → 0 ≤ m → itoa n ≠ itoa m) as Hsign.
  { clear. intros n m Hn Hm Heq. rewrite (itoa_utoa m) in Heq by done. unfold itoa in Heq.
    destruct (Z.ltb_spec n 0); [|lia]. assert (str_In "-"%char (utoa m) = true) as Hin by by rewrite <- Heq.
    rewrite all_digits_not_In in Hin; [done|apply utoa_all_digits; lia|left; by vm_compute]. }
  intros Heq. destruct (Z.ltb_spec n 0) as [Hn|Hn], (Z.ltb_spec m 0) as [Hm|Hm].
  - unfold itoa in Heq. destruct (Z.ltb_spec n 0), (Z.ltb_spec m 0); try lia.
    injection Heq as Heq. apply utoa_inj in Heq; lia.
  - by destruct (Hsign n m).
  - by destruct (Hsign m n).
  - rewrite !itoa_utoa in Heq by done. by apply utoa_inj.
Qed.

(** What is before the first separator, and what is after it. *)
Lemma separated_inj c a b a' b' :
  str_In c a = false → str_In c a' = false →
  a +:+ String c b = a' +:+ String c b' → a = a' ∧ b = b'.
Proof.
  intros Ha Ha' Heq. pose proof (splitN2_app c a b Ha) as Hs.
  rewrite Heq, splitN2_app in Hs by done. by simplify_eq.
Qed.

Lemma itoa_head z : ∃ c s, itoa z = String c s ∧ byte_val c ≤ 57.
Proof.
  destruct (itoa z) as [|c s] eqn:Hz.
  - unfold itoa in Hz. destruct (Z.ltb_spec z 0); [done|]. by destruct (utoa_nonempty z).
  - exists c, s. split; [done|].
    destruct (Z.le_gt_cases (byte_val c) 57) as [|Hc]; [done|].
    assert (str_In c (itoa z) = false) as Hn by (apply itoa_not_In; lia).
    rewrite Hz in Hn. simpl in Hn. by rewrite bool_decide_true in Hn.
Qed.

Lemma parse_int_range s v e : parse_int s = (v, e) → - 2 ^ 63 ≤ v < 2 ^ 63.
Proof.
  unfold parse_int. intros H. repeat case_match; simplify_eq; go_bools; lia.
Qed.

#[export] Hint Rewrite str_app_assoc str_app_nil_r str_drop_app str_take_app : gostr.
