(* ===== verification/Base64.v ===== *)
(** * base64.StdEncoding

    [EncodeToString] and [DecodeString] of Go's encoding/base64 with the standard
    alphabet and padding, as the operator uses them for the compressed metadata
    (utils.go) and for HTTP basic authentication (meta_server.go).  The decoder
    skips carriage returns and line feeds and does not check that the unused
    bits of the last quantum are zero, like the library. *)
From S2P Require Import Prelude GoStr.

#[local] Arguments String.append : simpl nomatch.

Definition b64_char (i : Z) : ascii :=
  val_byte (if i <? 26 then 65 + i else if i <? 52 then 71 + i
            else if i <? 62 then i - 4 else if i <? 63 then 43 else 47).

Definition b64_val (c : ascii) : option Z :=
  let v := byte_val c in
  if (65 <=? v) && (v <=? 90) then Some (v - 65)
  else if (97 <=? v) && (v <=? 122) then Some (v - 71)
  else if (48 <=? v) && (v <=? 57) then Some (v + 4)
  else if v =? 43 then Some 62
  else if v =? 47 then Some 63
  else None.

Definition pad : ascii := "="%char.

Fixpoint EncodeToString (s : string) : string :=
  match s with
  | EmptyString => EmptyString
  | String a EmptyString =>
      let a := byte_val a in
      String (b64_char (a / 4)) (String (b64_char (a mod 4 * 16))
        (String pad (String pad EmptyString)))
  | String a (String b EmptyString) =>
      let a := byte_val a in let b := byte_val b in
      String (b64_char (a / 4)) (String (b64_char (a mod 4 * 16 + b / 16))
        (String (b64_char (b mod 16 * 4)) (String pad EmptyString)))
  | String a (String b (String c s')) =>
      let a := byte_val a in let b := byte_val b in let c := byte_val c in
      String (b64_char (a / 4)) (String (b64_char (a mod 4 * 16 + b / 16))
        (String (b64_char (b mod 16 * 4 + c / 64)) (String (b64_char (c mod 64))
          (EncodeToString s'))))
  end.

Fixpoint strip_newlines (s : string) : string :=
  match s with
  | EmptyString => EmptyString
  | String c s' => if (byte_val c =? 10) || (byte_val c =? 13) then strip_newlines s'
                   else String c (strip_newlines s')
  end.

(** The quanta of four characters; only the last may be padded. *)
Fixpoint decode_quanta (s : string) : option string :=
  match s with
  | EmptyString => Some EmptyString
  | String c0 (String c1 (String c2 (String c3 s'))) =>
      v0 ← b64_val c0; v1 ← b64_val c1;
      match b64_val c2, b64_val c3 with
      | Some v2, Some v3 =>
          rest ← decode_quanta s';
          Some (String (val_byte (v0 * 4 + v1 / 16))
                 (String (val_byte (v1 mod 16 * 16 + v2 / 4))
                   (String (val_byte (v2 mod 4 * 64 + v3)) rest)))
      | Some v2, None =>
          if decide (c3 = pad ∧ s' = EmptyString) then
            Some (String (val_byte (v0 * 4 + v1 / 16))
                   (String (val_byte (v1 mod 16 * 16 + v2 / 4)) EmptyString))
          else None
      | None, _ =>
          if decide (c2 = pad ∧ c3 = pad ∧ s' = EmptyString) then
            Some (String (val_byte (v0 * 4 + v1 / 16)) EmptyString)
          else None
      end
  | _ => None
  end.

Definition DecodeString (s : string) : option string := decode_quanta (strip_newlines s).

(** ** Laws *)

Lemma b64_val_char i : 0 ≤ i < 64 → b64_val (b64_char i) = Some i.
Proof.
  intros Hi. unfold b64_val, b64_char.
  rewrite byte_val_val by (repeat case_match; go_bools; lia).
  repeat case_match; simplify_eq; go_bools; try (f_equal; lia).
  all: rewrite ?andb_false_iff, ?Z.leb_gt, ?Z.eqb_neq in *; lia.
Qed.

Lemma b64_val_pad : b64_val pad = None.
Proof. done. Qed.

Lemma b64_char_not_newline i :
  0 ≤ i < 64 → (byte_val (b64_char i) =? 10) || (byte_val (b64_char i) =? 13) = false.
Proof.
  intros Hi. unfold b64_char. rewrite byte_val_val by (repeat case_match; go_bools; lia).
  apply orb_false_intro; apply Z.eqb_neq; repeat case_match; go_bools; lia.
Qed.

Lemma string_ind3 (P : string → Prop) :
  P EmptyString → (∀ a, P (String a EmptyString)) →
  (∀ a b, P (String a (String b EmptyString))) →
  (∀ a b c s, P s → P (String a (String b (String c s)))) → ∀ s, P s.
Proof.
  intros H0 H1 H2 H3.
  refine (fix go s := match s with
    | EmptyString => H0
    | String a EmptyString => H1 a
    | String a (String b EmptyString) => H2 a b
    | String a (String b (String c s')) => H3 a b c s' (go s')
    end).
Qed.

(** The bit fields of a byte. *)
Lemma byte_parts c :
  0 ≤ byte_val c / 4 < 64 ∧ 0 ≤ byte_val c mod 4 < 4 ∧
  0 ≤ byte_val c / 16 < 16 ∧ 0 ≤ byte_val c mod 16 < 16 ∧
  0 ≤ byte_val c / 64 < 4 ∧ 0 ≤ byte_val c mod 64 < 64.
Proof.
  pose proof (byte_val_range c).
  repeat split; try apply Z.mod_pos_bound; try apply Z.div_pos;
    try apply Z.div_lt_upper_bound; lia.
Qed.

Lemma join_quotient k x q r : 0 < k → 0 ≤ r < k → x = q * k + r → x / k = q ∧ x mod k = r.
Proof.
  intros Hk Hr ->. split.
  - rewrite Z.div_add_l, Z.div_small by lia. lia.
  - by rewrite Z.add_comm, Z.mod_add, Z.mod_small by lia.
Qed.

Lemma join_byte c k z :
  0 < k → z = byte_val c / k * k + byte_val c mod k → val_byte z = c.
Proof.
  intros Hk ->. rewrite Z.mul_comm, <- Z.div_mod by lia. apply val_byte_val.
Qed.

Ltac b64_solve :=
  repeat match goal with
  | c : ascii |- _ => lazymatch goal with
                      | _ : 0 ≤ byte_val c / 4 < 64 |- _ => fail
                      | |- _ => pose proof (byte_parts c) as (? & ? & ? & ? & ? & ?)
                      end
  end.

Lemma strip_encode s : strip_newlines (EncodeToString s) = EncodeToString s.
Proof.
  induction s as [|a|a b|a b c s IH] using string_ind3; [done|..]; b64_solve;
    cbn [EncodeToString strip_newlines]; rewrite !b64_char_not_newline by lia;
    repeat f_equal; done.
Qed.

Lemma decode_encode_quanta s : decode_quanta (EncodeToString s) = Some s.
Proof.
  induction s as [|a|a b|a b c s IH] using string_ind3; [done|..]; b64_solve;
    cbn [EncodeToString decode_quanta]; rewrite !b64_val_char by lia;
    rewrite ?b64_val_pad; simpl.
  - destruct (join_quotient 16 (byte_val a mod 4 * 16) (byte_val a mod 4) 0) as [-> _]; [lia..|].
    do 2 f_equal. apply (join_byte _ 4); lia.
  - destruct (join_quotient 16 (byte_val a mod 4 * 16 + byte_val b / 16)
      (byte_val a mod 4) (byte_val b / 16)) as [-> ->]; [lia..|].
    destruct (join_quotient 4 (byte_val b mod 16 * 4) (byte_val b mod 16) 0) as [-> _]; [lia..|].
    do 2 f_equal; [by apply (join_byte _ 4)|].
    f_equal. by apply (join_byte _ 16).
  - rewrite IH. simpl.
    destruct (join_quotient 16 (byte_val a mod 4 * 16 + byte_val b / 16)
      (byte_val a mod 4) (byte_val b / 16)) as [-> ->]; [lia..|].
    destruct (join_quotient 4 (byte_val b mod 16 * 4 + byte_val c / 64)
      (byte_val b mod 16) (byte_val c / 64)) as [-> ->]; [lia..|].
    do 2 f_equal; [by apply (join_byte _ 4)|].
    f_equal; [by apply (join_byte _ 16)|]. f_equal. by apply (join_byte _ 64).
Qed.

Lemma DecodeString_EncodeToString s : DecodeString (EncodeToString s) = Some s.
Proof. unfold DecodeString. rewrite strip_encode. apply decode_encode_quanta. Qed.
