(* ===== verification/Types.v ===== *)
(** * The data of the operator

    The [Undermoon] custom resource (src/api/v1alpha1/undermoon_types.go) and the
    Kubernetes objects the operator reads and writes, each with the fields the
    program mentions.  A value of a Kubernetes type that the operator only copies
    from the custom resource into a pod (a toleration, a volume, ...) is its
    [Raw] text.  A resource quantity is its text too: how two of them compare is
    the [QuantityEq] interface of Utils.v. *)
From S2P Require Import Prelude.

(** A Kubernetes value that the operator copies and never looks into. *)
Record Raw := MkRaw { raw_text : string }.
#[export] Instance Raw_eq_dec : EqDecision Raw.
Proof. solve_decision. Defined.

Definition Quantity := string.
Abbreviation Labels := (gmap string string).

Record NamespacedName := MkName { nn_Name : string; nn_Namespace : string }.
#[export] Instance NamespacedName_eq_dec : EqDecision NamespacedName.
Proof. solve_decision. Defined.

(** ** Kubernetes objects *)

Record ObjectMeta := MkMeta {
  m_Name : string;
  m_Namespace : string;
  m_Labels : Labels;
  m_ResourceVersion : string;
  m_OwnerReferences : list Raw
}.

Record ObjectFieldSelector := MkFieldRef { fr_APIVersion : string; fr_FieldPath : string }.
Record SecretKeySelector := MkSecretKeyRef { sk_Name : string; sk_Key : string; sk_Optional : option bool }.
Record EnvVarSource := MkEnvVarSource {
  vs_FieldRef : option ObjectFieldSelector;
  vs_ResourceFieldRef : option Raw;
  vs_ConfigMapKeyRef : option Raw;
  vs_SecretKeyRef : option SecretKeySelector
}.
Record EnvVar := MkEnv { e_Name : string; e_Value : string; e_ValueFrom : option EnvVarSource }.

#[export] Instance ObjectFieldSelector_eq_dec : EqDecision ObjectFieldSelector.
Proof. solve_decision. Defined.
#[export] Instance SecretKeySelector_eq_dec : EqDecision SecretKeySelector.
Proof. solve_decision. Defined.
#[export] Instance EnvVarSource_eq_dec : EqDecision EnvVarSource.
Proof. solve_decision. Defined.
#[export] Instance EnvVar_eq_dec : EqDecision EnvVar.
Proof. solve_decision. Defined.

Record ResourceRequirements := MkResources {
  r_Limits : gmap string Quantity;
  r_Requests : gmap string Quantity
}.

Record PodAffinityTerm := MkAffinityTerm {
  at_MatchLabels : Labels;
  at_MatchExpressions : list Raw;
  at_Namespaces : list string;
  at_TopologyKey : string
}.
Record WeightedPodAffinityTerm := MkWeightedTerm {
  wt_Weight : Z;
  wt_PodAffinityTerm : PodAffinityTerm
}.
Record PodAntiAffinity := MkAntiAffinity {
  pa_Required : list PodAffinityTerm;
  pa_Preferred : list WeightedPodAffinityTerm
}.
Record Affinity := MkAffinity {
  af_NodeAffinity : option Raw;
  af_PodAffinity : option Raw;
  af_PodAntiAffinity : option PodAntiAffinity
}.

(** A handler that runs a command; the operator uses no other kind. *)
Record Lifecycle := MkLifecycle { lc_PreStopExec : list string }.
Record Probe := MkProbe {
  pr_Exec : list string;
  pr_TimeoutSeconds : Z;
  pr_PeriodSeconds : Z;
  pr_SuccessThreshold : Z;
  pr_FailureThreshold : Z
}.

Record Container := MkContainer {
  c_Name : string;
  c_Image : string;
  c_ImagePullPolicy : string;
  c_Command : list string;
  c_Args : list string;
  c_Env : list EnvVar;
  c_Resources : ResourceRequirements;
  c_Lifecycle : option Lifecycle;
  c_ReadinessProbe : option Probe;
  c_WorkingDir : string;
  c_VolumeMounts : list Raw;
  c_VolumeDevices : list Raw
}.

Record PodSpec := MkPodSpec {
  p_TerminationGracePeriodSeconds : option Z;
  p_Containers : list Container;
  p_Affinity : option Affinity;
  p_NodeSelector : Labels;
  p_ImagePullSecrets : list Raw;
  p_SchedulerName : string;
  p_Tolerations : list Raw;
  p_Volumes : list Raw
}.
Record PodTemplateSpec := MkPodTemplate { t_Labels : Labels; t_Spec : PodSpec }.

Record StatefulSetSpec := MkStatefulSetSpec {
  sss_Selector : Labels;
  sss_ServiceName : string;
  sss_Replicas : option Z;
  sss_Template : PodTemplateSpec;
  sss_PodManagementPolicy : string;
  sss_VolumeClaimTemplates : list Raw
}.
Record StatefulSetStatus := MkStatefulSetStatus {
  sst_Replicas : Z;
  sst_ReadyReplicas : Z;
  sst_CurrentReplicas : Z
}.
Record StatefulSet := MkStatefulSet {
  ss_Meta : ObjectMeta;
  ss_Spec : StatefulSetSpec;
  ss_Status : StatefulSetStatus
}.

Record ServicePort := MkServicePort { sp_Name : string; sp_Port : Z; sp_Protocol : string }.
Record Service := MkService {
  sv_Meta : ObjectMeta;
  sv_Ports : list ServicePort;
  sv_ClusterIP : string;
  sv_Selector : Labels;
  sv_PublishNotReadyAddresses : bool
}.

(** [Data] is nil when the object has none; assigning to a nil map panics. *)
Record ConfigMap := MkConfigMap { cm_Meta : ObjectMeta; cm_Data : option (gmap string string) }.
Record Secret := MkSecret { sc_Meta : ObjectMeta; sc_Data : gmap string string }.

Record EndpointAddress := MkEndpointAddress { ea_Hostname : string; ea_IP : string }.
Record Endpoints := MkEndpoints { ep_Subsets : list (list EndpointAddress) }.

(** ** The custom resource *)

Record UndermoonSpec := MkUndermoonSpec {
  ClusterName : string;
  ChunkNumber : Z;
  MaxMemory : Z;
  Port : Z;
  ActiveRedirection : bool;
  ProxyThreads : Z;
  MigrationScanInterval : Z;
  MigrationScanCount : Z;
  MigrationLimit : Z;
  DisableFailover : bool;
  UndermoonImage : string;
  UndermoonImagePullPolicy : string;
  RedisImage : string;
  BrokerEnvVar : list EnvVar;
  CoordinatorEnvVar : list EnvVar;
  ProxyEnvVar : list EnvVar;
  RedisEnvVar : list EnvVar;
  BrokerResources : ResourceRequirements;
  CoordinatorResources : ResourceRequirements;
  ProxyResources : ResourceRequirements;
  RedisResources : ResourceRequirements;
  CrAffinity : option Affinity;
  NodeSelector : Labels;
  ImagePullSecrets : list Raw;
  SchedulerName : string;
  Tolerations : list Raw;
  StorageVolumes : list Raw;
  RedisVolumeMounts : list Raw;
  RedisVolumeDevices : list Raw;
  VolumeClaimTemplates : list Raw
}.

Record UndermoonStatus := MkUndermoonStatus {
  MasterBrokerAddress : string;
  ScaleState : string;
  (** nanoseconds since the epoch *)
  ScaleDownWaitTimestamp : Z
}.

Record Undermoon := MkUndermoon {
  um_Meta : ObjectMeta;
  um_Spec : UndermoonSpec;
  um_Status : UndermoonStatus
}.

(** The [uint32] fields hold 32-bit values. *)
Record spec_wf (s : UndermoonSpec) : Prop := {
  wf_ChunkNumber : is_uint32 (ChunkNumber s);
  wf_MaxMemory : is_uint32 (MaxMemory s);
  wf_Port : is_uint32 (Port s);
  wf_ProxyThreads : is_uint32 (ProxyThreads s);
  wf_MigrationScanInterval : is_uint32 (MigrationScanInterval s);
  wf_MigrationScanCount : is_uint32 (MigrationScanCount s);
  wf_MigrationLimit : is_uint32 (MigrationLimit s)
}.

(** ** Field assignments *)

Definition set_owner (refs : list Raw) (m : ObjectMeta) : ObjectMeta :=
  MkMeta (m_Name m) (m_Namespace m) (m_Labels m) (m_ResourceVersion m) refs.

Definition ss_set_meta (m : ObjectMeta) (ss : StatefulSet) : StatefulSet :=
  MkStatefulSet m (ss_Spec ss) (ss_Status ss).
Definition ss_set_spec (s : StatefulSetSpec) (ss : StatefulSet) : StatefulSet :=
  MkStatefulSet (ss_Meta ss) s (ss_Status ss).
Definition sss_set_replicas (n : Z) (s : StatefulSetSpec) : StatefulSetSpec :=
  MkStatefulSetSpec (sss_Selector s) (sss_ServiceName s) (Some n) (sss_Template s)
    (sss_PodManagementPolicy s) (sss_VolumeClaimTemplates s).

Definition sv_set_meta (m : ObjectMeta) (s : Service) : Service :=
  MkService m (sv_Ports s) (sv_ClusterIP s) (sv_Selector s) (sv_PublishNotReadyAddresses s).
Definition cm_set_meta (m : ObjectMeta) (c : ConfigMap) : ConfigMap := MkConfigMap m (cm_Data c).
Definition cm_set_data (d : gmap string string) (c : ConfigMap) : ConfigMap :=
  MkConfigMap (cm_Meta c) (Some d).
Definition sc_set_meta (m : ObjectMeta) (s : Secret) : Secret := MkSecret m (sc_Data s).

Definition um_set_status (st : UndermoonStatus) (cr : Undermoon) : Undermoon :=
  MkUndermoon (um_Meta cr) (um_Spec cr) st.

Definition spec_set_affinity (a : option Affinity) (s : UndermoonSpec) : UndermoonSpec :=
  {| ClusterName := ClusterName s; ChunkNumber := ChunkNumber s; MaxMemory := MaxMemory s;
     Port := Port s; ActiveRedirection := ActiveRedirection s; ProxyThreads := ProxyThreads s;
     MigrationScanInterval := MigrationScanInterval s;
     MigrationScanCount := MigrationScanCount s; MigrationLimit := MigrationLimit s;
     DisableFailover := DisableFailover s; UndermoonImage := UndermoonImage s;
     UndermoonImagePullPolicy := UndermoonImagePullPolicy s; RedisImage := RedisImage s;
     BrokerEnvVar := BrokerEnvVar s; CoordinatorEnvVar := CoordinatorEnvVar s;
     ProxyEnvVar := ProxyEnvVar s; RedisEnvVar := RedisEnvVar s;
     BrokerResources := BrokerResources s; CoordinatorResources := CoordinatorResources s;
     ProxyResources := ProxyResources s; RedisResources := RedisResources s;
     CrAffinity := a; NodeSelector := NodeSelector s; ImagePullSecrets := ImagePullSecrets s;
     SchedulerName := SchedulerName s; Tolerations := Tolerations s;
     StorageVolumes := StorageVolumes s; RedisVolumeMounts := RedisVolumeMounts s;
     RedisVolumeDevices := RedisVolumeDevices s;
     VolumeClaimTemplates := VolumeClaimTemplates s |}.

Definition um_set_affinity (a : option Affinity) (cr : Undermoon) : Undermoon :=
  MkUndermoon (um_Meta cr) (spec_set_affinity a (um_Spec cr)) (um_Status cr).

(** The name of the custom resource and its namespace, as [cr.ObjectMeta.Name]
    and [cr.Namespace]. *)
Definition um_Name (cr : Undermoon) : string := m_Name (um_Meta cr).
Definition um_Namespace (cr : Undermoon) : string := m_Namespace (um_Meta cr).

Lemma spec_set_affinity_id s : spec_set_affinity (CrAffinity s) s = s.
Proof. by destruct s. Qed.
Lemma um_set_affinity_id cr : um_set_affinity (CrAffinity (um_Spec cr)) cr = cr.
Proof. by destruct cr as [? [] ?]. Qed.
