(* ===== verification/Samples.v ===== *)
(** * Small concrete objects

    A custom resource with a given number of chunks, and the objects around it,
    on which the theorems are applied. *)
From S2P Require Import Prelude Types.

Definition no_resources : ResourceRequirements := MkResources ∅ ∅.

(** A small custom resource: cluster "c" of [chunks] chunks in namespace "ns". *)
Definition sample_spec (chunks : Z) : UndermoonSpec :=
  {| ClusterName := "cluster"; ChunkNumber := chunks; MaxMemory := 1024; Port := 5299;
     ActiveRedirection := true; ProxyThreads := 2; MigrationScanInterval := 500;
     MigrationScanCount := 16; MigrationLimit := 1; DisableFailover := false;
     UndermoonImage := "undermoon"; UndermoonImagePullPolicy := "Always"; RedisImage := "redis";
     BrokerEnvVar := []; CoordinatorEnvVar := []; ProxyEnvVar := []; RedisEnvVar := [];
     BrokerResources := no_resources; CoordinatorResources := no_resources;
     ProxyResources := no_resources; RedisResources := no_resources;
     CrAffinity := None; NodeSelector := ∅; ImagePullSecrets := []; SchedulerName := "";
     Tolerations := []; StorageVolumes := []; RedisVolumeMounts := []; RedisVolumeDevices := [];
     VolumeClaimTemplates := [] |}.
Definition sample_cr (chunks : Z) : Undermoon :=
  MkUndermoon (MkMeta "c" "ns" ∅ "1" []) (sample_spec chunks) (MkUndermoonStatus "" "" 0).


Definition sample_meta (name : string) : ObjectMeta := MkMeta name "ns" ∅ "1" [].

(** A storage StatefulSet of [replicas] pods, all of them running. *)
Definition sample_storage (replicas : Z) : StatefulSet :=
  MkStatefulSet (sample_meta "c-stg-ss")
    (MkStatefulSetSpec ∅ "c-stg-svc" (Some replicas)
      (MkPodTemplate ∅ (MkPodSpec None [] None ∅ [] "" [] [])) "Parallel" [])
    (MkStatefulSetStatus replicas replicas replicas).

Definition sample_service (name : string) : Service :=
  MkService (sample_meta name) [] "None" ∅ false.
