(* ===== verification/Api.v ===== *)
(** * The world of the operator

    The errors the controllers compare and return, the operations they call on
    the Kubernetes API server, the broker's HTTP interface, Redis and the clock,
    and the two monads the controllers are written in: [go], programs over those
    operations, and [crM], programs that also hold the shared [*Undermoon] that
    several functions assign to. *)
From S2P Require Import Prelude Prog Types.

(** ** Errors *)

(** Errors of the client libraries, with the classes [errors.IsNotFound],
    [IsAlreadyExists] and [IsConflict] distinguish. *)
Inductive ext_error :=
| ApiNotFound
| ApiAlreadyExists
| ApiConflict
| ExtOther (msg : string).

(** The sentinels of utils.go, broker_client.go and meta_controller.go, compared
    with [==]; errors that come from a library; errors made by [Errorf]. *)
Inductive error :=
| errRetryReconciliation
| errMigrationRunning
| errFreeNodeFound
| errExternalTimeout
| errProxyResourceOutOfOrder
| errExternalStoreConflict
| ErrExt (e : ext_error)
| ErrMsg (msg : string).

#[export] Instance ext_error_eq_dec : EqDecision ext_error.
Proof. solve_decision. Defined.
#[export] Instance error_eq_dec : EqDecision error.
Proof. solve_decision. Defined.

Definition IsNotFound (e : error) : bool := bool_decide (e = ErrExt ApiNotFound).
Definition IsAlreadyExists (e : error) : bool := bool_decide (e = ErrExt ApiAlreadyExists).
Definition IsConflict (e : error) : bool := bool_decide (e = ErrExt ApiConflict).

Abbreviation res A := (result error A).

(** ** The broker's HTTP interface (payloads of broker_client.go) *)

Record serverProxyMeta := MkProxyMeta {
  ProxyAddress : string;
  RedisAddresses : string * string;
  Host : string;
  Index : Z
}.

Record clusterInfo := MkClusterInfo {
  ci_Name : string;
  NodeNumber : Z;
  NodeNumberWithSlots : Z;
  IsMigrating : bool
}.

Inductive payload :=
| brokerConfigPayload (ReplicaAddresses : list string)
| queryServerProxyResponse (Addresses : list string)
| serverProxyPayload (p : serverProxyMeta)
| createClusterPayload (nodeNumber : Z)
| queryClusterNamesPayload (Names : list string)
| clusterInfoPayload (info : clusterInfo)
| clusterConfigPayload (MigrationScanInterval MigrationScanCount : string).

Inductive http_method := GET | POST | PUT | PATCH | DELETE.

Record http_request := MkHttp {
  hr_method : http_method;
  hr_url : string;
  hr_body : option payload
}.

(** A response: the status, the body as text, [res.Error()] as the [error] field
    of an [*errorResponse] when it is one, and [res.Result()]. *)
Record http_response := MkResponse {
  StatusCode : Z;
  Body : string;
  ErrorField : option string;
  Result : option payload
}.

(** ** Operations *)

Inductive operation :=
| GetUndermoon (k : NamespacedName)
| GetService (k : NamespacedName)
| CreateService (s : Service)
| GetStatefulSet (k : NamespacedName)
| CreateStatefulSet (s : StatefulSet)
| UpdateStatefulSet (s : StatefulSet)
| GetConfigMap (k : NamespacedName)
| CreateConfigMap (c : ConfigMap)
| UpdateConfigMap (c : ConfigMap)
| GetSecret (k : NamespacedName)
| CreateSecret (s : Secret)
| GetEndpoints (k : NamespacedName)
| StatusPatch (cr : Undermoon) (patch : string)
| StatusUpdate (cr : Undermoon)
| SetControllerReference (owner : Undermoon) (controlled : ObjectMeta)
| Http (r : http_request)
| RedisProcess (address : string) (command : list string)
| Now
| GeneratePassword.

(** [Create], [Update] and [Patch] of the client decode the server's answer into
    the object they were given: the answer is the object afterwards. *)
Definition answer (o : operation) : Type :=
  match o with
  | GetUndermoon _ | StatusPatch _ _ | StatusUpdate _ => result ext_error Undermoon
  | GetService _ | CreateService _ => result ext_error Service
  | GetStatefulSet _ | CreateStatefulSet _ | UpdateStatefulSet _ => result ext_error StatefulSet
  | GetConfigMap _ | CreateConfigMap _ | UpdateConfigMap _ => result ext_error ConfigMap
  | GetSecret _ | CreateSecret _ => result ext_error Secret
  | GetEndpoints _ => result ext_error Endpoints
  | SetControllerReference _ _ => result ext_error (list Raw)
  | Http _ => result ext_error http_response
  | RedisProcess _ _ | GeneratePassword => result ext_error string
  | Now => Z
  end.

Definition k8s : sig := Sig operation answer.

Abbreviation go := (prog k8s).

Definition lift_err {A} (r : result ext_error A) : res A :=
  match r with Ok a => Ok a | Err e => Err (ErrExt e) end.

(** A call whose answer may be an error. *)
Definition api {A} (o : operation) (H : answer o = result ext_error A) : go (res A) :=
  r ← call (Σ := k8s) o; mret (lift_err (eq_rect _ (λ X, X) r _ H)).
Abbreviation api_call o := (api o eq_refl).

(** ** Programs that share the custom resource *)

Definition crM (A : Type) : Type := Undermoon → go (Undermoon * A).

#[export] Instance crM_ret : MRet crM := λ A a cr, mret (cr, a).
#[export] Instance crM_bind : MBind crM := λ A B k m cr, '(cr', a) ← m cr; k a cr'.

Definition lift {A} (p : go A) : crM A := λ cr, a ← p; mret (cr, a).
Definition get_cr : crM Undermoon := λ cr, mret (cr, cr).
Definition put_cr (cr : Undermoon) : crM unit := λ _, mret (cr, ()).

(** ** Loops *)

(** [for _, x := range xs { if err := f(x); err != nil { return err } }] *)
Fixpoint for_each {A} (f : A → go (res unit)) (xs : list A) : go (res unit) :=
  match xs with
  | [] => mret (Ok ())
  | x :: xs => f x ;;? for_each f xs
  end.

(** ** Rules of the program logic for these operations *)

Section rules.
Context (C : contract k8s).

Lemma wp_api {A} o (H : answer o = result ext_error A) (Q : history k8s → res A → Prop) h :
  guar C h o →
  (∀ x, rely C h o x → Q (h ++ [Ev (Σ := k8s) o x]) (lift_err (eq_rect _ (λ X, X) x _ H))) →
  wp C (api o H) Q h.
Proof. intros Ho HQ. split; [done|]. intros x Hx. by apply HQ. Qed.

Lemma wp_ebind {A B} (p : go (res A)) (k : A → go (res B)) Q h :
  wp C p (λ h' r, match r with
                  | Ok a => wp C (k a) Q h'
                  | Err e => Q h' (Err e)
                  end) h →
  wp C (a ←? p; k a) Q h.
Proof. intros Hp. unfold ebind. apply wp_bind. eapply wp_mono; [exact Hp|]. by intros h' [a|e]. Qed.

(** The shared custom resource. *)
Lemma wp_cr_bind {A B} (m : crM A) (k : A → crM B) cr Q h :
  wp C (m cr) (λ h' r, wp C (k r.2 r.1) Q h') h → wp C ((m ≫= k) cr) Q h.
Proof.
  intros Hm. unfold mbind, crM_bind. apply wp_bind.
  eapply wp_mono; [exact Hm|]. by intros h' [cr' a].
Qed.

Lemma wp_cr_ebind {E A B} (m : crM (result E A)) (k : A → crM (result E B)) cr Q h :
  wp C (m cr) (λ h' r, match r.2 with
                       | Ok a => wp C (k a r.1) Q h'
                       | Err e => Q h' (r.1, Err e)
                       end) h →
  wp C ((a ←? m; k a) cr) Q h.
Proof.
  intros Hm. unfold ebind. apply wp_cr_bind. eapply wp_mono; [exact Hm|].
  by intros h' [cr' [a|e]].
Qed.

Lemma wp_lift {A} (p : go A) cr Q h :
  wp C p (λ h' a, Q h' (cr, a)) h → wp C (lift p cr) Q h.
Proof. intros Hp. apply wp_bind. eapply wp_mono; [exact Hp|]. done. Qed.

Lemma wp_cr_ret {A} (a : A) cr (Q : history k8s → Undermoon * A → Prop) h :
  Q h (cr, a) → wp C (mret (M := crM) a cr) Q h.
Proof. done. Qed.

Lemma wp_get_cr cr (Q : history k8s → Undermoon * Undermoon → Prop) h :
  Q h (cr, cr) → wp C (get_cr cr) Q h.
Proof. done. Qed.

Lemma wp_put_cr cr cr' (Q : history k8s → Undermoon * unit → Prop) h :
  Q h (cr', ()) → wp C (put_cr cr' cr) Q h.
Proof. done. Qed.

Lemma wp_for_each {A} (f : A → go (res unit)) (I : history k8s → list A → list A → Prop) Q xs h :
  I h [] xs →
  (∀ h' done x rest, xs = done ++ x :: rest → I h' done (x :: rest) →
     wp C (f x) (λ h'' r, match r with
                          | Ok _ => I h'' (done ++ [x]) rest
                          | Err e => Q h'' (Err e)
                          end) h') →
  (∀ h', I h' xs [] → Q h' (Ok ())) →
  wp C (for_each f xs) Q h.
Proof.
  intros H0 Hstep Hend.
  assert (∀ rest pre h', xs = pre ++ rest → I h' pre rest → wp C (for_each f rest) Q h') as Hgen;
    [|by apply (Hgen xs [])].
  induction rest as [|x rest IH]; intros pre h' Hxs HI; simpl.
  - apply Hend. rewrite Hxs, app_nil_r in *. done.
  - apply wp_ebind. eapply wp_mono; [by eapply Hstep|].
    intros h'' [[]|e]; [|done]. apply IH. by rewrite <- app_assoc.
Qed.
End rules.

(** One step of symbolic execution of [go] and [crM] programs. *)
Ltac go_step :=
  lazymatch goal with
  | |- wp _ (ebind _ _ _) _ _ => apply wp_cr_ebind
  | |- wp _ (mbind _ _ _) _ _ => apply wp_cr_bind
  | |- wp _ (ebind _ _) _ _ => apply wp_ebind
  | |- wp _ (mbind _ _) _ _ => apply wp_bind
  | |- wp _ (api _ _) _ _ => apply wp_api; [try done|cbn beta iota delta [eq_rect]; intros ? ?]
  | |- wp _ (call _) _ _ => apply wp_call; [try done|intros ? ?]
  | |- wp _ (lift _ _) _ _ => apply wp_lift
  | |- wp _ (get_cr _) _ _ => apply wp_get_cr
  | |- wp _ (put_cr _ _) _ _ => apply wp_put_cr
  | |- wp _ (mret _ _) _ _ => apply wp_cr_ret
  | |- wp _ (mret _) _ _ => apply wp_ret
  | |- wp _ Crash _ _ => cbn [wp]
  end.

(** Splits on the condition of a program; the error of a client call is split on
    the answer itself. *)
Ltac go_split r :=
  lazymatch r with
  | lift_err ?x => destruct x; cbn beta iota delta [lift_err]
  | _ => destruct r eqn:?
  end.

(** Runs a program to the next point that needs a specification, splitting on the
    conditions of the program. *)
Ltac go_run :=
  repeat first
    [ go_step
    | progress cbn beta iota zeta delta [fst snd]
    | lazymatch goal with
      | |- wp _ (if ?b then _ else _) _ _ => go_split b
      | |- wp _ (match ?r with _ => _ end) _ _ => go_split r
      | |- wp _ ((match ?r with _ => _ end) _) _ _ => go_split r
      | |- match ?r with _ => _ end => go_split r
      end ].

(** Computes a run up to the next answer of the environment. *)
Ltac run_simpl :=
  unfold ebind, api, lift, get_cr, put_cr, mbind, crM_bind, mret, crM_ret, prog_bind, prog_ret,
    call; simpl.
