(* ===== verification/Utils.v ===== *)
(** * Shared helpers of the controllers (src/controllers/utils.go)

    The creation guards, endpoint discovery, environment variables, the Redis
    client pool, anti-affinity, the comparison of resource lists and environment
    lists that decides rolling updates, and the compression of the metadata. *)
From S2P Require Import Prelude Prog GoStr Base64 Types Api.

(** ** Interfaces of the libraries behind the helpers *)

(** [resource.Quantity.Equal] of apimachinery compares amounts, not texts. *)
Class QuantityEq := quantity_equal : Quantity → Quantity → bool.
Class QuantityLaws `{QuantityEq} : Prop := {
  quantity_refl q : quantity_equal q q = true;
  quantity_sym q r : quantity_equal q r = true → quantity_equal r q = true;
  quantity_trans q r s :
    quantity_equal q r = true → quantity_equal r s = true → quantity_equal q s = true
}.

(** compress/gzip at the best compression, and its reader. *)
Class Gzip := {
  gzip : string → result ext_error string;
  gunzip : string → result ext_error string
}.
Class GzipLaws `{Gzip} : Prop := {
  gunzip_gzip s z : gzip s = Ok z → gunzip z = Ok s
}.

(** The environment of the operator's process. *)
Class OsEnv := Getenv : string → string.

Definition chunkNodeNumber : Z := 4.
Definition chunkShardNumber : Z := 2.

(** ** Guards *)

(** The loop of the four [create*Guard] functions: another attempt after
    [AlreadyExists], [n] times at most after the first. *)
Fixpoint guard_loop {A} (n : nat) (createFunc : crM (res A)) : crM (res A) :=
  r ← createFunc;
  match r with
  | Ok a => mret (Ok a)
  | Err e => if IsAlreadyExists e then
               match n with O => mret (Err e) | S n => guard_loop n createFunc end
             else mret (Err e)
  end.

Definition createServiceGuard (f : crM (res Service)) : crM (res Service) := guard_loop 2 f.
Definition createStatefulSetGuard (f : crM (res StatefulSet)) : crM (res StatefulSet) :=
  guard_loop 2 f.
Definition createConfigMapGuard (f : crM (res ConfigMap)) : crM (res ConfigMap) := guard_loop 2 f.
Definition createSecretGuard (f : crM (res Secret)) : crM (res Secret) := guard_loop 2 f.

(** ** Endpoints *)

Definition getEndpoints (serviceName namespace : string) : go (res (list EndpointAddress)) :=
  r ← api_call (GetEndpoints (MkName serviceName namespace));
  match r with
  | Err e => if IsNotFound e then mret (Ok []) else mret (Err e)
  | Ok endpoints =>
      mret (Ok (foldl (λ addresses subnet, addresses ++ subnet) [] (ep_Subsets endpoints)))
  end.

(** ** Environment variables *)

Definition podIPEnvStr : string := "$(UM_POD_IP)".
Definition podNameStr : string := "$(UM_POD_NAME)".
Definition podNameEnvStr : string := "${UM_POD_NAME}".

(** An [EnvVarSource] with only a field reference. *)
Definition field_source (path : string) : EnvVarSource :=
  MkEnvVarSource (Some (MkFieldRef "" path)) None None None.

Definition podIPEnv : EnvVar := MkEnv "UM_POD_IP" "" (Some (field_source "status.podIP")).
Definition podNameEnv : EnvVar := MkEnv "UM_POD_NAME" "" (Some (field_source "metadata.name")).

Fixpoint getEnvValue (envs : list EnvVar) (name : string) : string :=
  match envs with
  | [] => ""
  | env :: envs => if decide (e_Name env = name) then e_Value env else getEnvValue envs name
  end.

(** A later variable of the same name replaces an earlier one in the map. *)
Definition env_map (envs : list EnvVar) : gmap string EnvVar :=
  foldl (λ m env, <[e_Name env := env]> m) ∅ envs.

Fixpoint env_differs (oldMap : gmap string EnvVar) (new : list EnvVar) : bool :=
  match new with
  | [] => false
  | newEnvVar :: new =>
      match oldMap !! e_Name newEnvVar with
      | None => true
      | Some oldEnvVar =>
          if decide (oldEnvVar = newEnvVar) then env_differs oldMap new else true
      end
  end.

Definition envVarListNeedUpdate (old new : list EnvVar) : bool := env_differs (env_map old) new.

(** ** The Redis client pool *)

(** [redis.NewClient] gives a client bound to the address of its options. *)
Record redisClient := MkRedisClient { Addr : string }.
Abbreviation redisClientPool := (gmap string redisClient).
Definition newRedisClientPool : redisClientPool := ∅.

Definition getClient (pool : redisClientPool) (redisAddress : string)
    : redisClient * redisClientPool :=
  match pool !! redisAddress with
  | Some client => (client, pool)
  | None => let client := MkRedisClient redisAddress in
            (client, <[redisAddress := client]> pool)
  end.

(** ** Affinity *)

(** The result, and what the custom resource's own affinity is afterwards:
    [*affinity = *crAffinity] copies the struct but shares the
    [*PodAntiAffinity] it points to, so when that pointer is set the term is
    appended to the list of the custom resource as well. *)
Definition addAntiAffinity (crAffinity : option Affinity) (labels : Labels)
    (namespace topologyKey : string) : Affinity * option Affinity :=
  let term := MkWeightedTerm 2 (MkAffinityTerm labels [] [namespace] topologyKey) in
  let affinity := match crAffinity with Some a => a | None => MkAffinity None None None end in
  let anti := match af_PodAntiAffinity affinity with
              | Some pa => MkAntiAffinity (pa_Required pa) (pa_Preferred pa ++ [term])
              | None => MkAntiAffinity [] [term]
              end in
  let affinity' := MkAffinity (af_NodeAffinity affinity) (af_PodAffinity affinity) (Some anti) in
  (affinity',
   match crAffinity with
   | Some a => match af_PodAntiAffinity a with Some _ => Some affinity' | None => Some a end
   | None => None
   end).

Definition genPreStopHookLifeCycle (cmd : list string) : Lifecycle := MkLifecycle cmd.

(** ** Resources *)

Section resources.
Context `{QuantityEq}.

Definition resourceListEqual (lhs rhs : gmap string Quantity) : bool :=
  if negb (Nat.eqb (size lhs) (size rhs)) then false
  else forallb (λ '(resourceName, lhsQuantity),
         match rhs !! resourceName with
         | None => false
         | Some rhsQuantity => quantity_equal lhsQuantity rhsQuantity
         end) (map_to_list lhs).

Definition resourceRequirementsEqual (lhs rhs : ResourceRequirements) : bool :=
  if negb (resourceListEqual (r_Limits lhs) (r_Limits rhs)) then false
  else if negb (resourceListEqual (r_Requests lhs) (r_Requests rhs)) then false
  else true.
End resources.

(** ** Compression *)

Section compression.
Context `{Gzip}.

Definition compressString (origin : string) : res string :=
  match gzip origin with
  | Ok bytes => Ok (EncodeToString bytes)
  | Err e => Err (ErrExt e)
  end.

Definition decompressString (data : string) : res string :=
  match DecodeString data with
  | None => Err (ErrExt (ExtOther "illegal base64 data"))
  | Some compressed => lift_err (gunzip compressed)
  end.
End compression.

(** * Properties *)

(** ** Guards *)

(** Successive runs of a creation, each from the state the previous one left. *)
Inductive tries {A} (E : env k8s) (f : crM (res A)) :
    history k8s → Undermoon → list (res A) → history k8s → Undermoon → Prop :=
| tries_nil h cr : tries E f h cr [] h cr
| tries_cons h cr h1 cr1 r rs h2 cr2 :
    run_from E h (f cr) = (h1, Some (cr1, r)) → tries E f h1 cr1 rs h2 cr2 →
    tries E f h cr (r :: rs) h2 cr2.

Definition already_exists {A} (r : res A) : Prop := ∃ e, r = Err e ∧ IsAlreadyExists e = true.

Lemma run_cr_bind {A B} E h cr (m : crM A) (k : A → crM B) :
  run_from E h ((m ≫= k) cr) =
    match run_from E h (m cr) with
    | (h', Some (cr', a)) => run_from E h' (k a cr')
    | (h', None) => (h', None)
    end.
Proof.
  unfold mbind, crM_bind. rewrite run_bind. by destruct (run_from E h (m cr)) as [h' [[cr' a]|]].
Qed.

Lemma guard_loop_step {A} E n (f : crM (res A)) h cr h' cr' r :
  run_from E h (guard_loop n f cr) = (h', Some (cr', r)) ↔
  ∃ h1 cr1 r1, run_from E h (f cr) = (h1, Some (cr1, r1)) ∧
    ((already_exists r1 ∧ ∃ m, n = S m ∧ run_from E h1 (guard_loop m f cr1) = (h', Some (cr', r))) ∨
     ((already_exists r1 → n = O) ∧ h' = h1 ∧ cr' = cr1 ∧ r = r1)).
Proof.
  destruct n as [|m]; cbn [guard_loop]; rewrite run_cr_bind;
    (destruct (run_from E h (f cr)) as [h1 [[cr1 r1]|]] eqn:Hf;
      [|by split; [intros [=]|intros (? & ? & ? & [=] & _)]]);
    destruct r1 as [a|e]; try destruct (IsAlreadyExists e) eqn:He; simpl; split.
  all: try (intros [= <- <- <-]; do 3 eexists; split; [done|]; right; split; [|done];
            try (intros (e' & [= <-] & ?); congruence); done).
  all: try (intros (? & ? & ? & [= <- <- <-] & [(Hx & m' & Hm & Hr)|(Hx & -> & -> & ->)]);
            [try done; try (by destruct Hx as (? & [= <-] & ?); congruence); try by injection Hm as <-
            |try done; by (discriminate Hx; eexists)]).
  - intros Hr. do 3 eexists. split; [done|]. left. split; [by eexists|]. eauto.
Qed.

(** Any run of a guard, by what each of its attempts keeps and establishes. *)
Lemma wp_guard_loop {A} (C : contract k8s) n (f : crM (res A)) (I : history k8s → Undermoon → Prop)
    (R : history k8s → A → Prop) cr h :
  (∀ cr h, I h cr → wp C (f cr) (λ h' r,
     I h' r.1 ∧ match r.2 with Ok a => R h' a | Err _ => True end) h) →
  I h cr →
  wp C (guard_loop n f cr) (λ h' r,
    I h' r.1 ∧ match r.2 with Ok a => R h' a | Err _ => True end) h.
Proof.
  intros Hf. revert cr h. induction n as [|n IH]; intros cr h HI; cbn [guard_loop];
    apply wp_cr_bind; (eapply wp_mono; [by apply Hf|]); intros h' [cr' [a|e]] [HI' HR];
    cbn beta iota delta [fst snd] in *; try (by apply wp_cr_ret);
    destruct (IsAlreadyExists e); first [by apply wp_cr_ret | by apply IH].
Qed.

(** C25. The creation guards: a guard runs its creation again only after
    [AlreadyExists], each time from the state the previous attempt left, at most
    [n] times more ([n] is 2 in the four guards of the code), and returns the
    outcome of the last attempt; it gives up on [AlreadyExists] only after the
    last allowed attempt.  Every run of a guard is of this form and every such
    sequence of attempts is a run. *)
Theorem guard_spec {A} (E : env k8s) (n : nat) (f : crM (res A)) (h h' : history k8s)
    (cr cr' : Undermoon) (r : res A) :
  run_from E h (guard_loop n f cr) = (h', Some (cr', r)) ↔
  ∃ failures, tries E f h cr (failures ++ [r]) h' cr' ∧ Forall already_exists failures ∧
    (length failures ≤ n)%nat ∧ (already_exists r → length failures = n).
Proof.
  revert h cr. induction n as [|n IH]; intros h cr; rewrite guard_loop_step; split.
  - intros (h1 & cr1 & r1 & Hf & [(_ & m & [=] & _)|(Hx & -> & -> & ->)]).
    exists []. repeat split; [|done..]. eapply tries_cons; [done|]. constructor.
  - intros ([|? fs] & Ht & _ & Hl & _); simpl in Hl; [|lia]. inversion Ht as [|? ? ? ? ? ? ? ? Hf Hn]; subst.
    inversion Hn; subst. do 3 eexists. split; [done|]. by right.
  - intros (h1 & cr1 & r1 & Hf & [(Hx & m & [= <-] & Hr)|(Hx & -> & -> & ->)]).
    + apply IH in Hr as (fs & Ht & Hall & Hl & Hend). exists (r1 :: fs). split; [by econstructor|].
      split; [by constructor|]. simpl. split; [lia|]. intros Hr. by rewrite Hend.
    + exists []. split; [econstructor; [done|constructor]|]. split; [done|]. split; [simpl; lia|].
      intros Hr. by apply Hx in Hr.
  - intros ([|f0 fs] & Ht & Hall & Hl & Hend); inversion Ht as [|? ? ? ? ? ? ? ? Hf Hn]; subst;
      do 3 eexists; (split; [done|]).
    + inversion Hn; subst. right. split; [|done]. intros Hr. by specialize (Hend Hr).
    + left. apply Forall_cons in Hall as [? Hall]. split; [done|]. exists n. split; [done|].
      apply IH. exists fs. split; [done|]. split; [done|]. simpl in *. split; [lia|].
      intros Hr. specialize (Hend Hr). lia.
Qed.

(** ** Environment variables *)

Definition env_get (envs : list EnvVar) (name : string) : option EnvVar :=
  last (filter (λ e, e_Name e = name) envs).

Lemma env_map_lookup envs name : env_map envs !! name = env_get envs name.
Proof.
  unfold env_map, env_get.
  induction envs as [|env envs IH] using rev_ind; [done|].
  rewrite foldl_app, filter_app. simpl. rewrite filter_cons, filter_nil.
  case_decide as Hn.
  - subst. by rewrite lookup_insert_eq, last_snoc.
  - by rewrite lookup_insert_ne, app_nil_r.
Qed.

Lemma env_differs_false m new :
  env_differs m new = false ↔ ∀ env, env ∈ new → m !! e_Name env = Some env.
Proof.
  induction new as [|env new IH]; simpl; [set_solver|].
  setoid_rewrite elem_of_cons. split.
  - intros Hd env' [->|Hin]; repeat case_match; simplify_eq; [done|]. by apply IH.
  - intros Hall. rewrite (Hall env) by auto. rewrite decide_True by done.
    apply IH. auto.
Qed.

Lemma envVarListNeedUpdate_false old new :
  envVarListNeedUpdate old new = false ↔ ∀ env, env ∈ new → env_get old (e_Name env) = Some env.
Proof.
  unfold envVarListNeedUpdate. rewrite env_differs_false. by setoid_rewrite env_map_lookup.
Qed.

(** A list of variables is consistent when equal names have equal definitions. *)
Definition env_consistent (envs : list EnvVar) : Prop :=
  ∀ e1 e2, e1 ∈ envs → e2 ∈ envs → e_Name e1 = e_Name e2 → e1 = e2.

Lemma env_get_app base envs name :
  env_get (base ++ envs) name =
    match env_get envs name with Some e => Some e | None => env_get base name end.
Proof.
  unfold env_get. rewrite filter_app, last_app. done.
Qed.

Lemma env_get_Some envs name env : env_get envs name = Some env → env ∈ envs ∧ e_Name env = name.
Proof.
  unfold env_get. intros Hl%last_Some_elem_of. by apply list_elem_of_filter in Hl as [? ?].
Qed.

Lemma env_get_elem envs env : env ∈ envs → is_Some (env_get envs (e_Name env)).
Proof.
  intros Hin. unfold env_get.
  assert (env ∈ filter (λ e, e_Name e = e_Name env) envs) as Hf by by apply list_elem_of_filter.
  apply last_is_Some. intros Hnil. rewrite Hnil in Hf. by apply elem_of_nil in Hf.
Qed.

(** The test settles after an update exactly for consistent lists: a user list
    appended to the operator's own variables is found unchanged when its names
    have one definition each. *)
Lemma env_update_settles base envs :
  envVarListNeedUpdate (base ++ envs) envs = false ↔ env_consistent envs.
Proof.
  rewrite envVarListNeedUpdate_false. setoid_rewrite env_get_app. split.
  - intros Hall e1 e2 H1 H2 Hname.
    pose proof (Hall e1 H1) as G1. pose proof (Hall e2 H2) as G2.
    destruct (env_get_elem envs e1 H1) as [v1 Hv1].
    rewrite Hname in G1, Hv1. rewrite Hv1 in G1, G2. congruence.
  - intros Hc env Hin. destruct (env_get_elem envs env Hin) as [v Hv].
    rewrite Hv. f_equal. apply env_get_Some in Hv as [Hv Hn]. by apply Hc.
Qed.

(** ** Resources *)

Section resource_lemmas.
Context `{QuantityLaws}.

(** Equality of resource lists up to the equality of amounts. *)
Definition resources_equiv (lhs rhs : gmap string Quantity) : Prop :=
  ∀ k, match lhs !! k, rhs !! k with
       | Some q, Some r => quantity_equal q r = true
       | None, None => True
       | _, _ => False
       end.

#[export] Instance resources_equivalence : Equivalence resources_equiv.
Proof.
  split; unfold resources_equiv.
  - intros m k. destruct (m !! k); [apply quantity_refl|done].
  - intros m n Hmn k. specialize (Hmn k). repeat case_match; auto using quantity_sym.
  - intros m n o Hmn Hno k. specialize (Hmn k). specialize (Hno k).
    repeat case_match; simplify_eq; try done. eauto using quantity_trans.
Qed.

Lemma resources_equiv_dom lhs rhs : resources_equiv lhs rhs → dom lhs = dom rhs.
Proof.
  intros He. apply set_eq. intros k. rewrite !elem_of_dom. specialize (He k).
  unfold is_Some. destruct (lhs !! k), (rhs !! k); naive_solver.
Qed.

Lemma subset_size_lookup (lhs rhs : gmap string Quantity) k :
  dom lhs ⊆ dom rhs → size lhs = size rhs → is_Some (rhs !! k) → is_Some (lhs !! k).
Proof.
  intros Hsub Hsize Hk. apply elem_of_dom. apply elem_of_dom in Hk.
  destruct (decide (k ∈ dom lhs)) as [|Hno]; [done|].
  assert (dom lhs ⊂ dom rhs) as Hlt%subset_size by set_solver.
  rewrite !size_dom in Hlt. lia.
Qed.

Lemma resourceListEqual_spec lhs rhs :
  resourceListEqual lhs rhs = true ↔ resources_equiv lhs rhs.
Proof.
  unfold resourceListEqual. destruct (Nat.eqb_spec (size lhs) (size rhs)) as [Hs|Hs]; simpl.
  - rewrite forallb_forall. split.
    + intros Hall k.
      assert (∀ q, lhs !! k = Some q → ∃ r, rhs !! k = Some r ∧ quantity_equal q r = true) as Hk.
      { intros q Hq. specialize (Hall (k, q)). simpl in Hall.
        rewrite <- list_elem_of_In, elem_of_map_to_list in Hall.
        specialize (Hall Hq). destruct (rhs !! k); [eauto|done]. }
      destruct (lhs !! k) as [q|] eqn:Hl; [by destruct (Hk q eq_refl) as (r & -> & ?)|].
      destruct (rhs !! k) as [r|] eqn:Hr; [|done].
      destruct (subset_size_lookup lhs rhs k) as [? ?]; [|done|eauto|congruence].
      intros j [q Hj]%elem_of_dom. specialize (Hall (j, q)).
      rewrite <- list_elem_of_In, elem_of_map_to_list in Hall. specialize (Hall Hj).
      simpl in Hall. apply elem_of_dom. destruct (rhs !! j); [eauto|done].
    + intros He [k q] Hin. apply list_elem_of_In, elem_of_map_to_list in Hin.
      specialize (He k). rewrite Hin in He. by destruct (rhs !! k).
  - split; [done|]. intros He%resources_equiv_dom.
    destruct Hs. by rewrite <- !size_dom, He.
Qed.

(** Requirements up to amounts, as an equivalence that the test decides. *)
Definition requirements_equiv (lhs rhs : ResourceRequirements) : Prop :=
  resources_equiv (r_Limits lhs) (r_Limits rhs) ∧
  resources_equiv (r_Requests lhs) (r_Requests rhs).

#[export] Instance requirements_equivalence : Equivalence requirements_equiv.
Proof.
  split; unfold requirements_equiv.
  - intros r. by split.
  - intros r s [? ?]. by split; symmetry.
  - intros r s t [? ?] [? ?]. split; etrans; eauto.
Qed.

Lemma requirements_spec lhs rhs :
  resourceRequirementsEqual lhs rhs = true ↔ requirements_equiv lhs rhs.
Proof.
  unfold resourceRequirementsEqual, requirements_equiv.
  rewrite <- !resourceListEqual_spec.
  destruct (resourceListEqual (r_Limits lhs) _), (resourceListEqual (r_Requests lhs) _);
    naive_solver.
Qed.

#[export] Instance resourceRequirementsEqual_proper :
  Proper (requirements_equiv ==> requirements_equiv ==> eq) resourceRequirementsEqual.
Proof.
  intros l l' Hl r r' Hr. apply eq_true_iff_eq. rewrite !requirements_spec.
  by rewrite Hl, Hr.
Qed.
End resource_lemmas.

(** ** The pool *)

(** Every client of the pool is bound to the address it is filed under. *)
Definition pool_wf (pool : redisClientPool) : Prop :=
  map_Forall (λ address client, Addr client = address) pool.

Lemma newRedisClientPool_wf : pool_wf newRedisClientPool.
Proof. apply map_Forall_empty. Qed.

Lemma getClient_wf pool address client pool' :
  pool_wf pool → getClient pool address = (client, pool') →
  pool_wf pool' ∧ Addr client = address ∧ pool ⊆ pool' ∧
  getClient pool' address = (client, pool').
Proof.
  unfold getClient. intros Hwf Hg. destruct (pool !! address) eqn:Hl; simplify_eq.
  - rewrite Hl. split; [done|]. split; [by apply (Hwf address)|done].
  - rewrite lookup_insert_eq. split; [by apply map_Forall_insert_2|].
    split; [done|]. split; [by apply insert_subseteq|done].
Qed.

(** ** Compression *)

Lemma decompress_compress `{GzipLaws} origin data :
  compressString origin = Ok data → decompressString data = Ok origin.
Proof.
  unfold compressString, decompressString. destruct (gzip origin) as [z|] eqn:Hz; [|done].
  intros [= <-]. by rewrite DecodeString_EncodeToString, (gunzip_gzip _ _ Hz).
Qed.
