(* ===== verification/Meta.v ===== *)
(** * Names and objects of the metadata store (src/controllers/meta.go)

    The ConfigMap that stores the broker's metadata, the Secret with its
    password, and the storage name [<undermoon>@<namespace>] under which a broker
    reaches its store through the metadata server. *)
From S2P Require Import Prelude GoStr Types Api Utils.

#[local] Arguments String.append : simpl nomatch.

Definition metaStoreKey : string := "broker_meta_store".
Definition metaPasswordKey : string := "broker_meta_password".
Definition metaServiceName : string := "undermoon-operator-storage".
Definition metaServicePort : Z := 9999.
Definition operatorNamespaceEnvVarName : string := "UNDERMOON_OPERATOR_NAMESPACE".

Definition MetaConfigMapName (undermoonName : string) : string := undermoonName +:+ "-cfg".
Definition MetaSecretName (undermoonName : string) : string := undermoonName +:+ "-sc".

(** The labels of the two objects. *)
Definition meta_labels (cr : Undermoon) : Labels :=
  <["undermoonName" := um_Name cr]> {["undermoonClusterName" := ClusterName (um_Spec cr)]}.

Definition createMetaConfigMap (cr : Undermoon) (initData : string) : ConfigMap :=
  MkConfigMap
    (MkMeta (MetaConfigMapName (um_Name cr)) (um_Namespace cr) (meta_labels cr) "" [])
    (Some {[metaStoreKey := initData]}).

Definition createMetaSecret (cr : Undermoon) (password : string) : Secret :=
  MkSecret
    (MkMeta (MetaSecretName (um_Name cr)) (um_Namespace cr) (meta_labels cr) "" [])
    {[metaPasswordKey := password]}.

Definition brokerStorageName (undermoonName namespace : string) : string :=
  undermoonName +:+ "@" +:+ namespace.

Definition metaServiceHost `{OsEnv} : string :=
  metaServiceName +:+ "." +:+ Getenv operatorNamespaceEnvVarName +:+ ".svc.cluster.local".

Definition extractStorageName (name : string) : res (string * string) :=
  match splitN2 "@"%char name with
  | [undermooName; namespace] =>
      if (String.length undermooName =? 0)%nat || (String.length namespace =? 0)%nat
      then Err (ErrMsg ("invalid storage name: " +:+ name))
      else Ok (undermooName, namespace)
  | _ => Err (ErrMsg ("invalid storage name: " +:+ name))
  end.

(** * Properties *)

Lemma brokerStorageName_eq u n : brokerStorageName u n = u +:+ String "@"%char n.
Proof. done. Qed.

Lemma length_zero_empty s : (String.length s =? 0)%nat = false ↔ s ≠ "".
Proof. by destruct s. Qed.

Lemma extractStorageName_of undermoonName namespace :
  str_In "@"%char undermoonName = false → undermoonName ≠ "" → namespace ≠ "" →
  extractStorageName (brokerStorageName undermoonName namespace) = Ok (undermoonName, namespace).
Proof.
  intros Hin Hu%length_zero_empty Hn%length_zero_empty. unfold extractStorageName.
  by rewrite brokerStorageName_eq, splitN2_app, Hu, Hn by done.
Qed.

(** C39. The metadata server and the brokers agree on storage names: a name is
    accepted exactly when it is the storage name of a cluster whose name is not
    empty and has no at-sign and of a namespace that is not empty, and it is
    then taken apart into that cluster and namespace; so distinct clusters never
    share a storage name. *)
Theorem extractStorageName_spec (name undermoonName namespace : string) :
  extractStorageName name = Ok (undermoonName, namespace) ↔
  name = brokerStorageName undermoonName namespace ∧
  str_In "@"%char undermoonName = false ∧ undermoonName ≠ "" ∧ namespace ≠ "".
Proof.
  split.
  - unfold extractStorageName. rewrite brokerStorageName_eq. destruct (splitN2_cases "@"%char name) as [[a Ha]|(a & b & Hab)];
      [by rewrite Ha|rewrite Hab].
    case_match eqn:Hne; [done|]. intros [= <- <-]. apply splitN2_inv in Hab as [-> ?].
    apply orb_false_elim in Hne as [?%length_zero_empty ?%length_zero_empty]. done.
  - intros (-> & Hin & Hu & Hn). by apply extractStorageName_of.
Qed.
