(* ===== verification/Broker.v ===== *)
(** * Objects of the memory brokers (src/controllers/broker.go)

    The two services and the StatefulSet of the brokers, the addresses of their
    pods, and the test that decides their rolling update.  Building the
    StatefulSet also gives the custom resource as the anti-affinity helper leaves
    it. *)
From S2P Require Import Prelude GoStr Types Api Utils Meta.

Definition brokerPort : Z := 7799.
Definition brokerNum : Z := 2.
Definition brokerContainerName : string := "broker".
Definition undermoonServiceTypeBroker : string := "broker".
Definition brokerTopologyKey : string := "undermoon-broker-topology-key".

(** The labels of a component's objects, in all three component files. *)
Definition component_labels (serviceType : string) (cr : Undermoon) : Labels :=
  <["undermoonService" := serviceType]>
    (<["undermoonName" := um_Name cr]>
      {["undermoonClusterName" := ClusterName (um_Spec cr)]}).

Definition BrokerServiceName (undermoonName : string) : string := undermoonName +:+ "-bk-svc".
Definition BrokerPublicServiceName (undermoonName : string) : string := undermoonName +:+ "-broker".
Definition BrokerStatefulSetName (undermoonName : string) : string := undermoonName +:+ "-bk-ss".

Definition createBrokerService (cr : Undermoon) : Service :=
  let labels := component_labels undermoonServiceTypeBroker cr in
  {| sv_Meta := MkMeta (BrokerServiceName (um_Name cr)) (um_Namespace cr) labels "" [];
     sv_Ports := [MkServicePort "broker-port" brokerPort "TCP"];
     sv_ClusterIP := "None";
     sv_Selector := labels;
     sv_PublishNotReadyAddresses := false |}.

Definition createBrokerPublicService (cr : Undermoon) : Service :=
  let labels := component_labels undermoonServiceTypeBroker cr in
  {| sv_Meta := MkMeta (BrokerPublicServiceName (um_Name cr)) (um_Namespace cr) labels "" [];
     sv_Ports := [MkServicePort "broker-port" brokerPort "TCP"];
     sv_ClusterIP := "";
     sv_Selector := labels;
     sv_PublishNotReadyAddresses := false |}.

Definition genBrokerFQDN (podName undermoonName namespace : string) : string :=
  podName +:+ "." +:+ BrokerServiceName undermoonName +:+ "." +:+ namespace
    +:+ ".svc.cluster.local".
Definition genBrokerPublicFQDN (undermoonName namespace : string) : string :=
  BrokerPublicServiceName undermoonName +:+ "." +:+ namespace +:+ ".svc.cluster.local".
Definition genBrokerAddressFromName (name : string) (cr : Undermoon) : string :=
  genBrokerFQDN name (um_Name cr) (um_Namespace cr) +:+ ":" +:+ itoa brokerPort.

(** An environment variable with a literal value. *)
Definition env_value (name value : string) : EnvVar := MkEnv name value None.

Definition broker_env `{OsEnv} (cr : Undermoon) : list EnvVar :=
  [ env_value "RUST_LOG" "undermoon=info,mem_broker=info";
    env_value "UNDERMOON_ADDRESS" ("0.0.0.0:" +:+ itoa brokerPort);
    env_value "UNDERMOON_FAILURE_TTL" "60";
    env_value "UNDERMOON_FAILURE_QUORUM" "2";
    env_value "UNDERMOON_MIGRATION_LIMIT" (itoa (MigrationLimit (um_Spec cr)));
    env_value "UNDERMOON_RECOVER_FROM_META_FILE" "true";
    env_value "UNDERMOON_META_FILENAME" "metadata";
    env_value "UNDERMOON_AUTO_UPDATE_META_FILE" "true";
    env_value "UNDERMOON_UPDATE_META_FILE_INTERVAL" "10";
    env_value "UNDERMOON_REPLICA_ADDRESSES" "";
    env_value "UNDERMOON_SYNC_META_INTERVAL" "60";
    env_value "UNDERMOON_ENABLE_ORDERED_PROXY" "true";
    env_value "UNDERMOON_DEBUG" "false";
    env_value "UNDERMOON_STORAGE_TYPE" "http";
    env_value "UNDERMOON_STORAGE_NAME" (brokerStorageName (um_Name cr) (um_Namespace cr));
    MkEnv "UNDERMOON_STORAGE_PASSWORD" ""
      (Some (MkEnvVarSource None None None
        (Some (MkSecretKeyRef (MetaSecretName (um_Name cr)) metaPasswordKey None))));
    env_value "UNDERMOON_HTTP_STORAGE_ADDRESS"
      (metaServiceHost +:+ ":" +:+ itoa metaServicePort);
    env_value "UNDERMOON_REFRESH_INTERVAL" "5" ].

Definition createBrokerStatefulSet `{OsEnv} (cr : Undermoon) : StatefulSet * Undermoon :=
  let spec := um_Spec cr in
  let labels := component_labels undermoonServiceTypeBroker cr in
  let container :=
    {| c_Name := brokerContainerName;
       c_Image := UndermoonImage spec;
       c_ImagePullPolicy := UndermoonImagePullPolicy spec;
       c_Command := ["mem_broker"];
       c_Args := [];
       c_Env := broker_env cr ++ BrokerEnvVar spec;
       c_Resources := BrokerResources spec;
       c_Lifecycle := None;
       c_ReadinessProbe := None;
       c_WorkingDir := "";
       c_VolumeMounts := [];
       c_VolumeDevices := [] |} in
  let '(affinity, crAffinity) :=
    addAntiAffinity (CrAffinity spec) labels (um_Namespace cr) brokerTopologyKey in
  let podSpec :=
    {| t_Labels := labels;
       t_Spec :=
         {| p_TerminationGracePeriodSeconds := None;
            p_Containers := [container];
            p_Affinity := Some affinity;
            p_NodeSelector := NodeSelector spec;
            p_ImagePullSecrets := ImagePullSecrets spec;
            p_SchedulerName := SchedulerName spec;
            p_Tolerations := Tolerations spec;
            p_Volumes := [] |} |} in
  ({| ss_Meta := MkMeta (BrokerStatefulSetName (um_Name cr)) (um_Namespace cr) labels "" [];
      ss_Spec :=
        {| sss_Selector := labels;
           sss_ServiceName := BrokerServiceName (um_Name cr);
           sss_Replicas := Some brokerNum;
           sss_Template := podSpec;
           sss_PodManagementPolicy := "Parallel";
           sss_VolumeClaimTemplates := [] |};
      ss_Status := MkStatefulSetStatus 0 0 0 |},
   um_set_affinity crAffinity cr).

(** [None]: the index of the first container is out of range, a panic. *)
Definition brokerStatefulSetChanged `{QuantityEq} (cr : Undermoon) (curr : StatefulSet)
    : option bool :=
  container ← p_Containers (t_Spec (sss_Template (ss_Spec curr))) !! 0%nat;
  if negb (String.eqb (UndermoonImage (um_Spec cr)) (c_Image container)) then Some true
  else if negb (String.eqb (UndermoonImagePullPolicy (um_Spec cr)) (c_ImagePullPolicy container))
  then Some true
  else if negb (resourceRequirementsEqual (BrokerResources (um_Spec cr)) (c_Resources container))
  then Some true
  else if envVarListNeedUpdate (c_Env container) (BrokerEnvVar (um_Spec cr)) then Some true
  else Some false.
