(* ===== verification/Coordinator.v ===== *)
(** * Objects of the coordinators (src/controllers/coordinator.go)

    The service and the StatefulSet of the coordinators, the addresses of their
    pods, and the test that decides their rolling update. *)
From S2P Require Import Prelude GoStr Types Api Utils Broker.

Definition coordinatorPort : Z := 6699.
Definition coordinatorNum : Z := 2.
Definition coordinatorContainerName : string := "coordinator".
Definition undermoonServiceTypeCoordinator : string := "coordinator".
Definition coordinatorTopologyKey : string := "undermoon-broker-topology-key".

Definition CoordinatorServiceName (undermoonName : string) : string := undermoonName +:+ "-cd-svc".
Definition CoordinatorStatefulSetName (undermoonName : string) : string :=
  undermoonName +:+ "-cd-ss".

Definition createCoordinatorService (cr : Undermoon) : Service :=
  let labels := component_labels undermoonServiceTypeCoordinator cr in
  {| sv_Meta := MkMeta (CoordinatorServiceName (um_Name cr)) (um_Namespace cr) labels "" [];
     sv_Ports := [MkServicePort "coordinator-port" coordinatorPort "TCP"];
     sv_ClusterIP := "None";
     sv_Selector := labels;
     sv_PublishNotReadyAddresses := false |}.

Definition genCoordinatorFQDN (podName undermoonName namespace : string) : string :=
  podName +:+ "." +:+ CoordinatorServiceName undermoonName +:+ "." +:+ namespace
    +:+ ".svc.cluster.local".
Definition genCoordinatorAddressFromName (name : string) (cr : Undermoon) : string :=
  genCoordinatorFQDN name (um_Name cr) (um_Namespace cr) +:+ ":" +:+ itoa coordinatorPort.

Definition coordinator_env (cr : Undermoon) : list EnvVar :=
  let disableFailover := if DisableFailover (um_Spec cr) then "1" else "0" in
  [ env_value "RUST_LOG" "undermoon=info,coordinator=info";
    env_value "UNDERMOON_ADDRESS" ("0.0.0.0:" +:+ itoa coordinatorPort);
    env_value "UNDERMOON_BROKER_ADDRESS" "";
    MkEnv "UNDERMOON_REPORTER_ID" "" (Some (field_source "metadata.name"));
    env_value "UNDERMOON_THREAD_NUMBER" "2";
    env_value "UNDERMOON_PROXY_TIMEOUT" "3";
    env_value "UNDERMOON_ENABLE_COMPRESSION" "1";
    env_value "UNDERMOON_DISABLE_FAILOVER" disableFailover ].

Definition createCoordinatorStatefulSet (cr : Undermoon) : StatefulSet * Undermoon :=
  let spec := um_Spec cr in
  let labels := component_labels undermoonServiceTypeCoordinator cr in
  let container :=
    {| c_Name := coordinatorContainerName;
       c_Image := UndermoonImage spec;
       c_ImagePullPolicy := UndermoonImagePullPolicy spec;
       c_Command := ["coordinator"];
       c_Args := [];
       c_Env := coordinator_env cr ++ CoordinatorEnvVar spec;
       c_Resources := CoordinatorResources spec;
       c_Lifecycle := None;
       c_ReadinessProbe := None;
       c_WorkingDir := "";
       c_VolumeMounts := [];
       c_VolumeDevices := [] |} in
  let '(affinity, crAffinity) :=
    addAntiAffinity (CrAffinity spec) labels (um_Namespace cr) coordinatorTopologyKey in
  let podSpec :=
    {| t_Labels := labels;
       t_Spec :=
         {| p_TerminationGracePeriodSeconds := None;
            p_Containers := [container];
            p_Affinity := Some affinity;
            p_NodeSelector := NodeSelector spec;
            p_ImagePullSecrets := ImagePullSecrets spec;
            p_SchedulerName := SchedulerName spec;
            p_Tolerations := Tolerations spec;
            p_Volumes := [] |} |} in
  ({| ss_Meta := MkMeta (CoordinatorStatefulSetName (um_Name cr)) (um_Namespace cr) labels "" [];
      ss_Spec :=
        {| sss_Selector := labels;
           sss_ServiceName := CoordinatorServiceName (um_Name cr);
           sss_Replicas := Some coordinatorNum;
           sss_Template := podSpec;
           sss_PodManagementPolicy := "Parallel";
           sss_VolumeClaimTemplates := [] |};
      ss_Status := MkStatefulSetStatus 0 0 0 |},
   um_set_affinity crAffinity cr).

(** [None]: the index of the first container is out of range, a panic. *)
Definition coordinatorStatefulSetChanged `{QuantityEq} (cr : Undermoon) (curr : StatefulSet)
    : option bool :=
  container ← p_Containers (t_Spec (sss_Template (ss_Spec curr))) !! 0%nat;
  if negb (String.eqb (UndermoonImage (um_Spec cr)) (c_Image container)) then Some true
  else if negb (String.eqb (UndermoonImagePullPolicy (um_Spec cr)) (c_ImagePullPolicy container))
  then Some true
  else if negb (resourceRequirementsEqual (CoordinatorResources (um_Spec cr)) (c_Resources container))
  then Some true
  else if envVarListNeedUpdate (c_Env container) (CoordinatorEnvVar (um_Spec cr)) then Some true
  else Some false.
