(* ===== verification/Storage.v ===== *)
(** * Objects of the storage pods (src/controllers/storage.go)

    The services and the StatefulSet of the server proxies with their two Redis
    containers, the hooks and probes of the containers, the names and addresses
    of the pods, and the test that decides their rolling update. *)
From S2P Require Import Prelude GoStr Types Api Utils Broker.

Definition redisPort1 : Z := 7001.
Definition redisPort2 : Z := 7002.
Definition redisMaxmemoryPodEnvName : string := "REDIS_MAX_MEMORY".
Definition serverProxyContainerName : string := "server-proxy".
Definition serverProxyActiveRedirectionEnvName : string := "UNDERMOON_ACTIVE_REDIRECTION".
Definition serverProxyThreadNumberEnvName : string := "UNDERMOON_THREAD_NUMBER".
Definition redisContainerName : string := "redis".
Definition undermoonServiceTypeStorage : string := "storage".
Definition storageTopologyKey : string := "undermoon-storage-topology-key".
Definition redisReplicationOffsetThreshold : Z := 10000.
Definition serverProxyShutdownTime : Z := 30.

(** ** Names and addresses *)

Definition StorageServiceName (undermoonName : string) : string := undermoonName +:+ "-stg-svc".
Definition StoragePublicServiceName (undermoonName : string) : string := undermoonName.
Definition StorageStatefulSetName (undermoonName : string) : string := undermoonName +:+ "-stg-ss".

Definition storageStatefulSetPodName (undermoonName : string) (index : Z) : string :=
  StorageStatefulSetName undermoonName +:+ "-" +:+ itoa index.

(** [for i := 0; i != replicas; i++]; the count is not negative in any call. *)
Definition genStorageNames (undermoonName : string) (replicas : Z) : list string :=
  (λ i : nat, storageStatefulSetPodName undermoonName (Z.of_nat i)) <$> seq 0 (Z.to_nat replicas).

Definition genStorageFQDN (podName undermoonName namespace : string) : string :=
  podName +:+ "." +:+ StorageServiceName undermoonName +:+ "." +:+ namespace
    +:+ ".svc.cluster.local".
Definition genStorageFQDNFromName (name : string) (cr : Undermoon) : string :=
  genStorageFQDN name (um_Name cr) (um_Namespace cr).
Definition genStorageAddressFromName (name : string) (cr : Undermoon) : string :=
  genStorageFQDNFromName name cr +:+ ":" +:+ itoa (Port (um_Spec cr)).

Definition genStorageStatefulSetAddrs (cr : Undermoon) : list string :=
  let replicaNum := ChunkNumber (um_Spec cr) * chunkShardNumber in
  (λ name, genStorageAddressFromName name cr) <$> genStorageNames (um_Name cr) replicaNum.

(** ** Services *)

Definition createStorageService (cr : Undermoon) : Service :=
  let labels := component_labels undermoonServiceTypeStorage cr in
  {| sv_Meta := MkMeta (StorageServiceName (um_Name cr)) (um_Namespace cr) labels "" [];
     sv_Ports := [MkServicePort "server-proxy-port" (to_int32 (Port (um_Spec cr))) "TCP"];
     sv_ClusterIP := "None";
     sv_Selector := labels;
     sv_PublishNotReadyAddresses := true |}.

Definition createStoragePublicService (cr : Undermoon) : Service :=
  let labels := component_labels undermoonServiceTypeStorage cr in
  {| sv_Meta := MkMeta (StoragePublicServiceName (um_Name cr)) (um_Namespace cr) labels "" [];
     sv_Ports := [MkServicePort "server-proxy-public-port" (to_int32 (Port (um_Spec cr))) "TCP"];
     sv_ClusterIP := "";
     sv_Selector := labels;
     sv_PublishNotReadyAddresses := false |}.

(** ** Scripts *)

Definition crlf : string := String "013"%char (String "010"%char "").

Definition serverProxyRunScript (announceAddress : string) : string :=
  raw "
#!/bin/sh
trap 'echo `server-proxy received sigterm`' TERM;
UNDERMOON_ANNOUNCE_ADDRESS=`" +:+ announceAddress +:+ raw "` server_proxy;
echo 'server-proxy wait some time to prevent preStop hook to be killed';
sleep 3;
".

Definition serverProxyPreStopScript (shutdownTime : Z) (brokerAddress proxyAddress : string)
    : string :=
  raw "
#!/bin/sh
set +e;
i=0;
while [ `${i}` -ne " +:+ itoa shutdownTime +:+ raw " ]; do
	status=$(curl -sS --connect-timeout 3 -XPOST `http://" +:+ brokerAddress
    +:+ raw "/api/v2/proxies/failover/" +:+ proxyAddress
    +:+ raw "` -o /dev/stderr -w `%{http_code}`);
	echo `failover status code: ${status}`;
	if [ `${status}` -eq '200' ]; then
		break;
	fi;
	i=$((i + 1));
	sleep 1;
done;
echo 'shutting down server-proxy';
printf '*2\r\n$5\r\nUMCTL\r\n$8\r\nSHUTDOWN\r\n' | curl telnet://127.0.0.1:5299;
echo 'proxy killed';
exit 0;
".

Definition redisReadinessScript : string := raw "
#!/bin/sh
set +e;
TAG_FILE=`${0}`;
PORT=`${1}`;
OFFSET_THRESHOLD=`${2}`;

tag_file_dir=$(dirname `${TAG_FILE}`);
mkdir -p `${tag_file_dir}`;
if test -f `${TAG_FILE}`; then
    echo `${TAG_FILE} exists`;
    exit 0;
fi;

repl_info=$(redis-cli -h localhost -p `${PORT}` INFO REPLICATION);
role=$(echo `${repl_info}` | grep 'role:' | cut -d':' -f2 | tr -d '\r' );
echo `role: ${role}`;

if [ `${role}` = 'master' ]; then
    echo `role: ${role}. Create tag file ${TAG_FILE}`;
    touch `${TAG_FILE}`;
    exit 0;
fi;

slave_repl_offset=$(echo `${repl_info}` | grep 'master_repl_offset:' | cut -d':' -f2 | tr -d '\r');
if [ `${slave_repl_offset}` -eq 0 ]; then
    echo `Zero slave_repl_offset. The replica still cannot connect to its master.`;
    exit 1;
fi;

master_host=$(echo `${repl_info}` | grep 'master_host:' | cut -d':' -f2 | tr -d '\r');
master_port=$(echo `${repl_info}` | grep 'master_port:' | cut -d':' -f2 | tr -d '\r');
echo `master: ${master_host} ${master_port}`;

if [ `${master_port}` -eq 0 ]; then
    echo `Zero master port. The role is not set yet.`;
    exit 1;
fi;

master_repl_info=$(redis-cli -h `${master_host}` -p `${master_port}` INFO REPLICATION);
master_repl_offset=$(echo `${master_repl_info}` | grep 'master_repl_offset:' | cut -d':' -f2 | tr -d '\r');
echo `master_repl_offset: ${master_repl_offset} slave_repl_offset: ${slave_repl_offset}`;
offset=$((master_repl_offset - slave_repl_offset));
echo `offset: ${offset}`;

if [ `${master_repl_offset}` -gt 0 ] && [ `${offset}` -ge 0 ] && [ `${offset}` -lt `${OFFSET_THRESHOLD}` ]; then
    echo `Replication is done. Create tag file ${TAG_FILE}`;
    touch `${TAG_FILE}`;
    exit 0;
fi;

echo `replica pending on replication`;
exit 1;
".

(** ** Hooks, probes and containers *)

Definition genServerProxyPreStopHook (undermoonName namespace serverProxyAddress : string)
    : Lifecycle :=
  let brokerAddress := genBrokerPublicFQDN undermoonName namespace +:+ ":" +:+ itoa brokerPort in
  let script := serverProxyPreStopScript serverProxyShutdownTime brokerAddress serverProxyAddress in
  genPreStopHookLifeCycle ["sh"; "-c"; script].

Definition genServerProxyReadinessProbe (serverProxyPort : Z) : Probe :=
  {| pr_Exec :=
       ["bash"; "-c";
        raw "[ `$(exec 5<>/dev/tcp/localhost/" +:+ itoa serverProxyPort +:+ "; printf '*2" +:+ crlf
          +:+ "$5" +:+ crlf +:+ "UMCTL" +:+ crlf +:+ "$5" +:+ crlf +:+ "READY" +:+ crlf
          +:+ raw "' >&5; head -c 4 <&5 | head -c 2)` == ':1' ]"];
     pr_TimeoutSeconds := 0;
     pr_PeriodSeconds := 1;
     pr_SuccessThreshold := 1;
     pr_FailureThreshold := 1 |}.

Definition genRedisReadinessProbe (port offsetThreshold : Z) : Probe :=
  {| pr_Exec := ["sh"; "-c"; redisReadinessScript; "/redis-state/redis-ready";
                 itoa port; itoa offsetThreshold];
     pr_TimeoutSeconds := 3;
     pr_PeriodSeconds := 5;
     pr_SuccessThreshold := 1;
     pr_FailureThreshold := 1 |}.

Definition redis_env (maxMemory : Z) : list EnvVar :=
  [podIPEnv; env_value redisMaxmemoryPodEnvName (itoa maxMemory)].

Definition genRedisContainer (index : Z) (redisImage : string) (maxMemory port : Z)
    (cr : Undermoon) : Container :=
  let portStr := itoa port in
  {| c_Name := redisContainerName +:+ "-" +:+ itoa index;
     c_Image := redisImage;
     c_ImagePullPolicy := "IfNotPresent";
     c_Command := ["redis-server"];
     c_Args := ["--maxmemory"; "$(" +:+ redisMaxmemoryPodEnvName +:+ ")MB";
                "--port"; portStr;
                "--slave-announce-port"; portStr;
                "--slave-announce-ip"; podIPEnvStr;
                "--maxmemory-policy"; "allkeys-lru";
                "--slaveof"; "localhost"; "0"];
     c_Env := redis_env maxMemory ++ RedisEnvVar (um_Spec cr);
     c_Resources := RedisResources (um_Spec cr);
     c_Lifecycle := Some (genPreStopHookLifeCycle ["sleep"; "30"]);
     c_ReadinessProbe := Some (genRedisReadinessProbe port redisReplicationOffsetThreshold);
     c_WorkingDir := "/data/" +:+ itoa index;
     c_VolumeMounts := RedisVolumeMounts (um_Spec cr);
     c_VolumeDevices := RedisVolumeDevices (um_Spec cr) |}.

(** ** The StatefulSet *)

Definition server_proxy_env (cr : Undermoon) : list EnvVar :=
  let firstProxyAddress :=
    genStorageAddressFromName (storageStatefulSetPodName (um_Name cr) 0) cr in
  [ podNameEnv;
    env_value "RUST_LOG" "undermoon=info,server_proxy=info";
    env_value "UNDERMOON_ADDRESS" ("0.0.0.0:" +:+ itoa (Port (um_Spec cr)));
    env_value "UNDERMOON_AUTO_SELECT_CLUSTER" "true";
    env_value "UNDERMOON_SLOWLOG_LEN" "1024";
    env_value "UNDERMOON_SLOWLOG_LOG_SLOWER_THAN" "10000";
    env_value "UNDERMOON_SLOWLOG_SAMPLE_RATE" "1000";
    env_value "UNDERMOON_SESSION_CHANNEL_SIZE" "4096";
    env_value "UNDERMOON_BACKEND_CHANNEL_SIZE" "4096";
    env_value "UNDERMOON_BACKEND_BATCH_MIN_TIME" "20000";
    env_value "UNDERMOON_BACKEND_BATCH_MAX_TIME" "400000";
    env_value "UNDERMOON_SESSION_BATCH_MIN_TIME" "20000";
    env_value "UNDERMOON_SESSION_BATCH_MAX_TIME" "400000";
    env_value serverProxyActiveRedirectionEnvName (format_bool (ActiveRedirection (um_Spec cr)));
    env_value "UNDERMOON_DEFAULT_REDIRECTION_ADDRESS" firstProxyAddress;
    env_value serverProxyThreadNumberEnvName (utoa (ProxyThreads (um_Spec cr)));
    env_value "UNDERMOON_BACKEND_BATCH_STRATEGY" "disabled" ].

(** [int32(int(cr.Spec.ChunkNumber) * chunkShardNumber)]: the product of a
    [uint32] and 2 fits an [int], its conversion to [int32] may truncate. *)
Definition storage_replicas (cr : Undermoon) : Z :=
  to_int32 (ChunkNumber (um_Spec cr) * chunkShardNumber).

Definition createStorageStatefulSet (cr : Undermoon) : StatefulSet * Undermoon :=
  let spec := um_Spec cr in
  let labels := component_labels undermoonServiceTypeStorage cr in
  let address name := genStorageFQDNFromName name cr +:+ ":" +:+ itoa (Port spec) in
  let serverProxyContainer :=
    {| c_Name := serverProxyContainerName;
       c_Image := UndermoonImage spec;
       c_ImagePullPolicy := UndermoonImagePullPolicy spec;
       c_Command := ["sh"; "-c"; serverProxyRunScript (address podNameStr)];
       c_Args := [];
       c_Env := server_proxy_env cr ++ ProxyEnvVar spec;
       c_Resources := ProxyResources spec;
       c_Lifecycle :=
         Some (genServerProxyPreStopHook (um_Name cr) (um_Namespace cr) (address podNameEnvStr));
       c_ReadinessProbe := Some (genServerProxyReadinessProbe (Port spec));
       c_WorkingDir := "";
       c_VolumeMounts := [];
       c_VolumeDevices := [] |} in
  let redisContainer1 := genRedisContainer 1 (RedisImage spec) (MaxMemory spec) redisPort1 cr in
  let redisContainer2 := genRedisContainer 2 (RedisImage spec) (MaxMemory spec) redisPort2 cr in
  let '(affinity, crAffinity) :=
    addAntiAffinity (CrAffinity spec) labels (um_Namespace cr) storageTopologyKey in
  let podSpec :=
    {| t_Labels := labels;
       t_Spec :=
         {| p_TerminationGracePeriodSeconds := Some serverProxyShutdownTime;
            p_Containers := [serverProxyContainer; redisContainer1; redisContainer2];
            p_Affinity := Some affinity;
            p_NodeSelector := NodeSelector spec;
            p_ImagePullSecrets := ImagePullSecrets spec;
            p_SchedulerName := SchedulerName spec;
            p_Tolerations := Tolerations spec;
            p_Volumes := StorageVolumes spec |} |} in
  ({| ss_Meta := MkMeta (StorageStatefulSetName (um_Name cr)) (um_Namespace cr) labels "" [];
      ss_Spec :=
        {| sss_Selector := labels;
           sss_ServiceName := StorageServiceName (um_Name cr);
           sss_Replicas := Some (storage_replicas cr);
           sss_Template := podSpec;
           sss_PodManagementPolicy := "Parallel";
           sss_VolumeClaimTemplates := VolumeClaimTemplates spec |};
      ss_Status := MkStatefulSetStatus 0 0 0 |},
   um_set_affinity crAffinity cr).

(** [None]: the index of one of the three containers is out of range, a panic. *)
Definition storageStatefulSetChanged `{QuantityEq} (cr : Undermoon) (curr : StatefulSet)
    : option bool :=
  let spec := um_Spec cr in
  let containers := p_Containers (t_Spec (sss_Template (ss_Spec curr))) in
  serverProxyContainer ← containers !! 0%nat;
  redis1Container ← containers !! 1%nat;
  redis2Container ← containers !! 2%nat;
  if negb (String.eqb (UndermoonImage spec) (c_Image serverProxyContainer)) then Some true
  else if negb (String.eqb (UndermoonImagePullPolicy spec) (c_ImagePullPolicy serverProxyContainer))
  then Some true
  else if negb (String.eqb (RedisImage spec) (c_Image redis1Container))
       || negb (String.eqb (RedisImage spec) (c_Image redis2Container)) then Some true
  else if negb (resourceRequirementsEqual (ProxyResources spec) (c_Resources serverProxyContainer))
  then Some true
  else if negb (resourceRequirementsEqual (RedisResources spec) (c_Resources redis1Container))
       || negb (resourceRequirementsEqual (RedisResources spec) (c_Resources redis2Container))
  then Some true
  else
    let redis1Maxmemory := getEnvValue (c_Env redis1Container) redisMaxmemoryPodEnvName in
    let redis2Maxmemory := getEnvValue (c_Env redis2Container) redisMaxmemoryPodEnvName in
    let specMaxmeory := itoa (MaxMemory spec) in
    if negb (String.eqb specMaxmeory redis1Maxmemory)
       || negb (String.eqb specMaxmeory redis2Maxmemory) then Some true
    else
    let activeRedirection :=
      getEnvValue (c_Env serverProxyContainer) serverProxyActiveRedirectionEnvName in
    if negb (String.eqb (format_bool (ActiveRedirection spec)) activeRedirection) then Some true
    else
    let threadNumber := getEnvValue (c_Env serverProxyContainer) serverProxyThreadNumberEnvName in
    if negb (String.eqb (utoa (ProxyThreads spec)) threadNumber) then Some true
    else if envVarListNeedUpdate (c_Env serverProxyContainer) (ProxyEnvVar spec) then Some true
    else if envVarListNeedUpdate (c_Env redis1Container) (RedisEnvVar spec) then Some true
    else if envVarListNeedUpdate (c_Env redis2Container) (RedisEnvVar spec) then Some true
    else Some false.
