(* ===== verification/Scheduler.v ===== *)
(** * The scheduler plugin (src/scheduler/pkg/plugin.go)

    The filter that keeps the two pods of a shard on different nodes, and its
    agreement with the pod names the operator's StatefulSet gets. *)
From S2P Require Import Prelude GoStr Types Samples Api Utils Broker Storage.

#[local] Arguments String.append : simpl nomatch.

Record Pod := MkPod { pod_Name : string; pod_Namespace : string; pod_Labels : Labels }.

Inductive Status :=
| StatusSuccess
| StatusError (msg : string)
| StatusUnschedulableAndUnresolvable.

Definition getPodIndex (podName : string) : option Z := atoi (after_last "-"%char podName).

(** The loop over the pods of the node: [None] when no pod is in the shard. *)
Fixpoint same_shard (pod : Pod) (podIndex : Z) (undermoonName : string) (pods : list Pod)
    : option Status :=
  match pods with
  | [] => None
  | existingPod :: pods =>
      if negb (String.eqb (pod_Namespace pod) (pod_Namespace existingPod))
      then same_shard pod podIndex undermoonName pods
      else if negb (bool_decide (pod_Labels existingPod !! "undermoonName" = Some undermoonName))
      then same_shard pod podIndex undermoonName pods
      else if negb (bool_decide (pod_Labels existingPod !! "undermoonService"
                                 = Some undermoonServiceTypeStorage))
      then same_shard pod podIndex undermoonName pods
      else match getPodIndex (pod_Name existingPod) with
           | None => same_shard pod podIndex undermoonName pods
           | Some index =>
               if Z.quot podIndex 2 =? Z.quot index 2
               then Some StatusUnschedulableAndUnresolvable
               else same_shard pod podIndex undermoonName pods
           end
  end.

Definition Filter (pod : Pod) (nodePods : list Pod) : Status :=
  if negb (bool_decide (pod_Labels pod !! "undermoonService" = Some undermoonServiceTypeStorage))
  then StatusSuccess
  else match getPodIndex (pod_Name pod) with
       | None => StatusError ("invalid pod name for undermoon Statefulset: " +:+ pod_Name pod)
       | Some podIndex =>
           match pod_Labels pod !! "undermoonName" with
           | None => StatusError ("label 'undermoonName' not found in pod: " +:+ pod_Name pod)
           | Some undermoonName =>
               match same_shard pod podIndex undermoonName nodePods with
               | Some s => s
               | None => StatusSuccess
               end
           end
       end.

(** * Properties *)

(** A pod the operator's StatefulSet creates for index [i] of a cluster. *)
Definition storage_pod (cr : Undermoon) (i : Z) : Pod :=
  MkPod (storageStatefulSetPodName (um_Name cr) i) (um_Namespace cr)
    (component_labels undermoonServiceTypeStorage cr).

Lemma storageStatefulSetPodName_eq u i :
  storageStatefulSetPodName u i = StorageStatefulSetName u +:+ String "-"%char (itoa i).
Proof. done. Qed.

(** The index of a pod name is read back. *)
Lemma podName_index u i :
  0 ≤ i < 2 ^ 63 → after_last "-"%char (storageStatefulSetPodName u i) = utoa i.
Proof.
  intros Hi. rewrite storageStatefulSetPodName_eq, itoa_utoa by lia.
  apply after_last_app. apply all_digits_not_In; [apply utoa_all_digits; lia|].
  left. by vm_compute.
Qed.

Lemma getPodIndex_podName u i :
  0 ≤ i < 2 ^ 63 → getPodIndex (storageStatefulSetPodName u i) = Some i.
Proof. intros Hi. unfold getPodIndex. rewrite podName_index by done. by apply atoi_utoa. Qed.

Lemma storage_pod_labels cr i :
  pod_Labels (storage_pod cr i) !! "undermoonService" = Some undermoonServiceTypeStorage ∧
  pod_Labels (storage_pod cr i) !! "undermoonName" = Some (um_Name cr).
Proof.
  simpl. unfold component_labels. split; [by rewrite lookup_insert_eq|].
  rewrite lookup_insert_ne by done. by rewrite lookup_insert_eq.
Qed.

(** A pod of the node is a storage pod of the same shard of the same cluster. *)
Record conflicts (pod : Pod) (podIndex : Z) (undermoonName : string) (existing : Pod) : Prop := {
  cf_namespace : pod_Namespace pod = pod_Namespace existing;
  cf_cluster : pod_Labels existing !! "undermoonName" = Some undermoonName;
  cf_storage : pod_Labels existing !! "undermoonService" = Some undermoonServiceTypeStorage;
  cf_shard : ∃ index, getPodIndex (pod_Name existing) = Some index ∧
                      Z.quot podIndex 2 = Z.quot index 2
}.

Lemma same_shard_cons pod i u p pods :
  (conflicts pod i u p ∧ same_shard pod i u (p :: pods) = Some StatusUnschedulableAndUnresolvable) ∨
  (¬ conflicts pod i u p ∧ same_shard pod i u (p :: pods) = same_shard pod i u pods).
Proof.
  simpl. destruct (String.eqb_spec (pod_Namespace pod) (pod_Namespace p)); simpl;
    [|right; split; [by intros []|done]].
  case_bool_decide; simpl; [|right; split; [by intros []|done]].
  case_bool_decide; simpl; [|right; split; [by intros []|done]].
  destruct (getPodIndex (pod_Name p)) as [j|] eqn:Hj.
  2: { right. split; [|done]. intros [_ _ _ (? & ? & _)]. congruence. }
  destruct (Z.eqb_spec (Z.quot i 2) (Z.quot j 2)); [left|right].
  - split; [|done]. split; eauto.
  - split; [|done]. intros [_ _ _ (? & ? & ?)]. congruence.
Qed.

Lemma same_shard_spec pod i u pods :
  (same_shard pod i u pods = None ∧ ∀ p, p ∈ pods → ¬ conflicts pod i u p) ∨
  (same_shard pod i u pods = Some StatusUnschedulableAndUnresolvable ∧
   ∃ p, p ∈ pods ∧ conflicts pod i u p).
Proof.
  induction pods as [|p pods IH]; [left; set_solver|].
  destruct (same_shard_cons pod i u p pods) as [[Hc ->]|[Hc ->]]; [right; set_solver|].
  set_solver.
Qed.

(** C16. The filter keeps master and replica apart: whatever runs on a node, the
    filter lets the operator's storage pod number [i] onto it exactly when none
    of the node's pods is a storage pod, in the same namespace and of the same
    cluster, whose index belongs to the same shard [i/2]; otherwise the node is
    rejected for good.  The index the plugin parses out of the pod name is the
    index the operator's naming scheme put there. *)
Theorem Filter_storage_pod (cr : Undermoon) (i : Z) (nodePods : list Pod) (Hi : 0 ≤ i < 2 ^ 63) :
  (Filter (storage_pod cr i) nodePods = StatusSuccess ↔
   ∀ p, p ∈ nodePods → ¬ conflicts (storage_pod cr i) i (um_Name cr) p) ∧
  (Filter (storage_pod cr i) nodePods = StatusUnschedulableAndUnresolvable ↔
   ∃ p, p ∈ nodePods ∧ conflicts (storage_pod cr i) i (um_Name cr) p).
Proof.
  unfold Filter. destruct (storage_pod_labels cr i) as [-> ->].
  rewrite bool_decide_true by done. simpl. rewrite getPodIndex_podName by done.
  destruct (same_shard_spec (storage_pod cr i) i (um_Name cr) nodePods)
    as [[-> Hno]|[-> (p & Hp & Hc)]]; naive_solver.
Qed.

(** C17. Two storage pods of one cluster that run on a node the filter accepted
    for the second are in different shards: indices [2k] and [2k+1], the master
    and the replica of a shard, never end up on one node. *)
Theorem Filter_separates_shard (cr : Undermoon) (i j : Z) (nodePods : list Pod)
    (Hi : 0 ≤ i < 2 ^ 63) (Hj : 0 ≤ j < 2 ^ 63)
    (Hon : storage_pod cr j ∈ nodePods)
    (Hok : Filter (storage_pod cr i) nodePods = StatusSuccess) :
  i / 2 ≠ j / 2.
Proof.
  unfold Filter in Hok. destruct (storage_pod_labels cr i) as [E1 E2].
  rewrite E1, E2, bool_decide_true in Hok by done. simpl in Hok.
  rewrite getPodIndex_podName in Hok by done.
  destruct (same_shard_spec (storage_pod cr i) i (um_Name cr) nodePods)
    as [[_ Hno]|[Hs _]]; [|by rewrite Hs in Hok].
  intros Heq. apply (Hno _ Hon). destruct (storage_pod_labels cr j).
  split; [done..|]. exists j. split; [by apply getPodIndex_podName|].
  rewrite !Z.quot_div_nonneg by lia. done.
Qed.

(** ** Witnesses *)

Lemma Filter_storage_pod_witness :
  Filter (storage_pod (sample_cr 2) 3) [storage_pod (sample_cr 2) 2]
    = StatusUnschedulableAndUnresolvable.
Proof.
  assert (0 ≤ 3 < 2 ^ 63) as Hi by lia.
  apply (proj2 (Filter_storage_pod (sample_cr 2) 3 [storage_pod (sample_cr 2) 2] Hi)).
  exists (storage_pod (sample_cr 2) 2). split; [by apply list_elem_of_singleton|].
  split; [done..|]. exists 2. split; by vm_compute.
Defined.

Lemma Filter_separates_shard_witness :
  Filter (storage_pod (sample_cr 2) 3) [storage_pod (sample_cr 2) 1] = StatusSuccess ∧ 3 / 2 ≠ 1 / 2.
Proof.
  assert (Filter (storage_pod (sample_cr 2) 3) [storage_pod (sample_cr 2) 1] = StatusSuccess) as Hok
    by by vm_compute.
  split; [exact Hok|].
  apply (Filter_separates_shard (sample_cr 2) 3 1 [storage_pod (sample_cr 2) 1]);
    [lia|lia|by apply list_elem_of_singleton|exact Hok].
Defined.
