(* ===== verification/RollingUpdate.v ===== *)
(** * The StatefulSets of the three components together

    When the tests for a rolling update settle, what they compare, and what the
    shared anti-affinity of the custom resource does to the three StatefulSets. *)
From S2P Require Import Prelude GoStr Types Samples Api Utils Broker Coordinator Storage.

#[local] Arguments String.append : simpl never.

(** The container of a pod template. *)
Definition container_at (ss : StatefulSet) (i : nat) : option Container :=
  p_Containers (t_Spec (sss_Template (ss_Spec ss))) !! i.

Lemma broker_containers `{OsEnv} cr :
  ∃ c, p_Containers (t_Spec (sss_Template (ss_Spec (createBrokerStatefulSet cr).1))) = [c] ∧
    c_Image c = UndermoonImage (um_Spec cr) ∧
    c_ImagePullPolicy c = UndermoonImagePullPolicy (um_Spec cr) ∧
    c_Resources c = BrokerResources (um_Spec cr) ∧
    c_Env c = broker_env cr ++ BrokerEnvVar (um_Spec cr).
Proof.
  unfold createBrokerStatefulSet. destruct (addAntiAffinity _ _ _ _). by eexists.
Qed.

Lemma coordinator_containers cr :
  ∃ c, p_Containers (t_Spec (sss_Template (ss_Spec (createCoordinatorStatefulSet cr).1))) = [c] ∧
    c_Image c = UndermoonImage (um_Spec cr) ∧
    c_ImagePullPolicy c = UndermoonImagePullPolicy (um_Spec cr) ∧
    c_Resources c = CoordinatorResources (um_Spec cr) ∧
    c_Env c = coordinator_env cr ++ CoordinatorEnvVar (um_Spec cr).
Proof.
  unfold createCoordinatorStatefulSet. destruct (addAntiAffinity _ _ _ _). by eexists.
Qed.

Lemma storage_containers cr :
  ∃ c, p_Containers (t_Spec (sss_Template (ss_Spec (createStorageStatefulSet cr).1))) =
         [c; genRedisContainer 1 (RedisImage (um_Spec cr)) (MaxMemory (um_Spec cr)) redisPort1 cr;
          genRedisContainer 2 (RedisImage (um_Spec cr)) (MaxMemory (um_Spec cr)) redisPort2 cr] ∧
    c_Image c = UndermoonImage (um_Spec cr) ∧
    c_ImagePullPolicy c = UndermoonImagePullPolicy (um_Spec cr) ∧
    c_Resources c = ProxyResources (um_Spec cr) ∧
    c_Env c = server_proxy_env cr ++ ProxyEnvVar (um_Spec cr).
Proof.
  unfold createStorageStatefulSet. destruct (addAntiAffinity _ _ _ _). by eexists.
Qed.

Lemma requirements_refl `{QuantityLaws} r : resourceRequirementsEqual r r = true.
Proof. by apply requirements_spec. Qed.

Section settles.
Context `{OsEnv, QuantityLaws}.

Lemma Some_if_false (b : bool) : (if b then Some true else Some false) = Some false ↔ b = false.
Proof. by destruct b. Qed.

Lemma broker_settles cr :
  brokerStatefulSetChanged cr (createBrokerStatefulSet cr).1 = Some false ↔
  env_consistent (BrokerEnvVar (um_Spec cr)).
Proof.
  destruct (broker_containers cr) as (c & Hc & Hi & Hp & Hr & He).
  unfold brokerStatefulSetChanged. rewrite Hc.
  cbn [lookup list_lookup mbind option_bind].
  rewrite Hi, Hp, Hr, He, !String.eqb_refl, requirements_refl. cbn [negb].
  by rewrite Some_if_false, env_update_settles.
Qed.

Lemma coordinator_settles cr :
  coordinatorStatefulSetChanged cr (createCoordinatorStatefulSet cr).1 = Some false ↔
  env_consistent (CoordinatorEnvVar (um_Spec cr)).
Proof.
  destruct (coordinator_containers cr) as (c & Hc & Hi & Hp & Hr & He).
  unfold coordinatorStatefulSetChanged. rewrite Hc.
  cbn [lookup list_lookup mbind option_bind].
  rewrite Hi, Hp, Hr, He, !String.eqb_refl, requirements_refl. cbn [negb].
  by rewrite Some_if_false, env_update_settles.
Qed.

Lemma storage_settles cr :
  storageStatefulSetChanged cr (createStorageStatefulSet cr).1 = Some false ↔
  env_consistent (ProxyEnvVar (um_Spec cr)) ∧ env_consistent (RedisEnvVar (um_Spec cr)).
Proof.
  destruct (storage_containers cr) as (c & Hc & Hi & Hp & Hr & He).
  unfold storageStatefulSetChanged. rewrite Hc.
  cbn [lookup list_lookup mbind option_bind c_Image c_Resources c_Env genRedisContainer].
  rewrite Hi, Hp, Hr, He, !String.eqb_refl, !requirements_refl. cbn [negb orb].
  rewrite <- (env_update_settles (server_proxy_env cr) (ProxyEnvVar _)),
    <- (env_update_settles (redis_env (MaxMemory (um_Spec cr))) (RedisEnvVar _)).
  generalize (envVarListNeedUpdate (server_proxy_env cr ++ ProxyEnvVar (um_Spec cr))
    (ProxyEnvVar (um_Spec cr))) as x.
  generalize (envVarListNeedUpdate (redis_env (MaxMemory (um_Spec cr)) ++ RedisEnvVar (um_Spec cr))
    (RedisEnvVar (um_Spec cr))) as y.
  clear. intros [] []; intuition congruence.
Qed.

(** C26. Rolling updates settle: the StatefulSet that a rolling update writes for
    a custom resource passes the component's own change test, so that the next
    reconciliation does not roll again, exactly when the user's environment
    variable lists for the component define no name in two different ways.  With
    such a list every reconciliation updates the StatefulSet again. *)
Theorem rolling_update_settles (cr : Undermoon) :
  (brokerStatefulSetChanged cr (createBrokerStatefulSet cr).1 = Some false ↔
   env_consistent (BrokerEnvVar (um_Spec cr))) ∧
  (coordinatorStatefulSetChanged cr (createCoordinatorStatefulSet cr).1 = Some false ↔
   env_consistent (CoordinatorEnvVar (um_Spec cr))) ∧
  (storageStatefulSetChanged cr (createStorageStatefulSet cr).1 = Some false ↔
   env_consistent (ProxyEnvVar (um_Spec cr)) ∧ env_consistent (RedisEnvVar (um_Spec cr))).
Proof. auto using broker_settles, coordinator_settles, storage_settles. Qed.
End settles.

(** Texts compared as amounts, for the witnesses. *)
Definition text_quantities : QuantityEq := String.eqb.
Lemma text_quantities_laws : @QuantityLaws text_quantities.
Proof.
  split; unfold quantity_equal, text_quantities.
  - apply String.eqb_refl.
  - intros q r ->%String.eqb_eq. apply String.eqb_refl.
  - intros q r s ->%String.eqb_eq ->%String.eqb_eq. apply String.eqb_refl.
Qed.
Definition no_env : OsEnv := λ _, "".

Lemma rolling_update_settles_witness :
  @storageStatefulSetChanged text_quantities (sample_cr 2) (createStorageStatefulSet (sample_cr 2)).1
    = Some false.
Proof.
  apply (proj2 (proj2 (@rolling_update_settles no_env text_quantities text_quantities_laws
    (sample_cr 2)))).
  split; intros e1 e2 H1; by apply not_elem_of_nil in H1.
Defined.

(** ** What the storage test compares *)

Section detects.
Context `{QuantityLaws}.

(** A server proxy container and two Redis containers that run what the custom
    resource asks for. *)
Record storage_current (cr : Undermoon) (proxy redis1 redis2 : Container) : Prop := {
  cur_image : UndermoonImage (um_Spec cr) = c_Image proxy;
  cur_policy : UndermoonImagePullPolicy (um_Spec cr) = c_ImagePullPolicy proxy;
  cur_redis1_image : RedisImage (um_Spec cr) = c_Image redis1;
  cur_redis2_image : RedisImage (um_Spec cr) = c_Image redis2;
  cur_resources : requirements_equiv (ProxyResources (um_Spec cr)) (c_Resources proxy);
  cur_redis1_resources : requirements_equiv (RedisResources (um_Spec cr)) (c_Resources redis1);
  cur_redis2_resources : requirements_equiv (RedisResources (um_Spec cr)) (c_Resources redis2);
  cur_memory1 : getEnvValue (c_Env redis1) redisMaxmemoryPodEnvName = itoa (MaxMemory (um_Spec cr));
  cur_memory2 : getEnvValue (c_Env redis2) redisMaxmemoryPodEnvName = itoa (MaxMemory (um_Spec cr));
  cur_redirection : getEnvValue (c_Env proxy) serverProxyActiveRedirectionEnvName =
                    format_bool (ActiveRedirection (um_Spec cr));
  cur_threads : getEnvValue (c_Env proxy) serverProxyThreadNumberEnvName =
                utoa (ProxyThreads (um_Spec cr));
  cur_env : ∀ e, e ∈ ProxyEnvVar (um_Spec cr) → env_get (c_Env proxy) (e_Name e) = Some e;
  cur_env1 : ∀ e, e ∈ RedisEnvVar (um_Spec cr) → env_get (c_Env redis1) (e_Name e) = Some e;
  cur_env2 : ∀ e, e ∈ RedisEnvVar (um_Spec cr) → env_get (c_Env redis2) (e_Name e) = Some e
}.

Lemma if_Some_true (b : bool) (o : option bool) :
  (if b then Some true else o) = Some false ↔ b = false ∧ o = Some false.
Proof. destruct b; naive_solver. Qed.

(** C27. The storage test compares what it means to: for a pod with its three
    containers it reports no change exactly when images, pull policy, resources
    up to equal amounts, memory limit, redirection, thread number and every
    variable of the user's lists are what the custom resource asks for; it
    panics exactly when the pod template has fewer than three containers. *)
Theorem storageStatefulSetChanged_spec (cr : Undermoon) (curr : StatefulSet) :
  (storageStatefulSetChanged cr curr = Some false ↔
   ∃ proxy redis1 redis2,
     container_at curr 0 = Some proxy ∧ container_at curr 1 = Some redis1 ∧
     container_at curr 2 = Some redis2 ∧ storage_current cr proxy redis1 redis2) ∧
  (storageStatefulSetChanged cr curr = None ↔
   (length (p_Containers (t_Spec (sss_Template (ss_Spec curr)))) < 3)%nat).
Proof.
  unfold storageStatefulSetChanged, container_at.
  destruct (p_Containers _) as [|proxy [|redis1 [|redis2 l]]]; simpl.
  1-3: (split; [split; [done|by intros (? & ? & ? & ? & ? & ? & _)]|split; [lia|done]]).
  split.
  - rewrite !if_Some_true, !orb_false_iff, !negb_false_iff, !String.eqb_eq, !requirements_spec,
      !envVarListNeedUpdate_false.
    split.
    + intros Hall. exists proxy, redis1, redis2. destruct_and?.
      do 3 (split; [done|]). by split.
    + intros (? & ? & ? & [= <-] & [= <-] & [= <-] & []). by split_and!.
  - split; [|lia]. intros Hnone. repeat case_match; done.
Qed.
End detects.

Lemma storageStatefulSetChanged_spec_witness :
  let current := (createStorageStatefulSet (sample_cr 2)).1 in
  storageStatefulSetChanged (H := text_quantities) (sample_cr 2) current = Some false ∧
  ∃ proxy redis1 redis2,
    container_at current 0 = Some proxy ∧ container_at current 1 = Some redis1 ∧
    container_at current 2 = Some redis2 ∧
    storage_current (H := text_quantities) (sample_cr 2) proxy redis1 redis2.
Proof.
  cbn zeta.
  assert (@storageStatefulSetChanged text_quantities (sample_cr 2)
            (createStorageStatefulSet (sample_cr 2)).1 = Some false) as Hsame
    by (vm_compute; reflexivity).
  split; [exact Hsame|].
  exact (proj1 (proj1 (@storageStatefulSetChanged_spec text_quantities text_quantities_laws
    (sample_cr 2) (createStorageStatefulSet (sample_cr 2)).1)) Hsame).
Defined.

(** ** The shared anti-affinity *)

(** The anti-affinity terms of a pod, and the term a component adds. *)
Definition preferred_terms (ss : StatefulSet) : list WeightedPodAffinityTerm :=
  match p_Affinity (t_Spec (sss_Template (ss_Spec ss))) ≫= af_PodAntiAffinity with
  | Some pa => pa_Preferred pa
  | None => []
  end.
Definition component_term (cr : Undermoon) (serviceType topologyKey : string)
    : WeightedPodAffinityTerm :=
  MkWeightedTerm 2 (MkAffinityTerm (component_labels serviceType cr) [] [um_Namespace cr] topologyKey).

(** C28. Building a StatefulSet changes the custom resource it is built from.  When
    the user gives a pod anti-affinity, the object is shared by pointer, and in
    the order in which a reconciliation builds the three StatefulSets the
    coordinator also gets the broker's term and the storage also gets both of the
    others, and all three terms stay in the custom resource; without a user
    anti-affinity the custom resource is unchanged and each component has its own
    term only. *)
Theorem anti_affinity_leak `{OsEnv} (cr : Undermoon) :
  let '(b, cr1) := createBrokerStatefulSet cr in
  let '(c, cr2) := createCoordinatorStatefulSet cr1 in
  let '(s, cr3) := createStorageStatefulSet cr2 in
  let tb := component_term cr undermoonServiceTypeBroker brokerTopologyKey in
  let tc := component_term cr undermoonServiceTypeCoordinator coordinatorTopologyKey in
  let ts := component_term cr undermoonServiceTypeStorage storageTopologyKey in
  match CrAffinity (um_Spec cr) ≫= af_PodAntiAffinity with
  | Some pa =>
      let user := pa_Preferred pa in
      preferred_terms b = user ++ [tb] ∧
      preferred_terms c = user ++ [tb; tc] ∧
      preferred_terms s = user ++ [tb; tc; ts] ∧
      (CrAffinity (um_Spec cr3) ≫= af_PodAntiAffinity) =
        Some (MkAntiAffinity (pa_Required pa) (user ++ [tb; tc; ts]))
  | None =>
      preferred_terms b = [tb] ∧ preferred_terms c = [tc] ∧ preferred_terms s = [ts] ∧ cr3 = cr
  end.
Proof.
  destruct cr as [meta spec st]. destruct spec as [? ? ? ? ? ? ? ? ? ? ? ? ? ? ? ? ? ? ? ? ? aff].
  destruct aff as [[node pod [[req pref]|]]|]; simpl; try done.
  unfold preferred_terms, component_term, component_labels, um_Name, um_Namespace; simpl.
  by rewrite <- !app_assoc.
Qed.
