(* ===== verification/Objects.v ===== *)
(** * The objects of a custom resource fit together

    The builders of broker.go, coordinator.go, storage.go and meta.go are separate
    functions that have to agree on labels, names, ports and keys, none of which Go
    checks.  Here the objects of a component are taken together, with what Kubernetes
    makes of them: which pods a service selects, the DNS name of a pod of a
    StatefulSet, which templates are accepted. *)
From S2P Require Import Prelude GoStr Types Samples Api Utils Meta Broker Coordinator Storage RollingUpdate.

(** ** The components *)

Inductive component := BrokerComponent | CoordinatorComponent | StorageComponent.

Section components.
Context `{OsEnv}.

Definition component_statefulset (k : component) (cr : Undermoon) : StatefulSet :=
  match k with
  | BrokerComponent => (createBrokerStatefulSet cr).1
  | CoordinatorComponent => (createCoordinatorStatefulSet cr).1
  | StorageComponent => (createStorageStatefulSet cr).1
  end.

(** The service of the pods, and the one for clients. *)
Definition component_service (k : component) : Undermoon → Service :=
  match k with
  | BrokerComponent => createBrokerService
  | CoordinatorComponent => createCoordinatorService
  | StorageComponent => createStorageService
  end.
Definition component_public_service (k : component) (cr : Undermoon) : list Service :=
  match k with
  | BrokerComponent => [createBrokerPublicService cr]
  | CoordinatorComponent => []
  | StorageComponent => [createStoragePublicService cr]
  end.
Definition component_services (k : component) (cr : Undermoon) : list Service :=
  component_service k cr :: component_public_service k cr.
Definition all_services (cr : Undermoon) : list Service :=
  component_services BrokerComponent cr ++ component_services CoordinatorComponent cr ++
  component_services StorageComponent cr.

Definition component_port (k : component) (cr : Undermoon) : Z :=
  match k with
  | BrokerComponent => brokerPort
  | CoordinatorComponent => coordinatorPort
  | StorageComponent => Port (um_Spec cr)
  end.
(** The address under which the operator reaches a pod. *)
Definition component_address (k : component) : string → Undermoon → string :=
  match k with
  | BrokerComponent => genBrokerAddressFromName
  | CoordinatorComponent => genCoordinatorAddressFromName
  | StorageComponent => genStorageAddressFromName
  end.
End components.

(** ** What Kubernetes makes of them *)

(** A service selects the pods of its namespace that carry the labels of its selector. *)
Definition selects (s : Service) (ss : StatefulSet) : Prop :=
  m_Namespace (sv_Meta s) = m_Namespace (ss_Meta ss) ∧
  sv_Selector s ⊆ t_Labels (sss_Template (ss_Spec ss)).

Definition pod_name (ss : StatefulSet) (i : Z) : string := m_Name (ss_Meta ss) +:+ "-" +:+ itoa i.
(** The DNS name of a pod, below its governing service. *)
Definition pod_dns (ss : StatefulSet) (i : Z) : string :=
  pod_name ss i +:+ "." +:+ sss_ServiceName (ss_Spec ss) +:+ "." +:+ m_Namespace (ss_Meta ss)
    +:+ ".svc.cluster.local".

(** The governing service: headless, of that name, selecting the pods. *)
Record governs (s : Service) (ss : StatefulSet) : Prop := {
  gov_name : sss_ServiceName (ss_Spec ss) = m_Name (sv_Meta s);
  gov_headless : sv_ClusterIP s = "None";
  gov_selects : selects s ss
}.

(** What the API server requires of a StatefulSet, of what the builders choose. *)
Record accepted (ss : StatefulSet) : Prop := {
  acc_selector : sss_Selector (ss_Spec ss) ≠ ∅;
  acc_labels : sss_Selector (ss_Spec ss) ⊆ t_Labels (sss_Template (ss_Spec ss));
  acc_replicas : ∃ n, sss_Replicas (ss_Spec ss) = Some n ∧ 0 ≤ n;
  acc_containers : p_Containers (t_Spec (sss_Template (ss_Spec ss))) ≠ [];
  acc_names : NoDup (c_Name <$> p_Containers (t_Spec (sss_Template (ss_Spec ss))))
}.

(** The value of an environment variable comes from a secret. *)
Definition from_secret (e : EnvVar) (s : Secret) (value : string) : Prop :=
  ∃ sources r, e_ValueFrom e = Some sources ∧ vs_SecretKeyRef sources = Some r ∧
    sk_Name r = m_Name (sc_Meta s) ∧ sc_Data s !! sk_Key r = Some value.

(** * Properties *)

(** ** Labels *)

Lemma component_labels_subseteq t t' cr cr' :
  component_labels t cr ⊆ component_labels t' cr' ↔
  t = t' ∧ um_Name cr = um_Name cr' ∧ ClusterName (um_Spec cr) = ClusterName (um_Spec cr').
Proof.
  split; [|unfold component_labels; by intros (-> & -> & ->)]. intros Hsub.
  assert (∀ k x, component_labels t cr !! k = Some x → component_labels t' cr' !! k = Some x) as Hlook
    by (intros k x Hk; by eapply lookup_weaken).
  unfold component_labels in Hlook.
  pose proof (Hlook "undermoonService" t) as H1. pose proof (Hlook "undermoonName" (um_Name cr)) as H2.
  pose proof (Hlook "undermoonClusterName" (ClusterName (um_Spec cr))) as H3.
  simplify_map_eq. naive_solver.
Qed.

(** ** Names *)

(** What the names of the five services add to the name of the custom resource. *)
Definition service_suffixes : list string := ["-bk-svc"; "-broker"; "-cd-svc"; "-stg-svc"; ""].

Lemma all_services_names cr :
  m_Name ∘ sv_Meta <$> all_services cr = (λ suffix, um_Name cr +:+ suffix) <$> service_suffixes.
Proof. simpl. by rewrite str_app_nil_r. Qed.

Lemma str_app_eq_app (a b s t : string) :
  a +:+ s = b +:+ t → (∃ u, a = b +:+ u ∧ t = u +:+ s) ∨ (∃ u, b = a +:+ u ∧ s = u +:+ t).
Proof.
  revert b. induction a as [|x a IH]; intros b Heq; [right; by exists b|].
  destruct b as [|y b]; [left; by exists (String x a)|].
  injection Heq as -> [(u & -> & ->)|(u & -> & ->)]%IH; eauto.
Qed.

(** Of two suffixes one is the end of the other only when that is empty. *)
Lemma suffix_of_suffix s t u :
  s ∈ service_suffixes → t ∈ service_suffixes → t = u +:+ s → u = "" ∨ s = "".
Proof.
  unfold service_suffixes. rewrite !list_elem_of_In. simpl. intros Hs Ht Heq.
  destruct_or!; subst s t; try (by right);
    repeat (destruct u as [|? u]; simplify_eq/=; try (by left)).
Qed.

Lemma names_clash s t a b :
  s ∈ service_suffixes → t ∈ service_suffixes → a +:+ s = b +:+ t →
  a = b ∧ s = t ∨ a = b +:+ t ∧ s = "" ∨ b = a +:+ s ∧ t = "".
Proof.
  intros Hs Ht [(u & -> & ->)|(u & -> & ->)]%str_app_eq_app.
  - destruct (suffix_of_suffix s _ u Hs Ht eq_refl) as [-> | ->]; rewrite !str_app_nil_r; auto.
  - destruct (suffix_of_suffix t _ u Ht Hs eq_refl) as [-> | ->]; rewrite !str_app_nil_r; auto.
Qed.

Lemma shared_names cr cr' :
  (∃ s s', s ∈ all_services cr ∧ s' ∈ all_services cr' ∧ m_Name (sv_Meta s) = m_Name (sv_Meta s')) ↔
  um_Name cr = um_Name cr' ∨
  ∃ ending, ending ∈ ["-bk-svc"; "-broker"; "-cd-svc"; "-stg-svc"] ∧
    (um_Name cr = um_Name cr' +:+ ending ∨ um_Name cr' = um_Name cr +:+ ending).
Proof.
  assert (∀ cr name, (∃ s, s ∈ all_services cr ∧ m_Name (sv_Meta s) = name) ↔
    ∃ suffix, suffix ∈ service_suffixes ∧ name = um_Name cr +:+ suffix) as Hnames.
  { intros c name. transitivity (name ∈ m_Name ∘ sv_Meta <$> all_services c).
    - rewrite list_elem_of_fmap. naive_solver.
    - rewrite all_services_names, list_elem_of_fmap. naive_solver. }
  transitivity (∃ s t, s ∈ service_suffixes ∧ t ∈ service_suffixes ∧ um_Name cr +:+ s = um_Name cr' +:+ t).
  { split.
    - intros (s & s' & Hs & Hs' & Heq).
      destruct (proj1 (Hnames cr _) (ex_intro _ s (conj Hs eq_refl))) as (u & Hu & ?).
      destruct (proj1 (Hnames cr' _) (ex_intro _ s' (conj Hs' eq_refl))) as (v & Hv & ?).
      exists u, v. split_and!; congruence.
    - intros (u & v & Hu & Hv & Heq).
      destruct (proj2 (Hnames cr _) (ex_intro _ u (conj Hu eq_refl))) as (s & Hs & ?).
      destruct (proj2 (Hnames cr' _) (ex_intro _ v (conj Hv eq_refl))) as (s' & Hs' & ?).
      exists s, s'. split_and!; congruence. }
  assert (∀ e, e ∈ service_suffixes ↔ e ∈ ["-bk-svc"; "-broker"; "-cd-svc"; "-stg-svc"] ∨ e = "") as Hsuffix.
  { intros e. unfold service_suffixes. set_solver. }
  setoid_rewrite Hsuffix. split.
  - intros (s & t & Hs & Ht & Heq). rewrite <- Hsuffix in Hs, Ht.
    destruct (names_clash s t _ _ Hs Ht Heq) as [[? _]|[[Hcr _]|[Hcr _]]]; [by left| |].
    + apply Hsuffix in Ht as [Ht | ->]; [right; eauto|]. left. by rewrite str_app_nil_r in Hcr.
    + apply Hsuffix in Hs as [Hs | ->]; [right; eauto|]. left. by rewrite str_app_nil_r in Hcr.
  - intros [Heq|(e & He & [Heq|Heq])].
    + exists "", "". by rewrite Heq; auto.
    + exists "", e. rewrite str_app_nil_r. auto.
    + exists e, "". rewrite str_app_nil_r. auto.
Qed.

(** ** A component *)

Section fit.
Context `{OsEnv}.

Record component_fits (k : component) (cr : Undermoon) : Prop := {
  fit_accepted : accepted (component_statefulset k cr);
  fit_governed : governs (component_service k cr) (component_statefulset k cr);
  fit_address i : component_address k (pod_name (component_statefulset k cr) i) cr =
    pod_dns (component_statefulset k cr) i +:+ ":" +:+ itoa (component_port k cr);
  fit_ports s : s ∈ component_services k cr → sp_Port <$> sv_Ports s = [component_port k cr];
  fit_listens : ∃ c, container_at (component_statefulset k cr) 0 = Some c ∧
    env_value "UNDERMOON_ADDRESS" ("0.0.0.0:" +:+ itoa (component_port k cr)) ∈ c_Env c;
  fit_password password : k = BrokerComponent →
    ∃ c e, container_at (component_statefulset k cr) 0 = Some c ∧ e ∈ c_Env c ∧
      e_Name e = "UNDERMOON_STORAGE_PASSWORD" ∧
      from_secret e (createMetaSecret cr password) password
}.

(** The builders of the three StatefulSets, with any affinity. *)
Ltac go_component k :=
  destruct k; unfold component_statefulset, createBrokerStatefulSet, createCoordinatorStatefulSet,
    createStorageStatefulSet; destruct (addAntiAffinity _ _ _ _).

Lemma statefulset_meta k cr :
  m_Namespace (ss_Meta (component_statefulset k cr)) = um_Namespace cr ∧
  t_Labels (sss_Template (ss_Spec (component_statefulset k cr))) =
    m_Labels (ss_Meta (component_statefulset k cr)) ∧
  sss_Selector (ss_Spec (component_statefulset k cr)) =
    m_Labels (ss_Meta (component_statefulset k cr)).
Proof.
  by go_component k.
Qed.

Definition component_type (k : component) : string :=
  match k with
  | BrokerComponent => undermoonServiceTypeBroker
  | CoordinatorComponent => undermoonServiceTypeCoordinator
  | StorageComponent => undermoonServiceTypeStorage
  end.

Lemma statefulset_labels k cr :
  m_Labels (ss_Meta (component_statefulset k cr)) = component_labels (component_type k) cr.
Proof.
  by go_component k.
Qed.

Lemma service_labels k cr s :
  s ∈ component_services k cr →
  m_Namespace (sv_Meta s) = um_Namespace cr ∧ sv_Selector s = component_labels (component_type k) cr.
Proof. destruct k; intros Hs%list_elem_of_In; simpl in Hs; destruct_or?; by subst. Qed.

Lemma services_select k k' cr cr' s :
  s ∈ component_services k cr →
  selects s (component_statefulset k' cr') ↔
  k = k' ∧ um_Namespace cr = um_Namespace cr' ∧ um_Name cr = um_Name cr' ∧
  ClusterName (um_Spec cr) = ClusterName (um_Spec cr').
Proof.
  intros [Hns Hsel]%service_labels. unfold selects. destruct (statefulset_meta k' cr') as (-> & -> & _).
  rewrite Hns, Hsel, statefulset_labels, component_labels_subseteq.
  split; [|naive_solver]. intros (? & Htype & ?). by destruct k, k'.
Qed.

Lemma statefulset_service k cr :
  sss_ServiceName (ss_Spec (component_statefulset k cr)) = m_Name (sv_Meta (component_service k cr)).
Proof.
  by go_component k.
Qed.

Lemma statefulset_accepted k cr :
  0 ≤ ChunkNumber (um_Spec cr) < 2 ^ 30 → accepted (component_statefulset k cr).
Proof.
  intros Hchunks. destruct (statefulset_meta k cr) as (_ & Hl & Hs). split.
  - rewrite Hs, statefulset_labels. apply insert_non_empty.
  - by rewrite Hs, Hl.
  - go_component k; eexists; split; try done.
    unfold storage_replicas, to_int32, chunkShardNumber. Z.to_euclidean_division_equations. lia.
  - by go_component k.
  - go_component k; apply (bool_decide_unpack _); by vm_compute.
Qed.

Lemma component_fits_all k cr :
  0 ≤ ChunkNumber (um_Spec cr) < 2 ^ 30 → 0 ≤ Port (um_Spec cr) ≤ 65535 → component_fits k cr.
Proof.
  intros Hchunks Hport. pose proof (statefulset_service k cr) as Hservice. split.
  - by apply statefulset_accepted.
  - split; [done|by destruct k|]. by apply (services_select k k cr cr); [left|].
  - intros i. unfold pod_dns. rewrite Hservice. destruct (statefulset_meta k cr) as (-> & _).
    destruct k; unfold component_address, component_port, genBrokerAddressFromName,
      genCoordinatorAddressFromName, genStorageAddressFromName, genStorageFQDNFromName,
      genBrokerFQDN, genCoordinatorFQDN, genStorageFQDN; by rewrite !str_app_assoc.
  - assert (to_int32 (Port (um_Spec cr)) = Port (um_Spec cr)) as Hp
      by (unfold to_int32; Z.to_euclidean_division_equations; lia).
    intros s Hs%list_elem_of_In. destruct k; simpl in Hs; destruct_or?; try done; subst s; simpl; by rewrite ?Hp.
  - go_component k; eexists; (split; [done|]); apply elem_of_app; left; repeat first [by left|right].
  - intros password ->. unfold component_statefulset, createBrokerStatefulSet.
    destruct (addAntiAffinity _ _ _ _). do 2 eexists. split; [done|]. split.
    { apply elem_of_app. left. do 15 right. by left. }
    split; [done|]. do 2 eexists. do 2 (split; [done|]). split; [done|]. by apply lookup_singleton_eq.
Qed.

(** C18. The objects of a custom resource fit together, for each of the three
    components.  The API server accepts the StatefulSet; its pods are governed by a
    headless service, and the addresses the operator uses are the DNS names of the
    pods with the port that the services publish and the program listens on; the
    brokers take their password from the key of the Secret that holds it.  A service
    selects the pods of a component exactly when that is its own component of a custom
    resource of the same namespace, name and cluster name.  The five services of a
    custom resource have different names, and two custom resources share the name of a
    service exactly when they have the same name or the name of one is the name of the
    other with one of four endings. *)
Theorem objects_fit (k : component) (cr : Undermoon)
    (Hchunks : 0 ≤ ChunkNumber (um_Spec cr) < 2 ^ 30) (Hport : 0 ≤ Port (um_Spec cr) ≤ 65535) :
  component_fits k cr ∧
  (∀ k' cr' s, s ∈ component_services k cr →
     selects s (component_statefulset k' cr') ↔
     k = k' ∧ um_Namespace cr = um_Namespace cr' ∧ um_Name cr = um_Name cr' ∧
     ClusterName (um_Spec cr) = ClusterName (um_Spec cr')) ∧
  NoDup (m_Name ∘ sv_Meta <$> all_services cr) ∧
  (∀ cr', (∃ s s', s ∈ all_services cr ∧ s' ∈ all_services cr' ∧
             m_Name (sv_Meta s) = m_Name (sv_Meta s')) ↔
     um_Name cr = um_Name cr' ∨
     ∃ ending, ending ∈ ["-bk-svc"; "-broker"; "-cd-svc"; "-stg-svc"] ∧
       (um_Name cr = um_Name cr' +:+ ending ∨ um_Name cr' = um_Name cr +:+ ending)).
Proof.
  split; [by apply component_fits_all|]. split; [by intros k' cr' s; apply services_select|].
  split; [|intros cr'].
  - rewrite all_services_names. apply NoDup_fmap_2; [intros s t; apply str_app_inj_l|].
    apply (bool_decide_unpack _). by vm_compute.
  - apply shared_names.
Qed.

End fit.

Lemma objects_fit_witness :
  component_fits (H := no_env) StorageComponent (sample_cr 2) ∧
  ∃ s s', s ∈ all_services (sample_cr 2) ∧
    s' ∈ all_services (MkUndermoon (MkMeta "c-broker" "ns" ∅ "1" []) (sample_spec 2)
                         (MkUndermoonStatus "" "" 0)) ∧
    m_Name (sv_Meta s) = m_Name (sv_Meta s').
Proof.
  destruct (objects_fit (H := no_env) StorageComponent (sample_cr 2)) as (Hfit & _ & _ & Hshared).
  - simpl. lia.
  - simpl. lia.
  - split; [exact Hfit|]. apply Hshared. right. exists "-broker". split; [right; by left|by right].
Defined.
