(* ===== verification/BrokerClient.v ===== *)
(** * The client of the broker's HTTP interface (src/controllers/broker_client.go)

    One function per endpoint: the request it sends and how it reads the answer.
    The status code and the error name of the body decide between success, the
    sentinel errors the controllers react to, and other errors. *)
From S2P Require Import Prelude Prog GoStr Types Api Utils Storage.

Definition errStrAlreadyExists : string := "ALREADY_EXISTED".
Definition errStrMigrationRunning : string := "MIGRATION_RUNNING".
Definition errStrNoAvailableResource : string := "NO_AVAILABLE_RESOURCE".
Definition errStrFreeNodeFound : string := "FREE_NODE_FOUND".
Definition errStrFreeNodeNotFound : string := "FREE_NODE_NOT_FOUND".
Definition errStrRetry : string := "RETRY".
Definition errStrExternalTimeout : string := "EXTERNAL_TIMEOUT".
Definition errStrProxyResourceOutOfOrder : string := "PROXY_RESOURCE_OUT_OF_ORDER".

(** The client: the API version that every URL carries. *)
Record brokerClient := MkBrokerClient { apiVersion : string }.
Definition newBrokerClient (version : string) : brokerClient := MkBrokerClient version.

(** [ok && response.Error == name], where [response, ok] is the assertion that
    [res.Error()] is an [errorResponse]. *)
Definition error_is (res : http_response) (name : string) : bool :=
  match ErrorField res with Some e => String.eqb e name | None => false end.
Definition status (res : http_response) (code : Z) : bool := StatusCode res =? code.

Definition bad_status (prefix : string) (res : http_response) : error :=
  ErrMsg (prefix +:+ ": invalid status code " +:+ itoa (StatusCode res) +:+ ": " +:+ Body res).

Section client.
Context (client : brokerClient).

Definition url (address path : string) : string :=
  "http://" +:+ address +:+ "/api/" +:+ apiVersion client +:+ path.

Definition getReplicaAddresses (address : string) : go (res (list string)) :=
  res ←? api_call (Http (MkHttp GET (url address "/config") None));
  if status res 504 && error_is res errStrExternalTimeout then mret (Err errExternalTimeout)
  else if negb (status res 200) then
    mret (Err (ErrMsg ("Failed to get replica addresses from broker: invalid status code "
                       +:+ itoa (StatusCode res))))
  else match Result res with
       | Some (brokerConfigPayload addresses) => mret (Ok addresses)
       | _ => mret (Err (ErrMsg ("Failed to get replica addresses from broker: invalid response payload "
                                 +:+ Body res)))
       end.

Definition getEpoch (address : string) : go (res Z) :=
  res ←? api_call (Http (MkHttp GET (url address "/epoch") None));
  if status res 504 && error_is res errStrExternalTimeout then mret (Err errExternalTimeout)
  else if negb (status res 200) then
    mret (Err (ErrMsg ("Failed to get broker epoch: invalid status code "
                       +:+ itoa (StatusCode res))))
  else match parse_int (Body res) with
       | (epoch, None) => mret (Ok epoch)
       | _ => mret (Err (ErrMsg ("Invalid epoch from broker: " +:+ Body res)))
       end.

(** The last assertion has no [ok]: another type of result is a panic. *)
Definition getServerProxies (address : string) : go (res (list string)) :=
  res ←? api_call (Http (MkHttp GET (url address "/proxies/addresses") None));
  if status res 504 && error_is res errStrExternalTimeout then mret (Err errExternalTimeout)
  else if negb (status res 200) then
    mret (Err (bad_status "Failed to register server proxy" res))
  else match Result res with
       | Some (queryServerProxyResponse addresses) => mret (Ok addresses)
       | _ => Crash
       end.

Definition setBrokerReplicas (address : string) (replicaAddresses : list string) : go (res unit) :=
  res ←? api_call (Http (MkHttp PUT (url address "/config")
                           (Some (brokerConfigPayload replicaAddresses))));
  if status res 504 && error_is res errStrExternalTimeout then mret (Err errExternalTimeout)
  else if status res 409 && error_is res errStrRetry then mret (Err errRetryReconciliation)
  else if negb (status res 200) then
    mret (Err (bad_status "Failed to register server proxy" res))
  else mret (Ok ()).

Definition registerServerProxy (address : string) (proxy : serverProxyMeta) : go (res unit) :=
  res ←? api_call (Http (MkHttp POST (url address "/proxies/meta")
                           (Some (serverProxyPayload proxy))));
  if status res 504 && error_is res errStrExternalTimeout then mret (Err errExternalTimeout)
  else if status res 409 && error_is res errStrRetry then mret (Err errRetryReconciliation)
  else if negb (status res 200) && negb (status res 409) then
    mret (Err (bad_status "Failed to register server proxy" res))
  else mret (Ok ()).

Definition deregisterServerProxy (address proxyAddress : string) : go (res unit) :=
  res ←? api_call (Http (MkHttp DELETE (url address ("/proxies/meta/" +:+ proxyAddress)) None));
  if status res 504 && error_is res errStrExternalTimeout then mret (Err errExternalTimeout)
  else if status res 409 && error_is res errStrRetry then mret (Err errRetryReconciliation)
  else if negb (status res 200) && negb (status res 404) then
    mret (Err (bad_status "Failed to deregister server proxy" res))
  else mret (Ok ()).

(** [chunkNumber * chunkNodeNumber] on [int]. *)
Definition node_number (chunkNumber : Z) : Z := to_int64 (chunkNumber * chunkNodeNumber).

Definition createCluster (address clusterName : string) (chunkNumber : Z) : go (res unit) :=
  res ←? api_call (Http (MkHttp POST (url address ("/clusters/meta/" +:+ clusterName))
                           (Some (createClusterPayload (node_number chunkNumber)))));
  if status res 200 then mret (Ok ())
  else if status res 504 && error_is res errStrExternalTimeout then mret (Err errExternalTimeout)
  else if status res 409 && error_is res errStrNoAvailableResource then
    mret (Err errRetryReconciliation)
  else if status res 409 && error_is res errStrAlreadyExists then mret (Ok ())
  else if status res 409 && error_is res errStrRetry then mret (Err errRetryReconciliation)
  else mret (Err (bad_status "Failed to register server proxy" res)).

Definition clusterExists (address clusterName : string) : go (res bool) :=
  res ←? api_call (Http (MkHttp GET (url address "/clusters/names") None));
  if status res 504 && error_is res errStrExternalTimeout then mret (Err errExternalTimeout)
  else if negb (status res 200) then
    mret (Err (bad_status "Failed to register server proxy" res))
  else match Result res with
       | Some (queryClusterNamesPayload names) =>
           mret (Ok (existsb (λ name, String.eqb name clusterName) names))
       | _ => mret (Err (ErrMsg ("Failed to get cluster names: invalid response payload "
                                 +:+ Body res)))
       end.

Definition scaleNodes (address clusterName : string) (chunkNumber : Z) : go (res unit) :=
  res ←? api_call (Http (MkHttp POST
           (url address ("/clusters/migrations/auto/" +:+ clusterName +:+ "/"
                         +:+ itoa (node_number chunkNumber))) None));
  if status res 200 then mret (Ok ())
  else if status res 504 && error_is res errStrExternalTimeout then mret (Err errExternalTimeout)
  else
    let refused := status res 409 || status res 400 in
    if refused && error_is res errStrMigrationRunning then mret (Err errMigrationRunning)
    else if refused && error_is res errStrFreeNodeFound then mret (Err errFreeNodeFound)
    else if refused && error_is res errStrRetry then mret (Err errRetryReconciliation)
    else if refused && error_is res errStrProxyResourceOutOfOrder then
      mret (Err errProxyResourceOutOfOrder)
    else mret (Err (bad_status "Failed to change node number" res)).

Definition removeFreeNodes (address clusterName : string) : go (res unit) :=
  res ←? api_call (Http (MkHttp DELETE (url address ("/clusters/free_nodes/" +:+ clusterName)) None));
  if status res 200 then mret (Ok ())
  else if status res 504 && error_is res errStrExternalTimeout then mret (Err errExternalTimeout)
  else
    let refused := status res 404 || status res 409 in
    if refused && error_is res errStrMigrationRunning then mret (Err errMigrationRunning)
    else if refused && error_is res errStrFreeNodeNotFound then mret (Ok ())
    else if refused && error_is res errStrRetry then mret (Err errRetryReconciliation)
    else mret (Err (bad_status "Failed to remove free nodes" res)).

Definition getClusterInfo (address clusterName : string) : go (res clusterInfo) :=
  res ←? api_call (Http (MkHttp GET (url address ("/clusters/info/" +:+ clusterName)) None));
  if status res 200 then
    match Result res with
    | Some (clusterInfoPayload info) => mret (Ok info)
    | _ => mret (Err (ErrMsg ("failed to get cluster info, invalid content " +:+ Body res)))
    end
  else if status res 504 && error_is res errStrExternalTimeout then mret (Err errExternalTimeout)
  else match status res 404, ErrorField res with
       | true, Some e => mret (Err (ErrMsg ("cluster info not found, error code " +:+ e)))
       | _, _ => mret (Err (bad_status "Failed to get cluster info" res))
       end.

Definition changeClusterConfig (address clusterName : string) (scanInterval scanCount : Z)
    : go (res unit) :=
  res ←? api_call (Http (MkHttp PATCH (url address ("/clusters/config/" +:+ clusterName))
           (Some (clusterConfigPayload (itoa scanInterval) (itoa scanCount)))));
  if status res 200 then mret (Ok ())
  else if status res 504 && error_is res errStrExternalTimeout then mret (Err errExternalTimeout)
  else match status res 404, ErrorField res with
       | true, Some e => mret (Err (ErrMsg ("cluster not found, error code " +:+ e)))
       | _, _ =>
           if status res 409 && error_is res errStrRetry then mret (Err errRetryReconciliation)
           else if status res 409 && error_is res errStrMigrationRunning then
             mret (Err errMigrationRunning)
           else mret (Err (bad_status "Failed to update cluster config" res))
       end.
End client.

(** [newServerProxyMeta(podHost, nodeIP, serverProxyPort, index)] *)
Definition newServerProxyMeta (podHost nodeIP : string) (serverProxyPort index : Z)
    : serverProxyMeta :=
  {| ProxyAddress := podHost +:+ ":" +:+ itoa serverProxyPort;
     RedisAddresses := (podHost +:+ ":" +:+ itoa redisPort1, podHost +:+ ":" +:+ itoa redisPort2);
     Host := nodeIP;
     Index := index |}.
