(* ===== verification/Resources.v ===== *)
(** * Creating and updating Kubernetes objects

    The broker, coordinator and storage controllers each have their own copy of
    three helpers: get a service or create it, get a StatefulSet or create it,
    and replace the spec of a StatefulSet.  The copies are the same code, modelled
    once here; the controllers instantiate it with their builders. *)
From S2P Require Import Prelude Prog Types Api Utils.

(** The body of [getOrCreateBrokerService], [getOrCreateCoordinatorService] and
    [getOrCreateStorageService], after the service was built. *)
Definition getOrCreateService (cr : Undermoon) (service : Service) : go (res Service) :=
  refs ←? api_call (SetControllerReference cr (sv_Meta service));
  let service := sv_set_meta (set_owner refs (sv_Meta service)) service in
  r ← api_call (GetService (MkName (m_Name (sv_Meta service)) (m_Namespace (sv_Meta service))));
  match r with
  | Err e => if IsNotFound e then api_call (CreateService service) else mret (Err e)
  | Ok found => mret (Ok found)
  end.

(** The body of the three [getOrCreate...StatefulSet]. *)
Definition getOrCreateStatefulSet (cr : Undermoon) (ss : StatefulSet) : go (res StatefulSet) :=
  refs ←? api_call (SetControllerReference cr (ss_Meta ss));
  let ss := ss_set_meta (set_owner refs (ss_Meta ss)) ss in
  r ← api_call (GetStatefulSet (MkName (m_Name (ss_Meta ss)) (m_Namespace (ss_Meta ss))));
  match r with
  | Err e => if IsNotFound e then api_call (CreateStatefulSet ss) else mret (Err e)
  | Ok found => mret (Ok found)
  end.

(** [client.Update] of a StatefulSet with a version check: a conflict is retried. *)
Definition sendStatefulSetUpdate (ss : StatefulSet) : go (res StatefulSet) :=
  if String.eqb (m_ResourceVersion (ss_Meta ss)) "" then
    mret (Err (ErrMsg "Empty ResourceVersion when updating statefulset"))
  else
    r ← api_call (UpdateStatefulSet ss);
    match r with
    | Ok ss' => mret (Ok ss')
    | Err e => mret (Err (if IsConflict e then errRetryReconciliation else e))
    end.

(** The body of the three [updateStatefulSetHelper], with the builder of the
    component; building the new spec may append to the shared affinity. *)
Definition updateStatefulSetSpec (build : Undermoon → StatefulSet * Undermoon)
    (ss : StatefulSet) : crM (res StatefulSet) :=
  cr ← get_cr;
  let '(newStatefulSet, cr') := build cr in
  put_cr cr';; lift (sendStatefulSetUpdate (ss_set_spec (ss_Spec newStatefulSet) ss)).

(** [getServiceEndpointsNum] of the three controllers. *)
Definition getServiceEndpointsNum (service : Service) : go (res Z) :=
  endpoints ←? getEndpoints (m_Name (sv_Meta service)) (m_Namespace (sv_Meta service));
  mret (Ok (Z.of_nat (length endpoints))).

(** [*ss.Spec.Replicas]: nil is a panic. *)
Definition deref_replicas (ss : StatefulSet) : go Z :=
  match sss_Replicas (ss_Spec ss) with Some n => mret n | None => Crash end.

(** The answer of a test that indexes the containers of a pod. *)
Definition or_panic {A} (o : option A) : go A :=
  match o with Some a => mret a | None => Crash end.

(** * Properties *)

Lemma wp_sendStatefulSetUpdate (C : contract k8s) ss (Q : history k8s → res StatefulSet → Prop) h :
  (String.eqb (m_ResourceVersion (ss_Meta ss)) "" = false → guar C h (UpdateStatefulSet ss)) →
  (∀ h' r, (∃ x, h' = h ++ [Ev (Σ := k8s) (UpdateStatefulSet ss) x] ∧ rely C h (UpdateStatefulSet ss) x ∧
                 r = match x with
                     | Ok ss' => Ok ss'
                     | Err e => Err (if IsConflict (ErrExt e) then errRetryReconciliation else ErrExt e)
                     end) ∨
           (h' = h ∧ ∃ e, r = Err e) → Q h' r) →
  wp C (sendStatefulSetUpdate ss) Q h.
Proof.
  intros HG HQ. unfold sendStatefulSetUpdate. destruct (String.eqb _ _) eqn:Hv.
  - apply wp_ret, HQ. eauto.
  - apply wp_bind, wp_api; [by apply HG|]. intros x Hx. cbn beta iota delta [eq_rect].
    destruct x as [ss'|e]; cbn [lift_err]; apply wp_ret, HQ; left; eauto.
Qed.

(** The number of addresses of a service, as [getEndpoints] finds them. *)
Definition endpoint_count (x : result ext_error Endpoints) : res Z :=
  match x with
  | Ok eps => Ok (Z.of_nat (length (concat (ep_Subsets eps))))
  | Err e => if IsNotFound (ErrExt e) then Ok 0 else Err (ErrExt e)
  end.

Definition endpoints_key (svc : Service) : operation :=
  GetEndpoints (MkName (m_Name (sv_Meta svc)) (m_Namespace (sv_Meta svc))).

Lemma run_getServiceEndpointsNum (E : env k8s) h svc :
  run_from E h (getServiceEndpointsNum svc) =
    (h ++ [Ev (Σ := k8s) (endpoints_key svc) (E h (endpoints_key svc))],
     Some (endpoint_count (E h (endpoints_key svc)))).
Proof.
  unfold getServiceEndpointsNum, getEndpoints. simpl.
  change (GetEndpoints _) with (endpoints_key svc).
  destruct (E h (endpoints_key svc)) as [eps|e]; simpl.
  - by rewrite foldl_app_concat.
  - by destruct (IsNotFound (ErrExt e)).
Qed.

Lemma wp_updateStatefulSetSpec (C : contract k8s) build ss cr
    (Q : history k8s → Undermoon * res StatefulSet → Prop) h :
  (∀ spec, guar C h (UpdateStatefulSet (ss_set_spec spec ss))) →
  (∀ h' r, Q h' r) →
  wp C (updateStatefulSetSpec build ss cr) Q h.
Proof.
  intros HG HQ. unfold updateStatefulSetSpec. do 2 go_step. cbn beta iota delta [fst snd].
  destruct (build cr) as [ss' cr']. do 3 go_step. apply wp_sendStatefulSetUpdate; auto.
Qed.

Lemma wp_getServiceEndpointsNum (C : contract k8s) svc (Q : history k8s → res Z → Prop) h :
  guar C h (endpoints_key svc) →
  (∀ x, rely C h (endpoints_key svc) x →
     Q (h ++ [Ev (Σ := k8s) (endpoints_key svc) x]) (endpoint_count x)) →
  wp C (getServiceEndpointsNum svc) Q h.
Proof.
  intros HG HQ. unfold getServiceEndpointsNum, getEndpoints. split; [done|]. intros x Hx.
  specialize (HQ x Hx). destruct x as [eps|e]; simpl in *.
  - by rewrite foldl_app_concat.
  - by destruct (IsNotFound (ErrExt e)).
Qed.
