(* ===== verification/BrokerController.v ===== *)
(** * The broker controller (src/controllers/broker_controller.go)

    Creates the broker's services and StatefulSet, tests their readiness, elects
    the master among the brokers that answer, publishes it in the status of the
    custom resource, and rolls the StatefulSet. *)
From S2P Require Import Prelude Prog GoStr Types Samples Api Utils Broker Storage BrokerClient Resources.

Section broker_controller.
Context `{OsEnv, QuantityEq} (client : brokerClient).

Definition getOrCreateBrokerService (public : bool) : crM (res Service) :=
  cr ← get_cr;
  lift (getOrCreateService cr
          (if public then createBrokerPublicService cr else createBrokerService cr)).

Definition getOrCreateBrokerStatefulSet : crM (res StatefulSet) :=
  cr ← get_cr;
  let '(broker, cr') := createBrokerStatefulSet cr in
  put_cr cr';; lift (getOrCreateStatefulSet cr' broker).

Definition createBroker : crM (res (StatefulSet * Service)) :=
  brokerService ←? createServiceGuard (getOrCreateBrokerService false);
  _ ←? createServiceGuard (getOrCreateBrokerService true);
  brokerStatefulSet ←? createStatefulSetGuard getOrCreateBrokerStatefulSet;
  mret (Ok (brokerStatefulSet, brokerService)).

Definition brokerReady (ss : StatefulSet) (svc : Service) : go (res bool) :=
  n ←? getServiceEndpointsNum svc;
  mret (Ok ((brokerNum - 1 <=? sst_ReadyReplicas (ss_Status ss)) && (brokerNum - 1 <=? n))).

Definition brokerAllReady (ss : StatefulSet) (svc : Service) : go (res bool) :=
  n ←? getServiceEndpointsNum svc;
  mret (Ok ((sst_ReadyReplicas (ss_Status ss) =? brokerNum) && (brokerNum <=? n))).

(** The patch sets [status.masterBrokerAddress]; the answer replaces the custom
    resource in memory. *)
Definition setMasterBrokerStatus (masterBrokerAddress : string) : crM (res unit) :=
  cr ← get_cr;
  let patch := raw "{`status`:{`masterBrokerAddress`:`" +:+ masterBrokerAddress +:+ raw "`}}" in
  r ← lift (api_call (StatusPatch cr patch));
  match r with
  | Ok cr' => put_cr cr';; mret (Ok ())
  | Err e => mret (Err e)
  end.

(** The first loop: the brokers that have replicas; an error skips the broker. *)
Fixpoint collectMasters (addresses masterBrokers : list string) : go (list string) :=
  match addresses with
  | [] => mret masterBrokers
  | address :: addresses =>
      r ← getReplicaAddresses client address;
      collectMasters addresses
        match r with
        | Ok (_ :: _) => masterBrokers ++ [address]
        | _ => masterBrokers
        end
  end.

(** The second loop: the broker of the greatest epoch; an error skips it. *)
Fixpoint maxEpochLoop (masterBrokers : list string) (maxEpoch : Z) (maxEpochBroker : string)
    : go string :=
  match masterBrokers with
  | [] => mret maxEpochBroker
  | address :: masterBrokers =>
      r ← getEpoch client address;
      match r with
      | Ok epoch =>
          if String.eqb maxEpochBroker "" || (maxEpoch <? epoch)
          then maxEpochLoop masterBrokers epoch address
          else maxEpochLoop masterBrokers maxEpoch maxEpochBroker
      | Err _ => maxEpochLoop masterBrokers maxEpoch maxEpochBroker
      end
  end.

Definition getCurrentMaster (brokerAddresses : list string) : go (res string) :=
  match brokerAddresses with
  | [] => mret (Err (ErrMsg "broker addresses is empty"))
  | _ =>
      masterBrokers ← collectMasters brokerAddresses [];
      match masterBrokers with
      | [master] => mret (Ok master)
      | [] => m ← maxEpochLoop brokerAddresses 0 ""; mret (Ok m)
      | _ => m ← maxEpochLoop masterBrokers 0 ""; mret (Ok m)
      end
  end.

Definition reconcileMaster (brokerService : Service) : crM (res (string * list string)) :=
  endpoints ←? lift (getEndpoints (m_Name (sv_Meta brokerService))
                       (m_Namespace (sv_Meta brokerService)));
  cr ← get_cr;
  let brokerAddresses := (λ e, genBrokerAddressFromName (ea_Hostname e) cr) <$> endpoints in
  currMaster ←? lift (getCurrentMaster brokerAddresses);
  _ ←? setMasterBrokerStatus currMaster;
  let replicaAddresses := filter (λ address, address ≠ currMaster) brokerAddresses in
  mret (Ok (currMaster, replicaAddresses)).

Definition broker_updateStatefulSetHelper : StatefulSet → crM (res StatefulSet) :=
  updateStatefulSetSpec createBrokerStatefulSet.

Definition broker_triggerStatefulSetRollingUpdate (ss : StatefulSet) (svc : Service)
    : crM (res StatefulSet) :=
  ss' ←? broker_updateStatefulSetHelper ss;
  ready ←? lift (brokerAllReady ss' svc);
  if ready : bool then mret (Ok ss') else mret (Err errRetryReconciliation).

Definition broker_needRollingUpdate (cr : Undermoon) (ss : StatefulSet) : go bool :=
  or_panic (brokerStatefulSetChanged cr ss).
End broker_controller.

(** * Properties *)

Section election.
Context (client : brokerClient).

(** The brokers answer the same to every query of the election: [rep a] is the
    list of replicas that the broker [a] reports, [ep a] its epoch. *)
Definition brokers_answer (E : env k8s) (rep : string → res (list string)) (ep : string → res Z)
    (addresses : list string) : Prop :=
  ∀ h a, a ∈ addresses →
    (∃ ev, run_from E h (getReplicaAddresses client a) = (h ++ [ev], Some (rep a))) ∧
    (∃ ev, run_from E h (getEpoch client a) = (h ++ [ev], Some (ep a))).

Definition has_replicas (rep : string → res (list string)) (a : string) : bool :=
  match rep a with Ok (_ :: _) => true | _ => false end.

(** [m] has the greatest epoch of the brokers that answer, the first of them on a
    tie; it is empty when none answers. *)
Definition first_max (ep : string → res Z) (candidates : list string) (m : string) : Prop :=
  (m = "" ∧ ∀ a, a ∈ candidates → ∃ e, ep a = Err e) ∨
  (∃ l1 l2 e, candidates = l1 ++ m :: l2 ∧ ep m = Ok e ∧
     (∀ a e', a ∈ l1 → ep a = Ok e' → e' < e) ∧ (∀ a e', a ∈ l2 → ep a = Ok e' → e' ≤ e)).

Lemma run_collectMasters E rep ep addresses h acc :
  brokers_answer E rep ep addresses →
  ∃ h', run_from E h (collectMasters client addresses acc) =
          (h', Some (acc ++ filter (λ a, has_replicas rep a = true) addresses)).
Proof.
  intros HE. revert h acc. induction addresses as [|a addresses IH]; intros h acc; cbn [collectMasters].
  - exists h. by rewrite filter_nil, app_nil_r.
  - destruct (HE h a) as [[ev Hrun] _]; [by left|].
    rewrite run_bind, Hrun.
    edestruct (λ H, IH H (h ++ [ev])) as [h' ->]; [intros ? ? ?; apply HE; by right|].
    exists h'. do 2 f_equal. rewrite filter_cons. unfold has_replicas.
    by destruct (rep a) as [[|]|]; simpl; rewrite <- ?app_assoc.
Qed.

(** One more candidate: it wins against nothing or a smaller epoch, it loses
    otherwise. *)
Lemma first_max_wins ep pre b a e :
  first_max ep pre b → Forall (λ a, a ≠ "") pre → ep a = Ok e →
  (b ≠ "" → ∀ e0, ep b = Ok e0 → e0 < e) → first_max ep (pre ++ [a]) a.
Proof.
  intros Hb Hne Ha Hlt. right. exists pre, [], e. split; [done|]. split; [done|].
  split; [|set_solver]. intros a' e' Hin He'.
  destruct Hb as [[_ Herr]|(l1 & l2 & e0 & -> & He0 & Hl1 & Hl2)].
  - destruct (Herr a' Hin). congruence.
  - assert (b ≠ "") as Hbe by (by apply Forall_app in Hne as [_ ?%Forall_inv]).
    specialize (Hlt Hbe _ He0).
    apply elem_of_app in Hin as [Hin|Hin]; [specialize (Hl1 _ _ Hin He'); lia|].
    apply elem_of_cons in Hin as [->|Hin]; [rewrite He0 in He'; simplify_eq; lia|].
    specialize (Hl2 _ _ Hin He'). lia.
Qed.

Lemma first_max_loses ep pre b a :
  first_max ep pre b → (∀ e, ep a = Ok e → b ≠ "" ∧ ∃ e0, ep b = Ok e0 ∧ e ≤ e0) →
  Forall (λ a, a ≠ "") pre → first_max ep (pre ++ [a]) b.
Proof.
  intros Hb Ha Hne. destruct Hb as [[-> Herr]|(l1 & l2 & e0 & -> & He0 & Hl1 & Hl2)]; [left|right].
  - split; [done|]. intros a' [Hin|Hin]%elem_of_app; [eauto|].
    apply list_elem_of_singleton in Hin as ->.
    destruct (ep a) as [e|e]; [|eauto]. by destruct (Ha e eq_refl) as [[] _].
  - exists l1, (l2 ++ [a]), e0. split; [by rewrite <- app_assoc|]. split; [done|].
    split; [done|]. intros a' e' [Hin|Hin]%elem_of_app He'; [eauto|].
    apply list_elem_of_singleton in Hin as ->. destruct (Ha _ He') as (_ & e1 & He1 & ?).
    rewrite He0 in He1. by simplify_eq.
Qed.

Lemma run_maxEpochLoop E rep ep pre rest h maxEpoch b :
  brokers_answer E rep ep rest → Forall (λ a, a ≠ "") (pre ++ rest) →
  first_max ep pre b → (b ≠ "" → ep b = Ok maxEpoch) →
  ∃ h' m, run_from E h (maxEpochLoop client rest maxEpoch b) = (h', Some m) ∧
          first_max ep (pre ++ rest) m.
Proof.
  intros HE Hne. revert pre h maxEpoch b HE Hne.
  induction rest as [|a rest IH]; intros pre h maxEpoch b HE Hne Hb Hmax; cbn [maxEpochLoop].
  { rewrite app_nil_r. eauto. }
  destruct (HE h a) as [_ [ev Hrun]]; [by left|]. rewrite run_bind, Hrun.
  assert (brokers_answer E rep ep rest) as HE' by (intros ? ? ?; apply HE; by right).
  assert (pre ++ a :: rest = (pre ++ [a]) ++ rest) as Heq by by rewrite <- app_assoc.
  rewrite Heq in Hne |- *.
  assert (Forall (λ a, a ≠ "") pre) as Hpre
    by (by apply Forall_app in Hne as [[? _]%Forall_app _]).
  destruct (ep a) as [e|e] eqn:Hep; [|apply IH; [done..|by apply first_max_loses; congruence|done]].
  destruct (String.eqb_spec b "") as [->|Hbe]; cbn [orb].
  { apply IH; [done..| |done]. by eapply first_max_wins. }
  destruct (Z.ltb_spec maxEpoch e) as [Hlt|Hge].
  - apply IH; [done..| |done]. eapply first_max_wins; [done..|].
    intros _ e0. rewrite Hmax by done. by intros [= <-].
  - apply IH; [done..| |done]. apply first_max_loses; [done| |done].
    intros e'. rewrite Hep. intros [= <-]. eauto.
Qed.

(** C19. The election.  When every broker answers its two queries consistently, the
    election returns the one broker that reports replicas, when there is exactly
    one; otherwise the first broker of the greatest epoch, among those that
    report replicas or, when none does, among all.  When every epoch query fails
    the result is the empty address with no error, and an empty list of brokers
    is the only error. *)
Theorem getCurrentMaster_spec (E : env k8s) (h : history k8s)
    (rep : string → res (list string)) (ep : string → res Z) (addresses : list string)
    (HE : brokers_answer E rep ep addresses) (Hne : Forall (λ a, a ≠ "") addresses)
    (Hsome : addresses ≠ []) :
  let masters := filter (λ a, has_replicas rep a = true) addresses in
  ∃ h' m, run_from E h (getCurrentMaster client addresses) = (h', Some (Ok m)) ∧
    match masters with
    | [master] => m = master
    | [] => first_max ep addresses m
    | _ => first_max ep masters m
    end.
Proof.
  intros masters.
  assert (brokers_answer E rep ep masters) as HEm
    by (intros h2 a [_ Ha]%list_elem_of_filter; by apply HE).
  assert (Forall (λ a, a ≠ "") masters) as Hnem by by apply Forall_filter.
  destruct (run_collectMasters E rep ep addresses h [] HE) as [h1 Hc].
  fold masters in Hc. clearbody masters. unfold getCurrentMaster.
  destruct addresses as [|a0 rest]; [done|]. cbn iota.
  rewrite run_bind, Hc. cbn [app].
  assert (first_max ep [] "") as H0 by (left; set_solver).
  destruct masters as [|m0 [|m1 ms]].
  - destruct (run_maxEpochLoop E rep ep [] (a0 :: rest) h1 0 "" HE Hne H0) as (h2 & m & Hrun & Hm);
      [done|]. rewrite run_bind, Hrun. eauto.
  - eauto.
  - destruct (run_maxEpochLoop E rep ep [] (m0 :: m1 :: ms) h1 0 "" HEm Hnem H0)
      as (h2 & m & Hrun & Hm); [done|]. rewrite run_bind, Hrun. eauto.
Qed.

(** The broker of the second epoch query, for the witness. *)
Definition epochs_env : env k8s := λ _ o,
  match o with
  | Http r => Ok (MkResponse 200 (if String.eqb (hr_url r) (url client "b" "/epoch") then "9" else "7")
                    None (Some (brokerConfigPayload [])))
  | Now => 0
  | _ => Err (ExtOther "unavailable")
  end.
End election.

Lemma getCurrentMaster_witness :
  ∃ h m, run_from (epochs_env (newBrokerClient "v3")) []
           (getCurrentMaster (newBrokerClient "v3") ["a"; "b"]) = (h, Some (Ok m)) ∧ m = "b".
Proof.
  destruct (getCurrentMaster_spec (newBrokerClient "v3") (epochs_env (newBrokerClient "v3")) []
    (λ _, Ok []) (λ a, Ok (if String.eqb a "b" then 9 else 7)) ["a"; "b"]) as (h & m & Hrun & Hm).
  - intros h a Ha. apply list_elem_of_In in Ha. simpl in Ha.
    destruct Ha as [<-|[<-|[]]]; (split; eexists; vm_compute; reflexivity).
  - repeat constructor; done.
  - done.
  - exists h, m. split; [exact Hrun|]. destruct Hm as [[_ Herr]|(l1 & l2 & e & Hl & He & H1 & H2)].
    + destruct (Herr "a") as [? [=]]. by left.
    + destruct l1 as [|x [|y [|z l1]]]; simplify_eq/=; try done.
Defined.


(** ** Publishing the master *)

(** The patch of the status, and the addresses of the brokers behind endpoints. *)
Definition master_patch (master : string) : string :=
  raw "{`status`:{`masterBrokerAddress`:`" +:+ master +:+ raw "`}}".
Definition broker_addresses (cr : Undermoon) (eps : Endpoints) : list string :=
  (λ e, genBrokerAddressFromName (ea_Hostname e) cr) <$> concat (ep_Subsets eps).

(** A request that reads from a broker. *)
Definition reading (e : event k8s) : Prop := ∃ r, ev_op e = Http r ∧ hr_method r = GET.

Section publish.
Context (client : brokerClient) (C : contract k8s).
Context (Hget : ∀ h r, hr_method r = GET → guar C h (Http r)).

(** Both queries of the election are one read. *)
Lemma wp_getReplicaAddresses a (Q : history k8s → res (list string) → Prop) h :
  (∀ e r, reading e → Q (h ++ [e]) r) → wp C (getReplicaAddresses client a) Q h.
Proof. intros HQ. unfold getReplicaAddresses. go_run; first [by apply Hget | apply HQ; by eexists]. Qed.

Lemma wp_getEpoch a (Q : history k8s → res Z → Prop) h :
  (∀ e r, reading e → Q (h ++ [e]) r) → wp C (getEpoch client a) Q h.
Proof. intros HQ. unfold getEpoch. go_run; first [by apply Hget | apply HQ; by eexists]. Qed.

Lemma wp_collectMasters addresses acc (Q : history k8s → list string → Prop) h :
  (∀ q l, Forall reading q → (∀ a, a ∈ l → a ∈ acc ++ addresses) → Q (h ++ q) l) →
  wp C (collectMasters client addresses acc) Q h.
Proof.
  revert acc h. induction addresses as [|a addresses IH]; intros acc h HQ; cbn [collectMasters].
  - apply wp_ret. rewrite <- (app_nil_r h). apply HQ; [done|]. intros a. by rewrite app_nil_r.
  - apply wp_bind, wp_getReplicaAddresses. intros e r He. apply IH. intros q l Hq Hl.
    rewrite <- app_assoc. apply HQ; [by constructor|]. intros x Hx%Hl.
    destruct r as [[|]|]; set_solver.
Qed.

Lemma wp_maxEpochLoop rest maxEpoch b (Q : history k8s → string → Prop) h :
  (∀ q m, Forall reading q → m ∈ b :: rest → Q (h ++ q) m) →
  wp C (maxEpochLoop client rest maxEpoch b) Q h.
Proof.
  revert maxEpoch b h. induction rest as [|a rest IH]; intros maxEpoch b h HQ; cbn [maxEpochLoop].
  - apply wp_ret. rewrite <- (app_nil_r h). apply HQ; [done|by left].
  - apply wp_bind, wp_getEpoch. intros e r He.
    assert (∀ b', b' = b ∨ b' = a → ∀ q m, Forall reading q → m ∈ b' :: rest →
      Q ((h ++ [e]) ++ q) m) as HQ'.
    { intros b' Hb' q m Hq Hm. rewrite <- app_assoc. apply HQ; [by constructor|].
      destruct Hb' as [-> | ->]; set_solver. }
    destruct r as [epoch|err]; [destruct (_ || _)|]; apply IH, HQ'; auto.
Qed.

Lemma wp_getCurrentMaster addresses (Q : history k8s → res string → Prop) h :
  (∀ h' e, Q h' (Err e)) →
  (∀ q m, Forall reading q → m = "" ∨ m ∈ addresses → Q (h ++ q) (Ok m)) →
  wp C (getCurrentMaster client addresses) Q h.
Proof.
  intros Herr HQ. unfold getCurrentMaster. destruct addresses as [|a rest]; [by apply wp_ret|].
  apply wp_bind, wp_collectMasters. intros q1 masters Hq1 Hm. cbn [app] in Hm.
  assert (∀ q m, Forall reading q → m = "" ∨ m ∈ a :: rest → Q ((h ++ q1) ++ q) (Ok m)) as HQ'.
  { intros q m Hq Hin. rewrite <- app_assoc. apply HQ; [by apply Forall_app|done]. }
  destruct masters as [|m0 [|m1 ms]].
  - apply wp_bind, wp_maxEpochLoop. intros q m Hq Hin. apply wp_ret, HQ'; [done|]. set_solver.
  - apply wp_ret, HQ; [done|]. right. apply Hm. by left.
  - apply wp_bind, wp_maxEpochLoop. intros q m Hq [->|Hin]%elem_of_cons; apply wp_ret, HQ';
      [done|by left|done|]. right. by apply Hm.
Qed.

(** A successful election: the endpoints of the service are read, then the brokers are
    asked, and the patch with the master is answered last. *)
Definition elected (svc : Service) (cr : Undermoon) (master : string) (replicas : list string)
    (cr' : Undermoon) (t : history k8s) : Prop :=
  ∃ eps q, t = Ev (Σ := k8s) (endpoints_key svc) (Ok eps) ::
                 q ++ [Ev (Σ := k8s) (StatusPatch cr (master_patch master)) (Ok cr')] ∧
    Forall reading q ∧ (master = "" ∨ master ∈ broker_addresses cr eps) ∧
    replicas = filter (λ a, a ≠ master) (broker_addresses cr eps).

Lemma wp_reconcileMaster svc cr (Q : history k8s → Undermoon * res (string * list string) → Prop) h :
  guar C h (endpoints_key svc) →
  (∀ h' patch, guar C h' (StatusPatch cr patch)) →
  (∀ h' cr' e, Q h' (cr', Err e)) →
  (∀ t master replicas cr', elected svc cr master replicas cr' t →
     (∀ e, head t = Some e → match e with Ev o x => rely C h o x end) →
     Q (h ++ t) (cr', Ok (master, replicas))) →
  wp C (reconcileMaster client svc cr) Q h.
Proof.
  intros HGe HGp Herr HQ. unfold reconcileMaster, setMasterBrokerStatus, getEndpoints.
  go_run; try apply Herr; try done.
  rewrite foldl_app_concat; cbn [app].
  apply wp_getCurrentMaster; [intros; apply Herr|]. intros q m Hq Hm.
  go_run; [|apply Herr]. rewrite <- !app_assoc. apply HQ.
  - do 2 eexists. split; [done|]. by repeat split.
  - by intros e [= <-].
Qed.
End publish.

(** Two brokers that report replicas and epoch 7. *)
Definition two_brokers : Endpoints :=
  MkEndpoints [[MkEndpointAddress "c-bk-ss-0" "10.0.0.1"; MkEndpointAddress "c-bk-ss-1" "10.0.0.2"]].
Definition election_env : env k8s := λ _ o,
  match o with
  | GetEndpoints _ => Ok two_brokers
  | Http r => Ok (MkResponse 200 "7" None (Some (brokerConfigPayload ["x"])))
  | StatusPatch cr _ => Ok cr
  | Now => 0
  | _ => Err (ExtOther "unavailable")
  end.

(** C20. Electing and publishing, in any environment: a successful run asked for the
    endpoints of the broker's service first; the master is the address of one of
    them, or empty; it was published by a status patch that was answered last and
    whose answer is the custom resource from then on; and the replicas are the
    other addresses, in order. *)
Theorem reconcileMaster_spec (client : brokerClient) (E : env k8s) (h h' : history k8s)
    (svc : Service) (cr cr' : Undermoon) (master : string) (replicas : list string)
    (Hrun : run_from E h (reconcileMaster client svc cr) = (h', Some (cr', Ok (master, replicas)))) :
  let key := GetEndpoints (MkName (m_Name (sv_Meta svc)) (m_Namespace (sv_Meta svc))) in
  let patch := raw "{`status`:{`masterBrokerAddress`:`" +:+ master +:+ raw "`}}" in
  ∃ eps t, E h key = Ok eps ∧
    let addresses := (λ e, genBrokerAddressFromName (ea_Hostname e) cr) <$> concat (ep_Subsets eps) in
    (master = "" ∨ master ∈ addresses) ∧
    replicas = filter (λ a, a ≠ master) addresses ∧
    h' = h ++ Ev (Σ := k8s) key (Ok eps) :: t ++ [Ev (Σ := k8s) (StatusPatch cr patch) (Ok cr')].
Proof.
  intros key patch. revert Hrun. apply run_answers.
  apply wp_reconcileMaster; [done..|intros ? ? ? _ [=]|].
  intros t m reps cr1 (eps & q & -> & _ & Hm & ->) Hrely <- [= <- <- <-].
  exists eps, q. split; [|done]. symmetry. exact (Hrely _ eq_refl).
Qed.

Lemma reconcileMaster_witness :
  ∃ t, (run_from election_env [] (reconcileMaster (newBrokerClient "v3")
                                    (sample_service "c-bk-svc") (sample_cr 2))).1 =
       Ev (Σ := k8s) (GetEndpoints (MkName "c-bk-svc" "ns")) (Ok two_brokers) :: t.
Proof.
  destruct (run_from election_env [] (reconcileMaster (newBrokerClient "v3")
    (sample_service "c-bk-svc") (sample_cr 2))) as [h' [[cr' [[m reps]|e]]|]] eqn:Hrun.
  - destruct (reconcileMaster_spec (newBrokerClient "v3") election_env [] h'
      (sample_service "c-bk-svc") (sample_cr 2) cr' m reps Hrun)
      as (eps & t & Heps & _ & _ & ->).
    injection Heps as <-. eauto.
  - vm_compute in Hrun. discriminate Hrun.
  - vm_compute in Hrun. discriminate Hrun.
Defined.
