(* ===== verification/CoordinatorController.v ===== *)
(** * The coordinator controller (src/controllers/coordinator_controller.go and
      coordinator_client.go)

    Creates the coordinator's service and StatefulSet, tests their readiness,
    tells every coordinator which broker is the master through the Redis client
    pool, and rolls the StatefulSet. *)
From S2P Require Import Prelude Prog GoStr Types Samples Api Utils Coordinator Resources.

(** ** The Redis clients of the coordinators *)

Definition coordinatorClient_setBrokerAddress (client : redisClient) (brokerAddress : string)
    : go (res unit) :=
  _ ←? api_call (RedisProcess (Addr client) ["CONFIG"; "SET"; "brokers"; brokerAddress]);
  mret (Ok ()).

Definition setBrokerAddress (pool : redisClientPool) (coordAddress brokerAddress : string)
    : go (redisClientPool * res unit) :=
  let '(c, pool') := getClient pool coordAddress in
  r ← coordinatorClient_setBrokerAddress c brokerAddress;
  mret (pool', r).

Section coordinator_controller.
Context `{QuantityEq}.

Definition getOrCreateCoordinatorService : crM (res Service) :=
  cr ← get_cr; lift (getOrCreateService cr (createCoordinatorService cr)).

Definition getOrCreateCoordinatorStatefulSet : crM (res StatefulSet) :=
  cr ← get_cr;
  let '(coordinator, cr') := createCoordinatorStatefulSet cr in
  put_cr cr';; lift (getOrCreateStatefulSet cr' coordinator).

Definition createCoordinator : crM (res (StatefulSet * Service)) :=
  coordinatorService ←? createServiceGuard getOrCreateCoordinatorService;
  coordinatorStatefulSet ←? createStatefulSetGuard getOrCreateCoordinatorStatefulSet;
  mret (Ok (coordinatorStatefulSet, coordinatorService)).

Definition coordinatorReady (ss : StatefulSet) (svc : Service) : go (res bool) :=
  n ←? getServiceEndpointsNum svc;
  mret (Ok ((1 <=? sst_ReadyReplicas (ss_Status ss)) && (1 <=? n))).

Definition coordiantorAllReady (ss : StatefulSet) (svc : Service) : go (res bool) :=
  n ←? getServiceEndpointsNum svc;
  mret (Ok ((coordinatorNum <=? sst_ReadyReplicas (ss_Status ss)) && (coordinatorNum <=? n))).

(** The loop assigns every result to the one variable [err]; what is left in it
    after the last coordinator is returned. *)
Fixpoint setBrokerLoop (pool : redisClientPool) (addresses : list string) (brokerAddress : string)
    (err : res unit) : go (redisClientPool * res unit) :=
  match addresses with
  | [] => mret (pool, err)
  | address :: addresses =>
      '(pool', err') ← setBrokerAddress pool address brokerAddress;
      setBrokerLoop pool' addresses brokerAddress err'
  end.

Definition configSetBroker (pool : redisClientPool) (cr : Undermoon)
    (coordinatorService : Service) (masterBrokerAddress : string)
    : go (redisClientPool * res unit) :=
  r ← getEndpoints (m_Name (sv_Meta coordinatorService)) (m_Namespace (sv_Meta coordinatorService));
  match r with
  | Err e => mret (pool, Err e)
  | Ok endpoints =>
      setBrokerLoop pool ((λ e, genCoordinatorAddressFromName (ea_Hostname e) cr) <$> endpoints)
        masterBrokerAddress (Ok ())
  end.

Definition coordinator_updateStatefulSetHelper : StatefulSet → crM (res StatefulSet) :=
  updateStatefulSetSpec createCoordinatorStatefulSet.

Definition coordinator_triggerStatefulSetRollingUpdate (ss : StatefulSet) (svc : Service)
    : crM (res StatefulSet) :=
  ss' ←? coordinator_updateStatefulSetHelper ss;
  ready ←? lift (coordiantorAllReady ss' svc);
  if ready : bool then mret (Ok ss') else mret (Err errRetryReconciliation).

Definition coordinator_needRollingUpdate (cr : Undermoon) (ss : StatefulSet) : go bool :=
  or_panic (coordinatorStatefulSetChanged cr ss).
End coordinator_controller.

(** * Properties *)

(** The command that tells a coordinator its broker, and its outcome. *)
Definition set_brokers (broker address : string) : operation :=
  RedisProcess address ["CONFIG"; "SET"; "brokers"; broker].

Definition redis_outcome (e : event k8s) : res unit :=
  match e with
  | Ev (RedisProcess _ _) (Ok _) => Ok ()
  | Ev (RedisProcess _ _) (Err e) => Err (ErrExt e)
  | _ => Ok ()
  end.

Lemma run_setBrokerLoop E h pool addresses broker err :
  pool_wf pool →
  ∃ events pool',
    run_from E h (setBrokerLoop pool addresses broker err) =
      (h ++ events, Some (pool', from_option redis_outcome err (last events))) ∧
    calls events = set_brokers broker <$> addresses ∧
    pool_wf pool' ∧ dom pool' = dom pool ∪ list_to_set addresses.
Proof.
  revert h pool err. induction addresses as [|a addresses IH]; intros h pool err Hwf;
    cbn [setBrokerLoop].
  - exists [], pool. rewrite app_nil_r. set_solver.
  - unfold setBrokerAddress. destruct (getClient pool a) as [c pool1] eqn:Hg.
    destruct (getClient_wf _ _ _ _ Hwf Hg) as (Hwf1 & Hc & _ & _).
    assert (dom pool1 = {[a]} ∪ dom pool) as Hdom.
    { unfold getClient in Hg. destruct (pool !! a) eqn:Hl; simplify_eq/=; [|set_solver].
      apply elem_of_dom_2 in Hl. set_solver. }
    unfold coordinatorClient_setBrokerAddress. rewrite Hc. rewrite !run_bind. simpl.
    set (x := E h _).
    destruct (IH (h ++ [Ev (Σ := k8s) (set_brokers broker a) x]) pool1
      (redis_outcome (Ev (Σ := k8s) (set_brokers broker a) x)) Hwf1)
      as (events & pool' & Hrun & Hcalls & Hwf' & Hdom').
    exists (Ev (Σ := k8s) (set_brokers broker a) x :: events), pool'. split.
    + transitivity (run_from E (h ++ [Ev (Σ := k8s) (set_brokers broker a) x])
        (setBrokerLoop pool1 addresses broker (redis_outcome (Ev (Σ := k8s) (set_brokers broker a) x)))).
      * by destruct x.
      * rewrite Hrun, <- app_assoc, last_cons. by destruct (last events).
    + split; [by unfold calls in *; rewrite !fmap_cons, Hcalls|]. set_solver.
Qed.

(** C24. Telling the coordinators the master: with a pool whose clients are filed
    under their own addresses, the run asks for the endpoints of the service,
    sends [CONFIG SET brokers] with the master's address to the address of every
    coordinator, in order and whether or not the ones before failed, keeps the
    pool well formed and adds a client per address.  The error it returns is that
    of the last coordinator alone: failures of the others are lost. *)
Theorem configSetBroker_spec (E : env k8s) (h : history k8s) (pool : redisClientPool)
    (cr : Undermoon) (svc : Service) (master : string) (eps : Endpoints)
    (Hpool : pool_wf pool)
    (Heps : E h (GetEndpoints (MkName (m_Name (sv_Meta svc)) (m_Namespace (sv_Meta svc)))) = Ok eps) :
  let addresses := (λ e, genCoordinatorAddressFromName (ea_Hostname e) cr) <$> concat (ep_Subsets eps) in
  ∃ e0 events pool',
    run_from E h (configSetBroker pool cr svc master) =
      (h ++ e0 :: events, Some (pool', from_option redis_outcome (Ok ()) (last events))) ∧
    calls events = set_brokers master <$> addresses ∧
    pool_wf pool' ∧ dom pool' = dom pool ∪ list_to_set addresses.
Proof.
  intros addresses. unfold configSetBroker, getEndpoints. rewrite !run_bind. simpl.
  set (key := GetEndpoints _) in *. rewrite Heps. simpl. rewrite foldl_app_concat. simpl.
  destruct (run_setBrokerLoop E (h ++ [Ev (Σ := k8s) key (Ok eps)]) pool addresses master (Ok ()) Hpool)
    as (events & pool' & Hrun & Hcalls & Hwf & Hdom).
  exists (Ev (Σ := k8s) key (Ok eps)), events, pool'. rewrite <- app_assoc in Hrun. eauto.
Qed.

(** Two coordinators; the first one refuses the command. *)
Definition coordinators_env : env k8s := λ _ o,
  match o with
  | GetEndpoints _ =>
      Ok (MkEndpoints [[MkEndpointAddress "c-cd-ss-0" ""; MkEndpointAddress "c-cd-ss-1" ""]])
  | RedisProcess a _ =>
      if String.eqb a (genCoordinatorAddressFromName "c-cd-ss-0" (sample_cr 2))
      then Err (ExtOther "refused") else Ok "OK"
  | Now => 0
  | _ => Err (ExtOther "unavailable")
  end.

Lemma configSetBroker_witness :
  let result := run_from coordinators_env []
    (configSetBroker newRedisClientPool (sample_cr 2) (sample_service "c-cd-svc") "b") in
  ∃ e0 events, result.1 = e0 :: events ∧
    redis_outcome <$> events = [Err (ErrExt (ExtOther "refused")); Ok ()] ∧
    snd <$> result.2 = Some (Ok ()).
Proof.
  destruct (configSetBroker_spec coordinators_env [] newRedisClientPool (sample_cr 2)
    (sample_service "c-cd-svc") "b" _ newRedisClientPool_wf eq_refl)
    as (e0 & events & pool' & Hrun & _).
  apply (f_equal fst) in Hrun. exists e0, events. split; [exact Hrun|].
  vm_compute in Hrun. injection Hrun as <- <-. split; vm_compute; reflexivity.
Defined.
