(* ===== verification/StorageController.v ===== *)
(** * The storage controller (src/controllers/storage_controller.go)

    Creates the storage services and StatefulSet, scales the StatefulSet up when
    the custom resource asks for more chunks, scales it down in two steps with a
    wait between them, tests readiness, lists the server proxies and rolls the
    StatefulSet. *)
From S2P Require Import Prelude Prog GoStr Types Samples Api Utils Storage Scheduler BrokerClient Resources.

Definition scaleStateStable : string := "Stable".
Definition scaleStateScaleDownWait : string := "ScaleDownWait".
(** [time.Second * 30] in nanoseconds. *)
Definition scaleDownWaitTime : Z := 30 * 1000000000.

Section storage_controller.
Context `{QuantityEq}.

Definition getOrCreateStorageService (build : Undermoon → Service) : crM (res Service) :=
  cr ← get_cr; lift (getOrCreateService cr (build cr)).

Definition getOrCreateStorageStatefulSet : crM (res StatefulSet) :=
  cr ← get_cr;
  let '(storage, cr') := createStorageStatefulSet cr in
  put_cr cr';; lift (getOrCreateStatefulSet cr' storage).

Definition updateStorageStatefulSet (cr : Undermoon) (storage : StatefulSet)
    : go (res StatefulSet) :=
  let storage := ss_set_spec (sss_set_replicas (storage_replicas cr) (ss_Spec storage)) storage in
  sendStatefulSetUpdate storage.

(** [int32(cr.Spec.ChunkNumber)*2]: a conversion and a product, both on 32 bits. *)
Definition scale_up_target (cr : Undermoon) : Z :=
  to_int32 (to_int32 (ChunkNumber (um_Spec cr)) * 2).

Definition createStorage : crM (res (StatefulSet * Service)) :=
  _ ←? createServiceGuard (getOrCreateStorageService createStoragePublicService);
  storageService ←? createServiceGuard (getOrCreateStorageService createStorageService);
  storage ←? createStatefulSetGuard getOrCreateStorageStatefulSet;
  cr ← get_cr;
  replicas ← lift (deref_replicas storage);
  if replicas <? scale_up_target cr then
    storage' ←? lift (updateStorageStatefulSet cr storage);
    mret (Ok (storage', storageService))
  else mret (Ok (storage, storageService)).

(** The status is assigned before the update is sent. *)
Definition setScaleState (scaleState : string) : crM (res unit) :=
  cr ← get_cr;
  timestamp ← (if String.eqb scaleState scaleStateScaleDownWait
               then lift (call (Σ := k8s) Now) else mret 0);
  let cr := um_set_status
              (MkUndermoonStatus (MasterBrokerAddress (um_Status cr)) scaleState timestamp) cr in
  put_cr cr;;
  r ← lift (api_call (StatusUpdate cr));
  match r with
  | Ok cr' => put_cr cr';; mret (Ok ())
  | Err e => mret (Err (if IsConflict e then errRetryReconciliation else e))
  end.

(** [int(cr.Spec.ChunkNumber) * chunkNodeNumber] *)
Definition expected_nodes (cr : Undermoon) : Z :=
  to_int64 (ChunkNumber (um_Spec cr) * chunkNodeNumber).

Definition scaleDownStorageStatefulSet (storage : StatefulSet) (info : clusterInfo)
    : crM (res StatefulSet) :=
  cr ← get_cr;
  let expectedNodeNumber := expected_nodes cr in
  if expectedNodeNumber <? NodeNumberWithSlots info then mret (Err errRetryReconciliation)
  else if NodeNumberWithSlots info <? expectedNodeNumber then mret (Err errRetryReconciliation)
  else
  replicas ← lift (deref_replicas storage);
  if replicas =? storage_replicas cr then mret (Ok storage)
  else if negb (String.eqb (ScaleState (um_Status cr)) scaleStateScaleDownWait) then
    _ ←? setScaleState scaleStateScaleDownWait;
    mret (Err errRetryReconciliation)
  else
  now ← lift (call (Σ := k8s) Now);
  if now <? ScaleDownWaitTimestamp (um_Status cr) + scaleDownWaitTime then
    mret (Err errRetryReconciliation)
  else
  storage' ←? lift (updateStorageStatefulSet cr storage);
  _ ←? setScaleState scaleStateStable;
  mret (Ok storage').

Definition storageAllReady (storageService : Service) (cr : Undermoon) : go (res bool) :=
  n ←? getServiceEndpointsNum storageService;
  let serverProxyNum := storage_replicas cr in
  mret (Ok (serverProxyNum <=? n)).

Definition storageAllReadyAndStable (storageService : Service) (storageStatefulSet : StatefulSet)
    (cr : Undermoon) : go (res bool) :=
  ready ←? storageAllReady storageService cr;
  if negb ready then mret (Ok false)
  else
  statefulSetPodNum ← deref_replicas storageStatefulSet;
  if negb (sst_CurrentReplicas (ss_Status storageStatefulSet) =? statefulSetPodNum)
  then mret (Ok false)
  else if negb (sst_Replicas (ss_Status storageStatefulSet) =? statefulSetPodNum)
  then mret (Ok false)
  else mret (Ok true).

(** A hostname whose last part is not a number is only logged; [ParseInt] gives
    a value on an error too. *)
Definition proxy_of_hostname (cr : Undermoon) (hostname : string) : serverProxyMeta :=
  let '(index, _) := parse_int (after_last "-"%char hostname) in
  let address := genStorageFQDNFromName hostname cr in
  newServerProxyMeta address address (Port (um_Spec cr)) index.

Definition storage_getServerProxies (storageService : Service) (cr : Undermoon)
    : go (res (list serverProxyMeta)) :=
  endpoints ←? getEndpoints (m_Name (sv_Meta storageService)) (m_Namespace (sv_Meta storageService));
  mret (Ok (map (λ e, proxy_of_hostname cr (ea_Hostname e)) endpoints)).

Definition storage_updateStatefulSetHelper : StatefulSet → crM (res StatefulSet) :=
  updateStatefulSetSpec createStorageStatefulSet.

Definition storage_triggerStatefulSetRollingUpdate (ss : StatefulSet) (svc : Service)
    : crM (res StatefulSet) :=
  ss' ←? storage_updateStatefulSetHelper ss;
  cr ← get_cr;
  ready ←? lift (storageAllReady svc cr);
  if ready : bool then mret (Ok ss') else mret (Err errRetryReconciliation).

Definition storage_needRollingUpdate (cr : Undermoon) (ss : StatefulSet) : go bool :=
  or_panic (storageStatefulSetChanged cr ss).
End storage_controller.

(** * Properties *)

#[local] Arguments expected_nodes : simpl never.
#[local] Arguments storage_replicas : simpl never.
#[local] Arguments scale_up_target : simpl never.

(** ** Replica counts *)

(** A 32-bit product and a truncated 64-bit product are the same. *)
Lemma scale_up_target_replicas cr :
  is_uint32 (ChunkNumber (um_Spec cr)) → scale_up_target cr = storage_replicas cr.
Proof.
  unfold scale_up_target, storage_replicas, chunkShardNumber, to_int32, is_uint32.
  generalize (ChunkNumber (um_Spec cr)). intros chunks Hc. Z.to_euclidean_division_equations. lia.
Qed.

(** C37. Bounds of the replica count: the two ways the code computes the number of
    storage pods from the 32-bit [ChunkNumber], a 32-bit product for scaling up
    and a truncated 64-bit product everywhere else, always agree; the count is twice
    the number of chunks exactly below [2^30] chunks, and differs from it by a
    multiple of [2^32] beyond; it is negative exactly when the number of chunks
    modulo [2^31] is [2^30] or more, and zero exactly for no chunks and for [2^31]. *)
Theorem storage_replicas_bounds (cr : Undermoon) (Hcr : spec_wf (um_Spec cr)) :
  let chunks := ChunkNumber (um_Spec cr) in
  scale_up_target cr = storage_replicas cr ∧
  (storage_replicas cr = 2 * chunks ↔ chunks < 2 ^ 30) ∧
  (∃ wraps, storage_replicas cr = 2 * chunks - wraps * 2 ^ 32 ∧ 0 ≤ wraps) ∧
  (storage_replicas cr < 0 ↔ 2 ^ 30 ≤ chunks mod 2 ^ 31) ∧
  (storage_replicas cr = 0 ↔ chunks = 0 ∨ chunks = 2 ^ 31).
Proof.
  destruct Hcr as [Hchunks _ _ _ _ _ _]. intros chunks.
  split; [by apply scale_up_target_replicas|]. unfold is_uint32 in Hchunks. fold chunks in Hchunks.
  unfold storage_replicas, chunkShardNumber, to_int32. fold chunks.
  clearbody chunks. split; [Z.to_euclidean_division_equations; lia|].
  split; [exists ((2 * chunks + 2 ^ 31) / 2 ^ 32); Z.to_euclidean_division_equations; lia|].
  split; Z.to_euclidean_division_equations; lia.
Qed.

Lemma storage_replicas_bounds_witness :
  scale_up_target (sample_cr 3) = 6 ∧ storage_replicas (sample_cr (2 ^ 30)) < 0.
Proof.
  assert (∀ n, is_uint32 n → spec_wf (um_Spec (sample_cr n))) as Hwf
    by (intros n Hn; split; unfold is_uint32; simpl; [exact Hn|lia..]).
  split.
  - destruct (storage_replicas_bounds (sample_cr 3)) as (-> & Hiff & _);
      [apply Hwf; unfold is_uint32; lia|].
    by vm_compute.
  - destruct (storage_replicas_bounds (sample_cr (2 ^ 30))) as (_ & _ & _ & [_ Hneg] & _);
      [apply Hwf; unfold is_uint32; lia|].
    apply Hneg. by vm_compute.
Defined.

(** ** Server proxies *)

Lemma length_genStorageStatefulSetAddrs cr :
  length (genStorageStatefulSetAddrs cr) = Z.to_nat (ChunkNumber (um_Spec cr) * chunkShardNumber).
Proof. unfold genStorageStatefulSetAddrs, genStorageNames. by rewrite !length_fmap, length_seq. Qed.

Lemma genStorageStatefulSetAddrs_lookup cr (i : nat) :
  (i < Z.to_nat (ChunkNumber (um_Spec cr) * chunkShardNumber))%nat →
  genStorageStatefulSetAddrs cr !! i =
    Some (genStorageAddressFromName (storageStatefulSetPodName (um_Name cr) (Z.of_nat i)) cr).
Proof.
  intros Hi. unfold genStorageStatefulSetAddrs, genStorageNames.
  by rewrite !list_lookup_fmap, lookup_seq_lt by done.
Qed.

(** C38. The proxy registered for a pod of the StatefulSet carries the ordinal of
    the pod, read back from its hostname, and the very address that the list of
    the StatefulSet's addresses has at that ordinal; so a pod within the
    requested chunks is never among the stale proxies. *)
Theorem proxy_of_pod (cr : Undermoon) (i : nat)
    (Hi : (i < length (genStorageStatefulSetAddrs cr))%nat) (Hcr : spec_wf (um_Spec cr)) :
  let proxy := proxy_of_hostname cr (storageStatefulSetPodName (um_Name cr) (Z.of_nat i)) in
  Index proxy = Z.of_nat i ∧
  genStorageStatefulSetAddrs cr !! i = Some (ProxyAddress proxy).
Proof.
  rewrite length_genStorageStatefulSetAddrs in Hi.
  rewrite genStorageStatefulSetAddrs_lookup by done.
  destruct Hcr as [[Hlo Hhi] _ _ _ _ _ _]. unfold chunkShardNumber in Hi.
  unfold proxy_of_hostname. rewrite podName_index, parse_int_utoa by lia. done.
Qed.

Lemma proxy_of_pod_witness :
  Index (proxy_of_hostname (sample_cr 2) (storageStatefulSetPodName "c" 3)) = 3 ∧
  genStorageStatefulSetAddrs (sample_cr 2) !! 3%nat =
    Some "c-stg-ss-3.c-stg-svc.ns.svc.cluster.local:5299".
Proof.
  assert (3 < length (genStorageStatefulSetAddrs (sample_cr 2)))%nat as Hi by (vm_compute; lia).
  assert (spec_wf (um_Spec (sample_cr 2))) as Hwf by (split; unfold is_uint32; simpl; lia).
  destruct (proxy_of_pod (sample_cr 2) 3 Hi Hwf) as [H1 H2]. split; [exact H1|].
  rewrite H2. by vm_compute.
Defined.

(** ** Scaling up *)

(** When creating the storage may update its StatefulSet, and how: [found] is the
    StatefulSet that the last lookup or creation answered. *)
Definition grow_allowed (cr : Undermoon) (h : history k8s) (o : operation) : Prop :=
  match o with
  | UpdateStatefulSet ss =>
      ∃ e found n, last h = Some e ∧
        ((∃ k, e = Ev (Σ := k8s) (GetStatefulSet k) (Ok found)) ∨
         (∃ ss0, e = Ev (Σ := k8s) (CreateStatefulSet ss0) (Ok found))) ∧
        sss_Replicas (ss_Spec found) = Some n ∧ n < storage_replicas cr ∧
        ss = ss_set_spec (sss_set_replicas (storage_replicas cr) (ss_Spec found)) found
  | SetControllerReference _ _ | GetService _ | CreateService _ | GetStatefulSet _
  | CreateStatefulSet _ => True
  | _ => False
  end.

Definition found_statefulset (h : history k8s) (ss : StatefulSet) : Prop :=
  ∃ e, last h = Some e ∧
    ((∃ k, e = Ev (Σ := k8s) (GetStatefulSet k) (Ok ss)) ∨
     (∃ ss0, e = Ev (Σ := k8s) (CreateStatefulSet ss0) (Ok ss))).

Lemma createStorageStatefulSet_chunks cr :
  ChunkNumber (um_Spec (createStorageStatefulSet cr).2) = ChunkNumber (um_Spec cr).
Proof. unfold createStorageStatefulSet. by destruct (addAntiAffinity _ _ _ _). Qed.

Section grow.
Context (cr0 : Undermoon).
Abbreviation grow_wp := (wp (guarantees (grow_allowed cr0))).
Definition same_chunks (cr : Undermoon) : Prop :=
  ChunkNumber (um_Spec cr) = ChunkNumber (um_Spec cr0).

Lemma wp_service_grows build cr h :
  same_chunks cr →
  grow_wp (guard_loop 2 (getOrCreateStorageService build) cr) (λ h' r,
    same_chunks r.1 ∧ match r.2 with Ok _ => True | Err _ => True end) h.
Proof.
  intros Hcr. apply (wp_guard_loop _ _ _ (λ _, same_chunks) (λ _ _, True)); [|done].
  intros cr' h' Hcr'. unfold getOrCreateStorageService, getOrCreateService. go_run; (split; [done|]); by go_run.
Qed.

Lemma wp_statefulset_grows cr h :
  same_chunks cr →
  grow_wp (guard_loop 2 getOrCreateStorageStatefulSet cr) (λ h' r,
    same_chunks r.1 ∧ match r.2 with Ok ss => found_statefulset h' ss | Err _ => True end) h.
Proof.
  intros Hcr. apply (wp_guard_loop _ _ _ (λ _, same_chunks) found_statefulset); [|done].
  intros cr' h' Hcr'. unfold getOrCreateStorageStatefulSet, getOrCreateStatefulSet.
  do 2 go_step. cbn beta iota delta [fst snd].
  pose proof (createStorageStatefulSet_chunks cr') as Hch.
  destruct (createStorageStatefulSet cr') as [ss cr'']. cbn in Hch.
  assert (same_chunks cr'') as Hcr'' by (unfold same_chunks in *; congruence).
  go_run; (split; [done|]); go_run; try done; eexists; (split; [apply last_snoc|]); eauto.
Qed.
End grow.

(** C21. Creating the storage only grows it: in any environment, the one update it may
    send is for the StatefulSet that was found or created last, when that has
    fewer replicas than the custom resource wants, and only sets the replicas to
    two per chunk; a StatefulSet that is too large is left to the scaling down. *)
Theorem createStorage_grows (E : env k8s) (h : history k8s) (cr : Undermoon)
    (Hcr : is_uint32 (ChunkNumber (um_Spec cr))) :
  guarded (grow_allowed cr) h (run_from E h (createStorage cr)).1.
Proof.
  apply run_guarded. unfold createStorage, createServiceGuard, createStatefulSetGuard.
  apply wp_cr_ebind. eapply wp_mono; [by apply (wp_service_grows cr)|].
  intros h1 [cr1 [svc1|e]] [Hcr1 _]; [|done]. cbn beta iota delta [fst snd] in *.
  apply wp_cr_ebind. eapply wp_mono; [by apply (wp_service_grows cr)|].
  intros h2 [cr2 [svc2|e]] [Hcr2 _]; [|done]. cbn beta iota delta [fst snd] in *.
  apply wp_cr_ebind. eapply wp_mono; [by apply (wp_statefulset_grows cr)|].
  intros h3 [cr3 [ss|e]] [Hcr3 Hss]; [|done]. destruct Hss as (ev & Hlast & Hev). cbn beta iota delta [fst snd] in *.
  unfold deref_replicas, updateStorageStatefulSet, same_chunks in *.
  go_run; try done; go_bools.
  apply wp_sendStatefulSetUpdate; [|by intros h' [ss'|e] _; go_run].
  intros _. exists ev, ss. eexists. split; [done|]. split; [done|]. split; [done|].
  rewrite scale_up_target_replicas in * by (by rewrite Hcr3).
  unfold storage_replicas in *. rewrite Hcr3 in *. done.
Qed.

(** The existing StatefulSet of two chunks, when three are wanted. *)
Definition grow_env : env k8s := λ _ o,
  match o with
  | GetService k => Ok (sample_service (nn_Name k))
  | GetStatefulSet _ => Ok (sample_storage 4)
  | UpdateStatefulSet ss => Ok ss
  | SetControllerReference _ _ => Ok []
  | Now => 0
  | _ => Err (ExtOther "unavailable")
  end.

Lemma createStorage_grows_witness :
  guarded (grow_allowed (sample_cr 3)) [] (run_from grow_env [] (createStorage (sample_cr 3))).1 ∧
  existsb (λ o, match o with UpdateStatefulSet ss =>
      bool_decide (sss_Replicas (ss_Spec ss) = Some 6) | _ => false end)
    (calls (run_from grow_env [] (createStorage (sample_cr 3))).1) = true.
Proof.
  split; [|vm_compute; reflexivity].
  apply createStorage_grows. unfold is_uint32. simpl. lia.
Defined.

(** ** Scaling down *)

(** What has to hold when the StatefulSet is shrunk. *)
Definition shrink_allowed (cr : Undermoon) (storage : StatefulSet) (info : clusterInfo)
    (h : history k8s) (o : operation) : Prop :=
  match o with
  | UpdateStatefulSet ss =>
      NodeNumberWithSlots info = expected_nodes cr ∧
      ScaleState (um_Status cr) = scaleStateScaleDownWait ∧
      (∃ now, last h = Some (Ev (Σ := k8s) Now now) ∧
              ScaleDownWaitTimestamp (um_Status cr) + scaleDownWaitTime ≤ now) ∧
      ss = ss_set_spec (sss_set_replicas (storage_replicas cr) (ss_Spec storage)) storage
  | _ => True
  end.

(** Setting the scale state reads the clock for the wait and updates the status. *)
Lemma wp_setScaleState (C : contract k8s) s cr (Q : history k8s → Undermoon * res unit → Prop) h :
  (∀ h o, o = Now ∨ (∃ cr', o = StatusUpdate cr') → guar C h o) →
  (∀ h' cr' r, Q h' (cr', r)) →
  wp C (setScaleState s cr) Q h.
Proof.
  intros HG HQ. unfold setScaleState. repeat go_step. cbn beta iota delta [fst snd].
  destruct (String.eqb s scaleStateScaleDownWait); go_run; first [apply HQ|apply HG; eauto].
Qed.

(** C7. Scaling down is safe: in every run, the storage StatefulSet is shrunk only
    when the broker reported that exactly the nodes of the requested chunks hold
    slots, the custom resource was in the waiting state, and the clock, read just
    before, was at least 30 seconds past the recorded start of the wait; and the
    update only sets the replicas to two per chunk. *)
Theorem scaleDown_safe (E : env k8s) (h : history k8s) (storage : StatefulSet)
    (info : clusterInfo) (cr : Undermoon) :
  guarded (shrink_allowed cr storage info) h
    (run_from E h (scaleDownStorageStatefulSet storage info cr)).1.
Proof.
  apply run_guarded. unfold scaleDownStorageStatefulSet, deref_replicas. go_run; try done; go_bools.
  - apply wp_setScaleState; [by intros ? ? [->|[? ->]]|]. intros h' cr' [[]|e]; by go_run.
  - apply wp_sendStatefulSetUpdate.
    + intros _. split; [lia|]. split; [done|]. split; [|done].
      eexists. split; [apply last_snoc|done].
    + intros h' [ss'|e] _; [|done]. go_run. apply wp_setScaleState; [by intros ? ? [->|[? ->]]|].
      intros h'' cr' [[]|e]; by go_run.
Qed.

(** Nothing to do: the size is right. *)
Lemma run_scaleDown_equal E h storage info cr :
  NodeNumberWithSlots info = expected_nodes cr →
  sss_Replicas (ss_Spec storage) = Some (storage_replicas cr) →
  run_from E h (scaleDownStorageStatefulSet storage info cr) = (h, Some (cr, Ok storage)).
Proof.
  intros Hn Hr. unfold scaleDownStorageStatefulSet, deref_replicas. run_simpl.
  by rewrite Hn, Z.ltb_irrefl, Hr; simpl; rewrite Z.eqb_refl.
Qed.

(** The wait is over: the update is sent right after the clock was read. *)
Lemma run_scaleDown_shrink (E : env k8s) h storage info cr n :
  NodeNumberWithSlots info = expected_nodes cr →
  sss_Replicas (ss_Spec storage) = Some n → n ≠ storage_replicas cr →
  ScaleState (um_Status cr) = scaleStateScaleDownWait →
  ScaleDownWaitTimestamp (um_Status cr) + scaleDownWaitTime ≤ E h Now →
  m_ResourceVersion (ss_Meta storage) ≠ "" →
  let ss := ss_set_spec (sss_set_replicas (storage_replicas cr) (ss_Spec storage)) storage in
  let h1 := h ++ [Ev (Σ := k8s) Now (E h Now)] in
  ∃ t, (run_from E h (scaleDownStorageStatefulSet storage info cr)).1 =
         h1 ++ Ev (Σ := k8s) (UpdateStatefulSet ss) (E h1 (UpdateStatefulSet ss)) :: t.
Proof.
  intros Hn Hr Hne Hs Ht Hv ss h1.
  unfold scaleDownStorageStatefulSet, deref_replicas, updateStorageStatefulSet,
    sendStatefulSetUpdate, setScaleState. run_simpl.
  rewrite Hn, Z.ltb_irrefl, Hr. simpl. rewrite (proj2 (Z.eqb_neq _ _)) by done.
  rewrite Hs. simpl. rewrite (proj2 (Z.ltb_ge _ _)) by done.
  rewrite (proj2 (String.eqb_neq _ _)) by done. simpl.
  fold h1 ss. destruct (E h1 (UpdateStatefulSet ss)) as [ss'|e]; simpl.
  - destruct (E _ (StatusUpdate _)); simpl; rewrite <- app_assoc; simpl; eauto.
  - destruct (IsConflict (ErrExt e)); simpl; eauto.
Qed.

(** C23. The wait before scaling down can be skipped.  When the chunks are raised
    back while a wait is pending, the run that finds the size right again
    succeeds without touching the status, so the waiting state and its old start
    stay; a later request to scale down, which carries that status, then shrinks
    the StatefulSet in its first run, right after the clock was read, although
    no wait was started for it. *)
Theorem scaleDown_stale_wait (E : env k8s) (h h2 : history k8s) (storage : StatefulSet)
    (info info2 : clusterInfo) (cr cr2 : Undermoon)
    (Hwait : ScaleState (um_Status cr) = scaleStateScaleDownWait)
    (Hslots : NodeNumberWithSlots info = expected_nodes cr)
    (Hsize : sss_Replicas (ss_Spec storage) = Some (storage_replicas cr))
    (Hstatus2 : um_Status cr2 = um_Status cr)
    (Hslots2 : NodeNumberWithSlots info2 = expected_nodes cr2)
    (Hsize2 : storage_replicas cr2 ≠ storage_replicas cr)
    (Hversion : m_ResourceVersion (ss_Meta storage) ≠ "")
    (Hclock : ScaleDownWaitTimestamp (um_Status cr) + scaleDownWaitTime ≤ E h2 Now) :
  run_from E h (scaleDownStorageStatefulSet storage info cr) = (h, Some (cr, Ok storage)) ∧
  ∃ x t,
    (run_from E h2 (scaleDownStorageStatefulSet storage info2 cr2)).1 =
      h2 ++ Ev (Σ := k8s) Now (E h2 Now) :: Ev (Σ := k8s) (UpdateStatefulSet (ss_set_spec
        (sss_set_replicas (storage_replicas cr2) (ss_Spec storage)) storage)) x :: t.
Proof.
  split; [by apply run_scaleDown_equal|].
  destruct (run_scaleDown_shrink E h2 storage info2 cr2 (storage_replicas cr)) as [t ->];
    [done|done|done|by rewrite Hstatus2|by rewrite Hstatus2|done|].
  do 2 eexists. by rewrite <- app_assoc.
Qed.

(** A status waiting since [ts], and an environment whose clock stands at [now]
    and whose other services fail. *)
Definition waiting (ts : Z) (cr : Undermoon) : Undermoon :=
  um_set_status (MkUndermoonStatus "" scaleStateScaleDownWait ts) cr.

Definition clock_env (now : Z) : env k8s := λ _ o,
  match o with
  | Now => now
  | _ => Err (ExtOther "unavailable")
  end.

Lemma scaleDown_stale_wait_witness :
  ∃ x t,
    (run_from (clock_env (31 * 1000000000)) []
      (scaleDownStorageStatefulSet (sample_storage 6) (MkClusterInfo "cluster" 8 8 false)
         (waiting 0 (sample_cr 2)))).1 =
      [Ev (Σ := k8s) Now (31 * 1000000000);
       Ev (Σ := k8s) (UpdateStatefulSet (ss_set_spec
        (sss_set_replicas 4 (ss_Spec (sample_storage 6))) (sample_storage 6))) x] ++ t.
Proof.
  refine (proj2 (scaleDown_stale_wait (clock_env (31 * 1000000000)) [] [] (sample_storage 6)
    (MkClusterInfo "cluster" 12 12 false) (MkClusterInfo "cluster" 8 8 false)
    (waiting 0 (sample_cr 3)) (waiting 0 (sample_cr 2)) _ _ _ _ _ _ _ _));
    first [reflexivity | by vm_compute | vm_compute; lia].
Defined.

(** ** Readiness *)

(** C22. The test that gates scaling and rolling: for a StatefulSet with a replica
    count it asks for the endpoints once, never panics, and answers yes exactly
    when the service has at least as many addresses as the custom resource wants
    pods and the StatefulSet has reached its own count in both the total and the
    current replicas of its status; the answer does not look at the ready
    replicas.  A failure of the lookup other than not-found is returned. *)
Theorem storageAllReadyAndStable_spec (E : env k8s) (h : history k8s) (svc : Service)
    (ss : StatefulSet) (cr : Undermoon) (n : Z) (Hn : sss_Replicas (ss_Spec ss) = Some n) :
  let x := E h (endpoints_key svc) in
  run_from E h (storageAllReadyAndStable svc ss cr) =
    (h ++ [Ev (Σ := k8s) (endpoints_key svc) x],
     Some match endpoint_count x with
          | Err e => Err e
          | Ok count => Ok (bool_decide (storage_replicas cr ≤ count ∧
                                         sst_CurrentReplicas (ss_Status ss) = n ∧
                                         sst_Replicas (ss_Status ss) = n))
          end).
Proof.
  intros x. unfold storageAllReadyAndStable, storageAllReady, deref_replicas, ebind.
  rewrite !run_bind, run_getServiceEndpointsNum. fold x.
  destruct (endpoint_count x) as [count|e]; simpl; [|done]. rewrite Hn.
  destruct (Z.leb_spec (storage_replicas cr) count); simpl;
    [|by rewrite bool_decide_false by lia].
  destruct (Z.eqb_spec (sst_CurrentReplicas (ss_Status ss)) n); simpl;
    [|by rewrite bool_decide_false by lia].
  destruct (Z.eqb_spec (sst_Replicas (ss_Status ss)) n); simpl;
    [by rewrite bool_decide_true by lia|by rewrite bool_decide_false by lia].
Qed.

Lemma storageAllReadyAndStable_witness :
  (run_from (clock_env 0) [] (storageAllReadyAndStable (sample_service "s") (sample_storage 4)
     (sample_cr 2))).2 = Some (Err (ErrExt (ExtOther "unavailable"))).
Proof.
  by rewrite (storageAllReadyAndStable_spec (clock_env 0) [] (sample_service "s")
    (sample_storage 4) (sample_cr 2) 4 eq_refl).
Defined.
