(* ===== verification/ScaleDown.v ===== *)
(** * Scaling down over several reconciliations (src/controllers/storage_controller.go)

    [scaleDownStorageStatefulSet] is a state machine whose state is kept by the API
    server: the replicas of the StatefulSet and the scale state of the custom resource.
    Every reconciliation makes at most one step of it.  Here the steps are put in
    sequence: a [world] is what the server holds, a [round] is a reconciliation at some
    time with a server that accepts or rejects the two writes, and between the rounds
    others may write.  The sequence refines a machine of three [phase]s, and the
    StatefulSet is shrunk in the end. *)
From S2P Require Import Prelude Prog GoStr Types Samples Api Utils Storage BrokerClient Resources StorageController.

(** ** The abstract machine *)

(** [Shrunk reset]: whether the scale state was reset to [Stable] afterwards. *)
Inductive phase := Big | Waiting (since : Z) | Shrunk (reset : bool).

Record round := MkRound {
  r_env : env k8s;
  r_info : clusterInfo;
  r_time : Z;
  r_status_accepted : bool;
  r_update_accepted : bool
}.

(** [metav1.Time] is written in seconds. *)
Definition in_seconds (t : Z) : Z := t / 1000000000 * 1000000000.

(** The broker's slots are on [nodes] nodes. *)
Definition moved (nodes : Z) (r : round) : bool := NodeNumberWithSlots (r_info r) =? nodes.

Definition phase_step (nodes : Z) (p : phase) (r : round) : phase :=
  if negb (moved nodes r) then p
  else match p with
  | Big => if r_status_accepted r then Waiting (in_seconds (r_time r)) else Big
  | Waiting since =>
      if r_time r <? since + scaleDownWaitTime then Waiting since
      else if r_update_accepted r then Shrunk (r_status_accepted r) else Waiting since
  | Shrunk reset => Shrunk reset
  end.

(** ** The world and its steps *)

Record world := World { w_cr : Undermoon; w_storage : StatefulSet }.

(** The effect of a call on what the server holds: an accepted write leaves the object
    that the server answers. *)
Definition after_event (w : world) (e : event k8s) : world :=
  match e with
  | Ev o x =>
      match o return answer o → world with
      | UpdateStatefulSet _ => λ x, match x with Ok ss => World (w_cr w) ss | Err _ => w end
      | StatusUpdate _ => λ x, match x with Ok cr => World cr (w_storage w) | Err _ => w end
      | _ => λ _, w
      end x
  end.

Definition after (w : world) (h : history k8s) : world := foldl after_event w h.

(** A reconciliation reads the custom resource and the StatefulSet of the world. *)
Definition reconcile_round (r : round) (w : world) : history k8s * option (Undermoon * res StatefulSet) :=
  run (r_env r) (scaleDownStorageStatefulSet (w_storage w) (r_info r) (w_cr w)).

Definition stored_status (st : UndermoonStatus) : UndermoonStatus :=
  MkUndermoonStatus (MasterBrokerAddress st) (ScaleState st) (in_seconds (ScaleDownWaitTimestamp st)).

(** How the services answer in a round: the clock; a write is rejected, or keeps what it
    was given, with the times in seconds and some version. *)
Definition round_answer (r : round) (o : operation) : answer o → Prop :=
  match o return answer o → Prop with
  | Now => λ x, x = r_time r
  | StatusUpdate cr => λ x,
      if r_status_accepted r then
        ∃ cr', x = Ok cr' ∧ um_Spec cr' = um_Spec cr ∧ um_Status cr' = stored_status (um_Status cr)
      else ∃ e, x = Err e
  | UpdateStatefulSet ss => λ x,
      if r_update_accepted r then
        ∃ ss', x = Ok ss' ∧ ss_Spec ss' = ss_Spec ss ∧ m_ResourceVersion (ss_Meta ss') ≠ ""
      else ∃ e, x = Err e
  | _ => λ _, True
  end.

Definition server (r : round) : contract k8s :=
  Contract (λ (_ : history k8s) (o : operation) x, round_answer r o x)
    (λ (_ : history k8s) (_ : operation), True) False.

(** What others may write between two rounds: anything but the chunks, the scale state
    with its time, and the replicas. *)
Record undisturbed (w w' : world) : Prop := {
  und_chunks : ChunkNumber (um_Spec (w_cr w')) = ChunkNumber (um_Spec (w_cr w));
  und_state : ScaleState (um_Status (w_cr w')) = ScaleState (um_Status (w_cr w));
  und_since : ScaleDownWaitTimestamp (um_Status (w_cr w')) = ScaleDownWaitTimestamp (um_Status (w_cr w));
  und_replicas : sss_Replicas (ss_Spec (w_storage w')) = sss_Replicas (ss_Spec (w_storage w));
  und_version : m_ResourceVersion (ss_Meta (w_storage w')) ≠ ""
}.

Inductive scale_run : world → list round → world → Prop :=
| run_end w : scale_run w [] w
| run_others w w' rs w'' : undisturbed w w' → scale_run w' rs w'' → scale_run w rs w''
| run_round w r rs w'' : respects (server r) (r_env r) →
    scale_run (after w (reconcile_round r w).1) rs w'' → scale_run w (r :: rs) w''.

(** * Properties *)

#[local] Arguments expected_nodes : simpl never.
#[local] Arguments storage_replicas : simpl never.
#[local] Arguments in_seconds : simpl never.

Section scale_down.
(** The custom resource asks for [chunks]; the StatefulSet had [have] replicas. *)
Context (chunks have : Z).
Abbreviation nodes := (to_int64 (chunks * chunkNodeNumber)).
Abbreviation want := (to_int32 (chunks * chunkShardNumber)).

Definition phase_replicas (p : phase) : Z := match p with Shrunk _ => want | _ => have end.

Definition phase_status (p : phase) (st : UndermoonStatus) : Prop :=
  match p with
  | Big => ScaleState st ≠ scaleStateScaleDownWait
  | Waiting since => ScaleState st = scaleStateScaleDownWait ∧ ScaleDownWaitTimestamp st = since
  | Shrunk true => ScaleState st = scaleStateStable
  | Shrunk false => ScaleState st = scaleStateScaleDownWait
  end.

(** The world is in a phase: the refinement relation. *)
Record in_phase (w : world) (p : phase) : Prop := {
  ip_chunks : ChunkNumber (um_Spec (w_cr w)) = chunks;
  ip_version : m_ResourceVersion (ss_Meta (w_storage w)) ≠ "";
  ip_replicas : sss_Replicas (ss_Spec (w_storage w)) = Some (phase_replicas p);
  ip_status : phase_status p (um_Status (w_cr w))
}.

Lemma in_phase_undisturbed w w' p : undisturbed w w' → in_phase w p → in_phase w' p.
Proof.
  intros [Hc Hs Ht Hr Hv] [Hchunks _ Hrep Hst]. split; [congruence|done|congruence|].
  destruct p as [|since|[]]; simpl in *; congruence.
Qed.

(** Writing the scale state. *)
Lemma wp_scale_state w r state cr (Q : history k8s → Undermoon * res unit → Prop) h :
  (∀ h' cr', r_status_accepted r = true → um_Spec cr' = um_Spec cr →
     um_Status cr' = MkUndermoonStatus (MasterBrokerAddress (um_Status cr)) state
       (in_seconds (if String.eqb state scaleStateScaleDownWait then r_time r else 0)) →
     after w h' = World cr' (w_storage (after w h)) → Q h' (cr', Ok ())) →
  (∀ h' cr' e, r_status_accepted r = false → after w h' = after w h → Q h' (cr', Err e)) →
  wp (server r) (setScaleState state cr) Q h.
Proof.
  intros Hok Herr. unfold setScaleState, after in *.
  destruct (String.eqb state scaleStateScaleDownWait), (r_status_accepted r) eqn:Hacc;
    repeat (go_step; cbn beta iota zeta delta [fst snd]);
    repeat match goal with H : rely _ _ _ _ |- _ => cbn in H; try rewrite Hacc in H end;
    subst; try match goal with H : ∃ _, _ |- _ => destruct H as (? & -> & ?); destruct_and? end;
    try match goal with H : ∃ _, _ |- _ => destruct H as (? & ->) end; cbn [lift_err]; go_run;
    first [apply Hok|apply Herr]; rewrite ?foldl_app; done.
Qed.

(** Writing the replicas. *)
Lemma wp_scale_replicas w r cr ss (Q : history k8s → res StatefulSet → Prop) h :
  m_ResourceVersion (ss_Meta ss) ≠ "" →
  (∀ h' ss', r_update_accepted r = true → sss_Replicas (ss_Spec ss') = Some (storage_replicas cr) →
     m_ResourceVersion (ss_Meta ss') ≠ "" →
     after w h' = World (w_cr (after w h)) ss' → Q h' (Ok ss')) →
  (∀ h' e, r_update_accepted r = false → after w h' = after w h → Q h' (Err e)) →
  wp (server r) (updateStorageStatefulSet cr ss) Q h.
Proof.
  intros Hv Hok Herr. unfold updateStorageStatefulSet, sendStatefulSetUpdate.
  rewrite (proj2 (String.eqb_neq _ _)) by done.
  apply wp_bind, wp_api; [done|]. intros x Ha. cbn in Ha. unfold after in *.
  destruct (r_update_accepted r).
  - destruct Ha as (ss' & -> & Hspec & Hv'). apply wp_ret, Hok; [done|by rewrite Hspec|done|by rewrite foldl_app].
  - destruct Ha as (e & ->). apply wp_ret, Herr; [done|by rewrite foldl_app].
Qed.

(** One round makes one step of the machine, and returns no panic. *)
Lemma in_phase_round w p r :
  have ≠ want → in_phase w p → respects (server r) (r_env r) →
  in_phase (after w (reconcile_round r w).1) (phase_step nodes p r).
Proof.
  intros Hne [Hchunks Hv Hr Hst] Hserver. unfold reconcile_round, run.
  assert (wp (server r) (scaleDownStorageStatefulSet (w_storage w) (r_info r) (w_cr w))
    (λ h _, in_phase (after w h) (phase_step nodes p r)) []) as Hwp.
  2:{ apply (wp_sound _ (r_env r)) in Hwp as [_ Hpost]; [|done].
      destruct (run_from _ _ _) as [h [?|]]; [exact Hpost|done]. }
  unfold scaleDownStorageStatefulSet, phase_step, moved, deref_replicas.
  assert (expected_nodes (w_cr w) = nodes) as Hn by (unfold expected_nodes; by rewrite Hchunks).
  assert (storage_replicas (w_cr w) = want) as Hw by (unfold storage_replicas; by rewrite Hchunks).
  assert (∀ h, after w h = w → in_phase (after w h) p) as Hsame by (by intros h ->).
  apply wp_cr_bind, wp_get_cr. cbn [fst snd]. rewrite Hn, Hw, Hr.
  destruct (Z.ltb_spec nodes (NodeNumberWithSlots (r_info r))).
  { rewrite (proj2 (Z.eqb_neq _ _)) by lia. by apply wp_cr_ret, Hsame. }
  destruct (Z.ltb_spec (NodeNumberWithSlots (r_info r)) nodes).
  { rewrite (proj2 (Z.eqb_neq _ _)) by lia. by apply wp_cr_ret, Hsame. }
  rewrite (proj2 (Z.eqb_eq _ _)) by lia. cbn [negb].
  apply wp_cr_bind, wp_lift, wp_ret. cbn [fst snd].
  destruct p as [|since|reset]; cbn [phase_replicas phase_status] in *.
  - rewrite (proj2 (Z.eqb_neq _ _)), (proj2 (String.eqb_neq _ _)) by done. cbn [negb].
    apply wp_cr_ebind, (wp_scale_state w).
    + intros h' cr' -> Hspec Hstat Hafter. apply wp_cr_ret. rewrite Hafter.
      split; simpl; [by rewrite Hspec|done|done|by rewrite Hstat].
    + intros h' cr' e -> Hafter. by apply Hsame.
  - destruct Hst as [Hst Hts].
    rewrite (proj2 (Z.eqb_neq _ _)), Hst by done. cbn [negb String.eqb].
    rewrite String.eqb_refl. cbn [negb].
    apply wp_cr_bind, wp_lift, wp_call; [done|]. intros now Hnow. cbn in Hnow. subst now. cbn [fst snd].
    rewrite Hts. destruct (r_time r <? since + scaleDownWaitTime); [by apply wp_cr_ret, Hsame|].
    apply wp_cr_ebind, wp_lift, (wp_scale_replicas w); [done| |].
    2:{ intros h' e -> Hafter. cbn [fst snd]. by apply Hsame. }
    intros h1 ss' -> Hrep Hver Hafter. cbn [fst snd]. change (after w h1 = World (w_cr w) ss') in Hafter.
    apply wp_cr_ebind, (wp_scale_state w).
    + intros h' cr' -> Hspec Hstat Hafter'. apply wp_cr_ret. rewrite Hafter', Hafter.
      split; simpl; [by rewrite Hspec|done|by rewrite Hrep, Hw|by rewrite Hstat].
    + intros h' cr' e -> Hafter'. cbn [fst snd]. rewrite Hafter', Hafter.
      split; simpl; [done|done|by rewrite Hrep, Hw|done].
  - rewrite Z.eqb_refl. by apply wp_cr_ret, Hsame.
Qed.

(** Every sequence of rounds follows the machine. *)
Lemma in_phase_run w rs w' p :
  have ≠ want → scale_run w rs w' → in_phase w p → in_phase w' (foldl (phase_step nodes) p rs).
Proof.
  intros Hne Hrun. revert p. induction Hrun as [w|w w1 rs w' Hund _ IH|w r rs w' Hserver _ IH]; intros p Hp.
  - done.
  - by eapply IH, in_phase_undisturbed.
  - by apply IH, in_phase_round.
Qed.

(** Nothing leads back from [Shrunk]. *)
Lemma shrunk_stays rs reset : foldl (phase_step nodes) (Shrunk reset) rs = Shrunk reset.
Proof.
  induction rs as [|r rs IH]; [done|]. simpl. unfold phase_step at 2. by destruct (negb (moved nodes r)).
Qed.

(** A round in which the machine leaves [Waiting since]. *)
Definition shrinks (since : Z) (r : round) : Prop :=
  moved nodes r = true ∧ r_update_accepted r = true ∧ since + scaleDownWaitTime ≤ r_time r.

Lemma waiting_ends since rs :
  match foldl (phase_step nodes) (Waiting since) rs with
  | Shrunk _ => Exists (shrinks since) rs
  | p => p = Waiting since ∧ Forall (λ r, ¬ shrinks since r) rs
  end.
Proof.
  induction rs as [|r rs IH]; simpl; [by split; [|constructor]|].
  assert (shrinks since r ∧ (∃ reset, phase_step nodes (Waiting since) r = Shrunk reset) ∨
          ¬ shrinks since r ∧ phase_step nodes (Waiting since) r = Waiting since) as [[Hr [b ->]]|[Hr ->]].
  { unfold phase_step, shrinks. destruct (moved nodes r), (r_update_accepted r); simpl; try (right; naive_solver).
    - destruct (Z.ltb_spec (r_time r) (since + scaleDownWaitTime)); [right|left; eauto].
      split; [|done]. intros (_ & _ & ?). lia.
    - right. split; [naive_solver|]. by destruct (_ <? _). }
  - rewrite shrunk_stays. by left.
  - destruct (foldl _ _ _); [naive_solver| |by right]. destruct IH. split; [done|by constructor].
Qed.

(** C8. The storage is scaled down in the end, and not before: over any sequence of
    reconciliations, each with a server that may reject either write, and with other
    writers between them, the StatefulSet and the scale state follow the machine
    [Big], [Waiting], [Shrunk]; and after a first round whose status update is
    accepted, the replicas are those of the requested chunks if and only if the update
    of the StatefulSet was accepted in a later round that saw the slots moved, at
    least 30 seconds after the recorded second. *)
Theorem scaleDown_completes (w w' : world) (r0 : round) (rs : list round)
    (Hne : have ≠ want) (Hrun : scale_run w (r0 :: rs) w') (Hbig : in_phase w Big)
    (Hmoved : moved nodes r0 = true) (Haccepted : r_status_accepted r0 = true) :
  in_phase w' (foldl (phase_step nodes) Big (r0 :: rs)) ∧
  (sss_Replicas (ss_Spec (w_storage w')) = Some want ↔
   Exists (shrinks (in_seconds (r_time r0))) rs).
Proof.
  pose proof (in_phase_run _ _ _ _ Hne Hrun Hbig) as Hp. split; [done|].
  simpl in Hp. rewrite (ltac:(unfold phase_step; by rewrite Hmoved, Haccepted) :
    phase_step nodes Big r0 = Waiting (in_seconds (r_time r0))) in Hp.
  destruct Hp as [_ _ -> _]. pose proof (waiting_ends (in_seconds (r_time r0)) rs) as Hends.
  destruct (foldl _ _ _) as [|since|reset]; simpl; [by destruct Hends| |done].
  destruct Hends as [_ Hnone]. split; [congruence|].
  rewrite Exists_exists, Forall_forall in *. naive_solver.
Qed.
End scale_down.

(** ** A sequence of rounds *)

Definition round_env (t : Z) (status_ok update_ok : bool) : env k8s := λ _ o,
  match o return answer o with
  | Now => t
  | StatusUpdate cr =>
      if status_ok then Ok (um_set_status (stored_status (um_Status cr)) cr) else Err ApiConflict
  | UpdateStatefulSet ss =>
      if update_ok
      then Ok (ss_set_meta (MkMeta (m_Name (ss_Meta ss)) (m_Namespace (ss_Meta ss)) ∅ "2" []) ss)
      else Err ApiConflict
  | _ => Err (ExtOther "unavailable")
  end.

(** A round that sees the slots on eight nodes, at some second. *)
Definition round_at (s : Z) (status_ok update_ok : bool) : round :=
  MkRound (round_env (s * 1000000000) status_ok update_ok) (MkClusterInfo "cluster" 8 8 false)
    (s * 1000000000) status_ok update_ok.

Lemma round_at_serves s status_ok update_ok :
  respects (server (round_at s status_ok update_ok)) (r_env (round_at s status_ok update_ok)).
Proof.
  intros h o. destruct o; try exact I; cbn; try done.
  - destruct update_ok; eauto.
  - destruct status_ok; eauto.
Qed.

(** Six pods where two chunks are wanted. *)
Definition big_world : world := World (sample_cr 2) (sample_storage 6).

(** The wait starts at second 100; at 110 it is too early, at 140 there is a conflict,
    at 150 the update goes through. *)
Definition four_rounds : list round :=
  [round_at 110 true true; round_at 140 true false; round_at 150 true true].

Definition after_round (w : world) (r : round) : world := after w (reconcile_round r w).1.

Lemma scaleDown_completes_witness :
  let w' := foldl after_round big_world (round_at 100 true true :: four_rounds) in
  sss_Replicas (ss_Spec (w_storage w')) = Some 4.
Proof.
  intros w'.
  destruct (scaleDown_completes 2 6 big_world w' (round_at 100 true true) four_rounds) as [_ [_ Hiff]].
  - by vm_compute.
  - do 4 (apply run_round; [apply round_at_serves|]). apply run_end.
  - split; by vm_compute.
  - by vm_compute.
  - by vm_compute.
  - apply Hiff. right. right. left. unfold shrinks. repeat split; by vm_compute.
Defined.
