(* ===== verification/MetaController.v ===== *)
(** * The metadata controller (src/controllers/meta_controller.go)

    Registers the server proxies in the master broker and removes stale ones,
    creates and scales the cluster, and creates the ConfigMap and the Secret of
    the metadata.  The store in the ConfigMap is ExternalStore.v. *)
From S2P Require Import Prelude Prog GoStr Types Samples Api Utils Meta Storage BrokerClient Resources.

Section meta_broker.
Context (client : brokerClient).

Definition meta_setBrokerReplicas (masterBrokerAddress : string) (replicaAddresses : list string)
    : go (res unit) :=
  _ ←? setBrokerReplicas client masterBrokerAddress replicaAddresses;
  for_each (λ replicaAddress, setBrokerReplicas client replicaAddress []) replicaAddresses.

(** A failure other than a retry is logged and the next proxy is registered. *)
Definition registerServerProxies (masterBrokerAddress : string) (proxies : list serverProxyMeta)
    : go (res unit) :=
  for_each (λ proxy,
    r ← registerServerProxy client masterBrokerAddress proxy;
    match r with
    | Err errRetryReconciliation => mret (Err errRetryReconciliation)
    | _ => mret (Ok ())
    end) proxies.

Definition keep_set (cr : Undermoon) (proxies : list serverProxyMeta) : gset string :=
  list_to_set (genStorageStatefulSetAddrs cr) ∪ list_to_set (ProxyAddress <$> proxies).

Definition deregisterServerProxies (masterBrokerAddress : string)
    (proxies : list serverProxyMeta) (cr : Undermoon) : go (res unit) :=
  existingProxies ←? getServerProxies client masterBrokerAddress;
  let keepSet := keep_set cr proxies in
  let deleteList := filter (λ existingAddress, existingAddress ∉ keepSet) existingProxies in
  for_each (λ deleteAddress,
    r ← deregisterServerProxy client masterBrokerAddress deleteAddress;
    match r with
    | Err errRetryReconciliation => mret (Err errRetryReconciliation)
    | _ => mret (Ok ())
    end) deleteList.

Definition reconcileServerProxyRegistry (masterBrokerAddress : string)
    (proxies : list serverProxyMeta) (cr : Undermoon) : go (res unit) :=
  _ ←? registerServerProxies masterBrokerAddress proxies;
  deregisterServerProxies masterBrokerAddress proxies cr.

Definition meta_createCluster (masterBrokerAddress : string) (cr : Undermoon) : go (res unit) :=
  exists_ ←? clusterExists client masterBrokerAddress (ClusterName (um_Spec cr));
  if exists_ : bool then mret (Ok ())
  else createCluster client masterBrokerAddress (ClusterName (um_Spec cr))
         (ChunkNumber (um_Spec cr)).

(** [errMigrationRunning] becomes a retry. *)
Definition migration_retry (r : res unit) : res unit :=
  match r with
  | Err errMigrationRunning => Err errRetryReconciliation
  | _ => r
  end.

Definition meta_changeClusterConfig (masterBrokerAddress : string) (cr : Undermoon)
    : go (res unit) :=
  r ← changeClusterConfig client masterBrokerAddress (ClusterName (um_Spec cr))
        (MigrationScanInterval (um_Spec cr)) (MigrationScanCount (um_Spec cr));
  mret (migration_retry r).

Definition meta_getClusterInfo (masterBrokerAddress : string) (cr : Undermoon)
    : go (res clusterInfo) :=
  getClusterInfo client masterBrokerAddress (ClusterName (um_Spec cr)).

Definition reconcileMeta (masterBrokerAddress : string) (replicaAddresses : list string)
    (proxies : list serverProxyMeta) (cr : Undermoon) (storageAllReady : bool)
    : go (res clusterInfo) :=
  _ ←? meta_setBrokerReplicas masterBrokerAddress replicaAddresses;
  _ ←? reconcileServerProxyRegistry masterBrokerAddress proxies cr;
  if negb storageAllReady then mret (Err errRetryReconciliation)
  else
  _ ←? meta_createCluster masterBrokerAddress cr;
  _ ←? meta_changeClusterConfig masterBrokerAddress cr;
  meta_getClusterInfo masterBrokerAddress cr.

Definition removeNodes (masterBrokerAddress clusterName : string) (retry : bool)
    : go (res unit) :=
  r ← removeFreeNodes client masterBrokerAddress clusterName;
  match r with
  | Err e => mret (migration_retry (Err e))
  | Ok _ => if retry then mret (Err errRetryReconciliation) else mret (Ok ())
  end.

(** [FREE_NODE_FOUND] leads to the removal of the free nodes and then a retry. *)
Definition changeNodeNumber (masterBrokerAddress : string) (cr : Undermoon) : go (res unit) :=
  let clusterName := ClusterName (um_Spec cr) in
  r ← scaleNodes client masterBrokerAddress clusterName (ChunkNumber (um_Spec cr));
  match r with
  | Err errFreeNodeFound => removeNodes masterBrokerAddress clusterName true
  | Err errMigrationRunning | Err errRetryReconciliation | Err errProxyResourceOutOfOrder =>
      mret (Err errRetryReconciliation)
  | Err e => mret (Err e)
  | Ok _ => removeNodes masterBrokerAddress clusterName false
  end.

Definition changeMeta (masterBrokerAddress : string) (cr : Undermoon) (info : clusterInfo)
    : go (res unit) :=
  if IsMigrating info then mret (Err errRetryReconciliation)
  else
  r ← changeNodeNumber masterBrokerAddress cr;
  mret (migration_retry r).
End meta_broker.

Section meta_objects.
Context `{Gzip}.

Definition getOrCreateConfigMap (cr : Undermoon) : go (res ConfigMap) :=
  initData ←? mret (compressString "{}");
  let configmap := createMetaConfigMap cr initData in
  refs ←? api_call (SetControllerReference cr (cm_Meta configmap));
  let configmap := cm_set_meta (set_owner refs (cm_Meta configmap)) configmap in
  r ← api_call (GetConfigMap (MkName (m_Name (cm_Meta configmap))
                                     (m_Namespace (cm_Meta configmap))));
  match r with
  | Err e => if IsNotFound e then api_call (CreateConfigMap configmap) else mret (Err e)
  | Ok found => mret (Ok found)
  end.

Definition getOrCreateMetaSecret (cr : Undermoon) : go (res Secret) :=
  password ←? api_call GeneratePassword;
  let secret := createMetaSecret cr password in
  refs ←? api_call (SetControllerReference cr (sc_Meta secret));
  let secret := sc_set_meta (set_owner refs (sc_Meta secret)) secret in
  r ← api_call (GetSecret (MkName (m_Name (sc_Meta secret)) (m_Namespace (sc_Meta secret))));
  match r with
  | Err e => if IsNotFound e then api_call (CreateSecret secret) else mret (Err e)
  | Ok found => mret (Ok found)
  end.

Definition createMeta : crM (res unit) :=
  _ ←? createConfigMapGuard (cr ← get_cr; lift (getOrCreateConfigMap cr));
  _ ←? createSecretGuard (cr ← get_cr; lift (getOrCreateMetaSecret cr));
  mret (Ok ()).
End meta_objects.

(** * Properties *)

(** ** Requests of the metadata controller *)

Section safety.
Context (client : brokerClient) (master : string) (replicas : list string)
  (proxies : list serverProxyMeta) (cr : Undermoon) (storageAllReady : bool).

Definition config_request (address : string) (l : list string) : operation :=
  Http (MkHttp PUT (url client address "/config") (Some (brokerConfigPayload l))).
Definition register_request (p : serverProxyMeta) : operation :=
  Http (MkHttp POST (url client master "/proxies/meta") (Some (serverProxyPayload p))).
Definition deregister_request (a : string) : operation :=
  Http (MkHttp DELETE (url client master ("/proxies/meta/" +:+ a)) None).
Definition proxies_request : operation :=
  Http (MkHttp GET (url client master "/proxies/addresses") None).

Definition info_request : operation :=
  Http (MkHttp GET (url client master ("/clusters/info/" +:+ ClusterName (um_Spec cr))) None).

(** The broker listed [a] as a registered proxy. *)
Definition reported (h : history k8s) (a : string) : Prop :=
  ∃ resp l, Ev (Σ := k8s) proxies_request (Ok resp) ∈ h ∧
    Result resp = Some (queryServerProxyResponse l) ∧ a ∈ l.

Definition replicas_told (h0 h : history k8s) : Prop :=
  sent h0 h (config_request master replicas) ∧
  ∀ a, a ∈ replicas → sent h0 h (config_request a []).
Definition registered (h0 h : history k8s) : Prop :=
  ∀ p, p ∈ proxies → sent h0 h (register_request p).

(** What each request of [reconcileMeta], started at [h0], has to satisfy. *)
Definition meta_request_ok (h0 h : history k8s) (o : operation) : Prop :=
  match o with
  | Http r =>
      match hr_method r, hr_body r with
      | GET, _ => True
      | PUT, _ => o = config_request master replicas ∨ ∃ a, a ∈ replicas ∧ o = config_request a []
      | POST, Some (serverProxyPayload p) =>
          p ∈ proxies ∧ o = register_request p ∧ replicas_told h0 h
      | DELETE, _ =>
          ∃ a, o = deregister_request a ∧ reported h a ∧ a ∉ keep_set cr proxies ∧
               registered h0 h
      | _, _ => storageAllReady = true ∧ registered h0 h ∧ replicas_told h0 h ∧
                ∃ path, hr_url r = url client master path
      end
  | _ => False
  end.

Section requests.
Context (G : history k8s → operation → Prop).

(** For the requests of a program: each function of the client keeps the
    guarantee when its one request does; the postcondition may assume the answer
    is in the history. *)
Lemma wp_registerServerProxy proxy (Q : history k8s → res unit → Prop) h :
  let o := register_request proxy in
  G h o → (∀ x r, Q (h ++ [Ev (Σ := k8s) o x]) r) →
  wp (guarantees G) (registerServerProxy client master proxy) Q h.
Proof. intros o Ho HQ. unfold registerServerProxy. go_run; try apply HQ; done. Qed.

Lemma wp_deregisterServerProxy proxyAddress (Q : history k8s → res unit → Prop) h :
  let o := deregister_request proxyAddress in
  G h o → (∀ x r, Q (h ++ [Ev (Σ := k8s) o x]) r) →
  wp (guarantees G) (deregisterServerProxy client master proxyAddress) Q h.
Proof. intros o Ho HQ. unfold deregisterServerProxy. go_run; try apply HQ; done. Qed.

Lemma wp_setBrokerReplicas address l (Q : history k8s → res unit → Prop) h :
  let o := config_request address l in
  G h o → (∀ x r, Q (h ++ [Ev (Σ := k8s) o x]) r) →
  wp (guarantees G) (setBrokerReplicas client address l) Q h.
Proof. intros o Ho HQ. unfold setBrokerReplicas. go_run; try apply HQ; done. Qed.
End requests.

#[local] Hint Resolve sent_last sent_app prefix_step : core.

Lemma replicas_told_app h0 h t : replicas_told h0 h → replicas_told h0 (h ++ t).
Proof. intros [? ?]. split; auto. Qed.
Lemma registered_app h0 h t : registered h0 h → registered h0 (h ++ t).
Proof. intros Hr p Hp. auto. Qed.
#[local] Hint Resolve replicas_told_app registered_app : core.

Abbreviation meta_wp h0 := (wp (guarantees (meta_request_ok h0))).

Lemma wp_meta_setBrokerReplicas h0 h (Q : history k8s → res unit → Prop) :
  h0 `prefix_of` h →
  (∀ h' r, h0 `prefix_of` h' → (r = Ok () → replicas_told h0 h') → Q h' r) →
  meta_wp h0 (meta_setBrokerReplicas client master replicas) Q h.
Proof.
  intros Hp HQ. unfold meta_setBrokerReplicas. apply wp_ebind, wp_setBrokerReplicas; [by left|].
  intros x [[]|e]; [|apply HQ; [auto|done]].
  eapply (wp_for_each _ _ (λ h' told _, h0 `prefix_of` h' ∧
    sent h0 h' (config_request master replicas) ∧
    ∀ a, a ∈ told → sent h0 h' (config_request a []))).
  - split; [auto|]. split; [auto|]. intros a Ha. by apply elem_of_nil in Ha.
  - intros h' told a rest Hrest (Hp' & Hm & Hall). apply wp_setBrokerReplicas.
    { right. exists a. split; [|done]. rewrite Hrest. apply elem_of_app. right. by left. }
    intros y [[]|e]; [|apply HQ; [auto|done]]. split; [auto|]. split; [auto|].
    intros b [Hb|Hb]%elem_of_app; [auto|]. apply list_elem_of_singleton in Hb as ->. auto.
  - intros h' (Hp' & Hm & Hall). apply HQ; [done|]. by split.
Qed.

Lemma wp_registerServerProxies h0 h (Q : history k8s → res unit → Prop) :
  h0 `prefix_of` h → replicas_told h0 h →
  (∀ h' r, h0 `prefix_of` h' → replicas_told h0 h' → (r = Ok () → registered h0 h') → Q h' r) →
  meta_wp h0 (registerServerProxies client master proxies) Q h.
Proof.
  intros Hp Ht HQ. unfold registerServerProxies.
  apply (wp_for_each _ _ (λ h' sofar _, h0 `prefix_of` h' ∧ replicas_told h0 h' ∧
    ∀ p, p ∈ sofar → sent h0 h' (register_request p))).
  - split; [done|]. split; [done|]. intros a Ha. by apply elem_of_nil in Ha.
  - intros h' sofar p rest Hrest (Hp' & Ht' & Hall). apply wp_bind, wp_registerServerProxy.
    { split; [rewrite Hrest; apply elem_of_app; right; by left|]. done. }
    intros x r.
    assert (∀ q, q ∈ sofar ++ [p] → sent h0 (h' ++ [Ev (Σ := k8s) (register_request p) x]) (register_request q)).
    { intros q [Hq|Hq]%elem_of_app; [auto|]. apply list_elem_of_singleton in Hq as ->. auto. }
    go_run; first [by auto | apply HQ; auto; done].
  - intros h' (Hp' & Ht' & Hall). by apply HQ.
Qed.

Lemma wp_getServerProxies h0 h (Q : history k8s → res (list string) → Prop) :
  (∀ x e, Q (h ++ [Ev (Σ := k8s) proxies_request x]) (Err e)) →
  (∀ resp l, Result resp = Some (queryServerProxyResponse l) →
     Q (h ++ [Ev (Σ := k8s) proxies_request (Ok resp)]) (Ok l)) →
  meta_wp h0 (getServerProxies client master) Q h.
Proof. intros Herr Hok. unfold getServerProxies. go_run; first [done|apply Herr|by apply Hok]. Qed.

Lemma wp_deregisterServerProxies h0 h (Q : history k8s → res unit → Prop) :
  h0 `prefix_of` h → replicas_told h0 h → registered h0 h →
  (∀ h' r, h0 `prefix_of` h' → replicas_told h0 h' → registered h0 h' → Q h' r) →
  meta_wp h0 (deregisterServerProxies client master proxies cr) Q h.
Proof.
  intros Hp Ht Hr HQ. unfold deregisterServerProxies.
  apply wp_ebind, wp_getServerProxies; [intros; apply HQ; auto|]. intros resp l Hl.
  apply (wp_for_each _ _ (λ h' _ _, h0 `prefix_of` h' ∧ replicas_told h0 h' ∧ registered h0 h' ∧
    ∀ x, x ∈ l → reported h' x)).
  - do 3 (split; [auto|]). intros x Hx. do 2 eexists. split; [|done].
    apply elem_of_app. right. by left.
  - intros h' ? x rest Hrest (Hp' & Ht' & Hr' & Hrep).
    assert (x ∈ filter (λ a, a ∉ keep_set cr proxies) l) as [Hx Hin]%list_elem_of_filter
      by (rewrite Hrest; apply elem_of_app; right; by left).
    apply wp_bind, wp_deregisterServerProxy.
    { exists x. auto. }
    intros y r.
    assert (∀ x', x' ∈ l → reported (h' ++ [Ev (Σ := k8s) (deregister_request x) y]) x').
    { intros x' (resp' & l' & He & ? & ?)%Hrep. exists resp', l'. split; [|done]. apply elem_of_app. by left. }
    go_run; first [by auto 10 | apply HQ; auto; done].
  - intros h' (Hp' & Ht' & Hr' & _). by apply HQ.
Qed.

(** Once the gate is passed it stays passed. *)
Definition cluster_gate (h0 h : history k8s) : Prop :=
  storageAllReady = true ∧ registered h0 h ∧ replicas_told h0 h.

Lemma cluster_gate_ok h0 h : cluster_gate h0 h → ∀ path,
  storageAllReady = true ∧ registered h0 h ∧ replicas_told h0 h ∧
  ∃ path', url client master path = url client master path'.
Proof. intros (? & ? & ?) path. eauto. Qed.

Lemma cluster_gate_app h0 h t : cluster_gate h0 h → cluster_gate h0 (h ++ t).
Proof. intros (? & ? & ?). repeat split; auto; by apply replicas_told_app. Qed.
#[local] Hint Resolve cluster_gate_app : core.

Lemma wp_createCluster_gate h0 h :
  cluster_gate h0 h → meta_wp h0 (meta_createCluster client master cr) (λ h' _, cluster_gate h0 h') h.
Proof.
  intros Hg. unfold meta_createCluster, clusterExists, createCluster.
  go_run; first [done | by apply cluster_gate_ok; auto | by auto].
Qed.

Lemma wp_changeClusterConfig_gate h0 h :
  cluster_gate h0 h →
  meta_wp h0 (meta_changeClusterConfig client master cr) (λ h' _, cluster_gate h0 h') h.
Proof.
  intros Hg. unfold meta_changeClusterConfig, changeClusterConfig.
  go_run; first [done | by apply cluster_gate_ok; auto | by auto].
Qed.

Lemma wp_reconcileMeta h0 h (Q : history k8s → res clusterInfo → Prop) :
  h0 `prefix_of` h →
  (∀ h' e, Q h' (Err e)) →
  (∀ h' resp info, cluster_gate h0 h' → StatusCode resp = 200 →
     Result resp = Some (clusterInfoPayload info) →
     Q (h' ++ [Ev (Σ := k8s) info_request (Ok resp)]) (Ok info)) →
  meta_wp h0 (reconcileMeta client master replicas proxies cr storageAllReady) Q h.
Proof.
  intros Hp Herr HQ. unfold reconcileMeta, reconcileServerProxyRegistry.
  apply wp_ebind, wp_meta_setBrokerReplicas; [done|]. intros h1 [[]|e] Hp1 Ht1; [|apply Herr].
  apply wp_ebind, wp_ebind, wp_registerServerProxies; [done|by apply Ht1|].
  intros h2 [[]|e] Hp2 Ht2 Hr2; [|apply Herr].
  apply wp_deregisterServerProxies; [done|done|by apply Hr2|].
  intros h3 [[]|e] Hp3 Ht3 Hr3; [|apply Herr].
  destruct storageAllReady eqn:Hready; cbn [negb]; [|apply wp_ret, Herr].
  assert (cluster_gate h0 h3) as Hg by done.
  apply wp_ebind. eapply wp_mono; [by apply wp_createCluster_gate|].
  intros h4 [[]|e] Hg4; [|apply Herr].
  apply wp_ebind. eapply wp_mono; [by apply wp_changeClusterConfig_gate|].
  intros h5 [[]|e] Hg5; [|apply Herr].
  unfold meta_getClusterInfo, getClusterInfo. go_run; try apply Herr.
  unfold status in *. go_bools. by apply HQ.
Qed.

(** C9. Reconciling the metadata is safe, in any environment and whatever the broker
    answers: a proxy is removed only if the broker listed it, it is not the
    address of a pod the custom resource wants or of a proxy that is running, and
    after every running proxy was sent for registration; proxies are registered
    only after the replicas were told their master and the master its replicas;
    and the cluster is created or reconfigured only after all of that, and only
    when the storage was ready. *)
Theorem reconcileMeta_safe (E : env k8s) (h : history k8s) :
  guarded (meta_request_ok h) h
    (run_from E h (reconcileMeta client master replicas proxies cr storageAllReady)).1.
Proof.
  apply run_guarded. by apply wp_reconcileMeta.
Qed.
End safety.

(** ** Changing the number of nodes *)

Section change.
Context (client : brokerClient) (master : string) (cr : Undermoon).

Definition scale_request : operation :=
  Http (MkHttp POST (url client master ("/clusters/migrations/auto/" +:+ ClusterName (um_Spec cr)
          +:+ "/" +:+ itoa (node_number (ChunkNumber (um_Spec cr))))) None).
Definition free_request : operation :=
  Http (MkHttp DELETE (url client master ("/clusters/free_nodes/" +:+ ClusterName (um_Spec cr))) None).

(** The broker refused with one of these statuses and this error. *)
Definition refused (codes : list Z) (name : string) (resp : http_response) : Prop :=
  StatusCode resp ∈ codes ∧ ErrorField resp = Some name.
Definition timed_out : http_response → Prop := refused [504] errStrExternalTimeout.

(** The answers to the scaling: accepted; free nodes have to be removed first; the
    broker is busy, or its proxies are out of order. *)
Definition scaled (resp : http_response) : Prop := StatusCode resp = 200.
Definition free_found : http_response → Prop := refused [409; 400] errStrFreeNodeFound.
Definition scale_busy (resp : http_response) : Prop :=
  ∃ name, name ∈ [errStrMigrationRunning; errStrRetry; errStrProxyResourceOutOfOrder] ∧
    refused [409; 400] name resp.

(** The answers to the removal of free nodes: there are none left; the broker is busy. *)
Definition no_free_nodes (resp : http_response) : Prop :=
  StatusCode resp = 200 ∨ refused [404; 409] errStrFreeNodeNotFound resp.
Definition free_busy (resp : http_response) : Prop :=
  ∃ name, name ∈ [errStrMigrationRunning; errStrRetry] ∧ refused [404; 409] name resp.

(** The error for an answer that is not [good]: [e] for [busy], the timeout for a
    timeout, the error of the transport, and otherwise the answer as text. *)
Definition failure (good busy : http_response → Prop) (text : string)
    (x : result ext_error http_response) (e : error) : Prop :=
  match x with
  | Err err => e = ErrExt err
  | Ok resp =>
      ¬ good resp ∧
      (busy resp ∧ e = errRetryReconciliation ∨
       timed_out resp ∧ e = errExternalTimeout ∨
       ¬ busy resp ∧ ¬ timed_out resp ∧ e = bad_status text resp)
  end.
Definition scale_failure : result ext_error http_response → error → Prop :=
  failure (λ s, scaled s ∨ free_found s) scale_busy "Failed to change node number".
Definition free_failure : result ext_error http_response → error → Prop :=
  failure no_free_nodes free_busy "Failed to remove free nodes".

(** What a run of [changeMeta] does from [h] to [h'] and returns. *)
Definition change_result (info : clusterInfo) (h h' : history k8s) (r : res unit) : Prop :=
  if IsMigrating info then h' = h ∧ r = Err errRetryReconciliation
  else
    (∃ x e, h' = h ++ [Ev (Σ := k8s) scale_request x] ∧ scale_failure x e ∧ r = Err e) ∨
    (∃ s x, h' = h ++ [Ev (Σ := k8s) scale_request (Ok s); Ev (Σ := k8s) free_request x] ∧
       (scaled s ∨ free_found s) ∧
       ((∃ e, free_failure x e ∧ r = Err e) ∨
        (∃ f, x = Ok f ∧ no_free_nodes f ∧
           (scaled s ∧ r = Ok () ∨ free_found s ∧ r = Err errRetryReconciliation)))).

Lemma error_is_true resp name : error_is resp name = true ↔ ErrorField resp = Some name.
Proof.
  unfold error_is. destruct (ErrorField resp) as [e|]; [|done].
  rewrite String.eqb_eq. naive_solver.
Qed.

Lemma refused_two resp c1 c2 name :
  (status resp c1 || status resp c2) && error_is resp name = true ↔ refused [c1; c2] name resp.
Proof.
  unfold refused, status. rewrite andb_true_iff, orb_true_iff, error_is_true, !Z.eqb_eq.
  rewrite list_elem_of_In. simpl. naive_solver.
Qed.

Lemma refused_one resp c name :
  status resp c && error_is resp name = true ↔ refused [c] name resp.
Proof.
  unfold refused, status. rewrite andb_true_iff, error_is_true, Z.eqb_eq, list_elem_of_singleton. done.
Qed.

(** The classes of answers, as the tests of the client. *)
Lemma scaled_test s : scaled s ↔ status s 200 = true.
Proof. unfold scaled, status. by rewrite Z.eqb_eq. Qed.
Lemma timed_out_test s : timed_out s ↔ status s 504 && error_is s errStrExternalTimeout = true.
Proof. unfold timed_out. by rewrite refused_one. Qed.
Lemma free_found_test s :
  free_found s ↔ (status s 409 || status s 400) && error_is s errStrFreeNodeFound = true.
Proof. unfold free_found. by rewrite refused_two. Qed.
Lemma scale_busy_test s :
  scale_busy s ↔ (status s 409 || status s 400) && error_is s errStrMigrationRunning = true ∨
                 (status s 409 || status s 400) && error_is s errStrRetry = true ∨
                 (status s 409 || status s 400) && error_is s errStrProxyResourceOutOfOrder = true.
Proof.
  rewrite !refused_two. unfold scale_busy. split.
  - intros (n & Hn & Hr). rewrite !elem_of_cons, elem_of_nil in Hn. naive_solver.
  - intros [?|[?|?]]; eexists; (split; [|done]); rewrite !elem_of_cons; auto 6.
Qed.
Lemma no_free_nodes_test s :
  no_free_nodes s ↔ status s 200 = true ∨
                    (status s 404 || status s 409) && error_is s errStrFreeNodeNotFound = true.
Proof. rewrite refused_two. unfold no_free_nodes, status. by rewrite Z.eqb_eq. Qed.
Lemma free_busy_test s :
  free_busy s ↔ (status s 404 || status s 409) && error_is s errStrMigrationRunning = true ∨
                (status s 404 || status s 409) && error_is s errStrRetry = true.
Proof.
  rewrite !refused_two. unfold free_busy. split.
  - intros (n & Hn & Hr). rewrite !elem_of_cons, elem_of_nil in Hn. naive_solver.
  - intros [?|?]; eexists; (split; [|done]); rewrite !elem_of_cons; auto 6.
Qed.

(** An answer has one status and one error. *)
Lemma status_one s c d : status s c = true → c ≠ d → status s d = false.
Proof. unfold status. rewrite Z.eqb_eq, Z.eqb_neq. congruence. Qed.
Lemma error_one s n m : error_is s n = true → n ≠ m → error_is s m = false.
Proof.
  intros Hn Hne. destruct (error_is s m) eqn:Hm; [|done].
  rewrite error_is_true in Hn, Hm. congruence.
Qed.

(** What [scaleNodes] and [removeFreeNodes] make of an answer, by these classes. *)
Definition scale_answer (s : http_response) (r : res unit) : Prop :=
  (scaled s ∧ r = Ok ()) ∨ (free_found s ∧ r = Err errFreeNodeFound) ∨
  ∃ e, scale_failure (Ok s) e ∧
    (r = Err e ∨ e = errRetryReconciliation ∧
     (r = Err errMigrationRunning ∨ r = Err errProxyResourceOutOfOrder)).
Definition free_answer (s : http_response) (r : res unit) : Prop :=
  (no_free_nodes s ∧ r = Ok ()) ∨
  ∃ e, free_failure (Ok s) e ∧
    (r = Err e ∨ e = errRetryReconciliation ∧ r = Err errMigrationRunning).

Lemma error_one_b s n m : error_is s n = true → String.eqb n m = false → error_is s m = false.
Proof. rewrite String.eqb_neq. apply error_one. Qed.

(** Decides the tests on an answer: the first that holds settles the others. *)
Ltac answer_run HQ :=
  go_run; apply HQ;
  repeat match goal with
  | H : ?b = false |- context [?b] => rewrite H
  | H : _ && _ = true |- _ => apply andb_prop in H as [? ?]
  | H : _ || _ = true |- _ => apply orb_prop in H as [?|?]
  | H : status ?s ?c = true |- context [status ?s ?d] =>
      first [rewrite H | rewrite (status_one s c d H) by done]
  | H : error_is ?s ?n = true |- context [error_is ?s ?m] =>
      first [rewrite H | rewrite (error_one_b s n m H) by done]
  end; simpl; clear; naive_solver.

Lemma wp_scaleNodes (C : contract k8s) (Q : history k8s → res unit → Prop) h :
  guar C h scale_request →
  (∀ err, Q (h ++ [Ev (Σ := k8s) scale_request (Err err)]) (Err (ErrExt err))) →
  (∀ s r, scale_answer s r → Q (h ++ [Ev (Σ := k8s) scale_request (Ok s)]) r) →
  wp C (scaleNodes client master (ClusterName (um_Spec cr)) (ChunkNumber (um_Spec cr))) Q h.
Proof.
  intros HG Herr HQ. unfold scaleNodes. apply wp_ebind, wp_api; [done|].
  cbn beta iota delta [eq_rect]. intros [s|err] _; cbn beta iota delta [lift_err]; [|apply Herr].
  specialize (HQ s). unfold scale_answer, scale_failure, failure in HQ.
  setoid_rewrite scaled_test in HQ. setoid_rewrite timed_out_test in HQ.
  setoid_rewrite free_found_test in HQ. setoid_rewrite scale_busy_test in HQ.
  answer_run HQ.
Qed.

Lemma wp_removeFreeNodes (C : contract k8s) (Q : history k8s → res unit → Prop) h :
  guar C h free_request →
  (∀ err, Q (h ++ [Ev (Σ := k8s) free_request (Err err)]) (Err (ErrExt err))) →
  (∀ s r, free_answer s r → Q (h ++ [Ev (Σ := k8s) free_request (Ok s)]) r) →
  wp C (removeFreeNodes client master (ClusterName (um_Spec cr))) Q h.
Proof.
  intros HG Herr HQ. unfold removeFreeNodes. apply wp_ebind, wp_api; [done|].
  cbn beta iota delta [eq_rect]. intros [s|err] _; cbn beta iota delta [lift_err]; [|apply Herr].
  specialize (HQ s). unfold free_answer, free_failure, failure in HQ.
  setoid_rewrite timed_out_test in HQ.
  setoid_rewrite no_free_nodes_test in HQ. setoid_rewrite free_busy_test in HQ.
  answer_run HQ.
Qed.

(** The errors of both requests that reach [changeMeta]. *)
Lemma scale_failure_retry x e :
  scale_failure x e → migration_retry (Err e) = Err e.
Proof. destruct x as [s|err]; [intros (_ & [(_ & ->)|[(_ & ->)|(_ & _ & ->)]])|intros ->]; done. Qed.
Lemma free_failure_retry x e : free_failure x e → migration_retry (Err e) = Err e.
Proof. destruct x as [s|err]; [intros (_ & [(_ & ->)|[(_ & ->)|(_ & _ & ->)]])|intros ->]; done. Qed.

Lemma wp_removeNodes (C : contract k8s) (retry : bool) (Q : history k8s → res unit → Prop) h :
  guar C h free_request →
  (∀ x e, free_failure x e → Q (h ++ [Ev (Σ := k8s) free_request x]) (Err e)) →
  (∀ f, no_free_nodes f → Q (h ++ [Ev (Σ := k8s) free_request (Ok f)])
     (if retry then Err errRetryReconciliation else Ok ())) →
  wp C (removeNodes client master (ClusterName (um_Spec cr)) retry) Q h.
Proof.
  intros HG Herr HQ. unfold removeNodes. apply wp_bind, wp_removeFreeNodes; [done| |].
  - intros err. by apply wp_ret, (Herr (Err err)).
  - intros f r [[Hf ->]|(e & He & [->|[-> ->]])]; cbn beta iota.
    + destruct retry; by apply wp_ret, HQ.
    + rewrite (free_failure_retry _ _ He). by apply wp_ret, Herr.
    + by apply wp_ret, Herr.
Qed.

(** All that [changeMeta] does and returns. *)
Lemma wp_changeMeta (C : contract k8s) info (Q : history k8s → res unit → Prop) h :
  (∀ h', guar C h' scale_request) → (∀ h', guar C h' free_request) →
  (∀ h' r, change_result info h h' r → Q h' r) →
  wp C (changeMeta client master cr info) Q h.
Proof.
  intros HGs HGf HQ. unfold changeMeta, change_result in *. destruct (IsMigrating info).
  { by apply wp_ret, HQ. }
  apply wp_bind. unfold changeNodeNumber.
  assert (∀ x e, scale_failure x e →
    wp C (mret (@Err error unit e)) (λ h' r, wp C (mret (migration_retry r)) Q h')
      (h ++ [Ev (Σ := k8s) scale_request x])) as Hfail.
  { intros x e He. apply wp_ret, wp_ret. rewrite (scale_failure_retry _ _ He).
    apply HQ. left. by exists x, e. }
  assert (∀ s (retry : bool), (if retry then free_found s else scaled s) →
    wp C (removeNodes client master (ClusterName (um_Spec cr)) retry)
      (λ h' r, wp C (mret (migration_retry r)) Q h')
      (h ++ [Ev (Σ := k8s) scale_request (Ok s)])) as Hrem.
  { intros s retry Hs. assert (scaled s ∨ free_found s) by (destruct retry; auto).
    apply wp_removeNodes; [done| |].
    - intros x e He. rewrite <- app_assoc. apply wp_ret. rewrite (free_failure_retry _ _ He). apply HQ. right.
      exists s, x. do 2 (split; [done|]). left. by exists e.
    - intros f Hf. rewrite <- app_assoc. apply wp_ret, HQ. right. exists s, (Ok f). do 2 (split; [done|]). right.
      exists f. destruct retry; auto. }
  apply wp_bind, wp_scaleNodes; [done| |].
  - intros err. by apply (Hfail (Err err)).
  - intros s r [[Hs ->]|[[Hs ->]|(e & He & [->|[-> [->| ->]]])]].
    + by apply (Hrem s false).
    + by apply (Hrem s true).
    + apply (Hfail (Ok s) e) in He as He'. destruct He as [Hn [(? & ->)|[(? & ->)|(? & ? & ->)]]]; done.
    + by apply (Hfail (Ok s)).
    + by apply (Hfail (Ok s)).
Qed.

(** C10. Changing the number of nodes, for every answer of the broker.  A cluster that is
    migrating is left alone and asks for a retry.  Otherwise the scaling is
    requested; the removal of free nodes is requested when it was accepted, or
    was refused because free nodes were found, and the step succeeds exactly when
    the scaling was accepted and no free nodes are left.  A busy broker, proxies
    out of order, and free nodes that had to be removed first become a retry; a
    timeout of the broker, an unexpected answer and an error of the transport are
    returned as they are.  It never panics and sends no other request. *)
Theorem changeMeta_spec (E : env k8s) (h : history k8s) (info : clusterInfo) :
  ∃ h' r, run_from E h (changeMeta client master cr info) = (h', Some r) ∧
    change_result info h h' r.
Proof. apply run_no_panic. by apply wp_changeMeta. Qed.
End change.

(** A broker that accepts the scaling and has no free node left. *)
Definition scaling_env : env k8s := λ _ o,
  match o with
  | Http (MkHttp POST _ _) => Ok (MkResponse 200 "" None None)
  | Http (MkHttp DELETE _ _) => Ok (MkResponse 404 "" (Some "FREE_NODE_NOT_FOUND") None)
  | Now => 0
  | _ => Err (ExtOther "unavailable")
  end.

Example changeMeta_scales :
  let client := newBrokerClient "v3" in
  let run := run_from scaling_env []
               (changeMeta client "b" (sample_cr 2) (MkClusterInfo "cluster" 4 4 false)) in
  calls run.1 = [scale_request client "b" (sample_cr 2); free_request client "b" (sample_cr 2)] ∧
  run.2 = Some (Ok ()).
Proof. split; reflexivity. Qed.
