(* ===== verification/ExternalStore.v ===== *)
(** * The external store of the brokers' metadata (src/controllers/meta_controller.go)

    The second half of the metadata controller: the brokers keep their metadata in
    a ConfigMap, read and written through the operator, with optimistic
    concurrency on the resource version; a Secret holds the password. *)
From S2P Require Import Prelude Prog GoStr Base64 Types Samples Api Utils Meta.

(** encoding/json on [map[string]interface{}]. *)
Class Json := {
  JsonValue : Type;
  json_Marshal : gmap string JsonValue → result ext_error string;
  json_Unmarshal : string → result ext_error (gmap string JsonValue)
}.
Class JsonLaws `{Json} : Prop := {
  json_roundtrip s text : json_Marshal s = Ok text → json_Unmarshal text = Ok s
}.

(** meta_server.go: the store as the broker sends and receives it. *)
Record externalStore `{Json} := MkStore {
  Version : string;
  Store : gmap string JsonValue
}.

Section meta_store.
Context `{Gzip, Json}.

Definition getConfigMap (undermoonName namespace : string) : go (res ConfigMap) :=
  api_call (GetConfigMap (MkName (MetaConfigMapName undermoonName) namespace)).

(** What [getExternalStore] makes of the ConfigMap. *)
Definition decode_store (configmap : ConfigMap) : res externalStore :=
  match cm_Data configmap ≫= lookup metaStoreKey with
  | None => Err (ErrMsg "configmap is deleted")
  | Some data =>
      match decompressString data with
      | Err e => Err e
      | Ok decompressData =>
          match json_Unmarshal decompressData with
          | Err e => Err (ErrExt e)
          | Ok store => Ok (MkStore _ (m_ResourceVersion (cm_Meta configmap)) store)
          end
      end
  end.

Definition getExternalStore (undermoonName namespace : string) : go (res externalStore) :=
  configmap ←? getConfigMap undermoonName namespace;
  mret (decode_store configmap).

(** A failure of the encoder is logged and reported as success. *)
Definition updateExternalStore (undermoonName namespace : string) (store : externalStore)
    : go (res unit) :=
  configmap ←? getConfigMap undermoonName namespace;
  if negb (String.eqb (m_ResourceVersion (cm_Meta configmap)) (Version store)) then
    mret (Err errExternalStoreConflict)
  else
  match json_Marshal (Store store) with
  | Err _ => mret (Ok ())
  | Ok data =>
      match compressString data with
      | Err e => mret (Err e)
      | Ok compressedData =>
          match cm_Data configmap with
          | None => Crash
          | Some m =>
              r ← api_call (UpdateConfigMap (cm_set_data (<[metaStoreKey := compressedData]> m) configmap));
              match r with
              | Ok _ => mret (Ok ())
              | Err e => mret (Err (if IsConflict e then errExternalStoreConflict else e))
              end
          end
      end
  end.

Definition initExternalStore (undermoonName namespace : string) (store : gmap string JsonValue)
    : go (res unit) :=
  currStore ←? getExternalStore undermoonName namespace;
  if negb (size (Store currStore) =? 0)%nat then mret (Ok ())
  else updateExternalStore undermoonName namespace (MkStore _ (Version currStore) store).

Definition initOrUpdateExternalStore (undermoonName namespace : string) (store : externalStore)
    : go (res unit) :=
  if (String.length (Version store) =? 0)%nat
  then initExternalStore undermoonName namespace (Store store)
  else updateExternalStore undermoonName namespace store.

Definition checkMetaSecret (undermoonName namespace password : string) : go (res bool) :=
  r ← api_call (GetSecret (MkName (MetaSecretName undermoonName) namespace));
  match r with
  | Err e => if IsNotFound e then mret (Ok false) else mret (Err e)
  | Ok found =>
      match sc_Data found !! metaPasswordKey with
      | None => mret (Err (ErrMsg "meta secret is deleted"))
      | Some secretPassword => mret (Ok (String.eqb secretPassword password))
      end
  end.
End meta_store.

(** * Properties *)

Definition version (c : ConfigMap) : string := m_ResourceVersion (cm_Meta c).
Definition configmap_key (c : ConfigMap) : NamespacedName :=
  MkName (m_Name (cm_Meta c)) (m_Namespace (cm_Meta c)).

(** An update that the server accepted: what was sent and what was stored. *)
Definition accepted (e : event k8s) : option (ConfigMap * ConfigMap) :=
  match e with
  | Ev (UpdateConfigMap c) (Ok c') => Some (c, c')
  | _ => None
  end.

(** The API server's promise for one object (optimistic concurrency, documented at
    "Resource versions"): [cur h] is the object after the history [h], whoever
    wrote it.  The operator reads through a cache, so a read answers the object as
    it was at some moment up to now; an update is accepted only with the current
    version and keeps the data; a version that was replaced never comes back. *)
Record cas_server (E : env k8s) (k : NamespacedName) (cur : history k8s → ConfigMap) : Prop := {
  cas_key h : configmap_key (cur h) = k;
  cas_get h c : E h (GetConfigMap k) = Ok c → ∃ h0, h0 `prefix_of` h ∧ c = cur h0;
  cas_update h c c' :
    configmap_key c = k → E h (UpdateConfigMap c) = Ok c' →
    version c = version (cur h) ∧ cm_Data c' = cm_Data c;
  cas_versions h t : version (cur h) = version (cur (h ++ t)) → cur h = cur (h ++ t)
}.

Section store_properties.
Context `{JsonLaws, GzipLaws} (E : env k8s) (name namespace : string).

Abbreviation store_key := (MkName (MetaConfigMapName name) namespace).
Abbreviation read c := (Ev (Σ := k8s) (GetConfigMap store_key) c).

Definition write_outcome (x : result ext_error ConfigMap) : res unit :=
  match x with
  | Ok _ => Ok ()
  | Err e => Err (if IsConflict (ErrExt e) then errExternalStoreConflict else ErrExt e)
  end.

(** Every way [updateExternalStore] can go from [h]. *)
Inductive update_run (store : externalStore) (h : history k8s) : history k8s → res unit → Prop :=
| upd_unread e :
    E h (GetConfigMap store_key) = Err e →
    update_run store h (h ++ [read (Err e)]) (Err (ErrExt e))
| upd_version c :
    E h (GetConfigMap store_key) = Ok c → version c ≠ Version store →
    update_run store h (h ++ [read (Ok c)]) (Err errExternalStoreConflict)
| upd_marshal c e :
    E h (GetConfigMap store_key) = Ok c → version c = Version store →
    json_Marshal (Store store) = Err e →
    update_run store h (h ++ [read (Ok c)]) (Ok ())
| upd_compress c text e :
    E h (GetConfigMap store_key) = Ok c → version c = Version store →
    json_Marshal (Store store) = Ok text → compressString text = Err e →
    update_run store h (h ++ [read (Ok c)]) (Err e)
| upd_write c m text z x :
    E h (GetConfigMap store_key) = Ok c → version c = Version store →
    json_Marshal (Store store) = Ok text → compressString text = Ok z →
    cm_Data c = Some m →
    let c' := cm_set_data (<[metaStoreKey := z]> m) c in
    E (h ++ [read (Ok c)]) (UpdateConfigMap c') = x →
    update_run store h (h ++ [read (Ok c); Ev (Σ := k8s) (UpdateConfigMap c') x]) (write_outcome x).

Lemma run_updateExternalStore store h h' r :
  run_from E h (updateExternalStore name namespace store) = (h', Some r) →
  update_run store h h' r.
Proof.
  unfold updateExternalStore, getConfigMap. run_simpl.
  destruct (E h (GetConfigMap store_key)) as [c|e] eqn:Hget; simpl; [|intros [= <- <-]; by constructor].
  destruct (String.eqb_spec (m_ResourceVersion (cm_Meta c)) (Version store)) as [Hv|Hv]; simpl;
    [|intros [= <- <-]; by constructor].
  destruct (json_Marshal (Store store)) as [text|e] eqn:Hj; simpl;
    [|intros [= <- <-]; by eapply upd_marshal].
  destruct (compressString text) as [z|e] eqn:Hz; simpl; [|intros [= <- <-]; by eapply upd_compress].
  destruct (cm_Data c) as [m|] eqn:Hd; [|done]. simpl.
  intros Hrun. rewrite <- app_assoc in Hrun.
  destruct (E _ (UpdateConfigMap _)) as [x|x] eqn:Hx in Hrun; simpl in Hrun; injection Hrun as <- <-;
    (eapply (upd_write store h c m text z); done).
Qed.

(** [initExternalStore] in terms of the update it ends with. *)
Lemma run_initExternalStore st h h' r :
  run_from E h (initExternalStore name namespace st) = (h', Some r) →
  (∃ x, E h (GetConfigMap store_key) = x ∧ h' = h ++ [read x]) ∨
  (∃ c s, E h (GetConfigMap store_key) = Ok c ∧ decode_store c = Ok s ∧ Store s = ∅ ∧
     Version s = version c ∧ update_run (MkStore _ (version c) st) (h ++ [read (Ok c)]) h' r).
Proof.
  pose proof run_updateExternalStore as Hupd. unfold initExternalStore.
  generalize dependent (updateExternalStore name namespace). intros update Hupd.
  unfold getExternalStore, getConfigMap. run_simpl.
  destruct (E h (GetConfigMap store_key)) as [c|e] eqn:Hget; simpl; [|intros [= <- <-]; eauto].
  destruct (decode_store c) as [s|e] eqn:Hd; simpl; [|intros [= <- <-]; left; eauto].
  assert (Version s = version c) as Hv by (unfold decode_store in Hd; by repeat case_match; simplify_eq/=).
  destruct (Nat.eqb_spec (size (Store s)) 0) as [Hs|Hs]; simpl; [|intros [= <- <-]; left; eauto].
  intros Hrun%Hupd. right. exists c, s. rewrite Hv in Hrun.
  split; [done|]. split; [done|]. split; [by apply map_size_empty_iff|]. by split.
Qed.
Lemma decode_written c m z st text :
  json_Marshal st = Ok text → compressString text = Ok z →
  cm_Data c = Some (<[metaStoreKey := z]> m) →
  decode_store c = Ok (MkStore _ (version c) st).
Proof.
  intros Hj Hz Hd. unfold decode_store. rewrite Hd. simpl. rewrite lookup_insert_eq.
  by rewrite (decompress_compress _ _ Hz), (json_roundtrip _ _ Hj).
Qed.

Lemma update_run_cas cur store h h' r t1 e t2 c c' :
  cas_server E store_key cur → update_run store h h' r →
  h' = h ++ t1 ++ e :: t2 → accepted e = Some (c, c') →
  version (cur (h ++ t1)) = Version store ∧
  decode_store c' = Ok (MkStore _ (version c') (Store store)) ∧ r = Ok ().
Proof.
  intros Hcas Hrun Heq Hacc.
  destruct Hrun as [e0 _|c0 _ _|c0 e0 _ _ _|c0 text e0 _ _ _ _|c0 m text z x Hget Hv Hj Hz Hm c1 Hx];
    apply app_inv_head in Heq; destruct t1 as [|? [|? t1]]; simplify_eq/=;
    try (by destruct t1); try (by destruct t2).
  destruct (E (h ++ _) _) as [c2|] eqn:Hup; simplify_eq/=.
  destruct (cas_get _ _ _ Hcas _ _ Hget) as (h0 & _ & ->).
  destruct (cas_update _ _ _ Hcas _ (cm_set_data (<[metaStoreKey := z]> m) (cur h0)) _
    (cas_key _ _ _ Hcas h0) Hup) as [Hver Hdata].
  rewrite <- Hver. split; [done|]. split; [|done]. exact (decode_written _ m z _ text Hj Hz Hdata).
Qed.

(** C3. No lost update.  Against a server with optimistic concurrency, read through
    a cache that may lag behind, and whatever other writers do between the calls:
    whenever a run that stores a broker's
    metadata has an update accepted, the state it replaced was the one of the
    version the broker sent, or, when the broker sent no version, a state that
    decodes to an empty store; what was written decodes back to the store the
    broker sent, under the new version; and the run reports success. *)
Theorem no_lost_update (cur : history k8s → ConfigMap) (store : externalStore)
    (h h' : history k8s) (r : res unit) (t1 t2 : history k8s) (e : event k8s) (c c' : ConfigMap)
    (Hcas : cas_server E store_key cur)
    (Hrun : run_from E h (initOrUpdateExternalStore name namespace store) = (h', Some r))
    (Heq : h' = h ++ t1 ++ e :: t2) (Hacc : accepted e = Some (c, c')) :
  let replaced := cur (h ++ t1) in
  (Version store ≠ "" → version replaced = Version store) ∧
  (Version store = "" → ∃ s, decode_store replaced = Ok s ∧ Store s = ∅) ∧
  decode_store c' = Ok (MkStore _ (version c') (Store store)) ∧ r = Ok ().
Proof.
  intros replaced. unfold initOrUpdateExternalStore in Hrun.
  destruct (Nat.eqb_spec (String.length (Version store)) 0) as [Hl|Hl].
  - assert (Version store = "") as Hempty by by destruct (Version store).
    apply run_initExternalStore in Hrun as [(x & Hx & ->)|(c0 & s & Hget & Hdec & Hs & Hv & Hupd)].
    { apply app_inv_head in Heq. destruct t1 as [|? t1]; simplify_eq/=. by destruct t1. }
    destruct t1 as [|e0 t1].
    { destruct Hupd; rewrite <- app_assoc in Heq; apply app_inv_head in Heq; by simplify_eq/=. }
    assert (e0 = read (Ok c0)) as ->.
    { destruct Hupd; rewrite <- app_assoc in Heq; apply app_inv_head in Heq; by simplify_eq/=. }
    destruct (update_run_cas cur _ _ _ _ t1 e t2 c c' Hcas Hupd) as (Hver & Hdec' & ->);
      [by rewrite <- app_assoc|done|].
    split; [done|]. split; [|done]. intros _. exists s. split; [|done].
    unfold replaced. rewrite <- app_assoc in Hver. simpl in Hver.
    destruct (cas_get _ _ _ Hcas _ _ Hget) as (h0 & [t ->] & ->).
    rewrite <- app_assoc in Hver |- *. by rewrite <- (cas_versions _ _ _ Hcas _ _ (eq_sym Hver)).
  - apply run_updateExternalStore in Hrun.
    destruct (update_run_cas cur _ _ _ _ t1 e t2 c c' Hcas Hrun Heq Hacc) as (? & ? & ?).
    split; [done|]. split; [|done]. intros Hempty. by rewrite Hempty in Hl.
Qed.

End store_properties.

(** ** Concrete libraries and a concrete server *)

(** An encoder of the empty store and of stores with an epoch only. *)
Definition small_Marshal (s : gmap string string) : result ext_error string :=
  match s !! "epoch" with
  | Some v => if decide (s = {["epoch" := v]}) then Ok ("e" +:+ v) else Err (ExtOther "json")
  | None => if decide (s = ∅) then Ok "{}" else Err (ExtOther "json")
  end.
Definition small_Unmarshal (text : string) : result ext_error (gmap string string) :=
  match text with
  | String c v => if Ascii.eqb c "e"%char then Ok {["epoch" := v]} else Ok ∅
  | EmptyString => Err (ExtOther "json")
  end.

Lemma small_roundtrip s text : small_Marshal s = Ok text → small_Unmarshal text = Ok s.
Proof.
  unfold small_Marshal. destruct (s !! "epoch") as [v|]; case_decide as Hs; try done;
    intros Ht; injection Ht as <-; cbn; by rewrite Hs.
Qed.

#[local] Instance small_json : Json :=
  {| JsonValue := string; json_Marshal := small_Marshal; json_Unmarshal := small_Unmarshal |}.
#[local] Instance small_json_laws : JsonLaws.
Proof. split. exact small_roundtrip. Qed.

#[local] Instance stored_gzip : Gzip := {| gzip s := Ok s; gunzip s := Ok s |}.
#[local] Instance stored_gzip_laws : GzipLaws.
Proof. split. intros s z Hz. by injection Hz as <-. Qed.

Definition small_store (version epoch : string) : externalStore :=
  MkStore _ version ({["epoch" := epoch]} : gmap string string).

(** A server whose versions are the stored texts, starting from [init]. *)
Definition stored_data (c : ConfigMap) : string :=
  default "" (cm_Data c ≫= lookup metaStoreKey).
Definition server_data (init : string) (h : history k8s) : string :=
  foldl (λ d e, match accepted e with Some (c, _) => stored_data c | None => d end) init h.
Definition config_map (data : string) : ConfigMap :=
  MkConfigMap (MkMeta (MetaConfigMapName "c") "ns" ∅ data []) (Some {[metaStoreKey := data]}).
Definition server_env (init : string) : env k8s := λ h o,
  match o with
  | GetConfigMap _ => Ok (config_map (server_data init h))
  | UpdateConfigMap c =>
      if String.eqb (version c) (server_data init h)
      then Ok (MkConfigMap (cm_Meta (config_map (stored_data c))) (cm_Data c))
      else Err ApiConflict
  | Now => 0
  | _ => Err (ExtOther "unavailable")
  end.

Lemma server_env_cas init :
  cas_server (server_env init) (MkName (MetaConfigMapName "c") "ns")
    (λ h, config_map (server_data init h)).
Proof.
  split; cbn.
  - done.
  - intros h c [= <-]. by exists h.
  - intros h c c' _. destruct (String.eqb_spec (version c) (server_data init h)); [|done].
    by intros [= <-].
  - intros h t Hv. unfold version in Hv. cbn in Hv. by rewrite Hv.
Qed.

(** The text of the store with epoch 7, as it is stored. *)
Definition text7 : string := EncodeToString "e7".

Lemma no_lost_update_witness :
  ∃ c', decode_store c' = Ok (small_store (version c') "9") ∧
    version (config_map (server_data text7 [])) = text7.
Proof.
  set (store := small_store text7 "9").
  set (c := config_map (server_data text7 [])).
  set (sent_map := cm_set_data {[metaStoreKey := EncodeToString "e9"]} c).
  set (e := Ev (Σ := k8s) (UpdateConfigMap sent_map) (server_env text7 [] (UpdateConfigMap sent_map))).
  destruct (no_lost_update (server_env text7) "c" "ns" _ store []
    [Ev (Σ := k8s) (GetConfigMap (MkName (MetaConfigMapName "c") "ns")) (Ok c); e] (Ok ())
    [Ev (Σ := k8s) (GetConfigMap (MkName (MetaConfigMapName "c") "ns")) (Ok c)] [] e sent_map
    (MkConfigMap (cm_Meta (config_map (EncodeToString "e9"))) (cm_Data sent_map))
    (server_env_cas text7)) as (Hver & _ & Hdec & _).
  - vm_compute. reflexivity.
  - reflexivity.
  - vm_compute. reflexivity.
  - eexists. split; [exact Hdec|]. by apply Hver.
Defined.
