(* ===== verification/MetaServer.v ===== *)
(** * The metadata server (src/controllers/meta_server.go)

    The HTTP handlers through which the brokers read and write their metadata,
    over an interface of the gin framework: what a chain of handlers does. *)
From S2P Require Import Prelude Prog GoStr Base64 Types Api Utils Meta ExternalStore.

Definition ctxCrName : string := "um-crName".
Definition ctxNamespace : string := "um-namespace".
Definition codeInvalidBasicAuth : string := "INVALID_BASIC_AUTH".
Definition codeInvalidStorageName : string := "INVALID_STORAGE_NAME".
Definition codeStorageNameNotFound : string := "UNDERMOON_STORAGE_NAME_NOT_FOUND".
Definition codeIncorrectPassword : string := "INCORRECT_PASSWORD".
Definition codeVersionConflict : string := "VERSION_CONFLICT".

Section server.
Context `{Gzip, Json}.

(** A request as the handlers see it: the path parameter, the [Authorization]
    header, and the body as [ShouldBindJSON] decodes it. *)
Record request := MkRequest {
  rq_storageName : string;
  rq_Authorization : string;
  rq_Body : result ext_error externalStore
}.

(** What a handler writes: [c.String(code, text)], the text of an error with
    [c.String(code, fmt.Sprintf(..., err))], or [c.JSON(code, store)]. *)
Inductive reply :=
| ReplyString (code : Z) (text : string)
| ReplyError (code : Z) (e : error)
| ReplyJSON (code : Z) (store : externalStore).

Definition reply_code (r : reply) : Z :=
  match r with ReplyString c _ | ReplyError c _ | ReplyJSON c _ => c end.

(** The gin context: the keys set by handlers, whether [Abort] was called, and
    the replies in the order they were written. *)
Record context := MkContext {
  cx_request : request;
  cx_keys : gmap string string;
  cx_aborted : bool;
  cx_replies : list reply
}.

Definition handler := context → go context.

Definition write (r : reply) (c : context) : context :=
  MkContext (cx_request c) (cx_keys c) (cx_aborted c) (cx_replies c ++ [r]).
Definition set_key (k v : string) (c : context) : context :=
  MkContext (cx_request c) (<[k := v]> (cx_keys c)) (cx_aborted c) (cx_replies c).
Definition new_context (rq : request) : context := MkContext rq ∅ false [].

(** The call of [c.Next()] at the end of a handler runs the pending handlers,
    which the chain does anyway when the handler returns. *)
Definition extractCtx : handler := λ c,
  let storageName := rq_storageName (cx_request c) in
  if (String.length storageName =? 0)%nat then
    mret (write (ReplyString 404 codeStorageNameNotFound) c)
  else match extractStorageName storageName with
       | Err _ => mret (write (ReplyString 400 codeInvalidStorageName) c)
       | Ok (undermoonName, namespace) =>
           mret (set_key ctxNamespace namespace (set_key ctxCrName undermoonName c))
       end.

(** The values under the two keys are strings, so the assertions hold. *)
Definition retrieveCtx (c : context) : result context (string * string) :=
  match cx_keys c !! ctxCrName with
  | None => Err (write (ReplyString 500 "cannot get username in context") c)
  | Some undermoonName =>
      match cx_keys c !! ctxNamespace with
      | None => Err (write (ReplyString 500 "cannot get username in context") c)
      | Some ns => Ok (undermoonName, ns)
      end
  end.

Definition credentials (authorization : string) : option (string * string) :=
  match splitN2 " "%char authorization with
  | [scheme; encoded] =>
      if negb (String.eqb scheme "Basic") then None
      else match DecodeString encoded with
           | None => None
           | Some payload =>
               match splitN2 ":"%char payload with
               | [username; password] => Some (username, password)
               | _ => None
               end
           end
  | _ => None
  end.

Definition basicAuth : handler := λ c,
  match retrieveCtx c with
  | Err c' => mret c'
  | Ok (undermoonName, namespace) =>
      let storageName := rq_storageName (cx_request c) in
      if (String.length storageName =? 0)%nat then
        mret (write (ReplyString 404 codeStorageNameNotFound) c)
      else match credentials (rq_Authorization (cx_request c)) with
      | None => mret (write (ReplyString 401 codeInvalidBasicAuth) c)
      | Some (username, password) =>
          if negb (String.eqb storageName username) then
            mret (write (ReplyString 401 codeInvalidBasicAuth) c)
          else
          r ← checkMetaSecret undermoonName namespace password;
          match r with
          | Err _ => mret (write (ReplyString 401 codeInvalidBasicAuth) c)
          | Ok false => mret (write (ReplyString 401 codeIncorrectPassword) c)
          | Ok true => mret c
          end
      end
  end.

Definition handleGetMeta : handler := λ c,
  match retrieveCtx c with
  | Err c' => mret c'
  | Ok (undermoonName, namespace) =>
      r ← getExternalStore undermoonName namespace;
      match r with
      | Err e => mret (write (ReplyError 500 e) c)
      | Ok store => mret (write (ReplyJSON 200 store) c)
      end
  end.

Definition handleUpdateMeta : handler := λ c,
  match retrieveCtx c with
  | Err c' => mret c'
  | Ok (undermoonName, namespace) =>
      match rq_Body (cx_request c) with
      | Err e => mret (write (ReplyError 400 (ErrExt e)) c)
      | Ok store =>
          r ← initOrUpdateExternalStore undermoonName namespace store;
          match r with
          | Err errExternalStoreConflict => mret (write (ReplyString 409 codeVersionConflict) c)
          | Err e => mret (write (ReplyError 400 e) c)
          | Ok _ => mret (write (ReplyString 200 "") c)
          end
      end
  end.

(** The routes of [serve]; the recovery and logger handlers of gin are left out. *)
Definition get_route : list handler := [extractCtx; handleGetMeta].
Definition put_route : list handler := [extractCtx; basicAuth; handleUpdateMeta].

(** How gin runs a chain: a handler that returns without calling [Abort] is
    followed by the next one (documentation of [Context.Abort]). *)
Class Gin := gin_run : list handler → handler.
Class GinLaws `{Gin} : Prop := {
  gin_nil c : gin_run [] c = mret c;
  gin_cons h hs c :
    gin_run (h :: hs) c = (c' ← h c; if cx_aborted c' then mret c' else gin_run hs c')
}.

Definition serve_get `{Gin} (rq : request) : go context := gin_run get_route (new_context rq).
Definition serve_put `{Gin} (rq : request) : go context := gin_run put_route (new_context rq).
End server.

(** * Properties *)

Section server_properties.
Context `{Gzip, GinLaws}.

(** The reply to an update, and to the check of the credentials, when it fails. *)
Definition update_reply (r : res unit) : reply :=
  match r with
  | Ok _ => ReplyString 200 ""
  | Err errExternalStoreConflict => ReplyString 409 codeVersionConflict
  | Err e => ReplyError 400 e
  end.

Definition secret_refusal (password : string) (x : result ext_error Secret) : list reply :=
  match x with
  | Ok secret =>
      match sc_Data secret !! metaPasswordKey with
      | Some p => if String.eqb p password then [] else [ReplyString 401 codeIncorrectPassword]
      | None => [ReplyString 401 codeInvalidBasicAuth]
      end
  | Err e => if IsNotFound (ErrExt e) then [ReplyString 401 codeIncorrectPassword]
             else [ReplyString 401 codeInvalidBasicAuth]
  end.

Definition auth_refusal (rq : request) (x : result ext_error Secret) : list reply :=
  match credentials (rq_Authorization rq) with
  | Some (username, password) =>
      if String.eqb (rq_storageName rq) username then secret_refusal password x
      else [ReplyString 401 codeInvalidBasicAuth]
  | None => [ReplyString 401 codeInvalidBasicAuth]
  end.

(** The context once the cluster of the request is known. *)
Definition named_context (rq : request) (u ns : string) (replies : list reply) : context :=
  MkContext rq (<[ctxNamespace := ns]> {[ctxCrName := u]}) false replies.

Lemma retrieveCtx_named rq u ns replies :
  retrieveCtx (named_context rq u ns replies) = Ok (u, ns).
Proof. done. Qed.

Lemma run_extractCtx E h rq u ns :
  extractStorageName (rq_storageName rq) = Ok (u, ns) →
  run_from E h (extractCtx (new_context rq)) = (h, Some (named_context rq u ns [])).
Proof.
  intros Hname. unfold extractCtx. cbn [cx_request new_context].
  assert ((String.length (rq_storageName rq) =? 0)%nat = false) as ->
    by (apply length_zero_empty; by intros Hz; rewrite Hz in Hname).
  by rewrite Hname.
Qed.

Lemma run_basicAuth E h rq u ns :
  rq_storageName rq ≠ "" →
  let key := GetSecret (MkName (MetaSecretName u) ns) in
  ∃ h1, (h1 = h ∨ h1 = h ++ [Ev (Σ := k8s) key (E h key)]) ∧
    run_from E h (basicAuth (named_context rq u ns [])) =
      (h1, Some (named_context rq u ns (auth_refusal rq (E h key)))).
Proof.
  intros Hne%length_zero_empty key. unfold basicAuth. rewrite retrieveCtx_named.
  cbn [cx_request named_context]. rewrite Hne. unfold auth_refusal.
  destruct (credentials (rq_Authorization rq)) as [[username password]|]; [|by eauto].
  destruct (String.eqb (rq_storageName rq) username); cbn [negb]; [|by eauto].
  exists (h ++ [Ev (Σ := k8s) key (E h key)]). split; [by right|].
  unfold checkMetaSecret, secret_refusal. run_simpl. fold key.
  destruct (E h key) as [secret|e]; simpl.
  - destruct (sc_Data secret !! metaPasswordKey) as [p|]; simpl; [|done].
    by destruct (String.eqb p password).
  - by destruct (IsNotFound (ErrExt e)).
Qed.

(** A PUT: the credentials, then the update, whatever the first said. *)
Lemma run_serve_put (E : env k8s) (h : history k8s) (rq : request) (u ns : string)
    (store : externalStore)
    (Hname : extractStorageName (rq_storageName rq) = Ok (u, ns))
    (Hbody : rq_Body rq = Ok store) :
  let key := GetSecret (MkName (MetaSecretName u) ns) in
  ∃ h1, (h1 = h ∨ h1 = h ++ [Ev (Σ := k8s) key (E h key)]) ∧
    run_from E h (serve_put rq) =
      (let '(h', r) := run_from E h1 (initOrUpdateExternalStore u ns store) in
       (h', (λ r, named_context rq u ns (auth_refusal rq (E h key) ++ [update_reply r])) <$> r)).
Proof.
  intros key. destruct (run_basicAuth E h rq u ns) as (h1 & Hh1 & Hauth).
  { intros Hz. by rewrite Hz in Hname. }
  exists h1. split; [done|]. unfold serve_put, put_route.
  rewrite gin_cons, run_bind, (run_extractCtx _ _ _ u ns) by done. cbn [cx_aborted named_context].
  rewrite gin_cons, run_bind, Hauth. cbn [cx_aborted named_context].
  rewrite gin_cons, run_bind. fold key. set (refusal := auth_refusal rq (E h key)).
  unfold handleUpdateMeta. rewrite retrieveCtx_named. cbn [cx_request named_context].
  rewrite Hbody, run_bind.
  destruct (run_from E h1 (initOrUpdateExternalStore u ns store)) as [h2 [r|]]; [|done].
  destruct r as [[]|[]]; cbn; by rewrite gin_nil.
Qed.

(** C15. What a PUT of the metadata does, for a request that names a cluster and
    carries a store: the credentials are checked, then the store is updated, and
    both write their reply.  The handler of the credentials does not abort the
    chain, so a request with wrong credentials, or none, is answered 401 first and
    updates the store all the same, exactly as the right ones would. *)
Theorem update_not_gated (E : env k8s) (h : history k8s) (rq : request) (u ns : string)
    (store : externalStore)
    (Hname : extractStorageName (rq_storageName rq) = Ok (u, ns))
    (Hbody : rq_Body rq = Ok store) :
  let key := GetSecret (MkName (MetaSecretName u) ns) in
  ∃ h1, (h1 = h ∨ h1 = h ++ [Ev (Σ := k8s) key (E h key)]) ∧
    run_from E h (serve_put rq) =
      (let '(h', r) := run_from E h1 (initOrUpdateExternalStore u ns store) in
       (h', (λ r, named_context rq u ns (auth_refusal rq (E h key) ++ [update_reply r])) <$> r)).
Proof. by apply run_serve_put. Qed.

Lemma run_serve_get E h rq u ns :
  extractStorageName (rq_storageName rq) = Ok (u, ns) →
  run_from E h (serve_get rq) =
    (let '(h', r) := run_from E h (getExternalStore u ns) in
     (h', (λ r, named_context rq u ns
                  [match r with Ok store => ReplyJSON 200 store | Err e => ReplyError 500 e end]) <$> r)).
Proof.
  intros Hname. unfold serve_get, get_route.
  rewrite gin_cons, run_bind, (run_extractCtx _ _ _ u ns) by done. cbn [cx_aborted named_context].
  rewrite gin_cons, run_bind. unfold handleGetMeta. rewrite retrieveCtx_named, run_bind.
  destruct (run_from E h (getExternalStore u ns)) as [h1 [[st|e]|]]; [..|done]; cbn; by rewrite gin_nil.
Qed.

Lemma last_reply_update (cx : list reply) r : last (cx ++ [update_reply r]) = Some (ReplyString 200 "") → r = Ok ().
Proof. rewrite last_snoc. by destruct r as [[]|[]]. Qed.

(** The API server keeps the ConfigMap [k]: it is read under its own name, and an
    accepted update keeps the name and the data it was sent. *)
Record keeps_configmap (E : env k8s) (k : NamespacedName) : Prop := {
  keeps_name h c : E h (GetConfigMap k) = Ok c → configmap_key c = k;
  keeps_update h c c' : configmap_key c = k → E h (UpdateConfigMap c) = Ok c' →
    configmap_key c' = k ∧ cm_Data c' = cm_Data c
}.

(** C4. Metadata round trip through the HTTP interface: when a PUT that carries a
    version is answered 200 last and its store can be encoded, a GET for the same
    cluster that comes next, when the read of its ConfigMap shows that write, answers
    200 with the store that was put, under the version that the write gave it.  The
    operator reads through a cache, so it is a condition that the read shows the
    write; what is assumed of the API server concerns this one ConfigMap: it keeps
    the data it is sent, and is read under its own name. *)
Theorem put_then_get `{!JsonLaws, !GzipLaws} (E : env k8s) (h h' : history k8s) (rq rq' : request)
    (u ns : string) (store : externalStore) (text : string) (cx : context)
    (Hname : extractStorageName (rq_storageName rq) = Ok (u, ns))
    (Hname' : rq_storageName rq' = rq_storageName rq)
    (Hbody : rq_Body rq = Ok store) (Hversion : Version store ≠ "")
    (Hjson : json_Marshal (Store store) = Ok text)
    (Hkeep : keeps_configmap E (MkName (MetaConfigMapName u) ns))
    (Hread : ∀ c c', last h' ≫= accepted = Some (c, c') →
       configmap_key c' = MkName (MetaConfigMapName u) ns →
       E h' (GetConfigMap (MkName (MetaConfigMapName u) ns)) = Ok c')
    (Hput : run_from E h (serve_put rq) = (h', Some cx))
    (Hok : last (cx_replies cx) = Some (ReplyString 200 "")) :
  ∃ c c', last h' ≫= accepted = Some (c, c') ∧
  ∃ h'', run_from E h' (serve_get rq') =
    (h'', Some (named_context rq' u ns [ReplyJSON 200 (MkStore _ (version c') (Store store))])).
Proof.
  destruct (run_serve_put E h rq u ns store Hname Hbody) as (h1 & _ & Hrun). cbv zeta in Hrun.
  rewrite Hput in Hrun. unfold initOrUpdateExternalStore in Hrun.
  destruct (Nat.eqb_spec (String.length (Version store)) 0) as [Hl|_]; [by destruct (Version store)|].
  destruct (run_from E h1 (updateExternalStore u ns store)) as [h2 [r|]] eqn:Hupd; [|done].
  injection Hrun as -> ->. cbn [cx_replies named_context] in Hok. apply last_reply_update in Hok as ->.
  apply run_updateExternalStore in Hupd. inversion Hupd as [| |c e Hget Hv Hj| |c m text' z x Hget Hv Hj Hz Hm c1 Hx Hh Hr];
    subst; [congruence|]. destruct (E _ (UpdateConfigMap _)) as [c'|e] eqn:Hx; [|by destruct e].
  change [?e1; ?e2] with ([e1] ++ [e2]) in *. rewrite !app_assoc in *.
  match goal with |- context [last (?h0 ++ [?e0])] =>
    assert (last (h0 ++ [e0]) ≫= accepted = Some (c1, c')) as Hlast by by rewrite last_snoc end.
  exists c1, c'. split; [exact Hlast|].
  rewrite (run_serve_get _ _ rq' u ns) by by rewrite Hname'.
  unfold getExternalStore, getConfigMap. run_simpl. destruct (keeps_update _ _ Hkeep _ c1 _ (keeps_name _ _ Hkeep _ _ Hget) Hx) as [Hkey Hdata].
  rewrite (Hread _ _ Hlast Hkey). simpl.
  eexists. rewrite (decode_written c' m z (Store store) text'); [done|done|done|].
  by rewrite Hdata.
Qed.

(** Basic authentication round trip: the header a client makes of a name
    without a colon and a password is read back as that name and password. *)
Theorem credentials_roundtrip (username password : string)
    (Hname : str_In ":"%char username = false) :
  credentials ("Basic " +:+ EncodeToString (username +:+ ":" +:+ password)) =
    Some (username, password).
Proof.
  unfold credentials.
  change ("Basic " +:+ ?encoded) with ("Basic" +:+ String " " encoded).
  rewrite splitN2_app by done.
  rewrite String.eqb_refl. cbn [negb]. rewrite DecodeString_EncodeToString.
  change (":" +:+ password) with (String ":" password). by rewrite splitN2_app.
Qed.
End server_properties.

(** ** A chain of handlers that follows the documentation of gin *)

#[local] Instance plain_gin `{Json} : Gin :=
  fix go hs c :=
    match hs with
    | [] => mret c
    | h :: hs => c' ← h c; if cx_aborted c' then mret c' else go hs c'
    end.
#[local] Instance plain_gin_laws `{Json} : GinLaws.
Proof. by split. Qed.
#[local] Existing Instance small_json.
#[local] Existing Instance stored_gzip.

(** An update of the metadata of cluster "c" with no credentials at all. *)
Definition anonymous_put : request := MkRequest "c@ns" "" (Ok (small_store text7 "9")).

Lemma update_not_gated_witness :
  let result := run_from (server_env text7) [] (serve_put anonymous_put) in
  (λ c, reply_code <$> cx_replies c) <$> result.2 = Some [401; 200] ∧
  omap (λ e, stored_data ∘ snd <$> accepted e) result.1 = [EncodeToString "e9"].
Proof.
  destruct (update_not_gated (server_env text7) [] anonymous_put "c" "ns" _ eq_refl eq_refl)
    as (h1 & [->| ->] & Hrun); cbv zeta; rewrite Hrun; split; vm_compute; reflexivity.
Defined.

Lemma credentials_roundtrip_witness :
  credentials ("Basic Y0BuczpwOnc=") = Some ("c@ns", "p:w").
Proof. exact (credentials_roundtrip "c@ns" "p:w" eq_refl). Defined.

(** A server without other writers of one ConfigMap: it answers reads of it with what
    was stored last, and numbers the versions. *)
Definition store_step (init c : ConfigMap) (e : event k8s) : ConfigMap :=
  match accepted e with
  | Some (_, c') => if decide (configmap_key c' = configmap_key init) then c' else c
  | None => c
  end.
Definition stored_last (init : ConfigMap) (h : history k8s) : ConfigMap := foldl (store_step init) init h.
Definition quiet_server (init : ConfigMap) : env k8s := λ h o,
  match o with
  | GetConfigMap k =>
      if decide (k = configmap_key init) then Ok (stored_last init h) else Err ApiNotFound
  | UpdateConfigMap c =>
      if String.eqb (version c) (version (stored_last init h))
      then Ok (MkConfigMap (MkMeta (m_Name (cm_Meta c)) (m_Namespace (cm_Meta c)) ∅
                              (utoa (Z.of_nat (length h))) []) (cm_Data c))
      else Err ApiConflict
  | Now => 0
  | _ => Err (ExtOther "unavailable")
  end.

Lemma stored_last_key init h : configmap_key (stored_last init h) = configmap_key init.
Proof.
  induction h as [|e h IH] using rev_ind; [done|]. unfold stored_last. rewrite foldl_app. simpl.
  unfold store_step at 1. destruct (accepted e) as [[c c']|]; [|exact IH]. case_decide; [done|exact IH].
Qed.

Lemma quiet_server_read init h c c' :
  last h ≫= accepted = Some (c, c') → configmap_key c' = configmap_key init →
  quiet_server init h (GetConfigMap (configmap_key init)) = Ok c'.
Proof.
  destruct h as [|e h _] using rev_ind; [done|]. rewrite last_snoc. simpl. intros He Hk.
  rewrite decide_True by done. unfold stored_last. rewrite foldl_app. simpl. unfold store_step at 1.
  by rewrite He, decide_True.
Qed.

Lemma quiet_server_keeps init : keeps_configmap (quiet_server init) (configmap_key init).
Proof.
  split.
  - intros h c. simpl. rewrite decide_True by done. intros [= <-]. apply stored_last_key.
  - intros h c c' <-. simpl. destruct (String.eqb _ _); [|done]. by intros [= <-].
Qed.

(** The PUT is answered 200 last, and its write is the first version. *)
Definition answered_ok (result : history k8s * option context) : bool :=
  match result.2 with
  | Some cx => match last (cx_replies cx) with
               | Some (ReplyString 200 text) => String.eqb text ""
               | _ => false
               end
  | None => false
  end.
Definition written_version (h : history k8s) : string :=
  match last h ≫= accepted with Some (_, c) => version c | None => "" end.

Lemma anonymous_put_run :
  let run := run_from (quiet_server (config_map text7)) [] (serve_put anonymous_put) in
  answered_ok run = true ∧ written_version run.1 = "1".
Proof. split; vm_compute; reflexivity. Qed.

Lemma put_then_get_witness :
  let E := quiet_server (config_map text7) in
  ∃ h' cx, run_from E [] (serve_put anonymous_put) = (h', Some cx) ∧
  ∃ h'' cx', run_from E h' (serve_get (MkRequest "c@ns" "" (Err (ExtOther "EOF")))) = (h'', Some cx') ∧
    cx_replies cx' = [ReplyJSON 200 (small_store "1" "9")].
Proof.
  intros E. pose proof anonymous_put_run as [Hok Hlast]. fold E in Hok, Hlast.
  destruct (run_from E [] (serve_put anonymous_put)) as [h' [cx|]] eqn:Hput; [|discriminate Hok].
  exists h', cx. split; [reflexivity|].
  assert (last (cx_replies cx) = Some (ReplyString 200 "")) as Hrep.
  { unfold answered_ok in Hok. cbn [fst snd] in Hok.
    repeat case_match; try discriminate Hok. by apply String.eqb_eq in Hok as ->. }
  unfold written_version in Hlast. cbn [fst] in Hlast.
  destruct (@put_then_get stored_gzip small_json plain_gin plain_gin_laws small_json_laws stored_gzip_laws
    E [] h' anonymous_put (MkRequest "c@ns" "" (Err (ExtOther "EOF"))) "c" "ns"
    (small_store text7 "9") "e9" cx eq_refl eq_refl eq_refl ltac:(intros Hv; vm_compute in Hv; discriminate Hv) eq_refl
    (quiet_server_keeps (config_map text7)) (quiet_server_read (config_map text7) _) Hput Hrep)
    as (c0 & c' & Hc' & h'' & Hget).
  rewrite Hc' in Hlast. exists h'', (named_context (MkRequest "c@ns" "" (Err (ExtOther "EOF"))) "c" "ns"
      [ReplyJSON 200 (MkStore _ (version c') (Store (small_store text7 "9")))]).
    split; [exact Hget|]. cbn [cx_replies named_context]. rewrite Hlast. reflexivity.
Defined.
