(* ===== verification/Reconciler.v ===== *)
(** * The reconciler (src/controllers/undermoon_controller.go)

    One run of [Reconcile] for a custom resource: create the objects, wait for
    brokers and coordinators, elect the master broker, register the proxies,
    migrate, scale down, roll.  Every early return is a value of [outcome]. *)
From S2P Require Import Prelude Prog GoStr Types Samples Api Utils Broker Coordinator Storage.
From S2P Require Import BrokerClient Resources BrokerController CoordinatorController.
From S2P Require Import StorageController MetaController ExternalStore RollingUpdate.

(** [(ctrl.Result, error)]; the delay is in seconds. *)
Record outcome := MkOutcome {
  Requeue : bool;
  RequeueAfter : Z;
  Failure : option error
}.

Definition done_ : outcome := MkOutcome false 0 None.
Definition requeue (seconds : Z) : outcome := MkOutcome true seconds None.
Definition failed (e : error) : outcome := MkOutcome false 0 (Some e).

(** [if err == errRetryReconciliation { requeue } else { return err }] *)
Definition or_retry {A} (seconds : Z) (r : res A) : result outcome A :=
  match r with
  | Ok a => Ok a
  | Err errRetryReconciliation => Err (requeue seconds)
  | Err e => Err (failed e)
  end.
Definition or_fail {A} (r : res A) : result outcome A :=
  match r with Ok a => Ok a | Err e => Err (failed e) end.

(** Runs a step and turns its error into an early return. *)
Definition retrying {A} (seconds : Z) (m : crM (res A)) : crM (result outcome A) :=
  r ← m; mret (or_retry seconds r).
Definition failing {A} (m : crM (res A)) : crM (result outcome A) :=
  r ← m; mret (or_fail r).

Record umResource := MkResource {
  brokerStatefulSet : StatefulSet;
  coordinatorStatefulSet : StatefulSet;
  storageStatefulSet : StatefulSet;
  brokerService : Service;
  coordinatorService : Service;
  storageService : Service
}.

Section reconciler.
Context `{OsEnv, QuantityEq, Gzip}.

(** The broker client of [newBrokerController] and [newMetaController]. *)
Definition r_client : brokerClient :=
  newBrokerClient (Getenv "UNDERMOON_OPERATOR_BROKER_API_VERSION").

Definition createResources : crM (res umResource) :=
  _ ←? createMeta;
  '(bss, bsvc) ←? createBroker;
  '(css, csvc) ←? createCoordinator;
  '(sss, ssvc) ←? createStorage;
  mret (Ok (MkResource bss css sss bsvc csvc ssvc)).

Definition brokerAndCoordinatorReady (resource : umResource) : go (res bool) :=
  ready ←? brokerReady (brokerStatefulSet resource) (brokerService resource);
  if negb ready then mret (Ok false)
  else
  ready ←? coordinatorReady (coordinatorStatefulSet resource) (coordinatorService resource);
  if negb ready then mret (Ok false) else mret (Ok true).

(** One component of [triggerRollingUpdate]: an update is always followed by a
    retry; without one the component has to be ready. *)
Definition roll_component (need : Undermoon → go bool) (update : crM (res StatefulSet))
    (ready : Undermoon → go (res bool)) : crM (res unit) :=
  cr ← get_cr;
  needed ← lift (need cr);
  if needed : bool then
    _ ←? update;
    mret (Err errRetryReconciliation)
  else
    isReady ←? lift (ready cr);
    if negb isReady then mret (Err errRetryReconciliation) else mret (Ok ()).

Definition triggerRollingUpdate (resource : umResource) : crM (res unit) :=
  _ ←? roll_component
         (λ cr, broker_needRollingUpdate cr (brokerStatefulSet resource))
         (broker_triggerStatefulSetRollingUpdate (brokerStatefulSet resource)
            (brokerService resource))
         (λ _, brokerAllReady (brokerStatefulSet resource) (brokerService resource));
  _ ←? roll_component
         (λ cr, coordinator_needRollingUpdate cr (coordinatorStatefulSet resource))
         (coordinator_triggerStatefulSetRollingUpdate (coordinatorStatefulSet resource)
            (coordinatorService resource))
         (λ _, coordiantorAllReady (coordinatorStatefulSet resource)
                 (coordinatorService resource));
  roll_component
    (λ cr, storage_needRollingUpdate cr (storageStatefulSet resource))
    (storage_triggerStatefulSetRollingUpdate (storageStatefulSet resource)
       (storageService resource))
    (λ cr, storageAllReadyAndStable (storageService resource) (storageStatefulSet resource) cr).

Definition set_storage (ss : StatefulSet) (r : umResource) : umResource :=
  MkResource (brokerStatefulSet r) (coordinatorStatefulSet r) ss
    (brokerService r) (coordinatorService r) (storageService r).

(** [Reconcile] up to the election of the master broker. *)
Definition reconcile_prepare : crM (result outcome (umResource * string * list string)) :=
  resource ←? retrying 3 createResources;
  ready ←? failing (lift (brokerAndCoordinatorReady resource));
  if negb ready then mret (Err (requeue 3))
  else
  '(masterBrokerAddress, replicaAddresses) ←?
    retrying 3 (reconcileMaster r_client (brokerService resource));
  mret (Ok (resource, masterBrokerAddress, replicaAddresses)).

(** [Reconcile] after the coordinators know the master broker. *)
Definition reconcile_apply (resource : umResource) (masterBrokerAddress : string)
    (replicaAddresses : list string) : crM (result outcome unit) :=
  cr ← get_cr;
  proxies ←? failing (lift (storage_getServerProxies (storageService resource) cr));
  allReady ←? failing (lift (storageAllReady (storageService resource) cr));
  info ←? retrying 3 (lift (reconcileMeta r_client masterBrokerAddress replicaAddresses
                              proxies cr allReady));
  stable ←? failing (lift (storageAllReadyAndStable (storageService resource)
                             (storageStatefulSet resource) cr));
  if negb stable then mret (Err (requeue 10))
  else
  _ ←? retrying 3 (lift (changeMeta r_client masterBrokerAddress cr info));
  info ←? retrying 3 (lift (reconcileMeta r_client masterBrokerAddress replicaAddresses
                              [] cr allReady));
  storage ←? retrying 10 (scaleDownStorageStatefulSet (storageStatefulSet resource) info);
  retrying 5 (triggerRollingUpdate (set_storage storage resource)).

Definition outcome_of (r : result outcome unit) : outcome :=
  match r with Ok _ => done_ | Err o => o end.

(** The pool of Redis clients is the state a reconciler keeps between runs. *)
Definition Reconcile (pool : redisClientPool) (request : NamespacedName)
    : go (redisClientPool * outcome) :=
  r ← api_call (GetUndermoon request);
  match r with
  | Err e => mret (pool, if IsNotFound e then done_ else failed e)
  | Ok instance =>
      '(cr, prepared) ← reconcile_prepare instance;
      match prepared with
      | Err o => mret (pool, o)
      | Ok (resource, masterBrokerAddress, replicaAddresses) =>
          '(pool', err) ← configSetBroker pool cr (coordinatorService resource)
                            masterBrokerAddress;
          match err with
          | Err e => mret (pool', failed e)
          | Ok _ =>
              '(_, r) ← reconcile_apply resource masterBrokerAddress replicaAddresses cr;
              mret (pool', outcome_of r)
          end
      end
  end.
End reconciler.

(** * Properties *)

Section rolling.
Context `{OsEnv, QuantityEq} (resource : umResource).

Lemma wp_or_panic {A} C (o : option A) (Q : history k8s → A → Prop) h :
  (o = None → panics C) → (∀ a, o = Some a → Q h a) → wp C (or_panic o) Q h.
Proof. intros Hp HQ. destruct o as [a|]; [by apply HQ|by apply Hp]. Qed.

Lemma wp_roll_component C changed update ready cr (Q : history k8s → Undermoon * res unit → Prop) h :
  (changed cr = None → panics C) →
  (changed cr = Some true → wp C (update cr) (λ h' r, ∀ e, Q h' (r.1, Err e)) h) →
  (changed cr = Some false →
   wp C (ready cr) (λ h' r, Q h' (cr, match r with
                                     | Ok true => Ok ()
                                     | Ok false => Err errRetryReconciliation
                                     | Err e => Err e
                                     end)) h) →
  wp C (roll_component (λ cr, or_panic (changed cr)) update ready cr) Q h.
Proof.
  intros Hp Hupd Hready. unfold roll_component. do 4 go_step. apply wp_or_panic; [done|].
  intros [|] Hc; cbn beta iota delta [fst snd].
  - apply wp_cr_ebind. eapply wp_mono; [by apply Hupd|]. intros h' [cr' [ss|e]] HQ; [|apply HQ].
    apply wp_cr_ret, HQ.
  - apply wp_cr_ebind, wp_lift. eapply wp_mono; [by apply Hready|].
    intros h' [[|]|e] HQ; cbn; [by apply wp_cr_ret|by apply wp_cr_ret|done].
Qed.

(** The service had at least [n] addresses when it was asked. *)
Definition saw_endpoints (h : history k8s) (svc : Service) (n : Z) : Prop :=
  ∃ x count, Ev (Σ := k8s) (endpoints_key svc) x ∈ h ∧ endpoint_count x = Ok count ∧ n ≤ count.

Definition broker_settled (cr : Undermoon) (h : history k8s) : Prop :=
  brokerStatefulSetChanged cr (brokerStatefulSet resource) = Some false ∧
  sst_ReadyReplicas (ss_Status (brokerStatefulSet resource)) = brokerNum ∧
  saw_endpoints h (brokerService resource) brokerNum.
Definition coordinator_settled (cr : Undermoon) (h : history k8s) : Prop :=
  coordinatorStatefulSetChanged cr (coordinatorStatefulSet resource) = Some false ∧
  coordinatorNum ≤ sst_ReadyReplicas (ss_Status (coordinatorStatefulSet resource)) ∧
  saw_endpoints h (coordinatorService resource) coordinatorNum.
Definition storage_settled (cr : Undermoon) (h : history k8s) : Prop :=
  storageStatefulSetChanged cr (storageStatefulSet resource) = Some false ∧
  saw_endpoints h (storageService resource) (storage_replicas cr) ∧
  ∃ n, sss_Replicas (ss_Spec (storageStatefulSet resource)) = Some n ∧
       sst_CurrentReplicas (ss_Status (storageStatefulSet resource)) = n ∧
       sst_Replicas (ss_Status (storageStatefulSet resource)) = n.

(** No StatefulSet was updated after [h0]. *)
Definition no_update (h0 h : history k8s) : Prop := ∀ ss, ¬ sent h0 h (UpdateStatefulSet ss).

(** When a rolling update may be sent. *)
Definition roll_allowed (cr : Undermoon) (h0 h : history k8s) (o : operation) : Prop :=
  match o with
  | GetEndpoints _ => True
  | UpdateStatefulSet ss =>
      no_update h0 h ∧
      ((ss_Meta ss = ss_Meta (brokerStatefulSet resource) ∧
        brokerStatefulSetChanged cr (brokerStatefulSet resource) = Some true) ∨
       (ss_Meta ss = ss_Meta (coordinatorStatefulSet resource) ∧
        coordinatorStatefulSetChanged cr (coordinatorStatefulSet resource) = Some true ∧
        broker_settled cr h) ∨
       (ss_Meta ss = ss_Meta (storageStatefulSet resource) ∧
        storageStatefulSetChanged cr (storageStatefulSet resource) = Some true ∧
        broker_settled cr h ∧ coordinator_settled cr h))
  | _ => False
  end.

Section roll_steps.
Context (cr : Undermoon) (h0 : history k8s).
Abbreviation roll_wp := (wp (guarantees (roll_allowed cr h0))).

Lemma no_update_endpoints h svc x :
  no_update h0 h → no_update h0 (h ++ [Ev (Σ := k8s) (endpoints_key svc) x]).
Proof.
  intros Hno ss (t & y & Heq & Hin). destruct (Hno ss).
  destruct t as [|e t _] using rev_ind; [by apply elem_of_nil in Hin|].
  rewrite app_assoc in Heq. apply app_inj_tail in Heq as [-> <-].
  exists t, y. split; [done|]. apply elem_of_app in Hin as [|Hin]; [done|].
  by apply list_elem_of_singleton in Hin.
Qed.

Lemma saw_endpoints_app h t svc n : saw_endpoints h svc n → saw_endpoints (h ++ t) svc n.
Proof. intros (x & c & ? & ?). exists x, c. split; [apply elem_of_app; by left|done]. Qed.

Lemma saw_endpoints_last h svc x count n :
  endpoint_count x = Ok count → n ≤ count →
  saw_endpoints (h ++ [Ev (Σ := k8s) (endpoints_key svc) x]) svc n.
Proof. intros ? ?. exists x, count. split; [apply elem_of_app; right; by left|done]. Qed.

(** An update of a component and what follows it. *)
Lemma wp_trigger build ss (k : StatefulSet → crM (res StatefulSet)) h :
  (∀ spec, roll_allowed cr h0 h (UpdateStatefulSet (ss_set_spec spec ss))) →
  (∀ h' ss' cr', roll_wp (k ss' cr') (λ _ _, True) h') →
  roll_wp ((ss' ←? updateStatefulSetSpec build ss; k ss') cr) (λ _ _, True) h.
Proof.
  intros HG Hk. apply wp_cr_ebind, wp_updateStatefulSetSpec; [done|].
  intros h' [cr' [ss'|e]]; [apply Hk|done].
Qed.

(** One component: it is updated, or found settled, or the run stops. *)
Lemma wp_roll_broker h (Q : history k8s → Undermoon * res unit → Prop) :
  no_update h0 h →
  (∀ h' cr' e, Q h' (cr', Err e)) →
  (∀ h', no_update h0 h' → broker_settled cr h' → Q h' (cr, Ok ())) →
  roll_wp (roll_component
    (λ cr, broker_needRollingUpdate cr (brokerStatefulSet resource))
    (broker_triggerStatefulSetRollingUpdate (brokerStatefulSet resource) (brokerService resource))
    (λ _, brokerAllReady (brokerStatefulSet resource) (brokerService resource)) cr) Q h.
Proof.
  intros Hno Herr HQ. unfold broker_needRollingUpdate. apply wp_roll_component; [done| |]; intros Hc.
  - eapply wp_mono; [|intros; apply Herr]. apply wp_trigger.
    + intros spec. split; [done|]. by left.
    + intros h' ss' cr'. unfold brokerAllReady, getServiceEndpointsNum, getEndpoints. by go_run.
  - unfold brokerAllReady. apply wp_ebind, wp_getServiceEndpointsNum; [done|]. intros x _.
    destruct (endpoint_count x) as [n|e] eqn:Hx; [|apply Herr]. apply wp_ret.
    destruct (_ && _) eqn:Hr; [|apply Herr]. go_bools.
    apply HQ; [by apply no_update_endpoints|]. split; [done|]. split; [done|].
    by eapply saw_endpoints_last.
Qed.

Lemma wp_roll_coordinator h (Q : history k8s → Undermoon * res unit → Prop) :
  no_update h0 h → broker_settled cr h →
  (∀ h' cr' e, Q h' (cr', Err e)) →
  (∀ h', no_update h0 h' → broker_settled cr h' → coordinator_settled cr h' → Q h' (cr, Ok ())) →
  roll_wp (roll_component
    (λ cr, coordinator_needRollingUpdate cr (coordinatorStatefulSet resource))
    (coordinator_triggerStatefulSetRollingUpdate (coordinatorStatefulSet resource)
       (coordinatorService resource))
    (λ _, coordiantorAllReady (coordinatorStatefulSet resource) (coordinatorService resource)) cr) Q h.
Proof.
  intros Hno Hb Herr HQ. unfold coordinator_needRollingUpdate.
  apply wp_roll_component; [done| |]; intros Hc.
  - eapply wp_mono; [|intros; apply Herr]. apply wp_trigger.
    + intros spec. split; [done|]. right. by left.
    + intros h' ss' cr'. unfold coordiantorAllReady, getServiceEndpointsNum, getEndpoints. by go_run.
  - unfold coordiantorAllReady. apply wp_ebind, wp_getServiceEndpointsNum; [done|]. intros x _.
    destruct (endpoint_count x) as [n|e] eqn:Hx; [|apply Herr]. apply wp_ret.
    destruct (_ && _) eqn:Hr; [|apply Herr]. go_bools.
    apply HQ; [by apply no_update_endpoints| |].
    + destruct Hb as (? & ? & ?). split; [done|]. split; [done|]. by apply saw_endpoints_app.
    + split; [done|]. split; [done|]. by eapply saw_endpoints_last.
Qed.

Lemma wp_storageAllReadyAndStable (C : contract k8s) svc ss h (Q : history k8s → res bool → Prop) :
  panics C → guar C h (endpoints_key svc) →
  (∀ x b, (b = true → ∃ count n, endpoint_count x = Ok count ∧ storage_replicas cr ≤ count ∧
       sss_Replicas (ss_Spec ss) = Some n ∧
       sst_CurrentReplicas (ss_Status ss) = n ∧ sst_Replicas (ss_Status ss) = n) →
     Q (h ++ [Ev (Σ := k8s) (endpoints_key svc) x]) (Ok b)) →
  (∀ x e, endpoint_count x = Err e → Q (h ++ [Ev (Σ := k8s) (endpoints_key svc) x]) (Err e)) →
  wp C (storageAllReadyAndStable svc ss cr) Q h.
Proof.
  intros Hp HG HQ Herr. unfold storageAllReadyAndStable, storageAllReady, deref_replicas.
  apply wp_ebind, wp_ebind, wp_getServiceEndpointsNum; [done|]. intros x _.
  destruct (endpoint_count x) as [count|e] eqn:Hx; [|by apply Herr].
  go_run; try done; apply HQ; intros Hb; try done. go_bools. eauto 10.
Qed.

Lemma wp_roll_storage h (Q : history k8s → Undermoon * res unit → Prop) :
  no_update h0 h → broker_settled cr h → coordinator_settled cr h →
  (∀ h' cr' e, Q h' (cr', Err e)) →
  (∀ h', no_update h0 h' → broker_settled cr h' → coordinator_settled cr h' →
     storage_settled cr h' → Q h' (cr, Ok ())) →
  roll_wp (roll_component
    (λ cr, storage_needRollingUpdate cr (storageStatefulSet resource))
    (storage_triggerStatefulSetRollingUpdate (storageStatefulSet resource) (storageService resource))
    (λ cr, storageAllReadyAndStable (storageService resource) (storageStatefulSet resource) cr) cr) Q h.
Proof.
  intros Hno Hb Hcd Herr HQ. unfold storage_needRollingUpdate.
  apply wp_roll_component; [done| |]; intros Hc.
  - eapply wp_mono; [|intros; apply Herr]. apply wp_trigger.
    + intros spec. split; [done|]. right. by right.
    + intros h' ss' cr'. unfold storageAllReady, getServiceEndpointsNum, getEndpoints. by go_run.
  - apply wp_storageAllReadyAndStable; [done|done| |intros; apply Herr].
    intros x [|] Hx; [|apply Herr]. destruct (Hx eq_refl) as (count & n & Hcount & Hle & Hn & Hcur & Hrep).
    apply HQ; [by apply no_update_endpoints| | |].
    + destruct Hb as (? & ? & ?). split; [done|]. split; [done|]. by apply saw_endpoints_app.
    + destruct Hcd as (? & ? & ?). split; [done|]. split; [done|]. by apply saw_endpoints_app.
    + split; [done|]. split; [by eapply saw_endpoints_last|]. eauto.
Qed.
End roll_steps.

Lemma no_update_refl h : no_update h h.
Proof. intros ss (t & x & Ht & Hx). rewrite <- (app_nil_r h) in Ht at 1. apply app_inv_head in Ht as <-.
  by apply elem_of_nil in Hx. Qed.

(** The whole step: its requests are allowed, and a success means settled. *)
Lemma wp_triggerRollingUpdate cr h :
  wp (guarantees (roll_allowed cr h)) (triggerRollingUpdate resource cr) (λ h' r,
    match r.2 with
    | Ok _ => r.1 = cr ∧ no_update h h' ∧ broker_settled cr h' ∧ coordinator_settled cr h' ∧
              storage_settled cr h'
    | Err _ => True
    end) h.
Proof.
  unfold triggerRollingUpdate.
  apply wp_cr_ebind, wp_roll_broker; [apply no_update_refl|done|]. intros h1 Hno1 Hb1.
  apply wp_cr_ebind, wp_roll_coordinator; [done|done|done|]. intros h2 Hno2 Hb2 Hc2.
  by apply wp_roll_storage.
Qed.

(** C11. Rolling updates go one component at a time, in any environment: a run updates
    at most one StatefulSet; the broker's when its test reports a change, the
    coordinator's only when the broker needs no update and all brokers are ready,
    the storage's only when neither broker nor coordinator does and both are
    ready. *)
Theorem rolling_one_at_a_time (E : env k8s) (h : history k8s) (cr : Undermoon) :
  guarded (roll_allowed cr h) h (run_from E h (triggerRollingUpdate resource cr)).1.
Proof.
  apply run_guarded. eapply wp_mono; [apply wp_triggerRollingUpdate|done].
Qed.
End rolling.

(** ** Early returns *)

Section early_returns.
Context `{OsEnv, QuantityEq, Gzip}.

(** What a step that may ask for a retry returns early with: the retry itself is never
    reported as a failure. *)
Definition early (seconds : Z) (o : outcome) : Prop :=
  o = requeue seconds ∨ ∃ e, e ≠ errRetryReconciliation ∧ o = failed e.

Lemma or_retry_early {A} seconds (r : res A) o : or_retry seconds r = Err o → early seconds o.
Proof.
  destruct r as [a|[]]; intros [= <-];
  first [by left | right; eexists; split; [|reflexivity]; done].
Qed.
Lemma early_not_done seconds o : early seconds o → o ≠ done_.
Proof. by intros [->|(e & _ & ->)]. Qed.

Lemma wp_retrying_early {A B} C seconds (m : crM (res A)) (k : A → crM (result outcome B)) cr
    (Q : history k8s → Undermoon * result outcome B → Prop) h :
  (∀ h' cr' o, early seconds o → Q h' (cr', Err o)) →
  wp C (m cr) (λ h' r, match r.2 with Ok a => wp C (k a r.1) Q h' | Err _ => True end) h →
  wp C ((a ←? retrying seconds m; k a) cr) Q h.
Proof.
  intros Herr Hm. apply wp_cr_ebind, wp_cr_bind. eapply wp_mono; [exact Hm|].
  intros h' [cr' r] Hr. apply wp_cr_ret. cbn beta iota delta [fst snd] in *.
  destruct (or_retry seconds r) as [a|o] eqn:Ho; [|by eapply Herr, or_retry_early].
  destruct r as [a'|[]]; simplify_eq/=; done.
Qed.

Lemma wp_failing_err {A B} C (m : crM (res A)) (k : A → crM (result outcome B)) cr
    (Q : history k8s → Undermoon * result outcome B → Prop) h :
  wp C (m cr) (λ h' r, match r.2 with Ok a => wp C (k a r.1) Q h'
                                    | Err e => Q h' (r.1, Err (failed e)) end) h →
  wp C ((a ←? failing m; k a) cr) Q h.
Proof.
  intros Hm. apply wp_cr_ebind, wp_cr_bind. eapply wp_mono; [exact Hm|].
  by intros h' [cr' [a|e]] Hr; apply wp_cr_ret.
Qed.

(** For runs that end well, every early return is the same. *)
Lemma wp_retrying {A B} C seconds (m : crM (res A)) (k : A → crM (result outcome B)) cr
    (Q : history k8s → Undermoon * result outcome B → Prop) h :
  (∀ h' cr' o, o ≠ done_ → Q h' (cr', Err o)) →
  wp C (m cr) (λ h' r, match r.2 with Ok a => wp C (k a r.1) Q h' | Err _ => True end) h →
  wp C ((a ←? retrying seconds m; k a) cr) Q h.
Proof. intros Herr. apply wp_retrying_early. eauto using early_not_done. Qed.

Lemma wp_failing {A B} C (m : crM (res A)) (k : A → crM (result outcome B)) cr
    (Q : history k8s → Undermoon * result outcome B → Prop) h :
  (∀ h' cr' o, o ≠ done_ → Q h' (cr', Err o)) →
  wp C (m cr) (λ h' r, match r.2 with Ok a => wp C (k a r.1) Q h' | Err _ => True end) h →
  wp C ((a ←? failing m; k a) cr) Q h.
Proof.
  intros Herr Hm. apply wp_failing_err. eapply wp_mono; [exact Hm|].
  intros h' [cr' [a|e]] Hr; [done|by apply Herr].
Qed.
End early_returns.
