(* ===== verification/Creation.v ===== *)
(** * Where the objects of a reconciliation come from
      (src/controllers/undermoon_controller.go)

    [createResources] only reads and creates Kubernetes objects, and what it hands
    on are answers of the API server: of the lookup under the name of the
    component, or of the creation of the object that was built for it; the
    storage StatefulSet may be the answer of the update that grew it. *)
From S2P Require Import Prelude Prog GoStr Types Api Utils Broker Coordinator Storage.
From S2P Require Import BrokerClient Resources BrokerController CoordinatorController.
From S2P Require Import StorageController MetaController RollingUpdate Reconciler.

(** ** Requests that only concern Kubernetes objects *)

Definition plain_op (o : operation) : Prop :=
  match o with
  | Http _ | RedisProcess _ _ | StatusUpdate _ | StatusPatch _ _ | UpdateConfigMap _ => False
  | _ => True
  end.

Abbreviation plain := (guarantees (Σ := k8s) (λ _ o, plain_op o)).

Definition meta_key (m : ObjectMeta) : NamespacedName := MkName (m_Name m) (m_Namespace m).

Section creation.
Context `{OsEnv, QuantityEq, Gzip} (cr0 : Undermoon).

(** The custom resource while the objects are built: only its affinity changes. *)
Definition same_cr (c : Undermoon) : Prop := ∃ a, c = um_set_affinity a cr0.

Lemma same_cr_refl : same_cr cr0.
Proof. exists (CrAffinity (um_Spec cr0)). by rewrite um_set_affinity_id. Qed.
Lemma same_cr_set a c : same_cr c → same_cr (um_set_affinity a c).
Proof. intros [b ->]. by exists a. Qed.

(** ** Answers *)

Definition service_obtained (build : Undermoon → Service) (t : history k8s) (s : Service) : Prop :=
  Ev (Σ := k8s) (GetService (meta_key (sv_Meta (build cr0)))) (Ok s) ∈ t ∨
  ∃ c refs, same_cr c ∧
    Ev (Σ := k8s) (CreateService (sv_set_meta (set_owner refs (sv_Meta (build c))) (build c))) (Ok s) ∈ t.

Definition statefulset_obtained (build : Undermoon → StatefulSet * Undermoon) (t : history k8s)
    (ss : StatefulSet) : Prop :=
  Ev (Σ := k8s) (GetStatefulSet (meta_key (ss_Meta (build cr0).1))) (Ok ss) ∈ t ∨
  ∃ c refs, same_cr c ∧
    Ev (Σ := k8s) (CreateStatefulSet
      (ss_set_meta (set_owner refs (ss_Meta (build c).1)) (build c).1)) (Ok ss) ∈ t.

(** The storage StatefulSet may have been grown afterwards. *)
Definition storage_obtained (t : history k8s) (ss : StatefulSet) : Prop :=
  statefulset_obtained createStorageStatefulSet t ss ∨
  ∃ found, statefulset_obtained createStorageStatefulSet t found ∧
    Ev (Σ := k8s) (UpdateStatefulSet (ss_set_spec (sss_set_replicas (storage_replicas cr0)
                     (ss_Spec found)) found)) (Ok ss) ∈ t.

(** All objects of the resource were answered in [t]. *)
Record created (t : history k8s) (r : umResource) : Prop := {
  created_bsvc : service_obtained createBrokerService t (brokerService r);
  created_csvc : service_obtained createCoordinatorService t (coordinatorService r);
  created_ssvc : service_obtained createStorageService t (storageService r);
  created_bss : statefulset_obtained createBrokerStatefulSet t (brokerStatefulSet r);
  created_css : statefulset_obtained createCoordinatorStatefulSet t (coordinatorStatefulSet r);
  created_sss : storage_obtained t (storageStatefulSet r)
}.

Lemma service_obtained_mono build t t' s :
  t ⊆ t' → service_obtained build t s → service_obtained build t' s.
Proof. intros Ht [?|(c & refs & ? & ?)]; [left|right; exists c, refs; split; [done|]]; auto. Qed.
Lemma statefulset_obtained_mono build t t' ss :
  t ⊆ t' → statefulset_obtained build t ss → statefulset_obtained build t' ss.
Proof. intros Ht [?|(c & refs & ? & ?)]; [left|right; exists c, refs; split; [done|]]; auto. Qed.
Lemma storage_obtained_mono t t' ss : t ⊆ t' → storage_obtained t ss → storage_obtained t' ss.
Proof.
  intros Ht [?|(found & ? & ?)]; [left; by eapply statefulset_obtained_mono|right].
  exists found. split; [by eapply statefulset_obtained_mono|auto].
Qed.

(** A StatefulSet as the API server keeps it: it has a replica count and at least
    [n] containers. *)
Definition fits (n : nat) (ss : StatefulSet) : Prop :=
  is_Some (sss_Replicas (ss_Spec ss)) ∧ (n ≤ length (p_Containers (t_Spec (sss_Template (ss_Spec ss)))))%nat.

(** The builders of the three StatefulSets, and how many containers each of them has. *)
Definition components : list (nat * (Undermoon → StatefulSet * Undermoon)) :=
  [(1%nat, createBrokerStatefulSet); (1%nat, createCoordinatorStatefulSet);
   (3%nat, createStorageStatefulSet)].

(** The steps may be run in any world that allows plain requests; where a panic is
    not accepted, the StatefulSets that are found, created and updated are [fits]. *)
Record world_fits (C : contract k8s) : Prop := {
  fits_guar h o : plain_op o → guar C h o;
  fits_get n build h ss : (n, build) ∈ components →
    rely C h (GetStatefulSet (meta_key (ss_Meta (build cr0).1))) (Ok ss) → panics C ∨ fits n ss;
  fits_create n h s ss : fits n s → rely C h (CreateStatefulSet s) (Ok ss) → panics C ∨ fits n ss;
  fits_update n h s ss : fits n s → rely C h (UpdateStatefulSet s) (Ok ss) → panics C ∨ fits n ss
}.

Lemma plain_world : world_fits plain.
Proof. split; [done|by left..]. Qed.

Lemma fits_built n build c : (n, build) ∈ components → fits n (build c).1.
Proof.
  unfold components. rewrite !elem_of_cons, elem_of_nil. intros [[= -> ->]|[[= -> ->]|[[= -> ->]|[]]]].
  - destruct (broker_containers c) as (? & Hc & _). split; [|rewrite Hc; simpl; lia].
    unfold createBrokerStatefulSet. by destruct (addAntiAffinity _ _ _ _).
  - destruct (coordinator_containers c) as (? & Hc & _). split; [|rewrite Hc; simpl; lia].
    unfold createCoordinatorStatefulSet. by destruct (addAntiAffinity _ _ _ _).
  - destruct (storage_containers c) as (? & Hc & _). split; [|rewrite Hc; simpl; lia].
    unfold createStorageStatefulSet. by destruct (addAntiAffinity _ _ _ _).
Qed.

Section steps.
Context (C : contract k8s) (HC : world_fits C).
Abbreviation fine n ss := (panics C ∨ fits n ss).

(** Runs a lookup or creation from [h ++ t]: the answer is what is left to place. *)
Ltac obtain :=
  go_run; try (by apply (fits_guar _ HC)); rewrite <- ?app_assoc;
  (split; [split; [by apply prefix_app_r|done]|]);
  go_run; try done; (eexists; split; [done|]).
Ltac in_trace := rewrite !elem_of_app, !list_elem_of_singleton; tauto.

Lemma wp_service build c (Q : history k8s → Undermoon * res Service → Prop) h :
  same_cr c →
  (∀ c, same_cr c → meta_key (sv_Meta (build c)) = meta_key (sv_Meta (build cr0))) →
  (∀ h' c' e, Q h' (c', Err e)) →
  (∀ t c' s, same_cr c' → service_obtained build t s → Q (h ++ t) (c', Ok s)) →
  wp C (createServiceGuard (cr ← get_cr; lift (getOrCreateService cr (build cr))) c) Q h.
Proof.
  intros Hc Hkey Herr HQ. eapply wp_mono.
  { apply (wp_guard_loop _ _ _ (λ h' c', h `prefix_of` h' ∧ same_cr c')
      (λ h' s, ∃ t, h' = h ++ t ∧ service_obtained build t s)); [|done].
    clear c Hc. intros c h' [[t ->] Hc]. unfold getOrCreateService. obtain.
    - left. rewrite <- (Hkey c Hc). in_trace.
    - right. exists c, a. split; [done|]. in_trace. }
  intros h' [c' [s|e]] [[_ Hc'] Hs]; [|apply Herr]. destruct Hs as (t & -> & Hs). by apply HQ.
Qed.

Lemma wp_statefulset n build c (Q : history k8s → Undermoon * res StatefulSet → Prop) h :
  (n, build) ∈ components →
  same_cr c →
  (∀ c, same_cr c → same_cr (build c).2 ∧
     meta_key (ss_Meta (build c).1) = meta_key (ss_Meta (build cr0).1)) →
  (∀ h' c' e, Q h' (c', Err e)) →
  (∀ t c' ss, same_cr c' → statefulset_obtained build t ss → fine n ss → Q (h ++ t) (c', Ok ss)) →
  wp C (createStatefulSetGuard (cr ← get_cr;
    let '(ss, cr') := build cr in put_cr cr';; lift (getOrCreateStatefulSet cr' ss)) c) Q h.
Proof.
  intros Hn Hc Hbuild Herr HQ. eapply wp_mono.
  { apply (wp_guard_loop _ _ _ (λ h' c', h `prefix_of` h' ∧ same_cr c')
      (λ h' ss, ∃ t, h' = h ++ t ∧ statefulset_obtained build t ss ∧ fine n ss)); [|done].
    clear c Hc. intros c h' [[t ->] Hc]. apply wp_cr_bind, wp_get_cr. cbn [fst snd].
    destruct (Hbuild c Hc) as [Hsame Hkey]. unfold statefulset_obtained.
    pose proof (fits_built n build c Hn) as Hfit.
    destruct (build c) as [ss c1] eqn:Hb. cbn [fst snd] in *.
    apply wp_cr_bind, wp_put_cr. unfold getOrCreateStatefulSet. obtain; split.
    - left. rewrite <- Hkey. in_trace.
    - eapply (fits_get _ HC n build); [done|]. rewrite <- Hkey. done.
    - right. exists c, a. rewrite Hb. split; [done|]. in_trace.
    - match goal with Hx : rely _ _ (CreateStatefulSet _) _ |- _ =>
        eapply (fits_create _ HC); [|exact Hx] end. exact Hfit. }
  intros h' [c' [s|e]] [[_ Hc'] Hs]; [|apply Herr]. destruct Hs as (t & -> & Hs & ?). by apply HQ.
Qed.

(** ** The components *)

Lemma same_cr_broker c : same_cr c → same_cr (createBrokerStatefulSet c).2 ∧
  meta_key (ss_Meta (createBrokerStatefulSet c).1) = meta_key (ss_Meta (createBrokerStatefulSet cr0).1).
Proof.
  intros [a ->]. unfold createBrokerStatefulSet. do 2 destruct (addAntiAffinity _ _ _ _).
  split; [apply same_cr_set; by exists a|done].
Qed.
Lemma same_cr_coordinator c : same_cr c → same_cr (createCoordinatorStatefulSet c).2 ∧
  meta_key (ss_Meta (createCoordinatorStatefulSet c).1) =
  meta_key (ss_Meta (createCoordinatorStatefulSet cr0).1).
Proof.
  intros [a ->]. unfold createCoordinatorStatefulSet. do 2 destruct (addAntiAffinity _ _ _ _).
  split; [apply same_cr_set; by exists a|done].
Qed.
Lemma same_cr_storage c : same_cr c → same_cr (createStorageStatefulSet c).2 ∧
  meta_key (ss_Meta (createStorageStatefulSet c).1) = meta_key (ss_Meta (createStorageStatefulSet cr0).1).
Proof.
  intros [a ->]. unfold createStorageStatefulSet. do 2 destruct (addAntiAffinity _ _ _ _).
  split; [apply same_cr_set; by exists a|done].
Qed.

Lemma wp_createBroker c (Q : history k8s → Undermoon * res (StatefulSet * Service) → Prop) h :
  same_cr c → (∀ h' c' e, Q h' (c', Err e)) →
  (∀ t c' ss s, same_cr c' → statefulset_obtained createBrokerStatefulSet t ss → fine 1 ss →
     service_obtained createBrokerService t s → Q (h ++ t) (c', Ok (ss, s))) →
  wp C (createBroker c) Q h.
Proof.
  intros Hc Herr HQ. unfold createBroker, getOrCreateBrokerService, getOrCreateBrokerStatefulSet.
  apply wp_cr_ebind, (wp_service createBrokerService); [done|by intros ? [? ->]|done|].
  intros t1 c1 s Hc1 Hs. cbn [fst snd].
  apply wp_cr_ebind, (wp_service createBrokerPublicService); [done|by intros ? [? ->]|done|].
  intros t2 c2 s2 Hc2 _. cbn [fst snd].
  apply wp_cr_ebind, (wp_statefulset 1 createBrokerStatefulSet);
    [unfold components; set_solver|done|apply same_cr_broker|done|].
  intros t3 c3 ss Hc3 Hss Hfit. cbn [fst snd]. apply wp_cr_ret. rewrite <- !app_assoc.
  apply HQ; [done|eapply statefulset_obtained_mono, Hss|done|eapply service_obtained_mono, Hs]; set_solver.
Qed.

Lemma wp_createCoordinator c (Q : history k8s → Undermoon * res (StatefulSet * Service) → Prop) h :
  same_cr c → (∀ h' c' e, Q h' (c', Err e)) →
  (∀ t c' ss s, same_cr c' → statefulset_obtained createCoordinatorStatefulSet t ss → fine 1 ss →
     service_obtained createCoordinatorService t s → Q (h ++ t) (c', Ok (ss, s))) →
  wp C (createCoordinator c) Q h.
Proof.
  intros Hc Herr HQ. unfold createCoordinator, getOrCreateCoordinatorService,
    getOrCreateCoordinatorStatefulSet.
  apply wp_cr_ebind, (wp_service createCoordinatorService); [done|by intros ? [? ->]|done|].
  intros t1 c1 s Hc1 Hs. cbn [fst snd].
  apply wp_cr_ebind, (wp_statefulset 1 createCoordinatorStatefulSet);
    [unfold components; set_solver|done|apply same_cr_coordinator|done|].
  intros t2 c2 ss Hc2 Hss Hfit. cbn [fst snd]. apply wp_cr_ret. rewrite <- !app_assoc.
  apply HQ; [done|eapply statefulset_obtained_mono, Hss|done|eapply service_obtained_mono, Hs]; set_solver.
Qed.

(** The replica count of a StatefulSet of this world. *)
Lemma wp_replicas n ss (Q : history k8s → Z → Prop) h :
  fine n ss → (∀ r, sss_Replicas (ss_Spec ss) = Some r → Q h r) → wp C (deref_replicas ss) Q h.
Proof.
  intros Hfit HQ. unfold deref_replicas. destruct (sss_Replicas (ss_Spec ss)) as [r|] eqn:Hr; [by apply wp_ret, HQ|].
  destruct Hfit as [?|[[r Hr'] _]]; [done|congruence].
Qed.

(** Setting the replicas of a StatefulSet. *)
Lemma wp_resize n ss replicas (Q : history k8s → res StatefulSet → Prop) h :
  fine n ss → (∀ h' e, Q h' (Err e)) →
  (∀ ss', fine n ss' → Q (h ++ [Ev (Σ := k8s) (UpdateStatefulSet
     (ss_set_spec (sss_set_replicas replicas (ss_Spec ss)) ss)) (Ok ss')]) (Ok ss')) →
  wp C (sendStatefulSetUpdate (ss_set_spec (sss_set_replicas replicas (ss_Spec ss)) ss)) Q h.
Proof.
  intros Hfit Herr HQ. apply wp_sendStatefulSetUpdate; [by intros; apply (fits_guar _ HC)|]. intros h' r Hr.
  destruct Hr as [(x & -> & Hx & ->)|(-> & e & ->)]; [|apply Herr].
  destruct x as [ss'|e]; [|apply Herr]. apply HQ. destruct Hfit as [?|Hfit]; [by left|].
  eapply (fits_update _ HC); [|exact Hx]. split; [by eexists|apply Hfit].
Qed.

Lemma wp_createStorage c (Q : history k8s → Undermoon * res (StatefulSet * Service) → Prop) h :
  same_cr c → (∀ h' c' e, Q h' (c', Err e)) →
  (∀ t c' ss s, same_cr c' → storage_obtained t ss → fine 3 ss →
     service_obtained createStorageService t s → Q (h ++ t) (c', Ok (ss, s))) →
  wp C (createStorage c) Q h.
Proof.
  intros Hc Herr HQ. unfold createStorage, getOrCreateStorageService, getOrCreateStorageStatefulSet.
  apply wp_cr_ebind, (wp_service createStoragePublicService); [done|by intros ? [? ->]|done|].
  intros t1 c1 s1 Hc1 _. cbn [fst snd].
  apply wp_cr_ebind, (wp_service createStorageService); [done|by intros ? [? ->]|done|].
  intros t2 c2 s Hc2 Hs. cbn [fst snd].
  apply wp_cr_ebind, (wp_statefulset 3 createStorageStatefulSet);
    [unfold components; set_solver|done|apply same_cr_storage|done|].
  intros t3 c3 ss Hc3 Hss Hfit. cbn [fst snd]. do 2 go_step. cbn beta iota delta [fst snd].
  go_step. apply wp_lift, (wp_replicas 3); [done|]. intros r _. cbn beta iota delta [fst snd].
  destruct (r <? scale_up_target c3).
  - apply wp_cr_ebind, wp_lift. unfold updateStorageStatefulSet.
    apply (wp_resize 3); [done|intros; apply Herr|].
    intros ss' Hfit'. cbn beta iota delta [fst snd]. apply wp_cr_ret. rewrite <- !app_assoc.
    apply HQ; [done| |done|eapply service_obtained_mono, Hs; set_solver].
    right. exists ss. split; [eapply statefulset_obtained_mono, Hss; set_solver|].
    destruct Hc3 as [a' ->]. in_trace.
  - apply wp_cr_ret. rewrite <- !app_assoc.
    apply HQ; [done|left; eapply statefulset_obtained_mono, Hss|done|eapply service_obtained_mono, Hs];
      set_solver.
Qed.

Lemma wp_createMeta c (Q : history k8s → Undermoon * res unit → Prop) h :
  same_cr c → (∀ h' c' e, Q h' (c', Err e)) → (∀ t c', same_cr c' → Q (h ++ t) (c', Ok ())) →
  wp C (createMeta c) Q h.
Proof.
  intros Hc Herr HQ. unfold createMeta, createConfigMapGuard, createSecretGuard.
  pose (I h' c' := h `prefix_of` h' ∧ same_cr c').
  apply wp_cr_ebind. eapply wp_mono.
  { apply (wp_guard_loop _ _ _ I (λ _ _, True)); [|by split].
    intros c1 h1 [[t ->] Hc1]. unfold getOrCreateConfigMap, I.
    go_run; try (by apply (fits_guar _ HC)); rewrite <- ?app_assoc;
      (split; [split; [by apply prefix_app_r|done]|]); by go_run. }
  intros h1 [c1 [s|e]] [HI1 _]; [|apply Herr]. cbn [fst snd] in HI1 |- *. apply wp_cr_ebind. eapply wp_mono.
  { apply (wp_guard_loop _ _ _ I (λ _ _, True)); [|done].
    intros c2 h2 [[t ->] Hc2]. unfold getOrCreateMetaSecret, I.
    go_run; try (by apply (fits_guar _ HC)); rewrite <- ?app_assoc;
      (split; [split; [by apply prefix_app_r|done]|]); by go_run. }
  intros h2 [c2 [s'|e]] [[[t ->] Hc2] _]; [|apply Herr]. by apply wp_cr_ret, HQ.
Qed.

(** All of [createResources]. *)
Definition resource_fine (r : umResource) : Prop :=
  fine 1 (brokerStatefulSet r) ∧ fine 1 (coordinatorStatefulSet r) ∧ fine 3 (storageStatefulSet r).

Lemma wp_createResources c (Q : history k8s → Undermoon * res umResource → Prop) h :
  same_cr c → (∀ h' c' e, Q h' (c', Err e)) →
  (∀ t c' r, same_cr c' → created t r → resource_fine r → Q (h ++ t) (c', Ok r)) →
  wp C (createResources c) Q h.
Proof.
  intros Hc Herr HQ. unfold createResources.
  apply wp_cr_ebind, wp_createMeta; [done..|]. intros t1 c1 Hc1. cbn [fst snd].
  apply wp_cr_ebind, wp_createBroker; [done..|]. intros t2 c2 bss bsvc Hc2 Hbss Hbf Hbsvc. cbn [fst snd].
  apply wp_cr_ebind, wp_createCoordinator; [done..|].
  intros t3 c3 css csvc Hc3 Hcss Hcf Hcsvc. cbn [fst snd].
  apply wp_cr_ebind, wp_createStorage; [done..|]. intros t4 c4 sss ssvc Hc4 Hsss Hsf Hssvc. cbn [fst snd].
  apply wp_cr_ret. rewrite <- !app_assoc. apply HQ; [done| |done].
  split; cbn; [eapply service_obtained_mono, Hbsvc|eapply service_obtained_mono, Hcsvc
    |eapply service_obtained_mono, Hssvc|eapply statefulset_obtained_mono, Hbss
    |eapply statefulset_obtained_mono, Hcss|eapply storage_obtained_mono, Hsss]; set_solver.
Qed.
End steps.

Lemma plain_ready resource h : wp plain (brokerAndCoordinatorReady resource) (λ _ _, True) h.
Proof.
  unfold brokerAndCoordinatorReady, brokerReady, coordinatorReady, getServiceEndpointsNum,
    getEndpoints.
  by go_run.
Qed.
End creation.
