(* ===== verification/Finished.v ===== *)
(** * A finished reconciliation (src/controllers/undermoon_controller.go)

    What a run of [Reconcile] did when it ended without an error and without asking
    for another run: its history, cut into the steps of the function, with what
    was asked and answered in each of them. *)
From S2P Require Import Prelude Prog GoStr Types Samples Api Utils Broker Coordinator Storage.
From S2P Require Import BrokerClient Resources BrokerController CoordinatorController.
From S2P Require Import StorageController MetaController ExternalStore RollingUpdate Reconciler Creation.

(** The answer to a query for endpoints has at least [n] addresses; for 0, that the
    query did not fail. *)
Definition at_least (n : Z) (x : result ext_error Endpoints) : Prop :=
  ∃ count, endpoint_count x = Ok count ∧ n ≤ count.

Section finished.
Context `{OsEnv, QuantityEq, Gzip}.

Abbreviation ev o x := (Ev (Σ := k8s) o x).
Abbreviation asked svc x := (ev (endpoints_key svc) x).

(** ** The steps, each with its part of the history *)

(** Enough brokers and coordinators: one of them may be missing. *)
Definition nearly_ready (r : umResource) (t : history k8s) : Prop :=
  ∃ xb xc, t = [asked (brokerService r) xb; asked (coordinatorService r) xc] ∧
    brokerNum - 1 ≤ sst_ReadyReplicas (ss_Status (brokerStatefulSet r)) ∧
    at_least (brokerNum - 1) xb ∧
    1 ≤ sst_ReadyReplicas (ss_Status (coordinatorStatefulSet r)) ∧ at_least 1 xc.

(** The coordinators behind the endpoints [x]; all are told the master, and the last
    one accepted it. *)
Definition coordinator_addresses (cr : Undermoon) (x : result ext_error Endpoints) : list string :=
  match x with
  | Ok eps => (λ e, genCoordinatorAddressFromName (ea_Hostname e) cr) <$> concat (ep_Subsets eps)
  | Err _ => []
  end.
Definition told (svc : Service) (cr : Undermoon) (master : string) (t : history k8s) : Prop :=
  ∃ x events, t = asked svc x :: events ∧ at_least 0 x ∧
    calls events = set_brokers master <$> coordinator_addresses cr x ∧
    from_option redis_outcome (Ok ()) (last events) = Ok ().

(** The proxies behind the endpoints [x]. *)
Definition proxies_of (cr : Undermoon) (x : result ext_error Endpoints) : list serverProxyMeta :=
  match x with
  | Ok eps => (λ e, proxy_of_hostname cr (ea_Hostname e)) <$> concat (ep_Subsets eps)
  | Err _ => []
  end.

(** The broker was brought up to date: only HTTP requests, the replicas and the proxies
    were sent, and the information about the cluster came last. *)
Definition is_http (o : operation) : Prop := match o with Http _ => True | _ => False end.
Definition synced (master : string) (replicas : list string) (proxies : list serverProxyMeta)
    (cr : Undermoon) (info : clusterInfo) (t : history k8s) : Prop :=
  ∃ t0 resp, t = t0 ++ [ev (info_request r_client master cr) (Ok resp)] ∧
    Forall (λ e : event k8s, is_http (ev_op e)) t0 ∧
    StatusCode resp = 200 ∧ Result resp = Some (clusterInfoPayload info) ∧
    replicas_told r_client master replicas [] t0 ∧ registered r_client master proxies [] t0.

(** The StatefulSet has reached its own number of pods. *)
Definition pods_stable (ss : StatefulSet) : Prop :=
  ∃ n, sss_Replicas (ss_Spec ss) = Some n ∧
    sst_CurrentReplicas (ss_Status ss) = n ∧ sst_Replicas (ss_Status ss) = n.

(** The metadata was brought up to date, the number of nodes requested, the free nodes
    removed, and in the end the requested nodes were those with slots. *)
Definition resized (r : umResource) (master : string) (replicas : list string) (cr : Undermoon)
    (t : history k8s) : Prop :=
  ∃ xp xr xs t1 t2 info s f info',
    t = asked (storageService r) xp :: asked (storageService r) xr :: t1 ++
        [asked (storageService r) xs; ev (scale_request r_client master cr) (Ok s);
         ev (free_request r_client master cr) (Ok f)] ++ t2 ∧
    at_least 0 xp ∧ at_least (storage_replicas cr) xr ∧
    synced master replicas (proxies_of cr xp) cr info t1 ∧ IsMigrating info = false ∧
    at_least (storage_replicas cr) xs ∧ pods_stable (storageStatefulSet r) ∧
    scaled s ∧ no_free_nodes f ∧
    synced master replicas [] cr info' t2 ∧ NodeNumberWithSlots info' = expected_nodes cr.

(** The storage had the requested size, or was given it after the wait. *)
Definition shrunk (ss : StatefulSet) (cr : Undermoon) (ss' : StatefulSet) (cr' : Undermoon)
    (t : history k8s) : Prop :=
  (t = [] ∧ ss' = ss ∧ cr' = cr ∧ sss_Replicas (ss_Spec ss) = Some (storage_replicas cr)) ∨
  (∃ now st, t =
     [ev Now now;
      ev (UpdateStatefulSet (ss_set_spec (sss_set_replicas (storage_replicas cr) (ss_Spec ss)) ss)) (Ok ss');
      ev (StatusUpdate (um_set_status st cr)) (Ok cr')] ∧
     ScaleState (um_Status cr) = scaleStateScaleDownWait ∧
     ScaleDownWaitTimestamp (um_Status cr) + scaleDownWaitTime ≤ now ∧
     ScaleState st = scaleStateStable).

(** No component needs a rolling update, and all have their pods: one query each. *)
Definition rolled (r : umResource) (cr : Undermoon) (t : history k8s) : Prop :=
  ∃ xb xc xs,
    t = [asked (brokerService r) xb; asked (coordinatorService r) xc; asked (storageService r) xs] ∧
    (brokerStatefulSetChanged cr (brokerStatefulSet r) = Some false ∧
     sst_ReadyReplicas (ss_Status (brokerStatefulSet r)) = brokerNum ∧ at_least brokerNum xb) ∧
    (coordinatorStatefulSetChanged cr (coordinatorStatefulSet r) = Some false ∧
     coordinatorNum ≤ sst_ReadyReplicas (ss_Status (coordinatorStatefulSet r)) ∧
     at_least coordinatorNum xc) ∧
    (storageStatefulSetChanged cr (storageStatefulSet r) = Some false ∧
     pods_stable (storageStatefulSet r) ∧ at_least (storage_replicas cr) xs).

(** ** Each step of the code *)

(** Equality of histories up to the grouping of their parts. *)
Ltac app_eq := repeat progress (rewrite <- ?app_assoc; cbn [app]); reflexivity.

Abbreviation pwp := (wp (any (Σ := k8s))).

Lemma wp_endpointsNum svc (Q : history k8s → res Z → Prop) h :
  (∀ x n, (∀ k, k ≤ n → at_least k x) → Q (h ++ [asked svc x]) (Ok n)) →
  (∀ h' e, Q h' (Err e)) → pwp (getServiceEndpointsNum svc) Q h.
Proof.
  intros HQ Herr. apply wp_getServiceEndpointsNum; [done|]. intros x _.
  destruct (endpoint_count x) as [n|e] eqn:Hx; [|apply Herr]. apply HQ. intros k Hk. by exists n.
Qed.

Lemma wp_nearly_ready r (Q : history k8s → res bool → Prop) h :
  (∀ h', Q h' (Ok false)) → (∀ h' e, Q h' (Err e)) →
  (∀ t, nearly_ready r t → Q (h ++ t) (Ok true)) →
  pwp (brokerAndCoordinatorReady r) Q h.
Proof.
  intros Hf Herr HQ. unfold brokerAndCoordinatorReady, brokerReady, coordinatorReady.
  apply wp_ebind, wp_ebind, wp_endpointsNum; [intros xb nb Hb|done]. apply wp_ret. cbn iota.
  destruct (Z.leb_spec (brokerNum - 1) (sst_ReadyReplicas (ss_Status (brokerStatefulSet r))));
    [|by apply wp_ret].
  destruct (Z.leb_spec (brokerNum - 1) nb); [|by apply wp_ret]. cbn [andb negb].
  apply wp_ebind, wp_ebind, wp_endpointsNum; [intros xc nc Hc|done]. apply wp_ret. cbn iota.
  destruct (Z.leb_spec 1 (sst_ReadyReplicas (ss_Status (coordinatorStatefulSet r))));
    [|by apply wp_ret].
  destruct (Z.leb_spec 1 nc); [|by apply wp_ret]. cbn [andb negb]. apply wp_ret.
  rewrite <- app_assoc. apply HQ. exists xb, xc. repeat split; auto.
Qed.

Lemma wp_setBrokerLoop pool l m err (Q : history k8s → redisClientPool * res unit → Prop) h :
  pool_wf pool →
  (∀ events pool', pool_wf pool' → calls events = set_brokers m <$> l →
     Q (h ++ events) (pool', from_option redis_outcome err (last events))) →
  pwp (setBrokerLoop pool l m err) Q h.
Proof.
  revert pool err h. induction l as [|a l IH]; intros pool err h Hwf HQ; cbn [setBrokerLoop].
  { apply wp_ret. rewrite <- (app_nil_r h). by apply (HQ []). }
  unfold setBrokerAddress, coordinatorClient_setBrokerAddress.
  destruct (getClient pool a) as [c pool1] eqn:Hg.
  destruct (getClient_wf _ _ _ _ Hwf Hg) as (Hwf1 & Hc & _ & _). rewrite Hc.
  apply wp_bind, wp_bind, wp_ebind, wp_api; [done|]. intros x _. cbn beta iota delta [eq_rect].
  assert (∀ err', err' = redis_outcome (ev (set_brokers m a) x) →
    pwp (setBrokerLoop pool1 l m err') Q (h ++ [ev (set_brokers m a) x])) as Hrest.
  { intros err' ->. apply IH; [done|]. intros events pool' Hwf' Hcalls. rewrite <- app_assoc.
    specialize (HQ (ev (set_brokers m a) x :: events) pool' Hwf').
    rewrite last_cons in HQ. destruct (last events); apply HQ; unfold calls in *; by rewrite fmap_cons, Hcalls. }
  destruct x as [s|e]; cbn; by apply Hrest.
Qed.

Lemma wp_configSetBroker pool cr svc m (Q : history k8s → redisClientPool * res unit → Prop) h :
  pool_wf pool →
  (∀ h' pool' e, Q h' (pool', Err e)) →
  (∀ t pool', pool_wf pool' → told svc cr m t → Q (h ++ t) (pool', Ok ())) →
  pwp (configSetBroker pool cr svc m) Q h.
Proof.
  intros Hwf Herr HQ. unfold configSetBroker, getEndpoints.
  assert (∀ x, at_least 0 x → pwp (setBrokerLoop pool (coordinator_addresses cr x) m (Ok ())) Q
    (h ++ [asked svc x])) as Hloop.
  { intros x Hx. apply wp_setBrokerLoop; [done|]. intros events pool' Hwf' Hcalls.
    destruct (from_option _ _ _) as [[]|e] eqn:Hlast; [|apply Herr].
    rewrite <- app_assoc. apply HQ; [done|]. by exists x, events. }
  go_run; [rewrite foldl_app_concat| |apply Herr].
  - apply (Hloop (Ok _)). eexists. split; [done|lia].
  - apply (Hloop (Err _)). eexists. unfold endpoint_count. split; [by rewrite Heqb|lia].
Qed.

Lemma wp_synced master replicas proxies cr ready (Q : history k8s → res clusterInfo → Prop) h :
  (∀ h' e, Q h' (Err e)) →
  (∀ t info, ready = true → synced master replicas proxies cr info t → Q (h ++ t) (Ok info)) →
  pwp (reconcileMeta r_client master replicas proxies cr ready) Q h.
Proof.
  intros Herr HQ.
  apply (wp_contract (guarantees (meta_request_ok r_client master replicas proxies cr ready h)));
    [done..|].
  eapply wp_mono.
  { apply wp_guarded, (wp_reconcileMeta _ _ _ _ _ _ h h (λ h' r, ∀ info, r = Ok info →
      ∃ t0 resp, h' = (h ++ t0) ++ [ev (info_request r_client master cr) (Ok resp)] ∧
        StatusCode resp = 200 ∧ Result resp = Some (clusterInfoPayload info) ∧
        ready = true ∧ registered r_client master proxies h (h ++ t0) ∧
        replicas_told r_client master replicas h (h ++ t0))); [done|by intros ? ? ? [=]|].
    intros h' resp info (Hready & Hreg & Htold) Hcode Hres info' [= <-].
    assert (h `prefix_of` h') as [t0 ->] by (destruct Htold as [(t0 & x & -> & _) _]; by eexists).
    by exists t0, resp. }
  intros h' [info|e] [Hpost HG]; [|apply Herr].
  destruct (Hpost _ eq_refl) as (t0 & resp & -> & Hcode & Hres & Hready & Hreg & Htold).
  rewrite <- app_assoc in HG |- *. apply HQ; [done|]. exists t0, resp. split; [done|].
  assert (∀ o, sent h (h ++ t0) o → sent [] t0 o) as Hsent.
  { intros o (t & x & ->%app_inv_head & Hx). by exists t, x. }
  split; [|split; [done|split; [done|split]]].
  - destruct HG as (t & ->%app_inv_head%eq_sym & HG). apply Forall_forall. intros e He.
    apply list_elem_of_split in He as (t1 & t2 & ->).
    specialize (HG t1 e (t2 ++ [ev (info_request r_client master cr) (Ok resp)])).
    rewrite <- app_assoc in HG. specialize (HG eq_refl). destruct e as [o x]. by destruct o.
  - destruct Htold as [? Hall]. split; [by apply Hsent|]. intros a Ha. by apply Hsent, Hall.
  - intros p Hp. by apply Hsent, Hreg.
Qed.

Lemma wp_stable r cr (Q : history k8s → res bool → Prop) h :
  (∀ h', Q h' (Ok false)) → (∀ h' e, Q h' (Err e)) →
  (∀ x, at_least (storage_replicas cr) x → pods_stable (storageStatefulSet r) →
     Q (h ++ [asked (storageService r) x]) (Ok true)) →
  pwp (storageAllReadyAndStable (storageService r) (storageStatefulSet r) cr) Q h.
Proof.
  intros Hf Herr HQ. apply wp_storageAllReadyAndStable; [done|done| |intros; apply Herr].
  intros x [|] Hx; [|apply Hf]. destruct (Hx eq_refl) as (count & n & Hc & Hle & Hn).
  apply HQ; [by exists count|by exists n].
Qed.

Lemma wp_shrunk ss info cr (Q : history k8s → Undermoon * res StatefulSet → Prop) h :
  (∀ h' cr' e, Q h' (cr', Err e)) →
  (∀ t ss' cr', NodeNumberWithSlots info = expected_nodes cr → shrunk ss cr ss' cr' t →
     Q (h ++ t) (cr', Ok ss')) →
  pwp (scaleDownStorageStatefulSet ss info cr) Q h.
Proof.
  intros Herr HQ. unfold scaleDownStorageStatefulSet, deref_replicas.
  do 2 go_step. cbn beta iota delta [fst snd].
  destruct (Z.ltb_spec (expected_nodes cr) (NodeNumberWithSlots info)); [apply Herr|].
  destruct (Z.ltb_spec (NodeNumberWithSlots info) (expected_nodes cr)); [apply Herr|].
  assert (NodeNumberWithSlots info = expected_nodes cr) as Hn by lia.
  do 2 go_step. destruct (sss_Replicas (ss_Spec ss)) as [n|] eqn:Hr; [|done].
  apply wp_ret. cbn beta iota delta [fst snd].
  destruct (Z.eqb_spec n (storage_replicas cr)) as [->|Hne].
  { apply wp_cr_ret. rewrite <- (app_nil_r h). apply HQ; [done|]. by left. }
  destruct (String.eqb_spec (ScaleState (um_Status cr)) scaleStateScaleDownWait) as [Hst|_]; cbn [negb].
  2: { apply wp_cr_ebind, wp_setScaleState; [done|]. intros h' cr' [[]|e]; apply Herr. }
  go_step. apply wp_lift, wp_call; [done|]. intros now _. cbn beta iota delta [fst snd].
  destruct (Z.ltb_spec now (ScaleDownWaitTimestamp (um_Status cr) + scaleDownWaitTime)) as [|Hnow];
    [apply Herr|].
  apply wp_cr_ebind, wp_lift. unfold updateStorageStatefulSet. apply wp_sendStatefulSetUpdate; [done|].
  intros h' u Hu. destruct Hu as [(x & -> & _ & ->)|(-> & e & ->)]; [|apply Herr].
  destruct x as [ss'|e]; [|apply Herr]. cbn beta iota delta [fst snd].
  apply wp_cr_ebind. unfold setScaleState.
  change (String.eqb scaleStateStable scaleStateScaleDownWait) with false.
  go_run; [|apply Herr]. rewrite <- !app_assoc.
  apply HQ; [done|]. right. by do 2 eexists.
Qed.

Lemma wp_rolled r cr (Q : history k8s → Undermoon * res unit → Prop) h :
  (∀ h' cr' e, Q h' (cr', Err e)) →
  (∀ t, rolled r cr t → Q (h ++ t) (cr, Ok ())) →
  pwp (triggerRollingUpdate r cr) Q h.
Proof.
  intros Herr HQ. unfold triggerRollingUpdate.
  apply wp_cr_ebind, (wp_roll_component _ (λ cr, brokerStatefulSetChanged cr _)); [done| |];
    intros Hcb; [apply wp_any; intros; apply Herr|].
  apply wp_ebind, wp_endpointsNum; [intros xb nb Hb|intros; apply Herr]. apply wp_ret.
  destruct (Z.eqb_spec (sst_ReadyReplicas (ss_Status (brokerStatefulSet r))) brokerNum); [|cbn; apply Herr].
  destruct (Z.leb_spec brokerNum nb); [|cbn; apply Herr]. cbn [andb].
  apply wp_cr_ebind, (wp_roll_component _ (λ cr, coordinatorStatefulSetChanged cr _)); [done| |];
    intros Hcc; [apply wp_any; intros; apply Herr|].
  apply wp_ebind, wp_endpointsNum; [intros xc nc Hc|intros; apply Herr]. apply wp_ret.
  destruct (Z.leb_spec coordinatorNum (sst_ReadyReplicas (ss_Status (coordinatorStatefulSet r))));
    [|cbn; apply Herr].
  destruct (Z.leb_spec coordinatorNum nc); [|cbn; apply Herr]. cbn [andb].
  apply (wp_roll_component _ (λ cr, storageStatefulSetChanged cr _)); [done| |];
    intros Hcs; [apply wp_any; intros; apply Herr|].
  apply wp_stable; [intros; apply Herr..|]. intros xs Hxs Hstable. rewrite <- !app_assoc. apply HQ.
  exists xb, xc, xs. repeat split; auto.
Qed.

Lemma wp_changed master cr info (Q : history k8s → res unit → Prop) h :
  (∀ h' e, Q h' (Err e)) →
  (∀ s f, IsMigrating info = false → scaled s → no_free_nodes f →
     Q (h ++ [ev (scale_request r_client master cr) (Ok s); ev (free_request r_client master cr) (Ok f)])
       (Ok ())) →
  pwp (changeMeta r_client master cr info) Q h.
Proof.
  intros Herr HQ. apply wp_changeMeta; [done..|]. unfold change_result.
  intros h' [[]|e] Hr; [|apply Herr]. destruct (IsMigrating info); [by destruct Hr|].
  destruct Hr as [(x & e & _ & _ & [=])|(s & x & -> & _ & Hr)].
  destruct Hr as [(e & _ & [=])|(f & -> & Hf & [[Hs _]|[_ [=]]])]. by apply HQ.
Qed.

Lemma wp_proxies svc cr (Q : history k8s → res (list serverProxyMeta) → Prop) h :
  (∀ h' e, Q h' (Err e)) →
  (∀ x, at_least 0 x → Q (h ++ [asked svc x]) (Ok (proxies_of cr x))) →
  pwp (storage_getServerProxies svc cr) Q h.
Proof.
  intros Herr HQ. unfold storage_getServerProxies, getEndpoints. go_run; [| |apply Herr].
  - rewrite foldl_app_concat. apply (HQ (Ok _)). eexists. split; [done|lia].
  - apply (HQ (Err _)). eexists. unfold endpoint_count. split; [by rewrite Heqb|lia].
Qed.

(** After the coordinators know the master. *)
Lemma wp_applied r master replicas cr (Q : history k8s → Undermoon * result outcome unit → Prop) h :
  (∀ h' cr' o, o ≠ done_ → Q h' (cr', Err o)) →
  (∀ t1 t2 t3 storage cr', resized r master replicas cr t1 →
     shrunk (storageStatefulSet r) cr storage cr' t2 → rolled (set_storage storage r) cr' t3 →
     Q (h ++ t1 ++ t2 ++ t3) (cr', Ok ())) →
  pwp (reconcile_apply r master replicas cr) Q h.
Proof.
  intros Herr HQ.
  assert (∀ t1 t2 t3 storage cr' h', resized r master replicas cr t1 →
    shrunk (storageStatefulSet r) cr storage cr' t2 → rolled (set_storage storage r) cr' t3 →
    h' = h ++ t1 ++ t2 ++ t3 → Q h' (cr', Ok ())) as HQ' by (intros; subst; eauto).
  clear HQ. unfold reconcile_apply. do 2 go_step. cbn beta iota delta [fst snd].
  apply wp_failing; [done|]. apply wp_lift, wp_proxies; [done|]. intros xp Hxp. cbn beta iota delta [fst snd].
  apply wp_failing; [done|]. apply wp_lift. unfold storageAllReady.
  apply wp_ebind, wp_endpointsNum; [intros xr nr Hxr|done]. apply wp_ret. cbn beta iota delta [fst snd].
  apply wp_retrying; [done|]. apply wp_lift, wp_synced; [done|]. intros t1 info Hready Ht1.
  apply Z.leb_le in Hready. cbn beta iota delta [fst snd].
  apply wp_failing; [done|]. apply wp_lift, wp_stable; [by intros; apply wp_cr_ret, Herr|done|].
  intros xs Hxs Hstable. cbn beta iota delta [fst snd negb].
  apply wp_retrying; [done|]. apply wp_lift, wp_changed; [done|]. intros s f Hmig Hs Hf.
  cbn beta iota delta [fst snd].
  apply wp_retrying; [done|]. apply wp_lift, wp_synced; [done|]. intros t2 info' _ Ht2.
  cbn beta iota delta [fst snd].
  apply wp_retrying; [done|]. apply wp_shrunk; [done|]. intros t3 storage cr' Hn Ht3.
  cbn beta iota delta [fst snd]. unfold retrying.
  apply wp_cr_bind, wp_rolled.
  { intros h' cr'' e. apply wp_cr_ret. cbn [fst snd or_retry]. destruct e; by apply Herr. }
  intros t4 Ht4. apply wp_cr_ret. cbn beta iota delta [fst snd or_retry].
  eapply HQ'; [|exact Ht3|exact Ht4|].
  - exists xp, xr, xs, t1, t2, info, s, f, info'. split; [reflexivity|]. repeat split; auto.
  - app_eq.
Qed.

(** Up to the election. *)
Lemma wp_prepared cr0 (Q : history k8s → Undermoon * result outcome (umResource * string * list string) → Prop) h :
  (∀ h' cr' o, o ≠ done_ → Q h' (cr', Err o)) →
  (∀ t1 t2 t3 r c master replicas cr, created cr0 t1 r → Forall (λ e : event k8s, plain_op (ev_op e)) t1 →
     nearly_ready r t2 → same_cr cr0 c → elected (brokerService r) c master replicas cr t3 →
     Q (h ++ t1 ++ t2 ++ t3) (cr, Ok (r, master, replicas))) →
  pwp (reconcile_prepare cr0) Q h.
Proof.
  intros Herr HQ. unfold reconcile_prepare. apply wp_retrying; [done|].
  apply (wp_contract plain); [done..|]. eapply wp_mono.
  { apply wp_guarded, (wp_createResources cr0 _ (plain_world cr0) _ (λ h' r, ∀ a, r.2 = Ok a →
      ∃ t, h' = h ++ t ∧ same_cr cr0 r.1 ∧ created cr0 t a)); [apply same_cr_refl|by intros ? ? ? ? [=]|].
    intros t c r Hc Hr _ r' [= <-]. by exists t. }
  intros h1 [c [r|e]] [Hpost HG]; [|done]. destruct (Hpost r eq_refl) as (t1 & -> & Hc & Hr).
  apply guarded_Forall in HG. cbn beta iota delta [fst snd] in *.
  apply wp_failing; [done|]. apply wp_lift, wp_nearly_ready; [by intros; apply wp_cr_ret, Herr|done|].
  intros t2 Ht2. cbn beta iota delta [fst snd negb].
  apply wp_retrying; [done|]. apply wp_reconcileMaster; [done..|].
  intros t3 master replicas cr Ht3 _. cbn beta iota delta [fst snd]. apply wp_cr_ret.
  rewrite <- !app_assoc. by apply (HQ t1 t2 t3 r c).
Qed.

(** C1. A finished reconciliation.  A run that ends without an error and without asking
    for another one either found that the custom resource is gone, and did nothing
    else, or its history is exactly this: the custom resource was read; the services
    and StatefulSets of the three components were looked up, or created as built for
    it, and the storage grown if it was too small; brokers and coordinators were
    nearly all ready; a master was elected from the brokers behind the broker's service
    and published, and the API server accepted it; every coordinator was sent the
    master; the broker was brought up to date with all running proxies, was not
    migrating, accepted the requested number of nodes and had no free nodes left, and
    then reported slots on exactly the nodes of the requested chunks; the storage
    StatefulSet had the requested size, or was given it after the wait; and last, for
    these very StatefulSets and services, none of the three components needs a
    rolling update, and each was asked for its endpoints and has all its pods.  In every
    other case the run asks for another one or fails.  The pool of Redis clients has
    its clients filed under their own addresses, as the first pool has, and is left so
    for the next run. *)
Theorem reconcile_finished (E : env k8s) (h h' : history k8s) (pool pool' : redisClientPool)
    (request : NamespacedName) (Hpool : pool_wf pool)
    (Hrun : run_from E h (Reconcile pool request) = (h', Some (pool', done_))) :
  (pool' = pool ∧ h' = h ++ [ev (GetUndermoon request) (Err ApiNotFound)]) ∨
  ∃ cr0 resource c master replicas cr storage cr' t1 t2 t3 t4 t5 t6 t7,
    pool_wf pool' ∧
    h' = h ++ ev (GetUndermoon request) (Ok cr0) :: t1 ++ t2 ++ t3 ++ t4 ++ t5 ++ t6 ++ t7 ∧
    created cr0 t1 resource ∧ Forall (λ e : event k8s, plain_op (ev_op e)) t1 ∧
    nearly_ready resource t2 ∧
    same_cr cr0 c ∧ elected (brokerService resource) c master replicas cr t3 ∧
    told (coordinatorService resource) cr master t4 ∧
    resized resource master replicas cr t5 ∧
    shrunk (storageStatefulSet resource) cr storage cr' t6 ∧
    rolled (set_storage storage resource) cr' t7.
Proof.
  revert Hrun. apply run_answers, wp_answers. unfold Reconcile.
  apply wp_bind, wp_api; [done|]. intros x _. cbn beta iota delta [eq_rect].
  destruct x as [cr0|e]; cbn [lift_err].
  2: { apply wp_ret. intros <-. destruct (IsNotFound (ErrExt e)) eqn:He; [|by intros [=]].
       intros [= <-]. left. split; [done|]. unfold IsNotFound in He. go_bools. by simplify_eq. }
  apply wp_bind, wp_prepared; [intros; apply wp_ret; congruence|].
  intros t1 t2 t3 r c master replicas cr Ht1 Ht1' Ht2 Hc Ht3. cbn beta iota delta [fst snd].
  apply wp_bind, wp_configSetBroker; [done|by intros; apply wp_ret|].
  intros t4 pool1 Hpool' Ht4. cbn beta iota delta [fst snd].
  apply wp_bind, wp_applied; [intros; apply wp_ret; cbn [outcome_of]; congruence|].
  intros t5 t6 t7 storage cr' Ht5 Ht6 Ht7. apply wp_ret. intros <- [= <-]. right.
  exists cr0, r, c, master, replicas, cr, storage, cr', t1, t2, t3, t4, t5, t6, t7.
  split; [done|]. split; [app_eq|]. do 8 (split; [done|]). done.
Qed.
End finished.

(** ** A world in which a reconciliation finishes *)

Section quiet_world.
#[local] Existing Instance text_quantities.
#[local] Existing Instance no_env.
#[local] Existing Instance stored_gzip.

Definition addresses (name : string) (n : nat) : Endpoints :=
  MkEndpoints [map (λ i, MkEndpointAddress (name +:+ itoa (Z.of_nat i)) "") (seq 0 n)].

(** A broker whose cluster has the nodes of two chunks. *)
Definition broker_answer (r : http_request) : http_response :=
  match hr_method r with
  | GET =>
      MkResponse 200 "7" None (Some
        (if contains "/config" (hr_url r) then brokerConfigPayload ["c-bk-ss-1"]
         else if contains "/addresses" (hr_url r) then queryServerProxyResponse []
         else if contains "/names" (hr_url r) then queryClusterNamesPayload ["cluster"]
         else clusterInfoPayload (MkClusterInfo "cluster" 8 8 false)))
  | _ => MkResponse 200 "" None None
  end.

(** Objects are created as asked for, with all their pods running. *)
Definition quiet_env : env k8s := λ _ o,
  match o with
  | GetUndermoon _ => Ok (sample_cr 2)
  | GetService _ | GetStatefulSet _ | GetConfigMap _ | GetSecret _ => Err ApiNotFound
  | CreateService s => Ok s
  | CreateStatefulSet s | UpdateStatefulSet s =>
      let n := default 0 (sss_Replicas (ss_Spec s)) in
      Ok (MkStatefulSet (ss_Meta s) (ss_Spec s) (MkStatefulSetStatus n n n))
  | CreateConfigMap c | UpdateConfigMap c => Ok c
  | CreateSecret s => Ok s
  | GetEndpoints k =>
      Ok (if contains "stg" (nn_Name k) then addresses "c-stg-ss-" 4
          else if contains "bk" (nn_Name k) then addresses "c-bk-ss-" 2 else addresses "c-cd-ss-" 2)
  | StatusPatch cr _ | StatusUpdate cr => Ok cr
  | SetControllerReference _ _ => Ok []
  | Http r => Ok (broker_answer r)
  | RedisProcess _ _ => Ok "OK"
  | GeneratePassword => Ok "password"
  | Now => 0
  end.

Abbreviation quiet_run :=
  (run_from quiet_env [] (Reconcile newRedisClientPool (MkName "c" "ns"))).

Lemma quiet_run_done : snd <$> quiet_run.2 = Some done_.
Proof. vm_compute. reflexivity. Qed.
Lemma quiet_run_long : (1 <? Z.of_nat (length quiet_run.1)) = true.
Proof. vm_compute. reflexivity. Qed.

Lemma reconcile_finished_witness :
  snd <$> quiet_run.2 = Some done_ ∧
  ∃ resource storage cr' t t7, quiet_run.1 = t ++ t7 ∧ rolled (set_storage storage resource) cr' t7.
Proof.
  pose proof quiet_run_done as Hdone. pose proof quiet_run_long as Hlong.
  split; [exact Hdone|].
  destruct quiet_run as [h' [[pool' o]|]] eqn:Hrun; [|discriminate Hdone].
  injection Hdone as ->.
  destruct (reconcile_finished quiet_env [] h' newRedisClientPool pool' (MkName "c" "ns")
    newRedisClientPool_wf Hrun)
    as [[_ ->]|(cr0 & r & c & m & reps & cr & storage & cr' & t1 & t2 & t3 & t4 & t5 & t6 & t7 & _ & -> & Hall)];
    [discriminate Hlong|].
  exists r, storage, cr', ([] ++ Ev (Σ := k8s) (GetUndermoon (MkName "c" "ns")) (Ok cr0) ::
    t1 ++ t2 ++ t3 ++ t4 ++ t5 ++ t6), t7.
  split; [cbn [app fst]; by rewrite <- !app_assoc|apply Hall].
Defined.
End quiet_world.
