(* ===== verification/Total.v ===== *)
(** * Every reconciliation returns (src/controllers/undermoon_controller.go)

    The places where a reconciliation could panic are the replica count that it
    dereferences, the containers that it indexes and the result that it asserts
    the type of.  With an API server that keeps StatefulSets complete and an HTTP
    client that decodes what it was asked to decode, none of them panics, and every
    run ends with one of the outcomes the function means to return. *)
From S2P Require Import Prelude Prog GoStr Types Samples Api Utils Broker Coordinator Storage.
From S2P Require Import BrokerClient Resources BrokerController CoordinatorController.
From S2P Require Import StorageController MetaController ExternalStore RollingUpdate Reconciler Creation Finished.

Section total.
Context `{OsEnv, QuantityEq, Gzip}.

(** ** The world *)

(** The API server fills in the replica count and keeps the containers: of what it is
    sent, and of what is found under the name of a component.  The HTTP client
    decodes the body of a 200 answer to the query for proxies. *)
Definition complete (o : operation) : answer o → Prop :=
  match o return answer o → Prop with
  | GetStatefulSet k => λ x, ∀ ss n build c, x = Ok ss → (n, build) ∈ components →
      k = meta_key (ss_Meta (build c).1) → fits n ss
  | CreateStatefulSet s | UpdateStatefulSet s => λ x, ∀ ss n, x = Ok ss → fits n s → fits n ss
  | Http r => λ x, ∀ resp a, x = Ok resp → r = MkHttp GET (url r_client a "/proxies/addresses") None →
      StatusCode resp = 200 → ∃ l, Result resp = Some (queryServerProxyResponse l)
  | _ => λ _, True
  end.

Definition complete_world : contract k8s :=
  Contract (λ (_ : history k8s) (o : operation) x, complete o x)
    (λ (_ : history k8s) (_ : operation), True) False.
Abbreviation twp := (wp complete_world).

Lemma complete_fits cr : world_fits cr complete_world.
Proof.
  split; [done|..]; right; eauto. 
Qed.

(** ** The steps return *)

(** A result whose error, if any, is not the request for a retry. *)
Definition no_retry {A} (r : res A) : Prop := r ≠ Err errRetryReconciliation.

Lemma total_nearly_ready r h :
  twp (brokerAndCoordinatorReady r) (λ _ x, no_retry x) h.
Proof.
  unfold brokerAndCoordinatorReady, brokerReady, coordinatorReady, getServiceEndpointsNum, getEndpoints.
  by go_run.
Qed.

Lemma total_proxies svc cr h :
  twp (storage_getServerProxies svc cr) (λ _ x, no_retry x) h.
Proof. unfold storage_getServerProxies, getEndpoints. by go_run. Qed.

Lemma total_allReady svc cr h :
  twp (storageAllReady svc cr) (λ _ x, no_retry x) h.
Proof. unfold storageAllReady, getServiceEndpointsNum, getEndpoints. by go_run. Qed.

Lemma total_stable svc ss cr h :
  fits 3 ss →
  twp (storageAllReadyAndStable svc ss cr) (λ _ x, no_retry x) h.
Proof.
  intros [[n Hn] _]. unfold storageAllReadyAndStable, deref_replicas. rewrite Hn.
  apply wp_ebind. eapply wp_mono; [apply total_allReady|]. intros h1 [b|e] Hr; [|done]. by go_run.
Qed.

Lemma total_configSetBroker pool cr svc m h :
  twp (configSetBroker pool cr svc m)
    (λ _ x, no_retry x.2) h.
Proof.
  unfold configSetBroker, getEndpoints.
  assert (∀ l pool (err : res unit) h, no_retry err →
    twp (setBrokerLoop pool l m err)
      (λ _ x, no_retry x.2) h) as Hloop.
  { clear. induction l as [|a l IH]; intros pool err h Herr; cbn [setBrokerLoop]; [done|].
    unfold setBrokerAddress, coordinatorClient_setBrokerAddress. destruct (getClient pool a) as [c pool1].
    apply wp_bind, wp_bind, wp_ebind, wp_api; [done|]. intros x _. cbn beta iota delta [eq_rect].
    by destruct x as [s|e]; cbn; apply IH. }
  go_run; first [by apply Hloop | done].
Qed.

(** A loop over requests returns when each of them does. *)
Lemma total_for_each {A} (f : A → go (res unit)) xs h :
  (∀ x h, twp (f x) (λ _ _, True) h) → twp (for_each f xs) (λ _ _, True) h.
Proof.
  intros Hf. apply (wp_for_each _ _ (λ _ _ _, True)); [done| |done].
  intros h' pre x rest _ _. eapply wp_mono; [apply Hf|]. by intros h'' [[]|e].
Qed.

Lemma total_getServerProxies a h : twp (getServerProxies r_client a) (λ _ _, True) h.
Proof.
  unfold getServerProxies. apply wp_ebind, wp_api; [done|]. cbn beta iota delta [eq_rect].
  intros [resp|e] Hx; cbn beta iota delta [lift_err]; [|done].
  destruct (_ && _); [done|]. unfold status.
  destruct (Z.eqb_spec (StatusCode resp) 200) as [Hcode|]; [|done].
  by destruct (Hx resp a eq_refl eq_refl Hcode) as [l ->].
Qed.

Lemma total_reconcileMeta m replicas proxies cr ready h :
  twp (reconcileMeta r_client m replicas proxies cr ready) (λ _ _, True) h.
Proof.
  unfold reconcileMeta, reconcileServerProxyRegistry, meta_setBrokerReplicas, registerServerProxies,
    deregisterServerProxies.
  apply wp_ebind, wp_ebind. unfold setBrokerReplicas at 1. go_run; try done.
  eapply wp_mono; [apply total_for_each; intros; unfold setBrokerReplicas; by go_run|].
  intros h1 [[]|e] _; [|done]. apply wp_ebind, wp_ebind.
  eapply wp_mono; [apply total_for_each; intros; unfold registerServerProxy; by go_run|].
  intros h2 [[]|e] _; [|done]. apply wp_ebind. eapply wp_mono; [apply total_getServerProxies|].
  intros h3 [l|e] _; [|done].
  eapply wp_mono; [apply total_for_each; intros; unfold deregisterServerProxy; by go_run|].
  intros h4 [[]|e] _; [|done].
  destruct (negb ready); [done|].
  apply wp_ebind, (wp_mono _ _ (λ _ _, True)).
  { unfold meta_createCluster, clusterExists, createCluster. by go_run. }
  intros h5 [[]|e] _; [|done]. apply wp_ebind, (wp_mono _ _ (λ _ _, True)).
  { unfold meta_changeClusterConfig, changeClusterConfig. by go_run. }
  intros h6 [[]|e] _; [|done]. unfold meta_getClusterInfo, getClusterInfo. by go_run.
Qed.

Lemma total_scaleDown ss info cr h :
  fits 3 ss →
  twp (scaleDownStorageStatefulSet ss info cr)
    (λ _ r, match r.2 with Ok ss' => fits 3 ss' | Err _ => True end) h.
Proof.
  intros Hfit. pose proof Hfit as [[n Hn] _]. unfold scaleDownStorageStatefulSet, deref_replicas. rewrite Hn.
  go_run; try done.
  - apply wp_setScaleState; [done|]. by intros h' cr' [[]|e].
  - unfold updateStorageStatefulSet. apply (wp_resize cr _ (complete_fits cr) 3); [by right|done|].
    intros ss' [[]|Hfit']. go_run. apply wp_setScaleState; [done|]. by intros h' cr' [[]|e].
Qed.

Lemma fits_at n ss i : fits n ss → (i < n)%nat → is_Some (container_at ss i).
Proof. intros [_ Hl] Hi. apply lookup_lt_is_Some. unfold container_at in *. lia. Qed.

(** None of the three tests panics on a complete StatefulSet. *)
Lemma changed_defined cr r :
  fits 1 (brokerStatefulSet r) → fits 1 (coordinatorStatefulSet r) → fits 3 (storageStatefulSet r) →
  brokerStatefulSetChanged cr (brokerStatefulSet r) ≠ None ∧
  coordinatorStatefulSetChanged cr (coordinatorStatefulSet r) ≠ None ∧
  storageStatefulSetChanged cr (storageStatefulSet r) ≠ None.
Proof.
  intros Hb Hc Hs. apply (fits_at _ _ 0) in Hb as [cb Hb]; [|lia]. apply (fits_at _ _ 0) in Hc as [cc Hc]; [|lia].
  pose proof (fits_at _ _ 0 Hs) as [c0 Hs0]; [lia|]. pose proof (fits_at _ _ 1 Hs) as [c1 Hs1]; [lia|].
  pose proof (fits_at _ _ 2 Hs) as [c2 Hs2]; [lia|]. unfold container_at in *.
  unfold brokerStatefulSetChanged, coordinatorStatefulSetChanged, storageStatefulSetChanged.
  rewrite Hb, Hc, Hs0, Hs1, Hs2. cbn [mbind option_bind].
  split_and!; repeat case_match; done.
Qed.

Lemma total_trigger r cr h :
  fits 1 (brokerStatefulSet r) → fits 1 (coordinatorStatefulSet r) → fits 3 (storageStatefulSet r) →
  twp (triggerRollingUpdate r cr) (λ _ _, True) h.
Proof.
  intros Hb Hc Hs. pose proof (λ cr, changed_defined cr r Hb Hc Hs) as Hdef. unfold triggerRollingUpdate.
  apply wp_cr_ebind, (wp_roll_component _ (λ cr, brokerStatefulSetChanged cr _));
    [by intros ?%(Hdef cr)|intros _|intros _].
  { apply wp_cr_ebind, wp_updateStatefulSetSpec; [done|]. intros h1 [cr1 [ss|e]]; [|done].
    unfold brokerAllReady, getServiceEndpointsNum, getEndpoints. by go_run. }
  unfold brokerAllReady. apply wp_ebind, wp_getServiceEndpointsNum; [done|]. intros xb _.
  destruct (endpoint_count xb) as [nb|e]; [|done]. apply wp_ret. destruct (_ && _); [|done].
  apply wp_cr_ebind, (wp_roll_component _ (λ cr, coordinatorStatefulSetChanged cr _));
    [by intros ?%(Hdef cr)|intros _|intros _].
  { apply wp_cr_ebind, wp_updateStatefulSetSpec; [done|]. intros h1 [cr1 [ss|e]]; [|done].
    unfold coordiantorAllReady, getServiceEndpointsNum, getEndpoints. by go_run. }
  unfold coordiantorAllReady. apply wp_ebind, wp_getServiceEndpointsNum; [done|]. intros xc _.
  destruct (endpoint_count xc) as [nc|e]; [|done]. apply wp_ret. destruct (_ && _); [|done].
  apply (wp_roll_component _ (λ cr, storageStatefulSetChanged cr _));
    [by intros ?%(Hdef cr)|intros _|intros _].
  { apply wp_cr_ebind, wp_updateStatefulSetSpec; [done|]. intros h1 [cr1 [ss|e]]; [|done].
    unfold storageAllReady, getServiceEndpointsNum, getEndpoints. by go_run. }
  eapply wp_mono; [by apply total_stable|done].
Qed.

(** ** The run *)

(** The outcomes of a reconciliation: it is done, it asks for another run in 3, 5 or 10
    seconds, or it fails with an error that is not the request for a retry. *)
Definition proper (o : outcome) : Prop :=
  o = done_ ∨ o ∈ requeue <$> [3; 5; 10] ∨ ∃ e, e ≠ errRetryReconciliation ∧ o = failed e.

Lemma early_proper seconds o : seconds ∈ [3; 5; 10] → early seconds o → proper o.
Proof.
  intros Hs [->|He]; [|by right; right]. right; left. by apply list_elem_of_fmap_2.
Qed.

(** The early returns of a part, and what it hands on. *)
Definition or_proper {A} (P : A → Prop) (r : result outcome A) : Prop :=
  match r with Ok a => P a | Err o => proper o end.

Lemma no_retry_proper {A} (r : res A) e : no_retry r → r = Err e → proper (failed e).
Proof. intros Hr ->. right; right. exists e. split; [congruence|done]. Qed.

Lemma total_prepare cr h :
  twp (reconcile_prepare cr) (λ _ r, or_proper (λ a, fits 1 (brokerStatefulSet a.1.1) ∧
    fits 1 (coordinatorStatefulSet a.1.1) ∧ fits 3 (storageStatefulSet a.1.1)) r.2) h.
Proof.
  unfold reconcile_prepare.
  apply wp_retrying_early; [intros ? ? ?; apply early_proper; set_solver|].
  apply (wp_createResources cr _ (complete_fits cr)); [apply same_cr_refl|done|].
  intros t1 c1 r _ _ Hfit. cbn beta iota delta [fst snd].
  apply wp_failing_err, wp_lift. eapply wp_mono; [apply total_nearly_ready|].
  intros h2 [b|e] Hr; cbn beta iota delta [fst snd]; [|by eapply no_retry_proper].
  destruct b; cbn [negb]; [|apply wp_cr_ret; right; left; set_solver].
  apply wp_retrying_early; [intros ? ? ?; apply early_proper; set_solver|].
  apply wp_reconcileMaster; [done..|]. intros t3 m replicas c3 _ _. cbn beta iota delta [fst snd].
  apply wp_cr_ret. destruct Hfit as ([[]|?] & [[]|?] & [[]|?]). by cbn.
Qed.

Lemma total_apply r m replicas cr h :
  fits 1 (brokerStatefulSet r) → fits 1 (coordinatorStatefulSet r) → fits 3 (storageStatefulSet r) →
  twp (reconcile_apply r m replicas cr) (λ _ x, or_proper (λ _, True) x.2) h.
Proof.
  intros Hb Hc Hs. unfold reconcile_apply. do 2 go_step. cbn beta iota delta [fst snd].
  apply wp_failing_err, wp_lift. eapply wp_mono; [apply total_proxies|].
  intros h1 [proxies|e] Hr1; cbn beta iota delta [fst snd]; [|by eapply no_retry_proper].
  apply wp_failing_err, wp_lift. eapply wp_mono; [apply total_allReady|].
  intros h2 [ready|e] Hr2; cbn beta iota delta [fst snd]; [|by eapply no_retry_proper].
  apply wp_retrying_early; [intros ? ? ?; apply early_proper; set_solver|].
  apply wp_lift. eapply wp_mono; [apply total_reconcileMeta|]. intros h3 [info|e] _; [|done].
  cbn beta iota delta [fst snd].
  apply wp_failing_err, wp_lift. eapply wp_mono; [by apply total_stable|].
  intros h4 [b|e] Hr4; cbn beta iota delta [fst snd]; [|by eapply no_retry_proper].
  destruct b; cbn [negb]; [|apply wp_cr_ret; right; left; set_solver].
  apply wp_retrying_early; [intros ? ? ?; apply early_proper; set_solver|].
  apply wp_lift, wp_changeMeta; [done..|]. intros h5 [[]|e] _; [|done]. cbn beta iota delta [fst snd].
  apply wp_retrying_early; [intros ? ? ?; apply early_proper; set_solver|].
  apply wp_lift. eapply wp_mono; [apply total_reconcileMeta|]. intros h6 [info'|e] _; [|done].
  cbn beta iota delta [fst snd].
  apply wp_retrying_early; [intros ? ? ?; apply early_proper; set_solver|].
  eapply wp_mono; [by apply total_scaleDown|]. intros h7 [c7 [ss|e]] Hss; [|done].
  cbn beta iota delta [fst snd] in *. unfold retrying. apply wp_cr_bind.
  eapply wp_mono; [by apply total_trigger|]. intros h8 [c8 x] _. apply wp_cr_ret.
  cbn beta iota delta [fst snd]. destruct (or_retry 5 x) as [u|o] eqn:Ho; [done|].
  apply (early_proper 5); [set_solver|by eapply or_retry_early].
Qed.

(** C40. Every reconciliation returns.  When the API server completes the StatefulSets it
    is sent and keeps the containers of those it has under the names of the
    components, and the HTTP client decodes what it was asked to decode, no
    reconciliation panics, whatever else is answered and whatever fails: it is done,
    asks for another run in 3, 5 or 10 seconds, or fails with an error; and the
    request for a retry inside the controllers is never reported as a failure. *)
Theorem reconcile_total (E : env k8s) (h : history k8s) (pool : redisClientPool)
    (request : NamespacedName) (Hworld : respects complete_world E) :
  ∃ h' pool' o, run_from E h (Reconcile pool request) = (h', Some (pool', o)) ∧ proper o.
Proof.
  enough (twp (Reconcile pool request) (λ _ r, proper r.2) h) as Hwp.
  { apply (wp_sound complete_world E) in Hwp as [_ Hpost]; [|done].
    destruct (run_from E h _) as [h' [[pool' o]|]]; [|done]. by exists h', pool', o. }
  unfold Reconcile. apply wp_bind, wp_api; [done|]. intros x _. cbn beta iota delta [eq_rect].
  destruct x as [cr|e]; cbn [lift_err].
  2: { apply wp_ret. destruct (IsNotFound _); [by left|].
       right; right. eexists. by split; [|reflexivity]. }
  apply wp_bind. eapply wp_mono; [apply total_prepare|].
  intros h1 [c [[[r m] replicas]|o]] Hr; cbn beta iota delta [fst snd or_proper] in *; [|by apply wp_ret].
  apply wp_bind. eapply wp_mono; [apply total_configSetBroker|].
  intros h2 [pool' [[]|e]] He; cbn beta iota delta [fst snd] in *; [|by eapply wp_ret, no_retry_proper, eq_refl].
  destruct Hr as (Hb & Hc & Hs). apply wp_bind. eapply wp_mono; [by apply total_apply|].
  intros h3 [c3 [u|o]] Ho; apply wp_ret; [by left|exact Ho].
Qed.
End total.

(** ** A world of complete answers *)

(** Objects are created as asked for; every component has two addresses; the broker
    answers every request with an empty list of proxies. *)
Definition created_env : env k8s := λ _ o,
  match o with
  | GetUndermoon _ => Ok (sample_cr 1)
  | GetService _ | GetStatefulSet _ | GetConfigMap _ | GetSecret _ => Err ApiNotFound
  | CreateService s => Ok s
  | CreateStatefulSet s | UpdateStatefulSet s =>
      let n := default 0 (sss_Replicas (ss_Spec s)) in
      Ok (MkStatefulSet (ss_Meta s) (ss_Spec s) (MkStatefulSetStatus n n n))
  | CreateConfigMap c | UpdateConfigMap c => Ok c
  | CreateSecret s => Ok s
  | GetEndpoints _ => Ok (addresses "pod-" 2)
  | StatusPatch cr _ | StatusUpdate cr => Ok cr
  | SetControllerReference _ _ => Ok []
  | Http _ => Ok (MkResponse 200 "7" None (Some (queryServerProxyResponse [])))
  | RedisProcess _ _ => Ok "OK"
  | GeneratePassword => Ok "password"
  | Now => 0
  end.

Section created_world.
#[local] Existing Instance text_quantities.
#[local] Existing Instance no_env.
#[local] Existing Instance stored_gzip.

Lemma created_env_complete : respects complete_world created_env.
Proof.
  intros h o. destruct o; cbn [rely complete_world complete created_env]; try done.
  - by intros ss n [= <-].
  - by intros ss n [= <-].
  - intros resp a [= <-] _ _. by eexists.
Qed.

Abbreviation created_run :=
  (run_from created_env [] (Reconcile newRedisClientPool (MkName "c" "ns"))).

Lemma created_run_fails :
  (λ r, match Failure r.2 with Some (ErrMsg m) => m | _ => "" end) <$> created_run.2 =
    Some "Failed to get cluster names: invalid response payload 7".
Proof. vm_compute. reflexivity. Qed.

Lemma reconcile_total_witness :
  ∃ h' pool' o, created_run = (h', Some (pool', o)) ∧ proper o ∧ o ≠ done_.
Proof.
  destruct (reconcile_total created_env [] newRedisClientPool (MkName "c" "ns") created_env_complete)
    as (h' & pool' & o & Hrun & Ho).
  exists h', pool', o. split; [exact Hrun|]. split; [exact Ho|].
  pose proof created_run_fails as Hf. rewrite Hrun in Hf. intros ->. discriminate Hf.
Defined.
End created_world.
