(* ===== verification/ReconcileOrder.v ===== *)
(** * The order of a reconciliation (src/controllers/undermoon_controller.go)

    What every request of a run of [Reconcile] may assume about the requests
    before it: brokers and coordinators are sent nothing but reads before the master
    broker is elected and published; after that the replicas are told that they have
    no replicas of their own, and everything else goes to the master. *)
From S2P Require Import Prelude Prog GoStr Types Api Utils Broker Coordinator Storage.
From S2P Require Import BrokerClient Resources BrokerController CoordinatorController.
From S2P Require Import StorageController MetaController Reconciler Creation.

(** * The order of a run *)

Section order.
Context `{OsEnv, QuantityEq, Gzip}.

Section run.
Context (request : NamespacedName).

(** The run that started at [h0] read the custom resource and the broker's service,
    asked the brokers behind that service, and published [m] in the status, which
    the API server accepted; [replicas] are the addresses of the other brokers. *)
Definition published (h0 h : history k8s) (m : string) (replicas : list string) : Prop :=
  ∃ cr0 t1 svc cr cr' t t2,
    h = h0 ++ Ev (Σ := k8s) (GetUndermoon request) (Ok cr0) :: t1 ++ t ++ t2 ∧
    service_obtained cr0 createBrokerService t1 svc ∧
    elected svc cr m replicas cr' t.

(** What each request of a run that started at [h0] has to satisfy. *)
Definition order_ok (h0 h : history k8s) (o : operation) : Prop :=
  match o with
  | RedisProcess _ command =>
      ∃ m replicas, command = ["CONFIG"; "SET"; "brokers"; m] ∧ published h0 h m replicas
  | Http r =>
      hr_method r = GET ∨
      ∃ m replicas, published h0 h m replicas ∧
        (o = config_request r_client m replicas ∨
         (∃ a, a ∈ replicas ∧ o = config_request r_client a []) ∨
         (hr_method r ≠ PUT ∧ ∃ path, hr_url r = url r_client m path))
  | StatusUpdate _ => ∃ m replicas, published h0 h m replicas
  | UpdateConfigMap _ => False
  | _ => True
  end.

Abbreviation order_wp h0 := (wp (guarantees (order_ok h0))).

Lemma published_prefix h0 h h' m replicas :
  h `prefix_of` h' → published h0 h m replicas → published h0 h' m replicas.
Proof.
  intros [t' ->] (cr0 & t1 & svc & cr & cr' & t & t2 & -> & Hs & He).
  exists cr0, t1, svc, cr, cr', t, (t2 ++ t'). split; [|done].
  by rewrite <- !app_assoc; cbn [app]; rewrite <- !app_assoc.
Qed.

Lemma order_plain {A} h0 h (p : go A) Q : wp plain p Q h → order_wp h0 p Q h.
Proof. intros Hp. apply (wp_weaken_guar _ _ _ _ _ Hp). by intros h' []. Qed.

(** A postcondition that only says that the run went on. *)
Lemma order_plain_grows {A} h0 h (p : go A) (Q : history k8s → A → Prop) :
  wp plain p (λ _ _, True) h → (∀ h' a, h `prefix_of` h' → Q h' a) → order_wp h0 p Q h.
Proof.
  intros Hp HQ. apply order_plain. eapply wp_mono; [by apply wp_grows|].
  intros h' a [_ ?]. auto.
Qed.

(** ** After the publication *)

Section after.
Context (h0 : history k8s) (m : string) (replicas : list string).
Abbreviation pub h := (published h0 h m replicas).

Lemma order_setBrokerLoop pool l err h :
  pub h → order_wp h0 (setBrokerLoop pool l m err) (λ h' _, pub h') h.
Proof.
  revert pool err h. induction l as [|a l IH]; intros pool err h Hpub; cbn [setBrokerLoop]; [done|].
  unfold setBrokerAddress. destruct (getClient pool a) as [c pool']. apply wp_bind, wp_bind, wp_ebind, wp_api.
  { by exists m, replicas. }
  intros x _. assert (pub (h ++ [Ev (Σ := k8s) _ x])) as Hpub'
    by (eapply published_prefix; [by eexists|done]).
  destruct x as [s|e]; cbn; by apply IH.
Qed.

Lemma order_configSetBroker pool cr svc h :
  pub h →
  order_wp h0 (configSetBroker pool cr svc m) (λ h' _, pub h') h.
Proof.
  intros Hpub. unfold configSetBroker, getEndpoints.
  assert (∀ x, pub (h ++ [Ev (Σ := k8s) (GetEndpoints
    (MkName (m_Name (sv_Meta svc)) (m_Namespace (sv_Meta svc)))) x])) as Hpub'
    by (intros x; eapply published_prefix; [by eexists|done]).
  go_run; first [apply Hpub' | apply order_setBrokerLoop, Hpub'].
Qed.

Lemma order_reconcileMeta proxies cr ready h :
  pub h →
  order_wp h0 (reconcileMeta r_client m replicas proxies cr ready) (λ _ _, True) h.
Proof.
  intros Hpub. apply (wp_weaken_guar (meta_request_ok r_client m replicas proxies cr ready h)).
  - by apply wp_reconcileMeta.
  - intros h' o Hp Ho. destruct o as [| | | | | | | | | | | | | | |r| | |]; try done.
    unfold meta_request_ok in Ho. unfold order_ok.
    assert (pub h') as Hpub' by (by eapply published_prefix).
    destruct r as [method u body]. cbn [hr_method hr_body hr_url] in *.
    destruct method; [by left|..]; right; exists m, replicas; (split; [done|]).
    + right; right. split; [done|]. destruct body as [[]|]; try (by destruct Ho as (_ & _ & _ & ?)).
      destruct Ho as (_ & [=] & _). eauto.
    + destruct Ho as [?|?]; [by left|by right; left].
    + right; right. split; [done|]. by destruct Ho as (_ & _ & _ & ?).
    + right; right. split; [done|]. destruct Ho as (a & [=] & _). eauto.
Qed.

Lemma order_changeMeta cr info h :
  pub h → order_wp h0 (changeMeta r_client m cr info) (λ _ _, True) h.
Proof.
  intros Hpub.
  apply (wp_weaken_guar (λ (_ : history k8s) (o : operation), o = scale_request r_client m cr ∨ o = free_request r_client m cr)).
  - apply wp_changeMeta; simpl; auto.
  - intros h' o Hp [-> | ->]; right; exists m, replicas;
      (split; [by eapply published_prefix|]); right; right; (split; [done|]); by eexists.
Qed.

Lemma order_setScaleState s cr h :
  pub h → order_wp h0 (setScaleState s cr) (λ _ _, True) h.
Proof.
  intros Hpub. unfold setScaleState.
  assert (∀ h', h `prefix_of` h' → pub h') as Hpub' by (intros; by eapply published_prefix).
  go_run; try done; exists m, replicas; apply Hpub'; try done; by eexists.
Qed.

Lemma order_scaleDown storage info cr h :
  pub h →
  order_wp h0 (scaleDownStorageStatefulSet storage info cr) (λ _ _, True) h.
Proof.
  intros Hpub. unfold scaleDownStorageStatefulSet, deref_replicas.
  assert (∀ h', h `prefix_of` h' → pub h') as Hpub' by (intros; by eapply published_prefix).
  go_run; try done.
  - eapply wp_mono; [by apply order_setScaleState|]. by intros h' [cr' [[]|e]] _.
  - unfold updateStorageStatefulSet. apply wp_sendStatefulSetUpdate; [done|]. intros h' r Hr.
    assert (pub h') as Hpub1.
    { apply Hpub'. destruct Hr as [(y & -> & _)|[-> _]]; [|by eexists].
      rewrite <- app_assoc. by eexists. }
    destruct r as [ss|e]; [|done]. go_run.
    eapply wp_mono; [by apply order_setScaleState|]. by intros h'' [cr' [[]|e]] _.
Qed.

Lemma order_trigger resource cr h :
  order_wp h0 (triggerRollingUpdate resource cr) (λ _ _, True) h.
Proof.
  apply (wp_weaken_guar (roll_allowed resource cr h)).
  - eapply wp_mono; [apply wp_triggerRollingUpdate|done].
  - intros h' o _ Ho. by destruct o.
Qed.
End after.

(** ** The whole run *)

Lemma wp_retrying_order {A B} h0 seconds (m : crM (res A)) (k : A → crM (result outcome B)) cr h
    (P : history k8s → Undermoon → A → Prop) :
  order_wp h0 (m cr) (λ h' r, match r.2 with Ok a => P h' r.1 a | Err _ => True end) h →
  (∀ h' cr' a, h `prefix_of` h' → P h' cr' a → order_wp h0 (k a cr') (λ _ _, True) h') →
  order_wp h0 ((a ←? retrying seconds m; k a) cr) (λ _ _, True) h.
Proof.
  intros Hm Hk. apply wp_retrying; [done|]. eapply wp_mono; [apply wp_grows, Hm|].
  intros h' [cr' [a|e]] [HP Hp]; [|done]. by apply Hk.
Qed.

Lemma wp_failing_order {A B} h0 (m : crM (res A)) (k : A → crM (result outcome B)) cr h :
  order_wp h0 (m cr) (λ _ _, True) h →
  (∀ h' cr' a, h `prefix_of` h' → order_wp h0 (k a cr') (λ _ _, True) h') →
  order_wp h0 ((a ←? failing m; k a) cr) (λ _ _, True) h.
Proof.
  intros Hm Hk. apply wp_failing; [done|]. eapply wp_mono; [apply wp_grows, Hm|].
  intros h' [cr' [a|e]] [_ Hp]; [|done]. by apply Hk.
Qed.

(** The election follows the creation of the objects; both are part of the run. *)
Lemma order_prepare h0 h cr :
  h = h0 ++ [Ev (Σ := k8s) (GetUndermoon request) (Ok cr)] →
  order_wp h0 (reconcile_prepare cr) (λ h' r,
    match r.2 with Ok (_, m, replicas) => published h0 h' m replicas | Err _ => True end) h.
Proof.
  intros ->. unfold reconcile_prepare. apply wp_retrying; [done|].
  apply order_plain, (wp_createResources cr); [apply plain_world|apply same_cr_refl|done|].
  intros t1 c1 resource Hc1 [Hsvc _ _ _ _ _] _. cbn [fst snd]. apply wp_failing; [done|]. apply wp_lift.
  apply order_plain_grows; [apply plain_ready|]. intros h2 [[|]|e] [t2 ->]; [|done..]. cbn [fst snd negb].
  apply wp_retrying; [done|].
  apply wp_reconcileMaster; [by left|done|done|done|].
  intros t m replicas c2 He _. cbn [fst snd]. apply wp_cr_ret. cbn [fst snd].
  exists cr, (t1 ++ t2), (brokerService resource), c1, c2, t, []. split; [|split; [|done]].
  - by rewrite app_nil_r, <- !app_assoc.
  - eapply service_obtained_mono, Hsvc. set_solver.
Qed.

Lemma order_apply h0 h resource m replicas cr :
  published h0 h m replicas →
  order_wp h0 (reconcile_apply resource m replicas cr) (λ _ _, True) h.
Proof.
  intros Hpub. unfold reconcile_apply. do 2 go_step. cbn beta iota delta [fst snd].
  assert (∀ h', h `prefix_of` h' → published h0 h' m replicas) as Hat
    by (intros; by eapply published_prefix).
  apply wp_failing_order.
  { apply wp_lift, order_plain. unfold storage_getServerProxies, getEndpoints. by go_run. }
  intros h1 cr1 proxies Hp1. apply wp_failing_order.
  { apply wp_lift, order_plain. unfold storageAllReady, getServiceEndpointsNum, getEndpoints. by go_run. }
  intros h2 cr2 ready Hp2. assert (h `prefix_of` h2) as Hp by by etrans.
  apply (wp_retrying_order _ _ _ _ _ _ (λ _ _ _, True)).
  { apply wp_lift. eapply wp_mono; [by apply order_reconcileMeta, Hat|]. by intros ? [|]. }
  intros h3 cr3 info Hp3 _. assert (h `prefix_of` h3) as Hp' by by etrans. clear Hp.
  apply wp_failing_order.
  { apply wp_lift, order_plain. by apply wp_storageAllReadyAndStable. }
  intros h4 cr4 [|] Hp4; [|done]. assert (h `prefix_of` h4) as Hp by by etrans. clear Hp'.
  apply (wp_retrying_order _ _ _ _ _ _ (λ _ _ _, True)).
  { apply wp_lift. eapply wp_mono; [by eapply order_changeMeta, Hat|]. by intros ? [|]. }
  intros h5 cr5 _ Hp5 _. assert (h `prefix_of` h5) as Hp' by by etrans. clear Hp.
  apply (wp_retrying_order _ _ _ _ _ _ (λ _ _ _, True)).
  { apply wp_lift. eapply wp_mono; [by apply order_reconcileMeta, Hat|]. by intros ? [|]. }
  intros h6 cr6 info2 Hp6 _. assert (h `prefix_of` h6) as Hp by by etrans. clear Hp'.
  apply (wp_retrying_order _ _ _ _ _ _ (λ _ _ _, True)).
  { eapply wp_mono; [by eapply (order_scaleDown _ m), Hat|]. by intros ? [? [|]]. }
  intros h7 cr7 storage Hp7 _. apply wp_cr_bind. eapply wp_mono; [apply order_trigger|done].
Qed.
End run.

End order.
