(* ===== verification/Idle.v ===== *)
(** * A reconciliation with nothing to do (src/controllers/undermoon_controller.go)

    A world in which all that the custom resource asks for is there, and what a
    reconciliation does in it: it ends well, and it changes nothing. *)
From S2P Require Import Prelude Prog GoStr Base64 Types Samples Api Utils Broker Coordinator Storage.
From S2P Require Import BrokerClient Resources BrokerController CoordinatorController.
From S2P Require Import StorageController MetaController ExternalStore RollingUpdate Reconciler Finished.

(** ** Steps that end well *)

Lemma wp_guard_ok {A} (C : contract k8s) n (f : crM (res A)) cr
    (Q : history k8s → Undermoon * res A → Prop) h :
  wp C (f cr) (λ h' r, ∃ a, r.2 = Ok a ∧ Q h' (r.1, Ok a)) h → wp C (guard_loop n f cr) Q h.
Proof.
  intros Hf. destruct n; cbn [guard_loop]; apply wp_cr_bind; (eapply wp_mono; [exact Hf|]);
    intros h' [cr' r] (a & Hr & HQ); cbn [fst snd] in *; subst r; by apply wp_cr_ret.
Qed.

Lemma wp_for_each_ok {A} (C : contract k8s) (f : A → go (res unit)) xs
    (Q : history k8s → res unit → Prop) h :
  (∀ x h, x ∈ xs → wp C (f x) (λ _ r, r = Ok ()) h) → (∀ h, Q h (Ok ())) → wp C (for_each f xs) Q h.
Proof.
  intros Hf HQ. apply (wp_for_each _ _ (λ _ _ _, True)); [done| |done].
  intros h' pre x rest -> _. eapply wp_mono; [apply Hf; apply elem_of_app; right; by left|].
  by intros h'' r ->.
Qed.

Lemma wp_retrying_ok {A B} (C : contract k8s) seconds (m : crM (res A))
    (k : A → crM (result outcome B)) cr (Q : history k8s → Undermoon * result outcome B → Prop) h :
  wp C (m cr) (λ h' r, ∃ a, r.2 = Ok a ∧ wp C (k a r.1) Q h') h →
  wp C ((a ←? retrying seconds m; k a) cr) Q h.
Proof.
  intros Hm. apply wp_cr_ebind, wp_cr_bind. eapply wp_mono; [exact Hm|].
  intros h' [cr' r] (a & Hr & HQ). cbn [fst snd] in *. subst r. by apply wp_cr_ret.
Qed.

Lemma wp_failing_ok {A B} (C : contract k8s) (m : crM (res A))
    (k : A → crM (result outcome B)) cr (Q : history k8s → Undermoon * result outcome B → Prop) h :
  wp C (m cr) (λ h' r, ∃ a, r.2 = Ok a ∧ wp C (k a r.1) Q h') h →
  wp C ((a ←? failing m; k a) cr) Q h.
Proof.
  intros Hm. apply wp_cr_ebind, wp_cr_bind. eapply wp_mono; [exact Hm|].
  intros h' [cr' r] (a & Hr & HQ). cbn [fst snd] in *. subst r. by apply wp_cr_ret.
Qed.

(** ** The settled world *)

Section idle.
Context `{OsEnv, QuantityEq, Gzip}.
(** The custom resource in the API server; the addresses of the brokers, in the order
    of the endpoints, the master among them. *)
Context (cr : Undermoon) (master : string) (before after : list string).

Abbreviation brokers := (before ++ master :: after).
Abbreviation key name := (MkName (name (um_Name cr)) (um_Namespace cr)).
Abbreviation config a := (url r_client a "/config").
Abbreviation cluster path := (url r_client master (path +:+ ClusterName (um_Spec cr))).

(** What a broker answers: the master has replicas and the others have none; it knows
    no proxies but those of the storage pods; the cluster is there, has its slots on
    the nodes of the requested chunks and no free nodes. *)
Record broker_idle (r : http_request) (x : http_response) : Prop := {
  idle_master : r = MkHttp GET (config master) None → StatusCode x = 200 ∧
    ∃ a l, Result x = Some (brokerConfigPayload (a :: l));
  idle_replica a : a ∈ before ++ after → r = MkHttp GET (config a) None → StatusCode x = 200 ∧
    Result x = Some (brokerConfigPayload []);
  idle_config a l : a ∈ brokers → r = MkHttp PUT (config a) (Some (brokerConfigPayload l)) →
    StatusCode x = 200;
  idle_register p : r = MkHttp POST (url r_client master "/proxies/meta") (Some (serverProxyPayload p)) →
    StatusCode x = 200;
  idle_proxies : r = MkHttp GET (url r_client master "/proxies/addresses") None → StatusCode x = 200 ∧
    ∃ l, Result x = Some (queryServerProxyResponse l) ∧
      ∀ a, a ∈ l → a ∈ genStorageStatefulSetAddrs cr;
  idle_names : r = MkHttp GET (url r_client master "/clusters/names") None → StatusCode x = 200 ∧
    ∃ l, Result x = Some (queryClusterNamesPayload l) ∧ ClusterName (um_Spec cr) ∈ l;
  idle_cluster_config p : r = MkHttp PATCH (cluster "/clusters/config/") p → StatusCode x = 200;
  idle_info : r = MkHttp GET (cluster "/clusters/info/") None → StatusCode x = 200 ∧
    ∃ info, Result x = Some (clusterInfoPayload info) ∧ IsMigrating info = false ∧
      NodeNumberWithSlots info = expected_nodes cr;
  idle_scale : r = MkHttp POST (url r_client master ("/clusters/migrations/auto/" +:+
      ClusterName (um_Spec cr) +:+ "/" +:+ itoa (node_number (ChunkNumber (um_Spec cr))))) None →
    StatusCode x = 200;
  idle_free : r = MkHttp DELETE (cluster "/clusters/free_nodes/") None →
    StatusCode x = 404 ∧ ErrorField x = Some errStrFreeNodeNotFound
}.

(** The StatefulSets are as the custom resource wants them and have all their pods. *)
Definition statefulset_idle (k : NamespacedName) (ss : StatefulSet) : Prop :=
  (k = key BrokerStatefulSetName →
     brokerStatefulSetChanged cr ss = Some false ∧ sst_ReadyReplicas (ss_Status ss) = brokerNum) ∧
  (k = key CoordinatorStatefulSetName →
     coordinatorStatefulSetChanged cr ss = Some false ∧
     coordinatorNum ≤ sst_ReadyReplicas (ss_Status ss)) ∧
  (k = key StorageStatefulSetName →
     storageStatefulSetChanged cr ss = Some false ∧
     sss_Replicas (ss_Spec ss) = Some (storage_replicas cr) ∧
     sst_CurrentReplicas (ss_Status ss) = storage_replicas cr ∧
     sst_Replicas (ss_Status ss) = storage_replicas cr).

Definition endpoints_idle (k : NamespacedName) (l : list EndpointAddress) : Prop :=
  (k = key BrokerServiceName →
     (λ e, genBrokerAddressFromName (ea_Hostname e) cr) <$> l = brokers) ∧
  (k = key CoordinatorServiceName → coordinatorNum ≤ Z.of_nat (length l)) ∧
  (k = key StorageServiceName → storage_replicas cr ≤ Z.of_nat (length l)).

Definition idle_answer (o : operation) : answer o → Prop :=
  match o return answer o → Prop with
  | GetUndermoon _ => λ x, x = Ok cr
  | GetService k => λ x, ∃ s, x = Ok s ∧ MkName (m_Name (sv_Meta s)) (m_Namespace (sv_Meta s)) = k
  | GetStatefulSet k => λ x, ∃ ss, x = Ok ss ∧ statefulset_idle k ss
  | GetConfigMap _ => λ x, ∃ c, x = Ok c
  | GetSecret _ => λ x, ∃ s, x = Ok s
  | GetEndpoints k => λ x, ∃ eps, x = Ok eps ∧ endpoints_idle k (concat (ep_Subsets eps))
  | StatusPatch _ _ => λ x, ∃ st, x = Ok (um_set_status st cr)
  | SetControllerReference _ _ => λ x, ∃ refs, x = Ok refs
  | Http r => λ x, ∃ resp, x = Ok resp ∧ broker_idle r resp
  | RedisProcess _ _ => λ x, ∃ s, x = Ok s
  | GeneratePassword => λ x, ∃ s, x = Ok s
  | _ => λ _, True
  end.

(** What may be sent when there is nothing to do: no object is created or updated and
    no scaling state is written; no proxy is removed and no cluster is created. *)
Definition idle_request (o : operation) : Prop :=
  match o with
  | CreateService _ | CreateStatefulSet _ | CreateConfigMap _ | CreateSecret _
  | UpdateStatefulSet _ | UpdateConfigMap _ | StatusUpdate _ => False
  | Http r => (∀ p, o ≠ deregister_request r_client master p) ∧
              (∀ n, hr_body r ≠ Some (createClusterPayload n))
  | _ => True
  end.

Definition idle : contract k8s :=
  Contract (λ (_ : history k8s) (o : operation) x, idle_answer o x)
    (λ (_ : history k8s) (o : operation), idle_request o) False.
Abbreviation iwp := (wp idle).

(** The custom resource in memory: another affinity while the objects are built. *)
Definition like (c : Undermoon) : Prop := ∃ a, c = um_set_affinity a cr.

Lemma like_refl : like cr.
Proof. exists (CrAffinity (um_Spec cr)). by rewrite um_set_affinity_id. Qed.
Lemma like_set a c : like c → like (um_set_affinity a c).
Proof. intros [b ->]. by exists a. Qed.

(** ** Objects *)

Lemma iwp_getOrCreateService c s (Q : history k8s → res Service → Prop) h :
  (∀ h' s', MkName (m_Name (sv_Meta s')) (m_Namespace (sv_Meta s')) =
            MkName (m_Name (sv_Meta s)) (m_Namespace (sv_Meta s)) → Q h' (Ok s')) →
  iwp (getOrCreateService c s) Q h.
Proof.
  intros HQ. unfold getOrCreateService. apply wp_ebind, wp_api; [done|]. intros x [refs ->].
  apply wp_bind, wp_api; [done|]. intros x (s' & -> & Hs). by apply wp_ret, HQ.
Qed.

Lemma iwp_getOrCreateStatefulSet c ss (Q : history k8s → res StatefulSet → Prop) h :
  (∀ h' ss', statefulset_idle (MkName (m_Name (ss_Meta ss)) (m_Namespace (ss_Meta ss))) ss' →
     Q h' (Ok ss')) →
  iwp (getOrCreateStatefulSet c ss) Q h.
Proof.
  intros HQ. unfold getOrCreateStatefulSet. apply wp_ebind, wp_api; [done|]. intros x [refs ->].
  apply wp_bind, wp_api; [done|]. intros x (ss' & -> & Hs). by apply wp_ret, HQ.
Qed.

Lemma iwp_createMeta z c (Q : history k8s → Undermoon * res unit → Prop) h :
  compressString "{}" = Ok z → (∀ h', Q h' (c, Ok ())) → iwp (createMeta c) Q h.
Proof.
  intros Hz HQ. unfold createMeta, createConfigMapGuard, createSecretGuard.
  apply wp_cr_ebind, wp_guard_ok, wp_cr_bind, wp_get_cr, wp_lift. cbn [fst snd].
  unfold getOrCreateConfigMap. rewrite Hz. apply wp_ebind, wp_ret, wp_ebind, wp_api; [done|].
  intros x [refs ->]. apply wp_bind, wp_api; [done|]. intros x [cm ->]. apply wp_ret.
  eexists. split; [done|]. apply wp_cr_ebind, wp_guard_ok, wp_cr_bind, wp_get_cr, wp_lift. cbn [fst snd].
  unfold getOrCreateMetaSecret. apply wp_ebind, wp_api; [done|]. intros x [password ->].
  apply wp_ebind, wp_api; [done|]. intros x [refs' ->]. apply wp_bind, wp_api; [done|].
  intros x [s ->]. apply wp_ret. eexists. split; [done|]. by apply wp_cr_ret.
Qed.

Definition named (s : Service) (k : NamespacedName) : Prop :=
  MkName (m_Name (sv_Meta s)) (m_Namespace (sv_Meta s)) = k.

Lemma iwp_service build name c (Q : history k8s → Undermoon * res Service → Prop) h :
  like c →
  (∀ c', like c' → MkName (m_Name (sv_Meta (build c'))) (m_Namespace (sv_Meta (build c'))) = key name) →
  (∀ h' s, named s (key name) → Q h' (c, Ok s)) →
  iwp (createServiceGuard (cr ← get_cr; lift (getOrCreateService cr (build cr))) c) Q h.
Proof.
  intros Hc Hname HQ. apply wp_guard_ok, wp_cr_bind, wp_get_cr, wp_lift. cbn [fst snd].
  apply iwp_getOrCreateService. intros h' s Hs. eexists. split; [done|]. apply HQ.
  unfold named. by rewrite Hs, Hname.
Qed.

Lemma iwp_statefulset (build : Undermoon → StatefulSet * Undermoon) name c
    (Q : history k8s → Undermoon * res StatefulSet → Prop) h :
  like c →
  (∀ c, like c → like (build c).2 ∧
     MkName (m_Name (ss_Meta (build c).1)) (m_Namespace (ss_Meta (build c).1)) = key name) →
  (∀ h' c' ss, like c' → statefulset_idle (key name) ss → Q h' (c', Ok ss)) →
  iwp (createStatefulSetGuard (cr ← get_cr;
         let '(ss, cr') := build cr in put_cr cr';; lift (getOrCreateStatefulSet cr' ss)) c) Q h.
Proof.
  intros Hc Hbuild HQ. apply wp_guard_ok, wp_cr_bind, wp_get_cr. cbn [fst snd].
  destruct (Hbuild c Hc) as [Hlike Hname]. destruct (build c) as [ss c']. cbn [fst snd] in *.
  apply wp_cr_bind, wp_put_cr, wp_lift. cbn [fst snd]. apply iwp_getOrCreateStatefulSet.
  intros h' ss' Hss. eexists. split; [done|]. apply HQ; [done|]. by rewrite <- Hname.
Qed.

Lemma iwp_createBroker c (Q : history k8s → Undermoon * res (StatefulSet * Service) → Prop) h :
  like c →
  (∀ h' c' ss s, like c' → statefulset_idle (key BrokerStatefulSetName) ss →
     named s (key BrokerServiceName) → Q h' (c', Ok (ss, s))) →
  iwp (createBroker c) Q h.
Proof.
  intros Hc HQ. unfold createBroker, getOrCreateBrokerService, getOrCreateBrokerStatefulSet.
  apply wp_cr_ebind, (iwp_service createBrokerService BrokerServiceName); [done|by intros c' [a ->]|].
  intros h1 s Hs. cbn [fst snd].
  apply wp_cr_ebind, (iwp_service createBrokerPublicService BrokerPublicServiceName);
    [done|by intros c' [a ->]|]. intros h2 s' _. cbn [fst snd].
  apply wp_cr_ebind, (iwp_statefulset createBrokerStatefulSet BrokerStatefulSetName); [done| |].
  { intros c' [a ->]. split; [|done]. unfold createBrokerStatefulSet.
    destruct (addAntiAffinity _ _ _ _). apply like_set. by exists a. }
  intros h3 c' ss Hc' Hss. cbn [fst snd]. by apply wp_cr_ret, HQ.
Qed.

Lemma iwp_createCoordinator c (Q : history k8s → Undermoon * res (StatefulSet * Service) → Prop) h :
  like c →
  (∀ h' c' ss s, like c' → statefulset_idle (key CoordinatorStatefulSetName) ss →
     named s (key CoordinatorServiceName) → Q h' (c', Ok (ss, s))) →
  iwp (createCoordinator c) Q h.
Proof.
  intros Hc HQ. unfold createCoordinator, getOrCreateCoordinatorService, getOrCreateCoordinatorStatefulSet.
  apply wp_cr_ebind, (iwp_service createCoordinatorService CoordinatorServiceName);
    [done|by intros c' [a ->]|]. intros h1 s Hs. cbn [fst snd].
  apply wp_cr_ebind, (iwp_statefulset createCoordinatorStatefulSet CoordinatorStatefulSetName); [done| |].
  { intros c' [a ->]. split; [|done]. unfold createCoordinatorStatefulSet.
    destruct (addAntiAffinity _ _ _ _). apply like_set. by exists a. }
  intros h3 c' ss Hc' Hss. cbn [fst snd]. by apply wp_cr_ret, HQ.
Qed.

Lemma scale_up_replicas c : spec_wf (um_Spec cr) → like c → scale_up_target c = storage_replicas cr.
Proof. intros [Hchunks _ _ _ _ _ _] [a ->]. exact (scale_up_target_replicas cr Hchunks). Qed.

Lemma iwp_createStorage c (Q : history k8s → Undermoon * res (StatefulSet * Service) → Prop) h :
  spec_wf (um_Spec cr) → like c →
  (∀ h' c' ss s, like c' → statefulset_idle (key StorageStatefulSetName) ss →
     named s (key StorageServiceName) → Q h' (c', Ok (ss, s))) →
  iwp (createStorage c) Q h.
Proof.
  intros Hwf Hc HQ. unfold createStorage, getOrCreateStorageService, getOrCreateStorageStatefulSet.
  apply wp_cr_ebind, (iwp_service createStoragePublicService StoragePublicServiceName);
    [done|by intros c' [a ->]|]. intros h1 s _. cbn [fst snd].
  apply wp_cr_ebind, (iwp_service createStorageService StorageServiceName);
    [done|by intros c' [a ->]|]. intros h2 s' Hs. cbn [fst snd].
  apply wp_cr_ebind, (iwp_statefulset createStorageStatefulSet StorageStatefulSetName); [done| |].
  { intros c' [a ->]. split; [|done]. unfold createStorageStatefulSet.
    destruct (addAntiAffinity _ _ _ _). apply like_set. by exists a. }
  intros h3 c' ss Hc' Hss. cbn [fst snd]. apply wp_cr_bind, wp_get_cr. cbn [fst snd].
  apply wp_cr_bind, wp_lift. pose proof Hss as (_ & _ & Hst). destruct (Hst eq_refl) as (_ & Hr & _).
  unfold deref_replicas. rewrite Hr. apply wp_ret. cbn [fst snd].
  rewrite (scale_up_replicas c' Hwf Hc'), Z.ltb_irrefl. by apply wp_cr_ret, HQ.
Qed.

Definition idle_resource (r : umResource) : Prop :=
  statefulset_idle (key BrokerStatefulSetName) (brokerStatefulSet r) ∧
  statefulset_idle (key CoordinatorStatefulSetName) (coordinatorStatefulSet r) ∧
  statefulset_idle (key StorageStatefulSetName) (storageStatefulSet r) ∧
  named (brokerService r) (key BrokerServiceName) ∧
  named (coordinatorService r) (key CoordinatorServiceName) ∧
  named (storageService r) (key StorageServiceName).

Lemma iwp_createResources z c (Q : history k8s → Undermoon * res umResource → Prop) h :
  compressString "{}" = Ok z → spec_wf (um_Spec cr) → like c →
  (∀ h' c' r, like c' → idle_resource r → Q h' (c', Ok r)) → iwp (createResources c) Q h.
Proof.
  intros Hz Hwf Hc HQ. unfold createResources.
  eapply wp_cr_ebind, iwp_createMeta; [done|]. intros h1. cbn [fst snd].
  apply wp_cr_ebind, iwp_createBroker; [done|]. intros h2 c2 bss bs Hc2 Hbss Hbs. cbn [fst snd].
  apply wp_cr_ebind, iwp_createCoordinator; [done|]. intros h3 c3 css cs Hc3 Hcss Hcs. cbn [fst snd].
  apply wp_cr_ebind, iwp_createStorage; [done..|]. intros h4 c4 sss ss Hc4 Hsss Hss. cbn [fst snd].
  apply wp_cr_ret, HQ; [done|]. do 5 (split; [done|]). done.
Qed.

(** ** Readiness and the election *)

Lemma iwp_getEndpoints k (Q : history k8s → res (list EndpointAddress) → Prop) h :
  (∀ h' l, endpoints_idle k l → Q h' (Ok l)) →
  iwp (getEndpoints (nn_Name k) (nn_Namespace k)) Q h.
Proof.
  intros HQ. unfold getEndpoints. apply wp_bind, wp_api; [done|]. intros x (eps & -> & Heps).
  apply wp_ret. rewrite foldl_app_concat. apply HQ. by destruct k.
Qed.

Lemma iwp_endpoints_num s k (Q : history k8s → res Z → Prop) h :
  named s k → (∀ h' l, endpoints_idle k l → Q h' (Ok (Z.of_nat (length l)))) →
  iwp (getServiceEndpointsNum s) Q h.
Proof.
  intros <- HQ. unfold getServiceEndpointsNum. apply wp_ebind.
  apply (iwp_getEndpoints (MkName (m_Name (sv_Meta s)) (m_Namespace (sv_Meta s)))).
  intros h' l Hl. by apply wp_ret, HQ.
Qed.

Section resource.
Context (resource : umResource) (Hres : idle_resource resource).

Lemma iwp_broker_ready (f : Z → bool) (Q : history k8s → res bool → Prop) h :
  (2 ≤ length brokers)%nat → (∀ n, brokerNum ≤ n → f n = true) → (∀ h', Q h' (Ok true)) →
  iwp (n ←? getServiceEndpointsNum (brokerService resource); mret (Ok (f n))) Q h.
Proof.
  intros Hbrokers Hf HQ. destruct Hres as (_ & _ & _ & Hs & _).
  eapply wp_ebind, iwp_endpoints_num; [exact Hs|]. intros h' l (Hl & _ & _). apply wp_ret. rewrite Hf; [done|].
  rewrite <- (length_fmap (λ e, genBrokerAddressFromName (ea_Hostname e) cr)), (Hl eq_refl).
  unfold brokerNum. lia.
Qed.

Lemma iwp_coordinator_ready (f : Z → bool) (Q : history k8s → res bool → Prop) h :
  (∀ n, coordinatorNum ≤ n → f n = true) → (∀ h', Q h' (Ok true)) →
  iwp (n ←? getServiceEndpointsNum (coordinatorService resource); mret (Ok (f n))) Q h.
Proof.
  intros Hf HQ. destruct Hres as (_ & _ & _ & _ & Hs & _). eapply wp_ebind, iwp_endpoints_num; [exact Hs|].
  intros h' l (_ & Hl & _). apply wp_ret. rewrite Hf; [done|]. by apply Hl.
Qed.

Lemma iwp_brokerAndCoordinatorReady (Q : history k8s → res bool → Prop) h :
  (2 ≤ length brokers)%nat → (∀ h', Q h' (Ok true)) →
  iwp (brokerAndCoordinatorReady resource) Q h.
Proof.
  intros Hbrokers HQ. pose proof Hres as ((Hb & _) & (_ & Hc & _) & _).
  destruct (Hb eq_refl) as [_ Hbr], (Hc eq_refl) as [_ Hcr].
  unfold brokerAndCoordinatorReady, brokerReady, coordinatorReady.
  apply wp_ebind, iwp_broker_ready; [done| |].
  { intros n Hn. rewrite Hbr. unfold brokerNum in *. lia. }
  intros h1. cbn [negb]. apply wp_ebind, iwp_coordinator_ready; [|done].
  intros n Hn. unfold coordinatorNum in *. lia.
Qed.

(** A request to the broker: its answer comes back, and is one of the settled world. *)
Lemma iwp_http r (Q : history k8s → res http_response → Prop) h :
  idle_request (Http r) → (∀ h' x, broker_idle r x → Q h' (Ok x)) → iwp (api_call (Http r)) Q h.
Proof. intros Hr HQ. apply wp_api; [done|]. intros x (resp & -> & Hx). by apply HQ. Qed.

Lemma get_allowed u : idle_request (Http (MkHttp GET u None)).
Proof. split; [intros p [=]|done]. Qed.
Lemma put_allowed u b : (∀ n, b ≠ Some (createClusterPayload n)) → idle_request (Http (MkHttp PUT u b)).
Proof. split; [intros p [=]|done]. Qed.
Lemma post_allowed u b : (∀ n, b ≠ Some (createClusterPayload n)) → idle_request (Http (MkHttp POST u b)).
Proof. split; [intros p [=]|done]. Qed.

Lemma iwp_getReplicaAddresses a (Q : history k8s → res (list string) → Prop) h :
  a ∈ brokers → (∀ h' l, (a = master → l ≠ []) → (a ∈ before ++ after → l = []) → Q h' (Ok l)) →
  iwp (getReplicaAddresses r_client a) Q h.
Proof.
  intros Ha HQ. unfold getReplicaAddresses. apply wp_ebind, iwp_http; [apply get_allowed|].
  intros h' x Hx. assert (a = master ∨ a ∈ before ++ after) as [->|Hin] by set_solver.
  - destruct (idle_master _ _ Hx eq_refl) as (Hs & a & l & Hr). unfold status. rewrite Hs, Hr. cbn.
    apply HQ; [done|]. intros Hin. destruct (idle_replica _ _ Hx master Hin eq_refl). congruence.
  - destruct (idle_replica _ _ Hx a Hin eq_refl) as (Hs & Hr). unfold status. rewrite Hs, Hr. cbn.
    apply HQ; [|done]. intros ->. destruct (idle_master _ _ Hx eq_refl) as (_ & ? & ? & ?). congruence.
Qed.

Lemma iwp_collectMasters l acc (Q : history k8s → list string → Prop) h :
  master ∉ before ++ after → (∀ a, a ∈ l → a ∈ brokers) →
  (∀ h', Q h' (acc ++ filter (λ a, a = master) l)) →
  iwp (collectMasters r_client l acc) Q h.
Proof.
  intros Hm. revert acc h. induction l as [|a l IH]; intros acc h Hl HQ; cbn [collectMasters].
  { apply wp_ret. specialize (HQ h). by rewrite app_nil_r in HQ. }
  apply wp_bind, iwp_getReplicaAddresses; [apply Hl; by left|]. intros h' addrs Hmaster Hother.
  apply IH; [intros a' ?; apply Hl; by right|]. intros h''. specialize (HQ h''). revert HQ.
  rewrite filter_cons. destruct (decide (a = master)) as [->|Hne].
  - destruct addrs; [by destruct Hmaster|]. by rewrite <- app_assoc.
  - assert (a ∈ before ++ after) as Hin by (assert (a ∈ brokers) by (apply Hl; by left); set_solver).
    by rewrite (Hother Hin).
Qed.

Lemma filter_master : master ∉ before ++ after → filter (λ a, a = master) brokers = [master].
Proof.
  intros [Hb Ha]%not_elem_of_app. rewrite filter_app, filter_cons_True by done.
  by rewrite !filter_none by (intros a ? ->; done).
Qed.

Lemma filter_replicas : master ∉ before ++ after → filter (λ a, a ≠ master) brokers = before ++ after.
Proof.
  intros [Hb Ha]%not_elem_of_app. rewrite filter_app, filter_cons_False by naive_solver.
  by rewrite !filter_every by (intros a ? ->; done).
Qed.

Lemma iwp_reconcileMaster c (Q : history k8s → Undermoon * res (string * list string) → Prop) h :
  like c → master ∉ before ++ after →
  (∀ h' st, Q h' (um_set_status st cr, Ok (master, before ++ after))) →
  iwp (reconcileMaster r_client (brokerService resource) c) Q h.
Proof.
  intros [a ->] Hm HQ. destruct Hres as (_ & _ & _ & Hs & _). unfold reconcileMaster.
  apply wp_cr_ebind, wp_lift. injection Hs as -> ->.
  apply (iwp_getEndpoints (key BrokerServiceName)). intros h1 l (Hl & _ & _). specialize (Hl eq_refl).
  cbn [fst snd]. apply wp_cr_bind, wp_get_cr. cbn [fst snd]. cbv zeta.
  assert ((λ e, genBrokerAddressFromName (ea_Hostname e) (um_set_affinity a cr)) <$> l = brokers) as ->
    by exact Hl.
  apply wp_cr_ebind, wp_lift. unfold getCurrentMaster.
  destruct brokers as [|b0 bs] eqn:Hbs; [by destruct before|]. rewrite <- Hbs.
  apply wp_bind, iwp_collectMasters; [done|by rewrite Hbs|]. intros h2.
  rewrite filter_master by done. apply wp_ret. cbn [fst snd].
  apply wp_cr_ebind. unfold setMasterBrokerStatus. apply wp_cr_bind, wp_get_cr. cbn [fst snd].
  apply wp_cr_bind, wp_lift, wp_api; [done|]. intros x [st ->]. cbn [fst snd].
  apply wp_cr_bind, wp_put_cr, wp_cr_ret. cbn [fst snd]. apply wp_cr_ret.
  rewrite filter_replicas by done. apply HQ.
Qed.

Lemma iwp_configSetBroker pool st (Q : history k8s → redisClientPool * res unit → Prop) h :
  (∀ h' pool', Q h' (pool', Ok ())) →
  iwp (configSetBroker pool (um_set_status st cr) (coordinatorService resource) master) Q h.
Proof.
  intros HQ. destruct Hres as (_ & _ & _ & _ & Hs & _). unfold configSetBroker. injection Hs as -> ->.
  apply wp_bind, (iwp_getEndpoints (key CoordinatorServiceName)). intros h1 l _.
  generalize ((λ e, genCoordinatorAddressFromName (ea_Hostname e) (um_set_status st cr)) <$> l).
  intros addresses. revert pool h1. induction addresses as [|a addresses IH]; intros pool h1; cbn [setBrokerLoop].
  - by apply wp_ret.
  - apply wp_bind. unfold setBrokerAddress. destruct (getClient pool a) as [cl pool'].
    apply wp_bind. unfold coordinatorClient_setBrokerAddress. apply wp_ebind, wp_api; [done|].
    intros x [s ->]. by apply wp_ret, wp_ret.
Qed.

(** ** The metadata in the broker *)

Section status.
Context (st : UndermoonStatus).
Abbreviation cr' := (um_set_status st cr).

Lemma iwp_setBrokerReplicas a l (Q : history k8s → res unit → Prop) h :
  a ∈ brokers → (∀ h', Q h' (Ok ())) → iwp (setBrokerReplicas r_client a l) Q h.
Proof.
  intros Ha HQ. unfold setBrokerReplicas. apply wp_ebind, iwp_http; [by apply put_allowed|].
  intros h' x Hx. unfold status. rewrite (idle_config _ _ Hx a l Ha eq_refl). apply HQ.
Qed.

Lemma iwp_meta_setBrokerReplicas (Q : history k8s → res unit → Prop) h :
  (∀ h', Q h' (Ok ())) → iwp (meta_setBrokerReplicas r_client master (before ++ after)) Q h.
Proof.
  intros HQ. unfold meta_setBrokerReplicas. apply wp_ebind, iwp_setBrokerReplicas; [set_solver|]. intros h1.
  apply wp_for_each_ok; [|done]. intros a h2 Ha. apply iwp_setBrokerReplicas; [set_solver|done].
Qed.

Lemma iwp_registerServerProxies proxies (Q : history k8s → res unit → Prop) h :
  (∀ h', Q h' (Ok ())) → iwp (registerServerProxies r_client master proxies) Q h.
Proof.
  intros HQ. unfold registerServerProxies. apply wp_for_each_ok; [|done]. intros p h1 _.
  apply wp_bind. unfold registerServerProxy. apply wp_ebind, iwp_http; [by apply post_allowed|].
  intros h' x Hx. unfold status. by rewrite (idle_register _ _ Hx p eq_refl).
Qed.

Lemma iwp_deregisterServerProxies proxies (Q : history k8s → res unit → Prop) h :
  (∀ h', Q h' (Ok ())) → iwp (deregisterServerProxies r_client master proxies cr') Q h.
Proof.
  intros HQ. unfold deregisterServerProxies, getServerProxies.
  apply wp_ebind, wp_ebind, iwp_http; [apply get_allowed|]. intros h1 x Hx.
  destruct (idle_proxies _ _ Hx eq_refl) as (Hs & l & Hl & Hin). unfold status. rewrite Hs, Hl.
  apply wp_ret. cbv zeta.
  assert (filter (λ a, a ∉ keep_set cr' proxies) l = []) as ->.
  { apply filter_none. intros a Ha Hn. apply Hn. unfold keep_set. apply elem_of_union_l, elem_of_list_to_set. by apply Hin. }
  apply wp_ret, HQ.
Qed.

(** Answers to the requests about the cluster. *)
Lemma iwp_meta_createCluster (Q : history k8s → res unit → Prop) h :
  (∀ h', Q h' (Ok ())) → iwp (meta_createCluster r_client master cr') Q h.
Proof.
  intros HQ. unfold meta_createCluster, clusterExists.
  apply wp_ebind, wp_ebind, iwp_http; [apply get_allowed|]. intros h1 x Hx.
  destruct (idle_names _ _ Hx eq_refl) as (Hs & l & Hl & Hin). unfold status. rewrite Hs, Hl. apply wp_ret.
  assert (existsb (λ name, String.eqb name (ClusterName (um_Spec cr'))) l = true) as ->; [|by apply wp_ret].
  apply existsb_exists. exists (ClusterName (um_Spec cr)).
  split; [by apply list_elem_of_In|by apply String.eqb_eq].
Qed.

Lemma iwp_meta_changeClusterConfig (Q : history k8s → res unit → Prop) h :
  (∀ h', Q h' (Ok ())) → iwp (meta_changeClusterConfig r_client master cr') Q h.
Proof.
  intros HQ. unfold meta_changeClusterConfig, changeClusterConfig.
  apply wp_bind, wp_ebind, iwp_http; [by split; [intros p [=]|]|]. intros h1 x Hx.
  unfold status. rewrite (idle_cluster_config _ _ Hx _ eq_refl). apply HQ.
Qed.

Lemma iwp_meta_getClusterInfo (Q : history k8s → res clusterInfo → Prop) h :
  (∀ h' info, IsMigrating info = false → NodeNumberWithSlots info = expected_nodes cr → Q h' (Ok info)) →
  iwp (meta_getClusterInfo r_client master cr') Q h.
Proof.
  intros HQ. unfold meta_getClusterInfo, getClusterInfo.
  apply wp_ebind, iwp_http; [apply get_allowed|]. intros h1 x Hx.
  destruct (idle_info _ _ Hx eq_refl) as (Hs & info & Hr & ? & ?). unfold status. rewrite Hs, Hr. by apply HQ.
Qed.

Lemma iwp_reconcileMeta proxies (Q : history k8s → res clusterInfo → Prop) h :
  (∀ h' info, IsMigrating info = false → NodeNumberWithSlots info = expected_nodes cr → Q h' (Ok info)) →
  iwp (reconcileMeta r_client master (before ++ after) proxies cr' true) Q h.
Proof.
  intros HQ. unfold reconcileMeta, reconcileServerProxyRegistry.
  apply wp_ebind, iwp_meta_setBrokerReplicas. intros h1.
  apply wp_ebind, wp_ebind, iwp_registerServerProxies. intros h2.
  apply iwp_deregisterServerProxies. intros h3. cbn [negb].
  apply wp_ebind, iwp_meta_createCluster. intros h4.
  apply wp_ebind, iwp_meta_changeClusterConfig. intros h5. by apply iwp_meta_getClusterInfo.
Qed.

Lemma iwp_changeMeta info (Q : history k8s → res unit → Prop) h :
  IsMigrating info = false → (∀ h', Q h' (Ok ())) → iwp (changeMeta r_client master cr' info) Q h.
Proof.
  intros Hm HQ. unfold changeMeta. rewrite Hm. apply wp_bind. unfold changeNodeNumber, scaleNodes.
  apply wp_bind, wp_ebind, iwp_http; [by apply post_allowed|]. intros h1 x Hx.
  unfold status. rewrite (idle_scale _ _ Hx eq_refl). apply wp_ret. unfold removeNodes, removeFreeNodes.
  apply wp_bind, wp_ebind, iwp_http.
  { split; [|done]. intros p [= Hurl%str_app_inj_l%str_app_inj_l%str_app_inj_l%str_app_inj_l]. discriminate. }
  intros h2 y Hy. destruct (idle_free _ _ Hy eq_refl) as [Hs He].
  unfold status, error_is. rewrite Hs, He. cbn. apply HQ.
Qed.

(** ** The storage *)

Lemma iwp_storageAllReady (Q : history k8s → res bool → Prop) h :
  (∀ h', Q h' (Ok true)) → iwp (storageAllReady (storageService resource) cr') Q h.
Proof.
  intros HQ. destruct Hres as (_ & _ & _ & _ & _ & Hs). unfold storageAllReady.
  eapply wp_ebind, iwp_endpoints_num; [exact Hs|]. intros h' l (_ & _ & Hl). apply wp_ret.
  specialize (Hl eq_refl). change (storage_replicas cr') with (storage_replicas cr).
  by rewrite (proj2 (Z.leb_le _ _) Hl).
Qed.

Lemma iwp_storageAllReadyAndStable (Q : history k8s → res bool → Prop) h :
  (∀ h', Q h' (Ok true)) →
  iwp (storageAllReadyAndStable (storageService resource) (storageStatefulSet resource) cr') Q h.
Proof.
  intros HQ. destruct Hres as (_ & _ & (_ & _ & Hst) & _). destruct (Hst eq_refl) as (_ & Hr & Hc & Hn).
  unfold storageAllReadyAndStable. apply wp_ebind, iwp_storageAllReady. intros h1. cbn [negb].
  unfold deref_replicas. rewrite Hr. apply wp_bind, wp_ret. rewrite Hc, Hn, Z.eqb_refl. apply HQ.
Qed.

Lemma iwp_getServerProxies (Q : history k8s → res (list serverProxyMeta) → Prop) h :
  (∀ h' l, Q h' (Ok l)) → iwp (storage_getServerProxies (storageService resource) cr') Q h.
Proof.
  intros HQ. destruct Hres as (_ & _ & _ & _ & _ & Hs). unfold storage_getServerProxies.
  injection Hs as -> ->. apply wp_ebind, (iwp_getEndpoints (key StorageServiceName)).
  intros h1 l _. by apply wp_ret.
Qed.

Lemma iwp_scaleDown info (Q : history k8s → Undermoon * res StatefulSet → Prop) h :
  NodeNumberWithSlots info = expected_nodes cr →
  (∀ h', Q h' (cr', Ok (storageStatefulSet resource))) →
  iwp (scaleDownStorageStatefulSet (storageStatefulSet resource) info cr') Q h.
Proof.
  intros Hn HQ. destruct Hres as (_ & _ & (_ & _ & Hst) & _). destruct (Hst eq_refl) as (_ & Hr & _).
  unfold scaleDownStorageStatefulSet. apply wp_cr_bind, wp_get_cr. cbn [fst snd].
  change (expected_nodes cr') with (expected_nodes cr). rewrite Hn, Z.ltb_irrefl.
  unfold deref_replicas. rewrite Hr. apply wp_cr_bind, wp_lift, wp_ret. cbn [fst snd].
  change (storage_replicas cr') with (storage_replicas cr). rewrite Z.eqb_refl. by apply wp_cr_ret.
Qed.

Lemma iwp_roll need update ready (Q : history k8s → Undermoon * res unit → Prop) h :
  need cr' = mret false → iwp (ready cr') (λ h' r, r = Ok true ∧ Q h' (cr', Ok ())) h →
  iwp (roll_component need update ready cr') Q h.
Proof.
  intros Hneed Hready. unfold roll_component. apply wp_cr_bind, wp_get_cr. cbn [fst snd].
  rewrite Hneed. apply wp_cr_bind, wp_lift, wp_ret. cbn [fst snd].
  apply wp_cr_ebind, wp_lift. eapply wp_mono; [exact Hready|]. intros h' r [-> HQ]. cbn [fst snd negb].
  by apply wp_cr_ret.
Qed.

Lemma iwp_triggerRollingUpdate (Q : history k8s → Undermoon * res unit → Prop) h :
  (2 ≤ length brokers)%nat → (∀ h', Q h' (cr', Ok ())) → iwp (triggerRollingUpdate resource cr') Q h.
Proof.
  intros Hbrokers HQ. pose proof Hres as ((Hb & _) & (_ & Hc & _) & (_ & _ & Hs) & _).
  destruct (Hb eq_refl) as [Hbc Hbr], (Hc eq_refl) as [Hcc Hcr], (Hs eq_refl) as (Hsc & _).
  unfold triggerRollingUpdate.
  apply wp_cr_ebind, iwp_roll.
  { unfold broker_needRollingUpdate. by change (brokerStatefulSetChanged cr' ?s) with (brokerStatefulSetChanged cr s); rewrite Hbc. }
  apply iwp_broker_ready; [done| |].
  { intros n Hn. rewrite Hbr. unfold brokerNum in *. lia. }
  intros h1. split; [done|]. cbn [fst snd].
  apply wp_cr_ebind, iwp_roll.
  { unfold coordinator_needRollingUpdate. by change (coordinatorStatefulSetChanged cr' ?s) with (coordinatorStatefulSetChanged cr s); rewrite Hcc. }
  apply iwp_coordinator_ready.
  { intros n Hn. lia. }
  intros h2. split; [done|]. cbn [fst snd]. apply iwp_roll.
  { unfold storage_needRollingUpdate. by change (storageStatefulSetChanged cr' ?s) with (storageStatefulSetChanged cr s); rewrite Hsc. }
  apply iwp_storageAllReadyAndStable. intros h3. by split.
Qed.
End status.
End resource.

(** ** The whole run *)

Lemma iwp_prepare z (Q : history k8s → Undermoon * result outcome (umResource * string * list string) → Prop) h :
  compressString "{}" = Ok z → spec_wf (um_Spec cr) → (2 ≤ length brokers)%nat →
  master ∉ before ++ after →
  (∀ h' st resource, idle_resource resource →
     Q h' (um_set_status st cr, Ok (resource, master, before ++ after))) →
  iwp (reconcile_prepare cr) Q h.
Proof.
  intros Hz Hwf Hbrokers Hm HQ. unfold reconcile_prepare.
  eapply wp_retrying_ok, iwp_createResources; [exact Hz|done|exact like_refl|].
  intros h1 c resource Hc Hres. eexists. split; [done|]. cbn [fst snd].
  apply wp_failing_ok, wp_lift, iwp_brokerAndCoordinatorReady; [done..|].
  intros h2. eexists. split; [done|]. cbn [fst snd negb].
  apply wp_retrying_ok, iwp_reconcileMaster; [done..|].
  intros h3 st. eexists. split; [done|]. cbn [fst snd]. by apply wp_cr_ret, HQ.
Qed.

Lemma iwp_apply resource st (Q : history k8s → Undermoon * result outcome unit → Prop) h :
  idle_resource resource → (2 ≤ length brokers)%nat →
  (∀ h' c, Q h' (c, Ok ())) →
  iwp (reconcile_apply resource master (before ++ after) (um_set_status st cr)) Q h.
Proof.
  intros Hres Hbrokers HQ. unfold reconcile_apply. apply wp_cr_bind, wp_get_cr. cbn [fst snd].
  apply wp_failing_ok, wp_lift, iwp_getServerProxies; [done|]. intros h1 l. eexists. split; [done|]. cbn [fst snd].
  apply wp_failing_ok, wp_lift, iwp_storageAllReady; [done|]. intros h2. eexists. split; [done|]. cbn [fst snd].
  apply wp_retrying_ok, wp_lift, (iwp_reconcileMeta resource Hres). intros h3 info Hmig _. eexists. split; [done|]. cbn [fst snd].
  apply wp_failing_ok, wp_lift, iwp_storageAllReadyAndStable; [done|].
  intros h4. eexists. split; [done|]. cbn [fst snd negb].
  apply wp_retrying_ok, wp_lift, iwp_changeMeta; [done|]. intros h5. eexists. split; [done|]. cbn [fst snd].
  apply wp_retrying_ok, wp_lift, (iwp_reconcileMeta resource Hres). intros h6 info' _ Hn. eexists. split; [done|]. cbn [fst snd].
  apply wp_retrying_ok, iwp_scaleDown; [done..|]. intros h7. eexists. split; [done|]. cbn [fst snd].
  replace (set_storage (storageStatefulSet resource) resource) with resource by by destruct resource.
  apply wp_cr_bind, iwp_triggerRollingUpdate; [done..|]. intros h8. apply wp_cr_ret. cbn [fst snd]. apply HQ.
Qed.

(** C2. A settled cluster stays as it is: when the objects exist, the StatefulSets are
    what the custom resource asks for and have all their pods, one broker has
    replicas, and the broker has the cluster with its slots on the requested nodes,
    then in every such environment a reconciliation ends without an error and without
    asking for another one; and it creates and updates no object, writes no scaling
    state, removes no proxy and creates no cluster. *)
Theorem reconcile_idle (E : env k8s) (h : history k8s) (pool : redisClientPool)
    (request : NamespacedName) (z : string)
    (Hz : compressString "{}" = Ok z) (Hwf : spec_wf (um_Spec cr))
    (Hbrokers : (2 ≤ length brokers)%nat) (Hmaster : master ∉ before ++ after)
    (Hworld : respects idle E) :
  ∃ h' pool', run_from E h (Reconcile pool request) = (h', Some (pool', done_)) ∧
    guarded (Σ := k8s) (λ _, idle_request) h h'.
Proof.
  assert (iwp (Reconcile pool request) (λ _ r, r.2 = done_) h) as Hwp.
  { unfold Reconcile. apply wp_bind, wp_api; [done|]. intros x ->.
    apply wp_bind. eapply iwp_prepare; [exact Hz|done..|].
    intros h1 st resource Hres. apply wp_bind, (iwp_configSetBroker resource); [done|]. intros h2 pool'.
    apply wp_bind, iwp_apply; [done..|]. intros h3 c. by apply wp_ret. }
  apply (wp_sound _ E) in Hwp as [Hguard Hpost]; [|done].
  destruct (run_from E h _) as [h' [[pool' o]|]]; [|done].
  simpl in Hpost. subst o. exists h', pool'. by split.
Qed.
End idle.

(** ** A settled world *)

Section settled_world.
#[local] Existing Instance text_quantities.
#[local] Existing Instance no_env.
#[local] Existing Instance stored_gzip.

Abbreviation cr2 := (sample_cr 2).
Definition broker0 : string := genBrokerAddressFromName "c-bk-ss-0" cr2.
Definition broker1 : string := genBrokerAddressFromName "c-bk-ss-1" cr2.

Definition settled_broker (r : http_request) : http_response :=
  match hr_method r with
  | GET =>
      MkResponse 200 "" None (Some
        (if String.eqb (hr_url r) (url r_client broker0 "/config") then brokerConfigPayload [broker1]
         else if String.eqb (hr_url r) (url r_client broker1 "/config") then brokerConfigPayload []
         else if String.eqb (hr_url r) (url r_client broker0 "/proxies/addresses")
         then queryServerProxyResponse []
         else if String.eqb (hr_url r) (url r_client broker0 "/clusters/names")
         then queryClusterNamesPayload [ClusterName (um_Spec cr2)]
         else clusterInfoPayload (MkClusterInfo "" 8 8 false)))
  | DELETE => MkResponse 404 "" (Some errStrFreeNodeNotFound) None
  | _ => MkResponse 200 "" None None
  end.

Definition settled_statefulset (k : NamespacedName) : StatefulSet :=
  let full n ss := MkStatefulSet (ss_Meta ss) (ss_Spec ss) (MkStatefulSetStatus n n n) in
  if String.eqb (nn_Name k) (StorageStatefulSetName "c") then full 4 (createStorageStatefulSet cr2).1
  else if String.eqb (nn_Name k) (BrokerStatefulSetName "c") then full 2 (createBrokerStatefulSet cr2).1
  else full 2 (createCoordinatorStatefulSet cr2).1.

Definition settled_env : env k8s := λ _ o,
  match o return answer o with
  | GetUndermoon _ => Ok cr2
  | GetService k => Ok (MkService (MkMeta (nn_Name k) (nn_Namespace k) ∅ "1" []) [] "" ∅ false)
  | GetStatefulSet k => Ok (settled_statefulset k)
  | GetConfigMap k => Ok (MkConfigMap (MkMeta (nn_Name k) (nn_Namespace k) ∅ "1" []) None)
  | GetSecret k => Ok (MkSecret (MkMeta (nn_Name k) (nn_Namespace k) ∅ "1" []) ∅)
  | GetEndpoints k =>
      Ok (if String.eqb (nn_Name k) (StorageServiceName "c") then addresses "c-stg-ss-" 4
          else addresses "c-bk-ss-" 2)
  | StatusPatch cr _ => Ok cr2
  | StatusUpdate cr => Ok cr
  | SetControllerReference _ _ => Ok []
  | Http r => Ok (settled_broker r)
  | RedisProcess _ _ => Ok "OK"
  | GeneratePassword => Ok "password"
  | Now => 0
  | CreateService _ => Err ApiAlreadyExists
  | CreateStatefulSet _ | UpdateStatefulSet _ => Err ApiConflict
  | CreateConfigMap _ | UpdateConfigMap _ => Err ApiConflict
  | CreateSecret _ => Err ApiConflict
  end.

Lemma settled_broker_idle r : broker_idle cr2 broker0 [] [broker1] r (settled_broker r).
Proof.
  split.
  - intros ->. split; [reflexivity|]. by exists broker1, [].
  - intros a ->%list_elem_of_singleton ->. split; [reflexivity|]. by vm_compute.
  - by intros a l _ ->.
  - by intros p ->.
  - intros ->. split; [reflexivity|]. exists []. split; [by vm_compute|]. by intros a ?%elem_of_nil.
  - intros ->. split; [reflexivity|]. exists [ClusterName (um_Spec cr2)]. split; [by vm_compute|by left].
  - by intros p ->.
  - intros ->. split; [reflexivity|]. exists (MkClusterInfo "" 8 8 false). by vm_compute.
  - by intros ->.
  - by intros ->.
Qed.

Lemma settled_env_idle : respects (idle cr2 broker0 [] [broker1]) settled_env.
Proof.
  intros h o. destruct o; cbn [rely idle idle_answer settled_env]; try done; try by eexists.
  - eexists. split; [done|]. by destruct k.
  - eexists. split; [done|]. repeat split; subst; by vm_compute.
  - eexists. split; [done|]. repeat split; intros ->; by vm_compute.
  - eexists. split; [done|]. apply settled_broker_idle.
Qed.

Lemma reconcile_idle_witness :
  ∃ h' pool', run_from settled_env [] (Reconcile newRedisClientPool (MkName "c" "ns")) =
      (h', Some (pool', done_)) ∧
    guarded (Σ := k8s) (λ _, idle_request broker0) [] h'.
Proof.
  apply (reconcile_idle cr2 broker0 [] [broker1] settled_env [] newRedisClientPool (MkName "c" "ns")
    (EncodeToString "{}")).
  - reflexivity.
  - split; unfold is_uint32; simpl; lia.
  - simpl. lia.
  - intros Hin%list_elem_of_singleton. by vm_compute in Hin.
  - exact settled_env_idle.
Defined.
End settled_world.
