(* ===== verification/Bootstrap.v ===== *)
(** * A broker's first contact with the metadata server

    Five parts that never call each other have to agree before a broker can keep its
    metadata: the ConfigMap and the Secret that [createMeta] makes (meta_controller.go),
    the environment of the broker's container (broker.go), and the credentials, the
    storage name and the store as the server reads them (meta_server.go).  Here they
    run one after the other against an API server. *)
From S2P Require Import Prelude Prog GoStr Base64 Types Samples Api Utils Meta Broker.
From S2P Require Import RollingUpdate Objects MetaController ExternalStore MetaServer.

(** ** An API server *)

(** The object of a name after a history: the last one that was written. *)
Definition written_config (e : event k8s) : option ConfigMap :=
  match e with
  | Ev (CreateConfigMap _) (Ok c) | Ev (UpdateConfigMap _) (Ok c) => Some c
  | _ => None
  end.
Definition config_step (k : NamespacedName) (o : option ConfigMap) (e : event k8s) : option ConfigMap :=
  match written_config e with
  | Some c => if decide (configmap_key c = k) then Some c else o
  | None => o
  end.
Definition configmap_of (k : NamespacedName) (h : history k8s) : option ConfigMap :=
  foldl (config_step k) None h.

Definition secret_key (s : Secret) : NamespacedName :=
  MkName (m_Name (sc_Meta s)) (m_Namespace (sc_Meta s)).
Definition secret_step (k : NamespacedName) (o : option Secret) (e : event k8s) : option Secret :=
  match e with
  | Ev (CreateSecret _) (Ok s) => if decide (secret_key s = k) then Some s else o
  | _ => o
  end.
Definition secret_of (k : NamespacedName) (h : history k8s) : option Secret :=
  foldl (secret_step k) None h.

Definition found {A} (o : option A) : result ext_error A :=
  match o with Some a => Ok a | None => Err ApiNotFound end.

(** What is documented of the API server and of the helpers around it: reads answer the
    last write; a new object is created and an update of the current version accepted,
    both with the data that was sent, under some version. *)
Record api_server (E : env k8s) : Prop := {
  as_refs h cr m : ∃ refs, E h (SetControllerReference cr m) = Ok refs;
  as_password h : ∃ password, E h GeneratePassword = Ok password;
  as_get_config h k : E h (GetConfigMap k) = found (configmap_of k h);
  as_create_config h c : configmap_of (configmap_key c) h = None →
    ∃ c', E h (CreateConfigMap c) = Ok c' ∧ configmap_key c' = configmap_key c ∧ cm_Data c' = cm_Data c;
  as_update_config h c c0 :
    configmap_of (configmap_key c) h = Some c0 → version c0 = version c →
    ∃ c', E h (UpdateConfigMap c) = Ok c' ∧ configmap_key c' = configmap_key c ∧ cm_Data c' = cm_Data c;
  as_get_secret h k : E h (GetSecret k) = found (secret_of k h);
  as_create_secret h s : secret_of (secret_key s) h = None →
    ∃ s', E h (CreateSecret s) = Ok s' ∧ secret_key s' = secret_key s ∧ sc_Data s' = sc_Data s
}.

(** * Properties *)

Lemma configmap_of_snoc k h e : configmap_of k (h ++ [e]) = config_step k (configmap_of k h) e.
Proof. unfold configmap_of. by rewrite foldl_app. Qed.
Lemma secret_of_snoc k h e : secret_of k (h ++ [e]) = secret_step k (secret_of k h) e.
Proof. unfold secret_of. by rewrite foldl_app. Qed.

Lemma configmap_of_key k h c : configmap_of k h = Some c → configmap_key c = k.
Proof.
  induction h as [|e h IH] using rev_ind; [done|]. rewrite configmap_of_snoc. unfold config_step.
  destruct (written_config e); [|done]. case_decide; [by intros [= <-]|done].
Qed.

Section bootstrap.
Context `{OsEnv, Gzip, GinLaws, !JsonLaws, !GzipLaws} (E : env k8s) (Hserver : api_server E).
Context (cr : Undermoon).
Abbreviation config_key := (MkName (MetaConfigMapName (um_Name cr)) (um_Namespace cr)).
Abbreviation password_key := (MkName (MetaSecretName (um_Name cr)) (um_Namespace cr)).

(** ** Creation *)

Lemma run_guard_ok {A} n (f : crM (res A)) h h' c c' a :
  run_from E h (f c) = (h', Some (c', Ok a)) →
  run_from E h (guard_loop n f c) = (h', Some (c', Ok a)).
Proof.
  intros Hf. destruct n; cbn [guard_loop]; by rewrite run_cr_bind, Hf.
Qed.

Lemma run_shared {A} (f : Undermoon → go (res A)) h h' a :
  run_from E h (f cr) = (h', Some (Ok a)) →
  run_from E h ((cr ← get_cr; lift (f cr)) cr) = (h', Some (cr, Ok a)).
Proof. intros Hf. rewrite run_cr_bind. simpl. unfold lift. by rewrite run_bind, Hf. Qed.

Lemma run_getOrCreateConfigMap h z :
  compressString "{}" = Ok z → configmap_of config_key h = None →
  ∃ h' c, run_from E h (getOrCreateConfigMap cr) = (h', Some (Ok c)) ∧
    configmap_of config_key h' = Some c ∧ cm_Data c = Some {[metaStoreKey := z]} ∧
    secret_of password_key h' = secret_of password_key h.
Proof.
  intros Hz Hnone. unfold getOrCreateConfigMap. rewrite Hz. run_simpl.
  destruct (as_refs E Hserver h cr (cm_Meta (createMetaConfigMap cr z))) as [refs Hrefs].
  simpl in Hrefs. rewrite Hrefs. simpl. rewrite (as_get_config E Hserver), configmap_of_snoc.
  simpl. unfold config_step at 1. simpl. rewrite Hnone. simpl.
  match goal with |- context [E ?h' (CreateConfigMap ?c)] => set (h2 := h'); set (c0 := c) end.
  assert (configmap_of config_key h2 = None) as Hnone2 by (unfold h2; by rewrite !configmap_of_snoc).
  destruct (as_create_config E Hserver h2 c0 Hnone2) as (c & Hc & Hkey & Hdata). rewrite Hc. simpl.
  do 2 eexists. split; [done|]. split; [|split; [exact Hdata|]].
  - rewrite configmap_of_snoc. unfold config_step. simpl. by rewrite Hkey, decide_True.
  - rewrite secret_of_snoc. unfold h2. by rewrite !secret_of_snoc.
Qed.

Lemma run_getOrCreateMetaSecret h :
  secret_of password_key h = None →
  ∃ h' s password, run_from E h (getOrCreateMetaSecret cr) = (h', Some (Ok s)) ∧
    secret_of password_key h' = Some s ∧ secret_key s = password_key ∧
    sc_Data s = {[metaPasswordKey := password]} ∧
    configmap_of config_key h' = configmap_of config_key h.
Proof.
  intros Hnone. unfold getOrCreateMetaSecret. run_simpl.
  destruct (as_password E Hserver h) as [password ->]. simpl.
  match goal with |- context [E ?h' (SetControllerReference ?o ?m)] =>
    destruct (as_refs E Hserver h' o m) as [refs ->] end. simpl.
  rewrite (as_get_secret E Hserver), !secret_of_snoc. unfold secret_step. rewrite Hnone. simpl.
  match goal with |- context [E ?h' (CreateSecret ?s)] => set (h2 := h'); set (s0 := s) end.
  assert (secret_of password_key h2 = None) as Hnone2 by (unfold h2; by rewrite !secret_of_snoc).
  destruct (as_create_secret E Hserver h2 s0 Hnone2) as (s & Hs & Hkey & Hdata). rewrite Hs. simpl.
  exists (h2 ++ [Ev (Σ := k8s) (CreateSecret s0) (Ok s)]), s, password.
  split; [done|]. split; [|split; [exact Hkey|split; [exact Hdata|]]].
  - rewrite secret_of_snoc. unfold secret_step. by rewrite Hkey, decide_True.
  - rewrite configmap_of_snoc. unfold h2. by rewrite !configmap_of_snoc.
Qed.

Lemma run_createMeta h z :
  compressString "{}" = Ok z → configmap_of config_key h = None → secret_of password_key h = None →
  ∃ h' c s password, run_from E h (createMeta cr) = (h', Some (cr, Ok ())) ∧
    configmap_of config_key h' = Some c ∧ cm_Data c = Some {[metaStoreKey := z]} ∧
    secret_of password_key h' = Some s ∧ secret_key s = password_key ∧
    sc_Data s = {[metaPasswordKey := password]}.
Proof.
  intros Hz Hc Hs. destruct (run_getOrCreateConfigMap h z Hz Hc) as (h1 & c & Hrun1 & Hc1 & Hdata1 & Hs1).
  rewrite Hs in Hs1. destruct (run_getOrCreateMetaSecret h1 Hs1) as (h2 & s & password & Hrun2 & Hs2 & Hkey & Hdata2 & Hc2).
  rewrite Hc1 in Hc2. exists h2, c, s, password. split; [|done].
  unfold createMeta, createConfigMapGuard, createSecretGuard, ebind.
  rewrite run_cr_bind, (run_guard_ok _ _ h h1 cr cr c); [|by apply run_shared].
  by rewrite run_cr_bind, (run_guard_ok _ _ h1 h2 cr cr s); [|by apply run_shared].
Qed.

(** ** The server *)

Lemma run_get_store h rq c st :
  extractStorageName (rq_storageName rq) = Ok (um_Name cr, um_Namespace cr) →
  configmap_of config_key h = Some c → decode_store c = Ok st →
  ∃ h', run_from E h (serve_get rq) =
    (h', Some (named_context rq (um_Name cr) (um_Namespace cr) [ReplyJSON 200 st])).
Proof.
  intros Hname Hc Hst. rewrite (run_serve_get _ _ _ _ _ Hname).
  unfold getExternalStore, getConfigMap. run_simpl.
  rewrite (as_get_config E Hserver), Hc. simpl. rewrite Hst. by eexists.
Qed.

(** A store that comes without a version replaces the empty one. *)
Lemma run_first_store h c m st text z :
  configmap_of config_key h = Some c → cm_Data c = Some m →
  decode_store c = Ok (MkStore _ (version c) ∅) →
  json_Marshal st = Ok text → compressString text = Ok z →
  ∃ h' c', run_from E h (initOrUpdateExternalStore (um_Name cr) (um_Namespace cr) (MkStore _ "" st)) =
      (h', Some (Ok ())) ∧
    configmap_of config_key h' = Some c' ∧ cm_Data c' = Some (<[metaStoreKey := z]> m).
Proof.
  intros Hc Hm Hempty Hj Hz. unfold initOrUpdateExternalStore. cbn [Version String.length Nat.eqb Store].
  unfold initExternalStore, getExternalStore, updateExternalStore, getConfigMap. run_simpl.
  rewrite (as_get_config E Hserver), Hc. simpl. rewrite Hempty. simpl. rewrite map_size_empty. simpl.
  rewrite (as_get_config E Hserver), configmap_of_snoc. unfold config_step at 1. simpl. rewrite Hc. simpl.
  unfold version. rewrite String.eqb_refl. simpl. rewrite Hj, Hz, Hm. simpl.
  match goal with |- context [E ?h' (UpdateConfigMap ?c)] => set (h2 := h'); set (c1 := c) end.
  pose proof (configmap_of_key _ _ _ Hc) as Hkey.
  assert (configmap_of (configmap_key c1) h2 = Some c) as Hc2.
  { change (configmap_key c1) with (configmap_key c). rewrite Hkey. unfold h2. by rewrite !configmap_of_snoc. }
  destruct (as_update_config E Hserver h2 c1 c Hc2 eq_refl) as (c' & Hup & Hkey' & Hdata). rewrite Hup. simpl.
  do 2 eexists. split; [done|]. split; [|exact Hdata].
  rewrite configmap_of_snoc. unfold config_step. simpl.
  rewrite decide_True; [done|]. rewrite Hkey'. exact Hkey.
Qed.

Definition basic_auth (name password : string) : string :=
  "Basic " +:+ EncodeToString (name +:+ ":" +:+ password).

Lemma run_authorized_put h s password rq store :
  extractStorageName (rq_storageName rq) = Ok (um_Name cr, um_Namespace cr) →
  str_In ":"%char (rq_storageName rq) = false →
  rq_Authorization rq = basic_auth (rq_storageName rq) password → rq_Body rq = Ok store →
  secret_of password_key h = Some s → sc_Data s !! metaPasswordKey = Some password →
  ∃ h1, (∀ k, configmap_of k h1 = configmap_of k h) ∧
  run_from E h (serve_put rq) =
    (let '(h', r) := run_from E h1 (initOrUpdateExternalStore (um_Name cr) (um_Namespace cr) store) in
     (h', (λ r, named_context rq (um_Name cr) (um_Namespace cr) [update_reply r]) <$> r)).
Proof.
  intros Hname Hcolon Hauth Hbody Hs Hpassword.
  destruct (run_serve_put E h rq _ _ store Hname Hbody) as (h1 & Hh1 & Hrun). cbv zeta in Hrun.
  exists h1. split.
  { intros k. destruct Hh1 as [->| ->]; [done|]. by rewrite configmap_of_snoc. }
  rewrite Hrun. rewrite (as_get_secret E Hserver), Hs. unfold auth_refusal. rewrite Hauth. unfold basic_auth.
  rewrite credentials_roundtrip by done. rewrite String.eqb_refl. simpl.
  by rewrite Hpassword, String.eqb_refl.
Qed.

(** C5. A broker can keep its metadata as soon as [createMeta] has run.  Against an API
    server that has neither the ConfigMap nor the Secret of a custom resource,
    [createMeta] ends well; the password variable of the brokers' container then
    comes from a Secret that exists; a GET under the storage name in their environment
    answers 200 with an empty store; a PUT of a first store with that name and
    password as credentials answers 200 and nothing else; and the next GET answers
    200 with that store.  The names must not hold the separators of the storage name
    and of the credentials; the environment is the one the operator sets, which the
    [BrokerEnvVar] of the custom resource may override; and the server's reads show
    what was written last. *)
Theorem broker_bootstrap (h : history k8s) (init text z : string) (body : result ext_error externalStore)
    (store : gmap string JsonValue)
    (Hinit : compressString "{}" = Ok init) (Hempty : json_Unmarshal "{}" = Ok ∅)
    (Hconfig : configmap_of config_key h = None) (Hsecret : secret_of password_key h = None)
    (Hname : um_Name cr ≠ "" ∧ str_In "@"%char (um_Name cr) = false ∧ str_In ":"%char (um_Name cr) = false)
    (Hnamespace : um_Namespace cr ≠ "" ∧ str_In ":"%char (um_Namespace cr) = false)
    (Hjson : json_Marshal store = Ok text) (Hgzip : compressString text = Ok z) :
  let name := getEnvValue (broker_env cr) "UNDERMOON_STORAGE_NAME" in
  let replies run := cx_replies <$> snd (A := history k8s) run in
  let get authorization := serve_get (MkRequest name authorization body) in
  ∃ h1 s password e v1 v2,
    run_from E h (createMeta cr) = (h1, Some (cr, Ok ())) ∧
    secret_of password_key h1 = Some s ∧
    e ∈ broker_env cr ∧ e_Name e = "UNDERMOON_STORAGE_PASSWORD" ∧ from_secret e s password ∧
    let authorization := basic_auth name password in
    let put := run_from E h1 (serve_put (MkRequest name authorization (Ok (MkStore _ "" store)))) in
    replies (run_from E h1 (get authorization)) = Some [ReplyJSON 200 (MkStore _ v1 ∅)] ∧
    replies put = Some [ReplyString 200 ""] ∧
    replies (run_from E put.1 (get authorization)) = Some [ReplyJSON 200 (MkStore _ v2 store)].
Proof.
  intros name replies get. destruct Hname as (Hn1 & Hn2 & Hn3), Hnamespace as [Hns1 Hns2].
  destruct (run_createMeta h init Hinit Hconfig Hsecret)
    as (h1 & c & s & password & Hcreate & Hc & Hdata & Hs & Hkey & Hsdata).
  assert (extractStorageName name = Ok (um_Name cr, um_Namespace cr)) as Hext by by apply extractStorageName_of.
  assert (str_In ":"%char name = false) as Hcolon
    by (change name with (um_Name cr +:+ "@" +:+ um_Namespace cr); by rewrite !str_In_app, Hn3, Hns2).
  assert (decode_store c = Ok (MkStore _ (version c) ∅)) as Hdecode.
  { unfold decode_store. rewrite Hdata. simpl. rewrite lookup_singleton_eq.
    by rewrite (decompress_compress _ _ Hinit), Hempty. }
  destruct (run_authorized_put h1 s password
    (MkRequest name (basic_auth name password) (Ok (MkStore _ "" store))) (MkStore _ "" store))
    as (h2 & Hh2 & Hput); [done|done|done|done|done|by rewrite Hsdata, lookup_singleton_eq|].
  destruct (run_first_store h2 c {[metaStoreKey := init]} store text z) as (h3 & c' & Hfirst & Hc' & Hdata');
    [by rewrite Hh2|exact Hdata|done..|].
  rewrite Hfirst in Hput. simpl in Hput.
  destruct (run_get_store h1 (MkRequest name (basic_auth name password) body) c _ Hext Hc Hdecode) as [h4 Hget].
  destruct (run_get_store h3 (MkRequest name (basic_auth name password) body) c' _ Hext Hc'
    (decode_written c' _ z store text Hjson Hgzip Hdata')) as [h5 Hget'].
  exists h1, s, password. eexists _, (version c), (version c').
  split; [done|]. split; [done|]. split; [unfold broker_env; do 15 right; by left|]. split; [done|].
  injection Hkey as Hkey _. split.
  { do 2 eexists. do 2 (split; [done|]). split; [done|]. by rewrite Hsdata, lookup_singleton_eq. }
  unfold replies, get. cbv zeta. rewrite Hget, Hput. cbn [fst snd]. by rewrite Hget'.
Qed.
End bootstrap.

(** ** A concrete API server *)

Section concrete.
#[local] Existing Instance no_env.
#[local] Existing Instance stored_gzip.
#[local] Existing Instance small_json.
#[local] Existing Instance plain_gin.

Definition versioned (h : history k8s) (m : ObjectMeta) : ObjectMeta :=
  MkMeta (m_Name m) (m_Namespace m) (m_Labels m) (utoa (Z.of_nat (length h))) (m_OwnerReferences m).

Definition store_server : env k8s := λ h o,
  match o return answer o with
  | GetConfigMap k => found (configmap_of k h)
  | CreateConfigMap c => Ok (MkConfigMap (versioned h (cm_Meta c)) (cm_Data c))
  | UpdateConfigMap c => Ok (MkConfigMap (versioned h (cm_Meta c)) (cm_Data c))
  | GetSecret k => found (secret_of k h)
  | CreateSecret s => Ok (MkSecret (versioned h (sc_Meta s)) (sc_Data s))
  | SetControllerReference _ _ => Ok []
  | GeneratePassword => Ok "pass:word"
  | Now => 0
  | _ => Err (ExtOther "unavailable")
  end.

Lemma store_server_ok : api_server store_server.
Proof. split; try done; intros; by eexists. Qed.

Lemma broker_bootstrap_witness :
  ∃ h1 password v,
    run_from store_server [] (createMeta (sample_cr 2)) = (h1, Some (sample_cr 2, Ok ())) ∧
    let put := run_from store_server h1 (serve_put (MkRequest "c@ns" (basic_auth "c@ns" password)
                                                    (Ok (small_store "" "7")))) in
    cx_replies <$> put.2 = Some [ReplyString 200 ""] ∧
    cx_replies <$> (run_from store_server put.1
      (serve_get (MkRequest "c@ns" (basic_auth "c@ns" password) (Err (ExtOther "EOF"))))).2 =
    Some [ReplyJSON 200 (small_store v "7")].
Proof.
  destruct (broker_bootstrap (H3 := plain_gin_laws) (H4 := small_json_laws)
    (H5 := stored_gzip_laws) store_server store_server_ok (sample_cr 2) []
    (EncodeToString "{}") "e7" (EncodeToString "e7") (Err (ExtOther "EOF")) (Store (small_store "" "7")))
    as (h1 & s & password & e & v1 & v2 & Hrun & _ & _ & _ & _ & _ & Hput & Hget);
    try done; try (split_and!; done).
  exists h1, password, v2. split; [exact Hrun|]. split; [exact Hput|exact Hget].
Defined.
End concrete.
