(* ===== verification/Slot.v ===== *)
(** * Slots of keys (src/checker/pkg/slot.go)

    The hash tag of a key, the table driven CRC16 and the slot of a key, with the
    proof that the table is the one of the polynomial division it implements. *)
From S2P Require Import Prelude GoStr.

Definition slotNumber : Z := 16384.

Definition crc16tab : list Z := [
   0x0000; 0x1021; 0x2042; 0x3063; 0x4084; 0x50a5; 0x60c6; 0x70e7;
   0x8108; 0x9129; 0xa14a; 0xb16b; 0xc18c; 0xd1ad; 0xe1ce; 0xf1ef;
   0x1231; 0x0210; 0x3273; 0x2252; 0x52b5; 0x4294; 0x72f7; 0x62d6;
   0x9339; 0x8318; 0xb37b; 0xa35a; 0xd3bd; 0xc39c; 0xf3ff; 0xe3de;
   0x2462; 0x3443; 0x0420; 0x1401; 0x64e6; 0x74c7; 0x44a4; 0x5485;
   0xa56a; 0xb54b; 0x8528; 0x9509; 0xe5ee; 0xf5cf; 0xc5ac; 0xd58d;
   0x3653; 0x2672; 0x1611; 0x0630; 0x76d7; 0x66f6; 0x5695; 0x46b4;
   0xb75b; 0xa77a; 0x9719; 0x8738; 0xf7df; 0xe7fe; 0xd79d; 0xc7bc;
   0x48c4; 0x58e5; 0x6886; 0x78a7; 0x0840; 0x1861; 0x2802; 0x3823;
   0xc9cc; 0xd9ed; 0xe98e; 0xf9af; 0x8948; 0x9969; 0xa90a; 0xb92b;
   0x5af5; 0x4ad4; 0x7ab7; 0x6a96; 0x1a71; 0x0a50; 0x3a33; 0x2a12;
   0xdbfd; 0xcbdc; 0xfbbf; 0xeb9e; 0x9b79; 0x8b58; 0xbb3b; 0xab1a;
   0x6ca6; 0x7c87; 0x4ce4; 0x5cc5; 0x2c22; 0x3c03; 0x0c60; 0x1c41;
   0xedae; 0xfd8f; 0xcdec; 0xddcd; 0xad2a; 0xbd0b; 0x8d68; 0x9d49;
   0x7e97; 0x6eb6; 0x5ed5; 0x4ef4; 0x3e13; 0x2e32; 0x1e51; 0x0e70;
   0xff9f; 0xefbe; 0xdfdd; 0xcffc; 0xbf1b; 0xaf3a; 0x9f59; 0x8f78;
   0x9188; 0x81a9; 0xb1ca; 0xa1eb; 0xd10c; 0xc12d; 0xf14e; 0xe16f;
   0x1080; 0x00a1; 0x30c2; 0x20e3; 0x5004; 0x4025; 0x7046; 0x6067;
   0x83b9; 0x9398; 0xa3fb; 0xb3da; 0xc33d; 0xd31c; 0xe37f; 0xf35e;
   0x02b1; 0x1290; 0x22f3; 0x32d2; 0x4235; 0x5214; 0x6277; 0x7256;
   0xb5ea; 0xa5cb; 0x95a8; 0x8589; 0xf56e; 0xe54f; 0xd52c; 0xc50d;
   0x34e2; 0x24c3; 0x14a0; 0x0481; 0x7466; 0x6447; 0x5424; 0x4405;
   0xa7db; 0xb7fa; 0x8799; 0x97b8; 0xe75f; 0xf77e; 0xc71d; 0xd73c;
   0x26d3; 0x36f2; 0x0691; 0x16b0; 0x6657; 0x7676; 0x4615; 0x5634;
   0xd94c; 0xc96d; 0xf90e; 0xe92f; 0x99c8; 0x89e9; 0xb98a; 0xa9ab;
   0x5844; 0x4865; 0x7806; 0x6827; 0x18c0; 0x08e1; 0x3882; 0x28a3;
   0xcb7d; 0xdb5c; 0xeb3f; 0xfb1e; 0x8bf9; 0x9bd8; 0xabbb; 0xbb9a;
   0x4a75; 0x5a54; 0x6a37; 0x7a16; 0x0af1; 0x1ad0; 0x2ab3; 0x3a92;
   0xfd2e; 0xed0f; 0xdd6c; 0xcd4d; 0xbdaa; 0xad8b; 0x9de8; 0x8dc9;
   0x7c26; 0x6c07; 0x5c64; 0x4c45; 0x3ca2; 0x2c83; 0x1ce0; 0x0cc1;
   0xef1f; 0xff3e; 0xcf5d; 0xdf7c; 0xaf9b; 0xbfba; 0x8fd9; 0x9ff8;
   0x6e17; 0x7e36; 0x4e55; 0x5e74; 0x2e93; 0x3eb2; 0x0ed1; 0x1ef0].

(** [uint16] shift, with the high bits dropped. *)
Definition shl8 (crc : Z) : Z := Z.land (Z.shiftl crc 8) 0xffff.

(** The table is indexed by a byte, so the access is in range. *)
Definition crc_step (crc b : Z) : Z :=
  Z.lxor (shl8 crc) (nth (Z.to_nat (Z.land (Z.lxor (Z.land (Z.shiftr crc 8) 0xff) b) 0x00ff)) crc16tab 0).

Fixpoint crc16_loop (key : string) (crc : Z) : Z :=
  match key with
  | EmptyString => crc
  | String c key => crc16_loop key (crc_step crc (byte_val c))
  end.
Definition crc16sum (key : string) : Z := crc16_loop key 0.

Definition Key (key : string) : string :=
  match index_byte "{"%char key with
  | Some s =>
      let rest := str_drop (S s) key in
      match index_byte "}"%char rest with
      | Some e => if (0 <? e)%nat then str_take e rest else key
      | None => key
      end
  | None => key
  end.

Definition Slot (key : string) : Z :=
  if String.eqb key "" then 0 else (crc16sum (Key key)) mod slotNumber.

(** * Properties *)

(** ** The polynomial division

    The reference: one bit at a time, the remainder of the message polynomial by
    x^16 + x^12 + x^5 + 1. *)
Definition bit_step (r : Z) : Z :=
  let r2 := Z.land (Z.shiftl r 1) 0xffff in
  if Z.testbit r 15 then Z.lxor r2 0x1021 else r2.

Definition byte_step (crc b : Z) : Z := Nat.iter 8 bit_step (Z.lxor crc (Z.shiftl b 8)).

Fixpoint crc16_bitwise (key : string) (crc : Z) : Z :=
  match key with
  | EmptyString => crc
  | String c key => crc16_bitwise key (byte_step crc (byte_val c))
  end.

Lemma land_lxor a b m : Z.land (Z.lxor a b) m = Z.lxor (Z.land a m) (Z.land b m).
Proof.
  apply Z.bits_inj'. intros n Hn. rewrite Z.lxor_spec, !Z.land_spec, Z.lxor_spec.
  by destruct (Z.testbit a n), (Z.testbit b n), (Z.testbit m n).
Qed.

Lemma lxor_range n a b : 0 ≤ n → 0 ≤ a < 2 ^ n → 0 ≤ b < 2 ^ n → 0 ≤ Z.lxor a b < 2 ^ n.
Proof.
  intros Hn Ha Hb.
  assert (∀ z, 0 ≤ z < 2 ^ n → Z.land z (Z.ones n) = z) as Hid
    by (intros z Hz; rewrite Z.land_ones by done; by apply Z.mod_small).
  rewrite <- (Hid a Ha), <- (Hid b Hb), <- land_lxor, Z.land_ones by done.
  apply Z.mod_pos_bound. lia.
Qed.

(** A bit step is linear, so eight of them are too. *)
Lemma bit_step_lxor a b : bit_step (Z.lxor a b) = Z.lxor (bit_step a) (bit_step b).
Proof.
  unfold bit_step. rewrite Z.lxor_spec, Z.shiftl_lxor, land_lxor.
  generalize (Z.land (Z.shiftl a 1) 0xffff) as x, (Z.land (Z.shiftl b 1) 0xffff) as y. intros x y.
  destruct (Z.testbit a 15), (Z.testbit b 15); cbn [xorb];
    apply Z.bits_inj'; intros n Hn; rewrite !Z.lxor_spec;
    by destruct (Z.testbit x n), (Z.testbit y n), (Z.testbit 0x1021 n).
Qed.

Lemma iter_lxor n a b :
  Nat.iter n bit_step (Z.lxor a b) = Z.lxor (Nat.iter n bit_step a) (Nat.iter n bit_step b).
Proof.
  induction n as [|n IH]; [done|]. simpl. by rewrite IH, bit_step_lxor.
Qed.

(** On a low byte eight steps only shift; on a high byte they are the table. *)
Lemma low_byte lo : 0 ≤ lo < 256 → Nat.iter 8 bit_step lo = Z.shiftl lo 8.
Proof.
  intros Hlo.
  assert (forallb (λ i, Z.eqb (Nat.iter 8 bit_step (Z.of_nat i)) (Z.shiftl (Z.of_nat i) 8)) (seq 0 256)
          = true) as Hall by (vm_compute; reflexivity).
  rewrite forallb_forall in Hall. specialize (Hall (Z.to_nat lo)).
  rewrite Z2Nat.id in Hall by lia. apply Z.eqb_eq, Hall. apply in_seq. lia.
Qed.

Lemma high_byte hi :
  0 ≤ hi < 256 → Nat.iter 8 bit_step (Z.shiftl hi 8) = nth (Z.to_nat hi) crc16tab 0.
Proof.
  intros Hhi.
  assert (forallb (λ i, Z.eqb (Nat.iter 8 bit_step (Z.shiftl (Z.of_nat i) 8)) (nth i crc16tab 0))
            (seq 0 256) = true) as Hall by (vm_compute; reflexivity).
  rewrite forallb_forall in Hall. specialize (Hall (Z.to_nat hi)).
  rewrite Z2Nat.id in Hall by lia. apply Z.eqb_eq, Hall. apply in_seq. lia.
Qed.

(** A 16-bit value is its high byte and its low byte. *)
Lemma split16 x : 0 ≤ x < 2 ^ 16 → x = Z.lxor (Z.shiftl (Z.shiftr x 8) 8) (Z.land x 0xff).
Proof.
  intros Hx. apply Z.bits_inj'. intros n Hn. rewrite Z.lxor_spec, Z.land_spec.
  change 0xff with (Z.ones 8). rewrite Z.testbit_ones_nonneg by lia.
  destruct (Z.ltb_spec n 8) as [Hlt|Hge].
  - rewrite Z.shiftl_spec_low by lia. by destruct (Z.testbit x n).
  - rewrite Z.shiftl_spec_high, Z.shiftr_spec by lia. replace (n - 8 + 8) with n by lia.
    by destruct (Z.testbit x n).
Qed.

Lemma nth_tab_range i : 0 ≤ nth i crc16tab 0 < 2 ^ 16.
Proof.
  destruct (Nat.lt_ge_cases i 256) as [Hi|Hi].
  - assert (forallb (λ i, (0 <=? nth i crc16tab 0) && (nth i crc16tab 0 <? 2 ^ 16)) (seq 0 256) = true)
      as Hall by (vm_compute; reflexivity).
    rewrite forallb_forall in Hall. specialize (Hall i ltac:(apply in_seq; lia)). go_bools. lia.
  - rewrite nth_overflow; [lia|done].
Qed.

(** One step of the table is one byte of the division, within 16 bits. *)
Lemma crc_step_spec crc b :
  0 ≤ crc < 2 ^ 16 → 0 ≤ b < 256 →
  crc_step crc b = byte_step crc b ∧ 0 ≤ crc_step crc b < 2 ^ 16.
Proof.
  intros Hcrc Hb. set (x := Z.lxor crc (Z.shiftl b 8)).
  assert (0 ≤ x < 2 ^ 16) as Hx.
  { apply lxor_range; [lia|done|]. rewrite Z.shiftl_mul_pow2 by lia. lia. }
  assert (Z.land (Z.lxor (Z.land (Z.shiftr crc 8) 0xff) b) 0xff = Z.shiftr x 8) as Hidx.
  { change 0xff with (Z.ones 8). unfold x.
    rewrite Z.shiftr_lxor, Z.shiftr_shiftl_l, Z.shiftl_0_r by lia.
    assert (0 ≤ Z.shiftr crc 8 < 2 ^ 8) as Hs.
    { rewrite Z.shiftr_div_pow2 by lia. split; [apply Z.div_pos; lia|apply Z.div_lt_upper_bound; lia]. }
    rewrite (Z.land_ones (Z.shiftr crc 8)), (Z.mod_small (Z.shiftr crc 8)) by lia.
    rewrite Z.land_ones by lia. apply Z.mod_small, lxor_range; lia. }
  assert (shl8 crc = Z.shiftl (Z.land x 0xff) 8) as Hlow.
  { unfold shl8, x. rewrite land_lxor. change 0xff with (Z.ones 8). change 0xffff with (Z.ones 16).
    assert (Z.land (Z.shiftl b 8) (Z.ones 8) = 0) as ->.
    { rewrite Z.land_ones, Z.shiftl_mul_pow2 by lia. by rewrite Z.mod_mul by lia. }
    rewrite Z.lxor_0_r, !Z.land_ones, !Z.shiftl_mul_pow2 by lia.
    change (2 ^ 16) with (2 ^ 8 * 2 ^ 8). by rewrite Z.mul_mod_distr_r by lia. }
  assert (0 ≤ Z.shiftr x 8 < 256) as Hhi.
  { rewrite Z.shiftr_div_pow2 by lia. split; [apply Z.div_pos; lia|apply Z.div_lt_upper_bound; lia]. }
  assert (0 ≤ Z.land x 0xff < 256) as Hlo.
  { change 0xff with (Z.ones 8). rewrite Z.land_ones by lia. apply Z.mod_pos_bound. lia. }
  unfold crc_step. change 0x00ff with 0xff. rewrite Hidx, Hlow. split.
  - unfold byte_step. fold x. rewrite (split16 x Hx) at 3. rewrite iter_lxor, high_byte, low_byte by done.
    apply Z.lxor_comm.
  - apply lxor_range; [lia| |apply nth_tab_range]. rewrite Z.shiftl_mul_pow2 by lia. lia.
Qed.

Lemma crc16_loop_spec key crc :
  0 ≤ crc < 2 ^ 16 →
  crc16_loop key crc = crc16_bitwise key crc ∧ 0 ≤ crc16_loop key crc < 2 ^ 16.
Proof.
  revert crc. induction key as [|c key IH]; intros crc Hcrc; cbn [crc16_loop crc16_bitwise]; [done|].
  destruct (crc_step_spec crc (byte_val c) Hcrc (byte_val_range c)) as [<- Hr]. by apply IH.
Qed.

(** C35. The checksum: the table driven loop computes, for every key, the CRC16 of the
    polynomial x^16 + x^12 + x^5 + 1 with a zero start, as the bit by bit division
    defines it, and the result is a 16-bit number. *)
Theorem crc16sum_spec (key : string) :
  crc16sum key = crc16_bitwise key 0 ∧ 0 ≤ crc16sum key < 2 ^ 16.
Proof. by apply crc16_loop_spec. Qed.

(** ** Hash tags *)

Lemma str_drop_app_cons (a : string) c b :
  str_drop (S (String.length a)) (a +:+ String c b) = b.
Proof. induction a as [|d a IH]; [done|]. apply IH. Qed.

Lemma Key_tag a tag b :
  str_In "{"%char a = false → str_In "}"%char tag = false → tag ≠ "" →
  Key (a +:+ String "{" (tag +:+ String "}" b)) = tag.
Proof.
  intros Ha Ht Hne. unfold Key. rewrite index_byte_app by done. cbv zeta.
  rewrite str_drop_app_cons, index_byte_app by done.
  destruct (Nat.ltb_spec 0 (String.length tag)) as [_|Hl]; [apply str_take_app|].
  by destruct tag; simpl in Hl; [|lia].
Qed.

Lemma Key_plain key : str_In "{"%char key = false → Key key = key.
Proof. intros Hk%index_byte_None. unfold Key. by rewrite Hk. Qed.

Lemma Key_unclosed key : str_In "}"%char key = false → Key key = key.
Proof.
  intros Hk. unfold Key. destruct (index_byte "{"%char key) as [i|]; [|done]. cbv zeta.
  assert (index_byte "}"%char (str_drop (S i) key) = None) as ->; [|done].
  apply index_byte_None. by apply str_In_drop.
Qed.

Lemma Slot_hashtag a tag b :
  str_In "{"%char a = false → str_In "}"%char tag = false → tag ≠ "" →
  Slot (a +:+ "{" +:+ tag +:+ "}" +:+ b) = Slot tag.
Proof.
  intros Ha Htag Hne. unfold Slot.
  change ("{" +:+ tag +:+ "}" +:+ b) with (String "{" (tag +:+ String "}" b)).
  rewrite Key_tag, Key_unclosed by done.
  rewrite (proj2 (String.eqb_neq tag "")) by done. by destruct a.
Qed.

(** C36. Slots: the slot of every key is one of the 16384 slots; a key with a hash tag
    that is not empty is in the slot of its tag, whatever is around the tag, so
    keys with one tag share a slot. *)
Theorem Slot_spec (key a tag b : string)
    (Ha : str_In "{"%char a = false) (Htag : str_In "}"%char tag = false) (Hne : tag ≠ "") :
  0 ≤ Slot key < slotNumber ∧ Slot (a +:+ "{" +:+ tag +:+ "}" +:+ b) = Slot tag.
Proof.
  split.
  - unfold Slot, slotNumber. case_match; [lia|]. apply Z.mod_pos_bound. lia.
  - by apply Slot_hashtag.
Qed.

Lemma Slot_spec_witness :
  Slot "test:{abc}:1" = Slot "abc" ∧ Slot "abc" = 7638.
Proof.
  split; [|vm_compute; reflexivity].
  apply (Slot_spec "" "test:" "abc" ":1"); done.
Defined.
