(* ===== verification/RingBuf.v ===== *)
(** * The ring buffer of the monitor (src/checker/pkg/monitor.go)

    The lines of MONITOR that a client keeps: a buffer of fixed capacity with a
    start and an end index, and the proof that it is a bounded queue. *)
From S2P Require Import Prelude.

Record ringBuf := MkRing { buf : list string; cap : Z; start : Z; end_ : Z }.

(** [make] of a negative length is a panic. *)
Definition newRingBuf (cap : Z) : option ringBuf :=
  if cap <? 0 then None else Some (MkRing (replicate (Z.to_nat cap) "") cap 0 0).

Definition len (r : ringBuf) : Z :=
  if start r <=? end_ r then end_ r - start r else end_ r + cap r - start r.

(** [x % y]: a zero divisor is a panic. *)
Definition go_rem (x y : Z) : option Z := if y =? 0 then None else Some (Z.rem x y).

(** [buf[i] = item]: an index out of range is a panic. *)
Definition store_at (l : list string) (i : Z) (item : string) : option (list string) :=
  if (0 <=? i) && (i <? Z.of_nat (length l)) then Some (<[Z.to_nat i := item]> l) else None.

Definition add (r : ringBuf) (item : string) : option ringBuf :=
  start' ← (if len r + 1 =? cap r then go_rem (start r + 1) (cap r) else Some (start r));
  buf' ← store_at (buf r) (end_ r) item;
  end' ← go_rem (end_ r + 1) (cap r);
  Some (MkRing buf' (cap r) start' end').

(** [l[a:b]] for [0 <= a <= b <= len(l)]. *)
Definition slice (a b : Z) (l : list string) : list string :=
  take (Z.to_nat (b - a)) (drop (Z.to_nat a) l).

Definition data (r : ringBuf) : list string :=
  if start r <=? end_ r then slice (start r) (end_ r) (buf r)
  else slice (start r) (cap r) (buf r) ++ (if end_ r =? 0 then [] else slice 0 (end_ r) (buf r)).

Fixpoint add_all (r : ringBuf) (items : list string) : option ringBuf :=
  match items with
  | [] => Some r
  | item :: items => r' ← add r item; add_all r' items
  end.

(** * Properties *)

(** The four states of the comment in the source: both indices are in range, and
    a free place is always kept, unless the capacity is one. *)
Record ring_wf (r : ringBuf) : Prop := {
  ring_cap : 1 ≤ cap r;
  ring_buf : Z.of_nat (length (buf r)) = cap r;
  ring_start : 0 ≤ start r < cap r;
  ring_end : 0 ≤ end_ r < cap r
}.

(** The abstraction: the elements from [start], cyclically. *)
Definition ring_elem (r : ringBuf) (i : Z) : option string :=
  buf r !! Z.to_nat ((start r + i) mod cap r).

Lemma len_range r : ring_wf r → 0 ≤ len r < cap r.
Proof. intros [? ? ? ?]. unfold len. destruct (Z.leb_spec (start r) (end_ r)); lia. Qed.

Lemma len_end r : ring_wf r → end_ r = (start r + len r) mod cap r.
Proof.
  intros [? ? ? ?]. unfold len. destruct (Z.leb_spec (start r) (end_ r)).
  - rewrite Z.mod_small; lia.
  - replace (start r + (end_ r + cap r - start r)) with (end_ r + 1 * cap r) by lia.
    rewrite Z.mod_add by lia. by rewrite Z.mod_small by lia.
Qed.

Lemma slice_lookup a b l (i : nat) :
  0 ≤ a → (i < Z.to_nat (b - a))%nat → slice a b l !! i = l !! (Z.to_nat a + i)%nat.
Proof. intros Ha Hi. unfold slice. by rewrite lookup_take_lt, lookup_drop. Qed.

Lemma length_slice a b l :
  0 ≤ a ≤ b → b ≤ Z.of_nat (length l) → length (slice a b l) = Z.to_nat (b - a).
Proof. intros Ha Hb. unfold slice. rewrite length_take, length_drop. lia. Qed.

(** [data] lists the abstraction. *)
Lemma length_data r : ring_wf r → Z.of_nat (length (data r)) = len r.
Proof.
  intros [? Hb ? ?]. unfold data, len. destruct (Z.leb_spec (start r) (end_ r)).
  - rewrite length_slice by lia. lia.
  - rewrite length_app, length_slice by lia.
    destruct (Z.eqb_spec (end_ r) 0) as [->|]; [simpl; lia|]. rewrite length_slice by lia. lia.
Qed.

Lemma data_lookup r (i : nat) :
  ring_wf r → Z.of_nat i < len r → data r !! i = ring_elem r (Z.of_nat i).
Proof.
  intros [? Hb ? ?] Hi. unfold data, ring_elem, len in *.
  destruct (Z.leb_spec (start r) (end_ r)).
  - rewrite slice_lookup by lia. rewrite Z.mod_small by lia. f_equal. lia.
  - destruct (Z.lt_ge_cases (Z.of_nat i) (cap r - start r)).
    + rewrite lookup_app_l by (rewrite length_slice by lia; lia).
      rewrite slice_lookup by lia. rewrite Z.mod_small by lia. f_equal. lia.
    + rewrite lookup_app_r by (rewrite length_slice by lia; lia). rewrite length_slice by lia.
      destruct (Z.eqb_spec (end_ r) 0); [lia|]. rewrite slice_lookup by lia.
      replace (start r + Z.of_nat i) with (start r + Z.of_nat i - cap r + 1 * cap r) by lia.
      rewrite Z.mod_add by lia. rewrite Z.mod_small by lia. f_equal. lia.
Qed.

Lemma rem_next x y : 0 < y → 0 ≤ x → go_rem x y = Some (x mod y).
Proof.
  intros Hy Hx. unfold go_rem. destruct (Z.eqb_spec y 0); [lia|]. by rewrite Z.rem_mod_nonneg.
Qed.

Lemma len_unique r n :
  ring_wf r → 0 ≤ n < cap r → end_ r = (start r + n) mod cap r → len r = n.
Proof.
  intros [? ? ? ?] Hn He. unfold len. destruct (Z.lt_ge_cases (start r + n) (cap r)) as [Hlt|Hge].
  - rewrite Z.mod_small in He by lia. destruct (Z.leb_spec (start r) (end_ r)); lia.
  - replace (start r + n) with (start r + n - cap r + 1 * cap r) in He by lia.
    rewrite Z.mod_add, Z.mod_small in He by lia. destruct (Z.leb_spec (start r) (end_ r)); lia.
Qed.

(** Positions less than a capacity apart are distinct. *)
Lemma mod_distinct s i j c : 0 < c → 0 ≤ i < c → 0 ≤ j < c → i ≠ j → (s + i) mod c ≠ (s + j) mod c.
Proof.
  intros Hc Hi Hj Hij Heq.
  assert ((s + i - (s + j)) mod c = 0) as Hz
    by (rewrite Zminus_mod, Heq, Z.sub_diag; by apply Z.mod_0_l; lia).
  apply Z.mod_divide in Hz as [k Hk]; [|lia].
  assert (k = 0) by nia. nia.
Qed.

(** The new buffer, when [d] elements (none or one) are removed first. *)
Lemma data_after r r' item d :
  ring_wf r → ring_wf r' → cap r' = cap r →
  (d = 0 ∧ len r + 1 < cap r ∨ d = 1 ∧ len r + 1 = cap r) →
  start r' = (start r + d) mod cap r →
  end_ r' = (end_ r + 1) mod cap r →
  buf r' = <[Z.to_nat (end_ r) := item]> (buf r) →
  data r' = drop (Z.to_nat d) (data r ++ [item]).
Proof.
  intros Hwf Hwf' Hcap Hd Hs He Hb. pose proof (len_range r Hwf) as Hlen.
  pose proof (len_end r Hwf) as Hend. pose proof Hwf as [Hc1 Hbl Hsr Her].
  assert (len r' = len r + 1 - d) as Hlen'.
  { apply len_unique; [done|lia|]. rewrite He, Hs, Hcap, Hend.
    rewrite !Zplus_mod_idemp_l. f_equal. lia. }
  assert (Z.of_nat (length (data r)) = len r) as Hld by by apply length_data.
  apply list_eq. intros i. rewrite lookup_drop.
  destruct (Z.lt_ge_cases (Z.of_nat i) (len r')) as [Hi|Hi].
  - rewrite data_lookup by done. unfold ring_elem. rewrite Hs, Hcap, Zplus_mod_idemp_l, Hb.
    replace (start r + d + Z.of_nat i) with (start r + (d + Z.of_nat i)) by lia.
    destruct (Z.eq_dec (d + Z.of_nat i) (len r)) as [Heq|Hne].
    + rewrite Heq, <- Hend, list_lookup_insert_eq by lia.
      rewrite lookup_app_r by lia. by replace (Z.to_nat d + i - length (data r))%nat with 0%nat by lia.
    + rewrite list_lookup_insert_ne.
      * rewrite lookup_app_l by lia.
        rewrite data_lookup by (done || lia). unfold ring_elem. do 3 f_equal. lia.
      * rewrite Hend. intros Heq. apply Z2Nat.inj in Heq; [|apply Z.mod_pos_bound; lia..].
        revert Heq. apply mod_distinct; lia.
  - rewrite lookup_ge_None_2.
    + rewrite lookup_ge_None_2; [done|]. rewrite length_app. simpl. lia.
    + pose proof (length_data r' Hwf'). lia.
Qed.

(** One step of the queue: the oldest element goes when the buffer is full. *)
Lemma add_spec r item :
  ring_wf r → ∃ r', add r item = Some r' ∧ ring_wf r' ∧ cap r' = cap r ∧
    data r' = lastn (Z.to_nat (cap r - 1)) (data r ++ [item]).
Proof.
  intros Hwf. pose proof Hwf as [Hc Hb Hs He]. pose proof (len_range r Hwf) as Hlen.
  pose proof (length_data r Hwf) as Hld.
  set (d := if len r + 1 =? cap r then 1 else 0).
  set (r' := MkRing (<[Z.to_nat (end_ r) := item]> (buf r)) (cap r)
               ((start r + d) mod cap r) ((end_ r + 1) mod cap r)).
  assert (ring_wf r') as Hwf'.
  { split; simpl; [done|by rewrite length_insert|apply Z.mod_pos_bound; lia..]. }
  assert (d = 0 ∧ len r + 1 < cap r ∨ d = 1 ∧ len r + 1 = cap r) as Hd.
  { unfold d. destruct (Z.eqb_spec (len r + 1) (cap r)); lia. }
  exists r'. split; [|split; [done|split; [done|]]].
  - unfold add, store_at. rewrite (rem_next (end_ r + 1)) by lia.
    rewrite (proj2 (Z.leb_le 0 (end_ r))) by lia. rewrite Hb, (proj2 (Z.ltb_lt (end_ r) (cap r))) by lia.
    unfold r', d. destruct (Z.eqb_spec (len r + 1) (cap r)).
    + by rewrite rem_next by lia.
    + simpl. rewrite Z.add_0_r, (Z.mod_small (start r)) by lia. done.
  - rewrite (data_after r r' item d) by done. unfold lastn. f_equal. rewrite length_app. simpl.
    destruct Hd as [[-> ?]|[-> ?]]; lia.
Qed.

Lemma lastn_lastn_app {A} n (l : list A) x : lastn n (lastn n l ++ [x]) = lastn n (l ++ [x]).
Proof.
  unfold lastn. rewrite !length_app, length_drop. simpl.
  destruct (Nat.le_gt_cases (length l) n) as [Hl|Hl].
  - replace (length l - n)%nat with 0%nat by lia. rewrite drop_0. f_equal. lia.
  - rewrite <- drop_app_le, drop_drop by lia. f_equal. lia.
Qed.

(** C31. The monitor's buffer is a bounded queue: from a new buffer of any capacity of
    at least one, adding any lines never panics, and the data is the last
    capacity minus one of them, in order; the length is their number. *)
Theorem ringBuf_bounded_queue (capacity : Z) (items : list string) (Hcap : 1 ≤ capacity) :
  ∃ r, newRingBuf capacity ≫= (λ r0, add_all r0 items) = Some r ∧
    data r = lastn (Z.to_nat (capacity - 1)) items ∧
    len r = Z.min (capacity - 1) (Z.of_nat (length items)).
Proof.
  assert (∀ items r sofar, ring_wf r → cap r = capacity →
    data r = lastn (Z.to_nat (capacity - 1)) sofar →
    ∃ r', add_all r items = Some r' ∧ ring_wf r' ∧
      data r' = lastn (Z.to_nat (capacity - 1)) (sofar ++ items)) as Hgen.
  { clear items. induction items as [|item items IH]; intros r sofar Hwf Hc Hd; cbn [add_all].
    - exists r. by rewrite app_nil_r.
    - destruct (add_spec r item Hwf) as (r1 & Hadd & Hwf1 & Hc1 & Hd1). rewrite Hadd. cbn.
      destruct (IH r1 (sofar ++ [item])) as (r' & Hrun & Hwf' & Hd'); [done|by rewrite Hc1| |].
      + rewrite Hd1, Hd, Hc. apply lastn_lastn_app.
      + exists r'. by rewrite <- app_assoc in Hd'. }
  unfold newRingBuf. rewrite (proj2 (Z.ltb_ge _ _)) by lia. cbn.
  destruct (Hgen items (MkRing (replicate (Z.to_nat capacity) "") capacity 0 0) []) as (r & Hrun & Hwf & Hd).
  - split; simpl; [done|rewrite length_replicate; lia|lia..].
  - done.
  - unfold data. simpl. unfold slice. by rewrite take_0.
  - exists r. split; [done|]. split; [done|]. rewrite <- (length_data r Hwf), Hd, length_lastn.
    simpl. lia.
Qed.

Lemma ringBuf_bounded_queue_witness :
  ∃ r, newRingBuf 4 ≫= (λ r0, add_all r0 ["1"; "2"; "3"; "4"; "5"]) = Some r ∧ data r = ["3"; "4"; "5"].
Proof.
  destruct (ringBuf_bounded_queue 4 ["1"; "2"; "3"; "4"; "5"] ltac:(lia)) as (r & Hr & Hd & _).
  exists r. split; [exact Hr|exact Hd].
Defined.
