(* ===== verification/Monitor.v ===== *)
(** * The recorder of MONITOR (src/checker/pkg/monitor.go)

    A client per node connects, asks for MONITOR and keeps the last lines in its ring
    buffer, again and again; at the end the buffers are dumped to files.  The lock
    makes each addition and the reading of the data one step. *)
From S2P Require Import Prelude Prog GoStr RingBuf.

(** ** The network and the files *)

Inductive mon_op :=
| Dial (address : string)
| WriteString (s : string)
| Flush
| ReadString
| Close
| MonDone
| Sleep (seconds : Z)
| WriteFile (name content : string).

(** Errors are their texts. *)
Definition mon_ans (o : mon_op) : Type :=
  match o with
  | Dial _ | WriteString _ | Flush | WriteFile _ _ => option string
  | ReadString => result string string
  | Close | Sleep _ => unit
  | MonDone => bool
  end.

Definition monitor : sig := Sig mon_op mon_ans.
Abbreviation mon := (prog monitor).
Abbreviation mcall o := (call (Σ := monitor) o).

(** ** One client *)

Definition crlf : string := String "013"%char (String "010"%char "").
Definition monitorCmd : string := "*1" +:+ crlf +:+ "$7" +:+ crlf +:+ "MONITOR" +:+ crlf.
Definition okResLen : nat := String.length ("+OK" +:+ crlf).

Record monitorClient := MkMonitor { mon_addr : string; mon_buf : ringBuf }.
Definition newMonitorClient (addr : string) (bufCap : Z) : option monitorClient :=
  MkMonitor addr <$> newRingBuf bufCap.
Definition set_buf (b : ringBuf) (c : monitorClient) : monitorClient := MkMonitor (mon_addr c) b.

(** How a function that reads lines was left: with an error, or not yet. *)
Inductive progress := Running | Stopped (err : string).

(** The reading of lines, for at most [fuel] of them.  The [break] on a cancelled context leaves
    the [select] only, so the answer of [MonDone] changes nothing. *)
Fixpoint read_loop (fuel : nat) (c : monitorClient) : mon (monitorClient * progress) :=
  match fuel with
  | O => mret (c, Running)
  | S fuel =>
      _ ← mcall MonDone;
      r ← mcall ReadString;
      match r with
      | Err e => mret (c, Stopped e)
      | Ok line =>
          match add (mon_buf c) line with
          | None => Crash
          | Some b => read_loop fuel (set_buf b c)
          end
      end
  end.

(** [runMonitor] between the dial and the deferred close. *)
Definition monitor_conn (fuel : nat) (c : monitorClient) : mon (monitorClient * progress) :=
  e ← mcall (WriteString monitorCmd);
  match e with
  | Some e => mret (c, Stopped e)
  | None =>
      e ← mcall Flush;
      match e with
      | Some e => mret (c, Stopped e)
      | None =>
          r ← mcall ReadString;
          match r with
          | Err e => mret (c, Stopped e)
          | Ok line =>
              if negb (String.length line =? okResLen)%nat
              then mret (c, Stopped ("invalid MONITOR response: " +:+ line))
              else read_loop fuel c
          end
      end
  end.

Definition runMonitor (fuel : nat) (c : monitorClient) : mon (monitorClient * progress) :=
  e ← mcall (Dial (mon_addr c));
  match e with
  | Some e => mret (c, Stopped e)
  | None =>
      '(c, p) ← monitor_conn fuel c;
      match p with
      | Running => mret (c, Running)
      | Stopped e => _ ← mcall Close; mret (c, Stopped e)
      end
  end.

(** [run], for at most [rounds] connections. *)
Fixpoint client_run (rounds fuel : nat) (c : monitorClient) : mon (monitorClient * progress) :=
  match rounds with
  | O => mret (c, Running)
  | S rounds =>
      cancelled ← mcall MonDone;
      if cancelled : bool then mret (c, Stopped "exit error")
      else
      '(c, p) ← runMonitor fuel c;
      match p with
      | Running => mret (c, Running)
      | Stopped _ => _ ← mcall (Sleep 1); client_run rounds fuel c
      end
  end.

Definition getData (c : monitorClient) : list string := data (mon_buf c).

(** ** The manager *)

Definition newMonitorManager (addresses : list string) (bufCap : Z) : option (list monitorClient) :=
  mapM (λ addr, newMonitorClient addr bufCap) addresses.

Definition dump_name (c : monitorClient) : string := "monitor-" +:+ mon_addr c.
Definition dump_content (c : monitorClient) : string := String.concat "" (getData c).

Fixpoint dump (clients : list monitorClient) : mon (option string) :=
  match clients with
  | [] => mret None
  | c :: clients =>
      err ← mcall (WriteFile (dump_name c) (dump_content c));
      match err with Some e => mret (Some e) | None => dump clients end
  end.

(** * Properties *)

(** The lines of a history: what a connection reads after its greeting. *)
Record reading := MkReading { streaming : bool; lines : list string }.

Definition reading_step (s : reading) (e : event monitor) : reading :=
  match e with
  | Ev o x =>
      match o return mon_ans o → reading with
      | Dial _ => λ _, MkReading false (lines s)
      | ReadString => λ r,
          match r with
          | Ok line => if streaming s then MkReading true (lines s ++ [line])
                       else MkReading true (lines s)
          | Err _ => s
          end
      | _ => λ _, s
      end x
  end.
Definition read_lines (h : history monitor) : reading := foldl reading_step (MkReading false []) h.

Lemma read_lines_snoc h e : read_lines (h ++ [e]) = reading_step (read_lines h) e.
Proof. unfold read_lines. by rewrite foldl_app. Qed.

Definition mon_safe : contract monitor :=
  Contract (λ _ _ _, True) (λ _ _, True) False.

(** The buffer holds the last lines of the history. *)
Record holds (addr : string) (capacity : Z) (c : monitorClient) (h : history monitor) : Prop := {
  holds_wf : ring_wf (mon_buf c);
  holds_addr : mon_addr c = addr;
  holds_cap : cap (mon_buf c) = capacity;
  holds_data : getData c = lastn (Z.to_nat (capacity - 1)) (lines (read_lines h))
}.

Lemma holds_step addr capacity c h o x :
  holds addr capacity c h → lines (reading_step (read_lines h) (Ev o x)) = lines (read_lines h) →
  holds addr capacity c (h ++ [Ev o x]).
Proof. intros [Hwf Ha Hc Hd] Hl. split; [done|done|done|]. by rewrite read_lines_snoc, Hl. Qed.

Section recording.
Context (addr : string) (capacity : Z).
Abbreviation post := (λ h (r : monitorClient * progress), holds addr capacity r.1 h).

Lemma wp_read_loop fuel c h :
  holds addr capacity c h → streaming (read_lines h) = true → wp mon_safe (read_loop fuel c) post h.
Proof.
  revert c h. induction fuel as [|fuel IH]; intros c h Hh Hs; cbn [read_loop]; [by apply wp_ret|].
  apply wp_bind. split; [done|]. intros cancelled _. apply wp_ret, wp_bind. split; [done|].
  assert (holds addr capacity c (h ++ [Ev (Σ := monitor) MonDone cancelled])) as Hh1 by by apply holds_step.
  assert (streaming (read_lines (h ++ [Ev (Σ := monitor) MonDone cancelled])) = true) as Hs1
    by by rewrite read_lines_snoc.
  revert Hh1 Hs1. generalize (h ++ [Ev (Σ := monitor) MonDone cancelled]). clear h Hh Hs.
  intros h Hh Hs [line|e] _; apply wp_ret; [|by apply wp_ret, holds_step].
  pose proof Hh as [Hwf Ha Hc Hd]. destruct (add_spec (mon_buf c) line Hwf) as (b & Hadd & Hwf' & Hc' & Hd').
  rewrite Hadd. apply IH.
  - split; [done|done|by rewrite <- Hc|]. unfold getData in *. cbn [mon_buf set_buf].
    rewrite Hd', Hd, Hc, lastn_lastn_app, read_lines_snoc. cbn. by rewrite Hs.
  - rewrite read_lines_snoc. cbn. by rewrite Hs.
Qed.

Lemma wp_monitor_conn fuel c h :
  holds addr capacity c h → streaming (read_lines h) = false → wp mon_safe (monitor_conn fuel c) post h.
Proof.
  intros Hh Hs. apply wp_bind. split; [done|]. intros e1 _. apply wp_ret.
  apply (holds_step _ _ _ _ (WriteString monitorCmd) e1) in Hh; [|done].
  destruct e1 as [e|]; [by apply wp_ret|].
  apply wp_bind. split; [done|]. intros e2 _. apply wp_ret.
  apply (holds_step _ _ _ _ Flush e2) in Hh; [|done]. destruct e2 as [e|]; [by apply wp_ret|].
  apply wp_bind. split; [done|]. intros [line|e] _; apply wp_ret; [|by apply wp_ret, holds_step].
  apply (holds_step _ _ _ _ ReadString (Ok line)) in Hh.
  - destruct (negb _); [by apply wp_ret|]. apply wp_read_loop; [done|].
    rewrite !read_lines_snoc. cbn. by rewrite Hs.
  - rewrite !read_lines_snoc. cbn. by rewrite Hs.
Qed.

Lemma wp_runMonitor fuel c h : holds addr capacity c h → wp mon_safe (runMonitor fuel c) post h.
Proof.
  intros Hh. apply wp_bind. split; [done|]. intros e _. apply wp_ret.
  apply (holds_step _ _ _ _ (Dial (mon_addr c)) e) in Hh; [|done].
  destruct e as [e|]; [by apply wp_ret|].
  apply wp_bind. eapply wp_mono; [apply wp_monitor_conn; [done|by rewrite read_lines_snoc]|].
  intros h' [c' [|e]] Hh'; [by apply wp_ret|].
  apply wp_bind. split; [done|]. intros u _. by apply wp_ret, wp_ret, holds_step.
Qed.

Lemma wp_client_run rounds fuel c h : holds addr capacity c h → wp mon_safe (client_run rounds fuel c) post h.
Proof.
  revert c h. induction rounds as [|rounds IH]; intros c h Hh; cbn [client_run]; [by apply wp_ret|].
  apply wp_bind. split; [done|]. intros cancelled _. apply wp_ret.
  apply (holds_step _ _ _ _ MonDone cancelled) in Hh; [|done]. destruct cancelled; [by apply wp_ret|].
  apply wp_bind. eapply wp_mono; [by apply wp_runMonitor|].
  intros h' [c' [|e]] Hh'; [by apply wp_ret|].
  apply wp_bind. split; [done|]. intros u _. by apply wp_ret, IH, holds_step.
Qed.
End recording.

(** C32. The recorder keeps the last lines: with a buffer of capacity at least one, over
    any number of connections that fail anywhere, the client never panics, and its
    buffer holds the last capacity minus one of the lines that were read after the
    greetings of the connections, in order. *)
Theorem monitor_records (E : env monitor) (addr : string) (capacity : Z) (rounds fuel : nat)
    (Hcap : 1 ≤ capacity) :
  ∃ c0, newMonitorClient addr capacity = Some c0 ∧
  ∃ h c p, run E (client_run rounds fuel c0) = (h, Some (c, p)) ∧
    mon_addr c = addr ∧ getData c = lastn (Z.to_nat (capacity - 1)) (lines (read_lines h)).
Proof.
  exists (MkMonitor addr (MkRing (replicate (Z.to_nat capacity) "") capacity 0 0)).
  split; [unfold newMonitorClient, newRingBuf; by rewrite (proj2 (Z.ltb_ge _ _)) by lia|].
  match goal with |- context [client_run _ _ ?c0] => assert (holds addr capacity c0 []) as Hinit end.
  { split.
    - split; simpl; [done|rewrite length_replicate; lia|lia..].
    - done.
    - done.
    - unfold getData, data. simpl. unfold slice. by rewrite take_0. }
  pose proof (wp_client_run addr capacity rounds fuel _ _ Hinit) as Hwp.
  apply (wp_sound _ E) in Hwp as [_ Hpost]; [|done]. unfold run.
  destruct (run_from E [] _) as [h [[c p]|]]; [|done]. exists h, c, p.
  split; [done|]. split; apply Hpost.
Qed.

(** A node that accepts one connection, greets, sends three lines and hangs up. *)
Definition three_lines : env monitor := λ h o,
  match o return mon_ans o with
  | Dial _ => if (length h =? 1)%nat then None else Some "refused"
  | WriteString _ | Flush | WriteFile _ _ => None
  | ReadString =>
      match length h with
      | 4%nat => Ok ("+OK" +:+ crlf)
      | 6%nat => Ok "a"
      | 8%nat => Ok "b"
      | 10%nat => Ok "c"
      | _ => Err "EOF"
      end
  | Close | Sleep _ => ()
  | MonDone => false
  end.

Definition fresh_client : monitorClient := MkMonitor "n:6379" (MkRing ["" ; ""; ""] 3 0 0).

Lemma monitor_records_witness :
  ∃ h c p, run three_lines (client_run 3 10 fresh_client) = (h, Some (c, p)) ∧
    lines (read_lines h) = ["a"; "b"; "c"] ∧ getData c = ["b"; "c"].
Proof.
  destruct (monitor_records three_lines "n:6379" 3 3 10 ltac:(lia)) as (c0 & Hc0 & h & c & p & Hrun & _ & Hd).
  assert (c0 = fresh_client) as -> by (injection Hc0 as <-; reflexivity).
  exists h, c, p. split; [exact Hrun|].
  assert (lines (read_lines h) = ["a"; "b"; "c"]) as Hl.
  { replace h with (run three_lines (client_run 3 10 fresh_client)).1
      by (by rewrite Hrun). vm_compute. reflexivity. }
  split; [exact Hl|]. rewrite Hd, Hl. reflexivity.
Defined.

(** C33. A cancelled context does not stop the recorder: as long as lines arrive, the
    loop reads on although every look at the context finds it cancelled. *)
Theorem cancel_ignored (E : env monitor) (fuel : nat) (c : monitorClient) (h : history monitor)
    (Hwf : ring_wf (mon_buf c))
    (Hdone : ∀ h, E h MonDone = true) (Hlines : ∀ h, ∃ line, E h ReadString = Ok line) :
  ∃ h' c', run_from E h (read_loop fuel c) = (h', Some (c', Running)) ∧
    length h' = (length h + 2 * fuel)%nat.
Proof.
  revert c h Hwf. induction fuel as [|fuel IH]; intros c h Hwf; cbn [read_loop].
  - exists h, c. split; [done|lia].
  - unfold mbind, prog_bind, call. simpl. set (h1 := h ++ _). destruct (Hlines h1) as [line Hline].
    rewrite Hline. destruct (add_spec (mon_buf c) line Hwf) as (b & -> & Hwf' & _).
    destruct (IH (set_buf b c) (h1 ++ [Ev (Σ := monitor) ReadString (Ok line)])) as (h' & c' & Hrun & Hlen);
      [done|].
    exists h', c'. split; [exact Hrun|]. rewrite Hlen. unfold h1. rewrite !length_app. simpl. lia.
Qed.

Definition endless : env monitor := λ _ o,
  match o return mon_ans o with
  | Dial _ | WriteString _ | Flush | WriteFile _ _ => None
  | ReadString => Ok "line"
  | Close | Sleep _ => ()
  | MonDone => true
  end.

Lemma cancel_ignored_witness : ∃ h' c',
  run_from endless [] (read_loop 100 fresh_client) = (h', Some (c', Running)) ∧
  length h' = 200%nat.
Proof.
  apply (cancel_ignored endless 100 fresh_client []).
  - split; simpl; lia.
  - done.
  - intros h. by exists "line".
Defined.

(** The dump: it writes one file for each client, named after its address, with the
    lines of its buffer one after the other, in order, up to the first file that
    cannot be written; it succeeds when all were written. *)
Theorem dump_spec (E : env monitor) (clients : list monitorClient) (h : history monitor) :
  ∃ n err, run_from E h (dump clients) =
    ((run_from E h (dump clients)).1, Some err) ∧
    calls (run_from E h (dump clients)).1 =
      calls h ++ ((λ c, WriteFile (dump_name c) (dump_content c)) <$> take n clients) ∧
    match err with
    | None => n = length clients
    | Some e => ∃ h0 c, clients !! pred n = Some c ∧ (0 < n)%nat ∧
        (run_from E h (dump clients)).1 =
          h0 ++ [Ev (Σ := monitor) (WriteFile (dump_name c) (dump_content c)) (Some e)]
    end.
Proof.
  revert h. induction clients as [|c clients IH]; intros h; cbn [dump].
  - exists 0%nat, None. split; [done|]. split; [by rewrite app_nil_r|done].
  - unfold mbind, prog_bind, call. simpl.
    destruct (E h _) as [e|] eqn:He; simpl.
    + exists 1%nat, (Some e). split; [done|]. split; [|exists h, c; split; [done|split; [lia|done]]].
      unfold calls. by rewrite fmap_app.
    + destruct (IH (h ++ [Ev (Σ := monitor) (WriteFile (dump_name c) (dump_content c)) None]))
        as (n & err & Hrun & Hcalls & Herr).
      exists (S n), err. split; [exact Hrun|]. split.
      * rewrite Hcalls. unfold calls. rewrite fmap_app, <- app_assoc. done.
      * destruct err as [e|]; [|by rewrite Herr]. destruct Herr as (h0 & c0 & Hc0 & Hn & Hlast).
        exists h0, c0. split; [|split; [lia|done]]. destruct n; [lia|done].
Qed.
