(* ===== verification/ClusterClient.v ===== *)
(** * The cluster client of the checker (src/checker/pkg/client.go)

    A Redis client that follows MOVED redirections from a startup node.  The
    signature of the checker is here: commands sent to an address, and the random
    choices, clocks and limits that the key-value checker uses. *)
From S2P Require Import Prelude Prog GoStr.

(** ** Redis as go-redis shows it *)

(** The [interface{}] of a reply. *)
Inductive rvalue :=
| RNil
| RStr (s : string)
| RInt (n : Z)
| RList (vs : list rvalue).

(** [redis.Nil]; an error with its text; and the errors the checker makes: a
    redirection chain that is too long, with what it lists, and the two kinds of
    answer the key-value checker refuses. *)
Inductive cerror :=
| redis_Nil
| CErr (msg : string)
| CExceeded (triedAddresses : list string) (innerInfos : list rvalue)
| CLength (keys values : Z)
| CInconsistent (key got expected : string)
| CExit.

(** [err.Error()] of the errors that a command can return. *)
Definition Error_text (e : cerror) : string :=
  match e with
  | redis_Nil => "redis: nil"
  | CErr msg => msg
  | CExceeded _ _ => "exceed max redirection times"
  | CLength _ _ => "invalid values len"
  | CInconsistent _ _ _ => "INCONSISTENT"
  | CExit => "exit error"
  end.

Inductive command :=
| CmdGet (key : string)
| CmdSet (key value : string)
| CmdDel (keys : list string)
| CmdMGet (keys : list string)
| CmdMSet (values : list string)
| CmdEval (script : string) (keys args : list string)
| CmdUmctlInfo.

(** ** The signature of the checker *)

(** [CtxDone] is whether the context is cancelled; [MapOrder m] is the order in which
    a [range] visits the keys of a map. *)
Inductive checker_op :=
| Send (address : string) (cmd : command)
| CtxDone
| WaitN (n : Z)
| RandInt
| NormSlot
| UnixNano
| UUID
| MapOrder (m : gmap string string).

Definition checker_ans (o : checker_op) : Type :=
  match o with
  | Send _ _ => result cerror rvalue
  | CtxDone => bool
  | WaitN _ => option cerror
  | RandInt => { n : Z | 0 ≤ n }
  | NormSlot | UnixNano => Z
  | UUID => string
  | MapOrder m => { l : list string | l ≡ₚ (map_to_list m).*1 }
  end.

Definition checker : sig := Sig checker_op checker_ans.
Abbreviation chk := (prog checker).
Abbreviation csend a c := (call (Σ := checker) (Send a c)).

(** ** The client *)

(** A client of go-redis is bound to the address it was made for. *)
Record redis_client := MkClient { client_Addr : string }.
Abbreviation client_pool := (gmap string redis_client).

Record CheckerClusterClient := MkClusterClient { startupNode : string; debug : bool }.

Definition luaMSetScript : string := raw "for i, k in pairs(KEYS) do
  redis.call('SET', k, ARGV[i])
end
return `OK`".
Definition luaMGetScript : string := "local values = {}
for i, k in pairs(KEYS) do
  values[i] = redis.call('GET', k)
end
return values".

Definition getOrCreateClient (pool : client_pool) (address : string) : redis_client * client_pool :=
  match pool !! address with
  | Some c => (c, pool)
  | None => let c := MkClient address in (c, <[address := c]> pool)
  end.

(** The error is returned as it is when it is no MOVED reply. *)
Definition parseMoved (err : cerror) : result cerror string :=
  let e := Error_text err in
  if negb (contains "MOVED" e) then Err err
  else match split_byte " "%char e with
       | [_; _; address] => Ok address
       | _ => Err (CErr ("invalid MOVED response: " +:+ e))
       end.

Definition sendUmctlInfo (c : redis_client) : chk (result cerror rvalue) :=
  csend (client_Addr c) CmdUmctlInfo.

(** The value or error, with the address, that [Exec] returns. *)
Abbreviation exec_result := (result cerror rvalue * string)%type.

(** The loop of [Exec] with [n] attempts left after this one; [first] is [i = 0]. *)
Fixpoint exec_loop (client : CheckerClusterClient) (cmd : command) (n : nat) (first : bool)
    (pool : client_pool) (c : redis_client) (address : string)
    (triedAddresses : list string) (innerInfos : list rvalue) : chk (client_pool * exec_result) :=
  r ← csend (client_Addr c) cmd;
  match r with
  | Ok v => mret (pool, (Ok v, address))
  | Err err =>
      match parseMoved err with
      | Err err' => mret (pool, (Err err', ""))
      | Ok address' =>
          infos ← (if debug client && negb first then
                     info ← sendUmctlInfo c;
                     mret match info with
                          | Ok umctlInfo => Ok (innerInfos ++ [umctlInfo])
                          | Err e => Err e
                          end
                   else mret (Ok innerInfos));
          match infos with
          | Err e => mret (pool, (Err e, address'))
          | Ok innerInfos' =>
              match n with
              | O => mret (pool, (Err (CExceeded triedAddresses innerInfos'), address'))
              | S n =>
                  let '(c', pool') := getOrCreateClient pool address' in
                  exec_loop client cmd n false pool' c' address'
                    (triedAddresses ++ [address']) innerInfos'
              end
          end
      end
  end.

Definition maxRetryTimes : nat := 5.

Definition Exec (client : CheckerClusterClient) (pool : client_pool) (cmd : command)
    : chk (client_pool * exec_result) :=
  let address := startupNode client in
  let '(c, pool') := getOrCreateClient pool address in
  exec_loop client cmd (pred maxRetryTimes) true pool' c address [address] [].

(** ** Commands *)

(** [v.(string)]: another type is a panic. *)
Definition as_string (v : rvalue) : chk string :=
  match v with RStr s => mret s | _ => Crash end.

Fixpoint as_values (vals : list rvalue) : chk (list (option string)) :=
  match vals with
  | [] => mret []
  | RNil :: vals => values ← as_values vals; mret (None :: values)
  | v :: vals => s ← as_string v; values ← as_values vals; mret (Some s :: values)
  end.

Section commands.
Context (client : CheckerClusterClient) (pool : client_pool).

Definition Get (key : string) : chk (client_pool * (result cerror (option string) * string)) :=
  '(pool', (r, address)) ← Exec client pool (CmdGet key);
  match r with
  | Err redis_Nil => mret (pool', (Ok None, address))
  | Err e => mret (pool', (Err e, address))
  | Ok v => s ← as_string v; mret (pool', (Ok (Some s), address))
  end.

(** SET, DEL, MSET and the script that sets only return the error. *)
Definition exec_only (cmd : command) : chk (client_pool * (option cerror * string)) :=
  '(pool', (r, address)) ← Exec client pool cmd;
  mret (pool', (match r with Ok _ => None | Err e => Some e end, address)).

Definition client_Set (key value : string) := exec_only (CmdSet key value).
Definition client_Del (keys : list string) := exec_only (CmdDel keys).
Definition client_MSet (values : list string) := exec_only (CmdMSet values).
Definition luaMSet (keys values : list string) := exec_only (CmdEval luaMSetScript keys values).

(** The reply is a list; another type is a panic. *)
Definition exec_values (cmd : command)
    : chk (client_pool * (result cerror (list (option string)) * string)) :=
  '(pool', (r, address)) ← Exec client pool cmd;
  match r with
  | Err e => mret (pool', (Err e, address))
  | Ok (RList vals) => values ← as_values vals; mret (pool', (Ok values, address))
  | Ok _ => Crash
  end.

Definition MGet (keys : list string) := exec_values (CmdMGet keys).
Definition LuaMGet (keys : list string) := exec_values (CmdEval luaMGetScript keys []).
End commands.

(** * Properties *)

Definition client_pool_wf (pool : client_pool) : Prop :=
  map_Forall (λ address c, client_Addr c = address) pool.

Lemma getOrCreateClient_spec pool address c pool' :
  client_pool_wf pool → getOrCreateClient pool address = (c, pool') →
  client_pool_wf pool' ∧ client_Addr c = address.
Proof.
  unfold getOrCreateClient. intros Hwf Hg. destruct (pool !! address) eqn:Hl; simplify_eq.
  - split; [done|]. by apply (Hwf address).
  - split; [by apply map_Forall_insert_2|done].
Qed.

(** C30. MOVED replies: an error is a redirection to an address exactly when its text
    mentions MOVED and is three words, the last one the address; a text that mentions
    MOVED and is not three words is reported as invalid; every other error is returned
    as it is. *)
Theorem parseMoved_spec (err : cerror) :
  let text := Error_text err in
  let three address := ∃ w1 w2, text = join_byte " "%char [w1; w2; address] ∧
    Forall (λ w, str_In " "%char w = false) [w1; w2; address] in
  (∀ address, parseMoved err = Ok address ↔ contains "MOVED" text = true ∧ three address) ∧
  (∀ e, parseMoved err = Err e ↔
     if contains "MOVED" text
     then e = CErr ("invalid MOVED response: " +:+ text) ∧ ∀ address, ¬ three address
     else e = err).
Proof.
  cbn zeta. unfold parseMoved. set (text := Error_text err).
  destruct (contains "MOVED" text); cbn [negb].
  2: { split; [intros address; split; [done|by intros [? _]]|]. intros e. split; congruence. }
  pose proof (split_byte_join " "%char text) as (Hj & Hf & _).
  assert (∀ address, (∃ w1 w2, text = join_byte " "%char [w1; w2; address] ∧
    Forall (λ w, str_In " "%char w = false) [w1; w2; address]) ↔
    ∃ w1 w2, split_byte " "%char text = [w1; w2; address]) as Hthree.
  { intros address. split; intros (w1 & w2 & H).
    - destruct H as [-> Hw]. exists w1, w2. by apply split_byte_of_join.
    - exists w1, w2. rewrite <- H. by rewrite Hj. }
  setoid_rewrite Hthree. clear Hthree Hj Hf.
  destruct (split_byte " "%char text) as [|w1 [|w2 [|a [|]]]]; (split; [intros address|intros e]);
    naive_solver congruence.
Qed.

Section redirections.
Context (E : env checker) (client : CheckerClusterClient) (cmd : command).

Abbreviation answered a x := (Ev (Σ := checker) (Send a cmd) x).

(** The ways a command can go from the address [a], with [n] redirections left. *)
Inductive redirects : nat → list string → history checker → string →
    history checker → exec_result → Prop :=
| red_ok n tried h a v :
    E h (Send a cmd) = Ok v → redirects n tried h a (h ++ [answered a (Ok v)]) (Ok v, a)
| red_error n tried h a e e' :
    E h (Send a cmd) = Err e → parseMoved e = Err e' →
    redirects n tried h a (h ++ [answered a (Err e)]) (Err e', "")
| red_exceeded tried h a e a' :
    E h (Send a cmd) = Err e → parseMoved e = Ok a' →
    redirects O tried h a (h ++ [answered a (Err e)]) (Err (CExceeded tried []), a')
| red_moved n tried h a e a' h' r :
    E h (Send a cmd) = Err e → parseMoved e = Ok a' →
    redirects n (tried ++ [a']) (h ++ [answered a (Err e)]) a' h' r →
    redirects (S n) tried h a h' r.

Lemma redirects_sends n tried h a h' r :
  redirects n tried h a h' r → (length h' ≤ length h + S n)%nat.
Proof. induction 1; rewrite ?length_app in *; simpl in *; lia. Qed.

Lemma run_exec_loop n first pool c a tried h :
  debug client = false → client_pool_wf pool → client_Addr c = a →
  ∃ h' pool' r, run_from E h (exec_loop client cmd n first pool c a tried []) = (h', Some (pool', r)) ∧
    client_pool_wf pool' ∧ redirects n tried h a h' r.
Proof.
  intros Hdebug. revert first pool c a tried h.
  induction n as [|n IH]; intros first pool c a tried h Hwf Hc; cbn [exec_loop];
    rewrite run_bind; simpl; rewrite Hc, Hdebug;
    destruct (E h (Send a cmd)) as [v|e] eqn:Hx; simpl;
    try (do 3 eexists; split; [done|]; split; [done|]; by constructor);
    destruct (parseMoved e) as [a'|e'] eqn:Hm; simpl;
    try (do 3 eexists; split; [done|]; split; [done|]; by econstructor).
  destruct (getOrCreateClient pool a') as [c' pool'] eqn:Hg.
  destruct (getOrCreateClient_spec _ _ _ _ Hwf Hg) as [Hwf' Hc'].
  destruct (IH false pool' c' a' (tried ++ [a']) (h ++ [answered a (Err e)]) Hwf' Hc')
    as (h' & pool'' & r & Hrun & Hwf'' & Hred).
  exists h', pool'', r. split; [done|]. split; [done|]. by econstructor.
Qed.

(** C14. Redirections: in any environment a command is sent to the startup node first
    and then wherever MOVED replies point, at most five times in all; the run
    ends with the first answer that is no error, at the address that gave it; or
    with the first error that is no MOVED reply; or, after the fifth MOVED reply,
    with the error that lists the addresses tried. *)
Theorem Exec_spec (h : history checker) (pool : client_pool)
    (Hdebug : debug client = false) (Hpool : client_pool_wf pool) :
  ∃ h' pool' r, run_from E h (Exec client pool cmd) = (h', Some (pool', r)) ∧
    client_pool_wf pool' ∧
    redirects 4 [startupNode client] h (startupNode client) h' r ∧
    (length h' ≤ length h + maxRetryTimes)%nat.
Proof.
  unfold Exec. destruct (getOrCreateClient pool (startupNode client)) as [c pool1] eqn:Hg.
  destruct (getOrCreateClient_spec _ _ _ _ Hpool Hg) as [Hwf Hc].
  destruct (run_exec_loop 4 true pool1 c (startupNode client) [startupNode client] h Hdebug Hwf Hc)
    as (h' & pool' & r & Hrun & Hwf' & Hred).
  exists h', pool', r. split; [done|]. split; [done|]. split; [done|].
  by apply redirects_sends in Hred.
Qed.
End redirections.

(** Two nodes that redirect to each other. *)
Definition ping_pong : env checker := λ _ o,
  match o with
  | Send a _ => Err (CErr (if String.eqb a "a" then "MOVED 1 b" else "MOVED 1 a"))
  | CtxDone => false
  | WaitN _ => None
  | RandInt => 0 ↾ Z.le_refl 0
  | NormSlot | UnixNano => 0
  | UUID => ""
  | MapOrder m => (map_to_list m).*1 ↾ Permutation_refl _
  end.

Lemma Exec_spec_witness :
  ∃ h' pool' r, run_from ping_pong [] (Exec (MkClusterClient "a" false) ∅ (CmdGet "k")) =
                  (h', Some (pool', r)) ∧ (length h' ≤ 5)%nat.
Proof.
  destruct (Exec_spec ping_pong (MkClusterClient "a" false) (CmdGet "k") [] ∅ eq_refl
    (map_Forall_empty _)) as (h' & pool' & r & Hrun & _ & _ & Hlen).
  exists h', pool', r. split; [exact Hrun|exact Hlen].
Defined.

Example ping_pong_run :
  (λ p, p.2) <$> (run ping_pong (Exec (MkClusterClient "a" false) ∅ (CmdGet "k"))).2 =
    Some (Err (CExceeded ["a"; "b"; "a"; "b"; "a"] []), "b").
Proof. vm_compute. reflexivity. Qed.
