(* ===== verification/KvChecker.v ===== *)
(** * The key-value checker (src/checker/pkg/kv.go, src/checker/pkg/utils.go)

    The checker writes and reads random keys through the cluster client and
    compares what it reads with what it remembers.  The rate limiter, the random
    numbers, the clock, the identifiers and the order of map iteration are
    operations of the signature of ClusterClient.v. *)
From S2P Require Import Prelude Prog GoStr Slot ClusterClient.

Abbreviation kvs := (gmap string string).

(** ** Tags (utils.go) *)

Abbreviation ccall o := (call (Σ := checker) o).

(** [s[:6]]: a shorter string is a panic. *)
Definition tag_of (uuid : string) : option string :=
  if (6 <=? String.length uuid)%nat then Some (str_take 6 uuid) else None.

(** One turn of the loop of [newSlotTags]. *)
Definition slot_tags_step (tags : list string) (n : Z) (tag : string) : list string * Z :=
  let slot := Slot tag in
  match tags !! Z.to_nat slot with
  | Some EmptyString => (<[Z.to_nat slot := tag]> tags, n + 1)
  | _ => (tags, n)
  end.

(** The loop, with at most [fuel] identifiers drawn; it ends when no slot is left. *)
Fixpoint slot_tags_loop (fuel : nat) (tags : list string) (n : Z) : chk (option (list string)) :=
  if n =? slotNumber then mret (Some tags)
  else match fuel with
  | O => mret None
  | S fuel =>
      uuid ← ccall UUID;
      match tag_of uuid with
      | None => Crash
      | Some tag => let '(tags', n') := slot_tags_step tags n tag in slot_tags_loop fuel tags' n'
      end
  end.

Definition newSlotTags (fuel : nat) : chk (option (list string)) :=
  slot_tags_loop fuel (replicate (Z.to_nat slotNumber) "") 0.

Definition getTag (tags : list string) (slot : Z) : string := default "" (tags !! Z.to_nat slot).

(** The number that the normal distribution gives, before it is clamped. *)
Definition chooseSlotFromNormDist : chk Z :=
  slot ← ccall NormSlot;
  mret (if slot <? 0 then 0 else if slotNumber <=? slot then slotNumber - 1 else slot).

Definition map_order (m : kvs) : chk (list string) :=
  o ← ccall (MapOrder m); mret (`o).

(** A remainder by zero is a panic. *)
Definition randomGetKey (m : kvs) : chk (string * string) :=
  r ← ccall RandInt;
  if (size m =? 0)%nat then Crash
  else
  order ← map_order m;
  match order !! Z.to_nat (`r mod Z.of_nat (size m)) with
  | Some k => mret (k, default "" (m !! k))
  | None => Crash
  end.

Definition nil2Empty (v : option string) : string := default "" v.
Definition getKeys (m : kvs) : chk (list string) :=
  if (size m =? 0)%nat then mret [] else map_order m.

(** ** The checker (kv.go) *)

Definition maxKeysNum : Z := slotNumber * 8.

(** [keys] has a map per slot; the pool is the one of the cluster client. *)
Record kvChecker := MkChecker {
  ck_id : Z;
  ck_pool : client_pool;
  ck_keys : list kvs;
  ck_luaKeys : list string;
  ck_luaValue : string
}.

Definition set_pool (pool : client_pool) (ck : kvChecker) : kvChecker :=
  MkChecker (ck_id ck) pool (ck_keys ck) (ck_luaKeys ck) (ck_luaValue ck).
Definition set_keys (keys : list kvs) (ck : kvChecker) : kvChecker :=
  MkChecker (ck_id ck) (ck_pool ck) keys (ck_luaKeys ck) (ck_luaValue ck).
Definition set_lua (v : string) (ck : kvChecker) : kvChecker :=
  MkChecker (ck_id ck) (ck_pool ck) (ck_keys ck) (ck_luaKeys ck) v.

(** [ck.keys[slot][k] = v], the slot in range. *)
Definition remember (slot : Z) (k v : string) (ck : kvChecker) : kvChecker :=
  set_keys (alter (λ m, <[k := v]> m) (Z.to_nat slot) (ck_keys ck)) ck.
Definition slot_map (ck : kvChecker) (slot : Z) : kvs := default ∅ (ck_keys ck !! Z.to_nat slot).

Definition genKey (t ckID slot keyID : Z) (tag : string) : string :=
  "test:" +:+ itoa t +:+ ":" +:+ itoa ckID +:+ ":" +:+ itoa slot +:+ ":{" +:+ tag +:+ "}:" +:+ itoa keyID.

(** [now] is the clock when the key is made; [Second()] of it. *)
Definition genLuaKey (t ckID keyID now : Z) : string :=
  "test:" +:+ itoa t +:+ ":lua:" +:+ itoa ckID +:+ ":{tag}:" +:+ itoa keyID +:+ ":"
    +:+ itoa ((now / 1000000000) mod 60).

Definition genNewValue (key : string) : chk string :=
  t ← ccall UnixNano; mret (key +:+ ":" +:+ itoa t).

Definition new_keys (t id : Z) (tags : list string) : list kvs :=
  foldl (λ keys i, let s := i mod slotNumber in
           alter (λ m, <[genKey t id s i (getTag tags s) := ""]> m) (Z.to_nat s) keys)
    (replicate (Z.to_nat slotNumber) ∅) (seqZ 0 maxKeysNum).

Fixpoint new_lua_keys (t id : Z) (ids : list Z) : chk (list string) :=
  match ids with
  | [] => mret []
  | i :: ids => now ← ccall UnixNano; ks ← new_lua_keys t id ids; mret (genLuaKey t id i now :: ks)
  end.

Definition newKVChecker (id : Z) (pool : client_pool) (tags : list string) : chk kvChecker :=
  t ← ccall UnixNano;
  luaKeys ← new_lua_keys t id (seqZ 0 10);
  mret (MkChecker id pool (new_keys t id tags) luaKeys "").

Definition randomChooseKeysInSameSlot (ck : kvChecker) (n : nat) : chk (Z * kvs) :=
  slot ← chooseSlotFromNormDist;
  order ← map_order (slot_map ck slot);
  mret (slot, list_to_map ((λ k, (k, default "" (slot_map ck slot !! k))) <$> take n order)).

Fixpoint randomChooseKeys (ck : kvChecker) (n : nat) (keys : kvs) : chk kvs :=
  match n with
  | O => mret keys
  | S n =>
      slot ← chooseSlotFromNormDist;
      '(k, v) ← randomGetKey (slot_map ck slot);
      randomChooseKeys ck n (<[k := v]> keys)
  end.

(** ** The checks: the checker afterwards, and the error *)

Section checks.
Context (client : CheckerClusterClient).

Abbreviation check := (kvChecker → chk (kvChecker * option cerror)).

(** [if err := ck.rl.WaitN(ctx, n); err != nil { return err }] *)
Definition waitN (n : Z) (k : check) : check := λ ck,
  e ← ccall (WaitN n);
  match e with Some e => mret (ck, Some e) | None => k ck end.

Fixpoint set_loop (keys : list string) : check := λ ck,
  match keys with
  | [] => mret (ck, None)
  | k :: keys =>
      v ← genNewValue k;
      '(pool, (err, _)) ← client_Set client (ck_pool ck) k v;
      let ck := set_pool pool ck in
      match err with
      | Some e => mret (ck, Some e)
      | None => set_loop keys (remember (Slot k) k v ck)
      end
  end.

Definition checkSet : check := waitN 10 (λ ck,
  chosen ← randomChooseKeys ck 10 ∅;
  order ← map_order chosen;
  set_loop order ck).

Fixpoint new_values (keys : list string) : chk (list (string * string)) :=
  match keys with
  | [] => mret []
  | k :: keys => v ← genNewValue k; rest ← new_values keys; mret ((k, v) :: rest)
  end.

Definition checkMSet : check := waitN 10 (λ ck,
  '(slot, chosen) ← randomChooseKeysInSameSlot ck 10;
  order ← map_order chosen;
  pairs ← new_values order;
  let args := concat ((λ '(k, v), [k; v]) <$> pairs) in
  '(pool, (err, _)) ← client_MSet client (ck_pool ck) args;
  let ck := set_pool pool ck in
  match err with
  | Some e => mret (ck, Some e)
  | None => mret (foldl (λ ck '(k, v), remember slot k v ck) ck pairs, None)
  end).

Fixpoint get_loop (chosen : kvs) (keys : list string) : check := λ ck,
  match keys with
  | [] => mret (ck, None)
  | key :: keys =>
      let value := default "" (chosen !! key) in
      '(pool, (r, address)) ← Get client (ck_pool ck) key;
      let ck := set_pool pool ck in
      match r with
      | Err e => mret (ck, Some e)
      | Ok v =>
          let s := nil2Empty v in
          if negb (String.eqb s value) then mret (ck, Some (CInconsistent key s value))
          else get_loop chosen keys ck
      end
  end.

Definition checkGet : check := waitN 10 (λ ck,
  chosen ← randomChooseKeys ck 10 ∅;
  order ← map_order chosen;
  get_loop chosen order ck).

(** Every difference is logged, the last one is returned; [values[i]] beyond the
    end is a panic. *)
Fixpoint compare_loop (keys : list string) (values : list (option string))
    (expected : string → string) (err : option cerror) : chk (option cerror) :=
  match keys with
  | [] => mret err
  | k :: keys =>
      match values with
      | [] => Crash
      | v :: values =>
          let s := nil2Empty v in
          compare_loop keys values expected
            (if String.eqb s (expected k) then err else Some (CInconsistent k s (expected k)))
      end
  end.

Definition checkMGet : check := λ ck,
  '(_, chosen) ← randomChooseKeysInSameSlot ck 10;
  if (size chosen =? 0)%nat then mret (ck, None)
  else waitN 10 (λ ck,
    keys ← getKeys chosen;
    '(pool, (r, _)) ← MGet client (ck_pool ck) keys;
    let ck := set_pool pool ck in
    match r with
    | Err e => mret (ck, Some e)
    | Ok values =>
        if negb (length keys =? length values)%nat then
          mret (ck, Some (CLength (Z.of_nat (length keys)) (Z.of_nat (length values))))
        else
        err ← compare_loop keys values (λ k, default "" (chosen !! k)) None;
        mret (ck, err)
    end) ck.

Definition checkDel : check := λ ck,
  '(slot, chosen) ← randomChooseKeysInSameSlot ck 10;
  if (size chosen =? 0)%nat then mret (ck, None)
  else waitN 10 (λ ck,
    keys ← getKeys chosen;
    '(pool, (err, _)) ← client_Del client (ck_pool ck) keys;
    let ck := set_pool pool ck in
    match err with
    | Some e => mret (ck, Some e)
    | None => mret (foldl (λ ck k, remember slot k "" ck) ck keys, None)
    end) ck.

Definition checkLuaMSet : check := λ ck,
  let keys := ck_luaKeys ck in
  waitN (Z.of_nat (length keys)) (λ ck,
    now ← ccall UnixNano;
    uuid ← ccall UUID;
    let value := itoa (now mod 1000000000) +:+ ":" +:+ uuid in
    '(pool, (err, _)) ← luaMSet client (ck_pool ck) keys (replicate (length keys) value);
    let ck := set_pool pool ck in
    match err with
    | Some e => mret (ck, Some e)
    | None => mret (set_lua value ck, None)
    end) ck.

Definition checkLuaMGet : check := λ ck,
  let keys := ck_luaKeys ck in
  waitN (Z.of_nat (length keys)) (λ ck,
    '(pool, (r, _)) ← LuaMGet client (ck_pool ck) keys;
    let ck := set_pool pool ck in
    match r with
    | Err e => mret (ck, Some e)
    | Ok values =>
        err ← compare_loop keys values (λ _, ck_luaValue ck) None;
        mret (ck, err)
    end) ck.

Definition checkKeyValue : check := λ ck,
  r ← ccall RandInt;
  match `r mod 7 with
  | 0 => checkSet ck
  | 1 => checkMSet ck
  | 2 => checkLuaMSet ck
  | 3 => checkGet ck
  | 4 => checkMGet ck
  | 5 => checkLuaMGet ck
  | 6 => checkDel ck
  | _ => mret (ck, None)
  end.

(** The loop of [loopCheck], for at most [fuel] turns: in the code it is left only with
    an error. *)
Fixpoint loopCheck (fuel : nat) : check := λ ck,
  match fuel with
  | O => mret (ck, None)
  | S fuel =>
      done ← ccall CtxDone;
      if done : bool then mret (ck, Some CExit) else
      '(ck', err) ← checkKeyValue ck;
      match err with
      | Some e => mret (ck', Some e)
      | None => loopCheck fuel ck'
      end
  end.
End checks.

(** ** The service *)

(** A goroutine of [RunKvCheckerService]: a client of its own and a checker. *)
Definition checker_goroutine (startupNode : string) (fuel : nat) (tags : list string) (id : Z)
    : chk (option cerror) :=
  let client := MkClusterClient startupNode false in
  ck ← newKVChecker id ∅ tags;
  '(_, err) ← loopCheck client fuel ck;
  mret err.

Definition checkerNum : Z := 3.

(** The goroutines of the group, over the same tags. *)
Definition checker_goroutines (startupNode : string) (fuel : nat) (tags : list string)
    : list (chk (option cerror)) :=
  checker_goroutine startupNode fuel tags <$> seqZ 0 checkerNum.
