(* ===== verification/KvKeys.v ===== *)
(** * The keys of the checkers and a cluster that stores them

    Who owns a key, what the commands of KvChecker.v do to the store of a cluster, and
    how little of the store the answer to a command depends on. *)
From S2P Require Import Prelude Prog GoStr Slot ClusterClient KvChecker.

(** ** A cluster that keeps what it accepted *)

Fixpoint mset (values : list string) (st : kvs) : kvs :=
  match values with
  | k :: v :: values => mset values (<[k := v]> st)
  | _ => st
  end.

Definition apply_command (cmd : command) (st : kvs) : kvs :=
  match cmd with
  | CmdSet k v => <[k := v]> st
  | CmdDel ks => foldl (λ st k, delete k st) st ks
  | CmdMSet values => mset values st
  | CmdEval script ks args =>
      if String.eqb script luaMSetScript
      then foldl (λ st '(k, v), <[k := v]> st) st (zip ks args) else st
  | _ => st
  end.

Definition value_of (st : kvs) (k : string) : rvalue :=
  match st !! k with Some s => RStr s | None => RNil end.

(** What a command may answer in the state [st]. *)
Definition reply_ok (cmd : command) (st : kvs) (r : result cerror rvalue) : Prop :=
  match r with
  | Ok v =>
      match cmd with
      | CmdGet k => ∃ s, v = RStr s ∧ st !! k = Some s
      | CmdMGet ks => v = RList (value_of st <$> ks)
      | CmdEval script ks _ => script = luaMGetScript → v = RList (value_of st <$> ks)
      | _ => True
      end
  | Err e =>
      (e = redis_Nil ∨ ∃ msg, e = CErr msg) ∧
      (∀ k, cmd = CmdGet k → e = redis_Nil → st !! k = None)
  end.

(** ** Keys *)

Lemma Slot_range k : 0 ≤ Slot k < slotNumber.
Proof. unfold Slot, slotNumber. case_match; [lia|]. apply Z.mod_pos_bound. lia. Qed.

(** Every slot has a tag of its own, with no braces in it. *)
Definition tags_ok (tags : list string) : Prop :=
  ∀ s, 0 ≤ s < slotNumber →
    Slot (getTag tags s) = s ∧ getTag tags s ≠ "" ∧
    str_In "{"%char (getTag tags s) = false ∧ str_In "}"%char (getTag tags s) = false.

Lemma Slot_genKey t id slot i tag :
  tag ≠ "" → str_In "{"%char tag = false → str_In "}"%char tag = false →
  Slot (genKey t id slot i tag) = Slot tag.
Proof.
  intros Hne Ho Hc.
  replace (genKey t id slot i tag) with
    (("test:" +:+ itoa t +:+ ":" +:+ itoa id +:+ ":" +:+ itoa slot +:+ ":") +:+ "{" +:+ tag +:+ "}"
       +:+ (":" +:+ itoa i)) by (unfold genKey; by rewrite !str_app_assoc).
  apply Slot_hashtag; [|done..].
  assert (∀ z, str_In "{"%char (itoa z) = false) as Hz
    by (intros z; apply itoa_not_In; right; by vm_compute).
  by rewrite !str_In_app, !Hz.
Qed.

Lemma itoa_no_colon z : str_In ":"%char (itoa z) = false.
Proof. apply itoa_not_In. right. by vm_compute. Qed.

(** The keys of the script are no keys of a slot. *)
Lemma genLuaKey_distinct t id i now t' id' s j tag : genLuaKey t id i now ≠ genKey t' id' s j tag.
Proof.
  unfold genLuaKey, genKey. intros Heq. apply str_app_inj_l in Heq.
  apply separated_inj in Heq as [_ Heq]; [|apply itoa_no_colon..].
  destruct (itoa_head id') as (c & r & Hc & Hle). rewrite Hc in Heq.
  injection Heq as Hl _. subst c. by vm_compute in Hle.
Qed.

(** *** Who owns a key *)

(** The keys that a checker with the number [id] makes, whenever it makes them. *)
Definition owned (id : Z) (k : string) : Prop :=
  (∃ t slot i tag, k = genKey t id slot i tag) ∨ (∃ t i now, k = genLuaKey t id i now).

Lemma owned_inj id id' k : owned id k → owned id' k → id = id'.
Proof.
  intros [(t & s & i & tag & ->)|(t & i & now & ->)] [(t' & s' & i' & tag' & Heq)|(t' & i' & now' & Heq)].
  - unfold genKey in Heq. apply str_app_inj_l in Heq.
    apply separated_inj in Heq as [_ Heq]; [|apply itoa_no_colon..].
    apply separated_inj in Heq as [Heq _]; [|apply itoa_no_colon..]. by apply itoa_inj.
  - symmetry in Heq. by apply genLuaKey_distinct in Heq.
  - by apply genLuaKey_distinct in Heq.
  - unfold genLuaKey in Heq. apply str_app_inj_l in Heq.
    apply separated_inj in Heq as [_ Heq]; [|apply itoa_no_colon..].
    apply (str_app_inj_l "lua:") in Heq.
    apply separated_inj in Heq as [Heq _]; [|apply itoa_no_colon..]. by apply itoa_inj.
Qed.

(** The keys of the script are in one slot. *)
Lemma Slot_genLuaKey t id i now : Slot (genLuaKey t id i now) = Slot "tag".
Proof.
  replace (genLuaKey t id i now) with
    (("test:" +:+ itoa t +:+ ":lua:" +:+ itoa id +:+ ":") +:+ "{" +:+ "tag" +:+ "}"
       +:+ (":" +:+ itoa i +:+ ":" +:+ itoa ((now / 1000000000) mod 60)))
    by (unfold genLuaKey; by rewrite !str_app_assoc).
  apply Slot_hashtag; [|done..].
  assert (∀ z, str_In "{"%char (itoa z) = false) as Hz
    by (intros z; apply itoa_not_In; right; by vm_compute).
  by rewrite !str_In_app, !Hz.
Qed.

(** *** The keys of a command *)

Fixpoint mset_keys (values : list string) : list string :=
  match values with
  | k :: _ :: values => k :: mset_keys values
  | _ => []
  end.

Definition cmd_keys (cmd : command) : list string :=
  match cmd with
  | CmdGet k | CmdSet k _ => [k]
  | CmdDel ks | CmdMGet ks | CmdEval _ ks _ => ks
  | CmdMSet values => mset_keys values
  | CmdUmctlInfo => []
  end.

(** What a checker may send: its own keys, all of one slot. *)
Record cmd_ok (id : Z) (cmd : command) : Prop := {
  cmd_owned k : k ∈ cmd_keys cmd → owned id k;
  cmd_slot k k' : k ∈ cmd_keys cmd → k' ∈ cmd_keys cmd → Slot k = Slot k'
}.

Lemma foldl_inserts_lookup (kvl : list (string * string)) (st st' : kvs) k :
  st !! k = st' !! k →
  foldl (λ st '(k, v), <[k := v]> st) st kvl !! k = foldl (λ st '(k, v), <[k := v]> st) st' kvl !! k.
Proof.
  revert st st'. induction kvl as [|[k0 v] kvl IH]; intros st st' Hk; [done|].
  cbn. apply IH. destruct (decide (k0 = k)) as [->|Hne].
  - by rewrite !lookup_insert_eq.
  - by rewrite !lookup_insert_ne.
Qed.

Lemma foldl_inserts_other (kvl : list (string * string)) (st : kvs) k :
  k ∉ kvl.*1 → foldl (λ st '(k, v), <[k := v]> st) st kvl !! k = st !! k.
Proof.
  revert st. induction kvl as [|[k0 v] kvl IH]; intros st Hk; [done|].
  cbn in *. apply not_elem_of_cons in Hk as [Hne Hk]. rewrite IH by done. by rewrite lookup_insert_ne.
Qed.

Lemma foldl_deletes_lookup (ks : list string) (st st' : kvs) k :
  st !! k = st' !! k →
  foldl (λ st k, delete k st) st ks !! k = foldl (λ st k, delete k st) st' ks !! k.
Proof.
  revert st st'. induction ks as [|k0 ks IH]; intros st st' Hk; [done|].
  cbn. apply IH. destruct (decide (k0 = k)) as [->|Hne].
  - by rewrite !lookup_delete_eq.
  - by rewrite !lookup_delete_ne.
Qed.

Lemma foldl_deletes_other (ks : list string) (st : kvs) k :
  k ∉ ks → foldl (λ st k, delete k st) st ks !! k = st !! k.
Proof.
  revert st. induction ks as [|k0 ks IH]; intros st Hk; [done|].
  cbn in *. apply not_elem_of_cons in Hk as [Hne Hk]. rewrite IH by done. by rewrite lookup_delete_ne.
Qed.

(** The list of a command that sets pairs. *)
Fixpoint mset_list (values : list string) : list (string * string) :=
  match values with
  | k :: v :: values => (k, v) :: mset_list values
  | _ => []
  end.

Lemma mset_foldl n values st :
  (length values < n)%nat →
  mset values st = foldl (λ st '(k, v), <[k := v]> st) st (mset_list values) ∧
  mset_keys values = (mset_list values).*1.
Proof.
  revert values st. induction n as [|n IH]; intros [|k [|v values]] st Hn; try done; simpl in *; [lia|].
  destruct (IH values (<[k := v]> st)) as [-> Hk]; [lia|]. by rewrite Hk.
Qed.

Lemma zip_keys (ks args : list string) k : k ∈ (zip ks args).*1 → k ∈ ks.
Proof.
  revert args. induction ks as [|k0 ks IH]; intros [|a args]; cbn; try by intros ?%elem_of_nil.
  intros [->|Hk]%elem_of_cons; [by left|right; eauto].
Qed.

(** A command acts on its own keys, one by one. *)
Lemma apply_command_lookup cmd st st' k :
  st !! k = st' !! k → apply_command cmd st !! k = apply_command cmd st' !! k.
Proof.
  intros Hk. destruct cmd as [k0|k0 v|ks|ks|values|script ks args|]; simpl; try done.
  - destruct (decide (k0 = k)) as [->|Hne]; [by rewrite !lookup_insert_eq|by rewrite !lookup_insert_ne].
  - by apply foldl_deletes_lookup.
  - rewrite !(proj1 (mset_foldl _ _ _ (Nat.lt_succ_diag_r _))). by apply foldl_inserts_lookup.
  - destruct (String.eqb _ _); [by apply foldl_inserts_lookup|done].
Qed.

Lemma apply_command_other cmd st k :
  k ∉ cmd_keys cmd → apply_command cmd st !! k = st !! k.
Proof.
  destruct cmd as [k0|k0 v|ks|ks|values|script ks args|]; simpl; try done; intros Hk.
  - apply not_elem_of_cons in Hk as [Hne _]. by rewrite lookup_insert_ne.
  - by apply foldl_deletes_other.
  - destruct (mset_foldl _ values st (Nat.lt_succ_diag_r _)) as [-> Heq]. rewrite Heq in Hk.
    by apply foldl_inserts_other.
  - destruct (String.eqb _ _); [|done]. apply foldl_inserts_other. by intros ?%zip_keys.
Qed.

(** An answer depends on the values of the keys of the command. *)
Lemma reply_ok_lookup cmd st st' r :
  (∀ k, k ∈ cmd_keys cmd → st !! k = st' !! k) → reply_ok cmd st r → reply_ok cmd st' r.
Proof.
  intros Hk. assert (∀ ks : list string, (∀ k, k ∈ ks → st !! k = st' !! k) → value_of st <$> ks = value_of st' <$> ks)
    as Hmap.
  { intros ks Hks. apply list_fmap_ext. intros i k Hin%list_elem_of_lookup_2. unfold value_of.
    by rewrite Hks. }
  destruct r as [v|e].
  2: { intros [He Hn]. split; [done|]. intros k -> ->. rewrite <- Hk by by left. by apply Hn. }
  destruct cmd as [k0|k0 v0|ks|ks|values|script ks args|]; simpl in *; try done.
  - intros (s & -> & Hs). exists s. split; [done|]. rewrite <- Hk; [done|by left].
  - by rewrite (Hmap ks).
  - intros Hv Hs. rewrite <- (Hmap ks) by done. by apply Hv.
Qed.
