(* ===== verification/KvSound.v ===== *)
(** * The key-value checker raises no false alarm

    Against a cluster that keeps what it accepted, the checker of KvChecker.v never
    reports an inconsistency and never panics, whatever keys, numbers and orders
    are drawn and however often the cluster redirects. *)
From S2P Require Import Prelude Prog GoStr Slot ClusterClient KvChecker KvKeys.

Section cluster.
Context (store0 : kvs).

(** The state after a history: the accepted commands, in order. *)
Definition store_step (st : kvs) (e : event checker) : kvs :=
  match e with
  | Ev (Send _ cmd) (Ok _) => apply_command cmd st
  | _ => st
  end.
Definition store (h : history checker) : kvs := foldl store_step store0 h.

(** The cluster answers commands from its store; the limiter's error has a text;
    everything else may be anything.  The checker [id] sends commands on its own
    keys, each command on keys of one slot, and does not panic. *)
Definition cluster (id : Z) : contract checker := Contract
  (λ (h : history checker) (o : checker_op), match o return checker_ans o → Prop with
          | Send _ cmd => reply_ok cmd (store h)
          | WaitN _ => λ x, ∀ e, x = Some e → ∃ msg, e = CErr msg
          | _ => λ _, True
          end)
  (λ (_ : history checker) (o : checker_op),
     match o with Send _ cmd => cmd_ok id cmd | _ => True end) False.

Lemma store_snoc h e : store (h ++ [e]) = store_step (store h) e.
Proof. unfold store. by rewrite foldl_app. Qed.

End cluster.

Definition alarm (e : cerror) : Prop :=
  match e with CLength _ _ | CInconsistent _ _ _ => True | _ => False end.

Section sound.
Context (client : CheckerClusterClient) (store0 : kvs) (id : Z) (Hdebug : debug client = false).
Abbreviation store := (store store0).
Abbreviation kwp := (wp (cluster store0 id)).

(** ** What the checker remembers *)

Definition tracked (ck : kvChecker) (s : nat) (k v : string) : Prop :=
  ∃ m, ck_keys ck !! s = Some m ∧ m !! k = Some v.

Record agree (ck : kvChecker) (st : kvs) : Prop := {
  ag_len : length (ck_keys ck) = Z.to_nat slotNumber;
  ag_nonempty s m : ck_keys ck !! s = Some m → m ≠ ∅;
  ag_slot s k v : tracked ck s k v → Slot k = Z.of_nat s;
  ag_value s k v : tracked ck s k v → default "" (st !! k) = v;
  ag_owned s k v : tracked ck s k v → owned id k;
  ag_lua k : k ∈ ck_luaKeys ck → default "" (st !! k) = ck_luaValue ck;
  ag_lua_key k : k ∈ ck_luaKeys ck → ∃ t i now, k = genLuaKey t id i now;
  ag_disjoint s k v : k ∈ ck_luaKeys ck → ¬ tracked ck s k v
}.

Lemma tracked_remember ck slot k v s k' v' :
  tracked (remember slot k v ck) s k' v' →
  (s = Z.to_nat slot ∧ k' = k ∧ v' = v) ∨
  ((s ≠ Z.to_nat slot ∨ k' ≠ k) ∧ tracked ck s k' v').
Proof.
  intros (m & Hm & Hk). unfold remember in Hm. cbn in Hm.
  destruct (decide (s = Z.to_nat slot)) as [->|Hs].
  - rewrite list_lookup_alter_eq in Hm. destruct (ck_keys ck !! _) as [m0|] eqn:H0; simplify_eq/=.
    apply lookup_insert_Some in Hk as [[<- <-]|[Hne Hk]]; [by left|].
    right. split; [by right|]. by exists m0.
  - rewrite list_lookup_alter_ne in Hm by done. right. split; [by left|]. by exists m.
Qed.

Lemma remember_tracked ck slot k v s k' v' :
  tracked ck s k' v' → ∃ v'', tracked (remember slot k v ck) s k' v''.
Proof.
  intros (m & Hm & Hk). unfold tracked, remember. cbn.
  destruct (decide (s = Z.to_nat slot)) as [->|Hs].
  - setoid_rewrite list_lookup_alter_eq. rewrite Hm. cbn. destruct (decide (k = k')) as [->|Hne].
    + exists v, (<[k' := v]> m). by rewrite lookup_insert_eq.
    + exists v', (<[k := v]> m). by rewrite lookup_insert_ne.
  - setoid_rewrite list_lookup_alter_ne; [|done]. by exists v', m.
Qed.

(** Writing one tracked key, in the store and in the memory. *)
Lemma agree_update ck st st' slot k v0 v :
  agree ck st → tracked ck (Z.to_nat slot) k v0 →
  default "" (st' !! k) = v → (∀ k', k' ≠ k → st' !! k' = st !! k') →
  agree (remember slot k v ck) st'.
Proof.
  intros Hag Ht Hk Hother. pose proof (ag_slot _ _ Hag _ _ _ Ht) as Hslot. split.
  - cbn. rewrite length_alter. apply Hag.
  - intros s m Hm. cbn in Hm. destruct (decide (s = Z.to_nat slot)) as [->|Hs].
    + rewrite list_lookup_alter_eq in Hm. destruct (ck_keys ck !! _); simplify_eq/=. apply insert_non_empty.
    + rewrite list_lookup_alter_ne in Hm by done. by eapply (ag_nonempty _ _ Hag).
  - intros s k' v' [(-> & -> & ->)|[_ Ht']]%tracked_remember; [done|]. by apply (ag_slot _ _ Hag _ _ _ Ht').
  - intros s k' v' [(-> & -> & ->)|[Hne Ht']]%tracked_remember; [done|].
    rewrite Hother; [by apply (ag_value _ _ Hag _ _ _ Ht')|].
    intros ->. pose proof (ag_slot _ _ Hag _ _ _ Ht'). destruct Hne; [|done]. lia.
  - intros s k' v' [(-> & -> & ->)|[_ Ht']]%tracked_remember.
    + by apply (ag_owned _ _ Hag _ _ _ Ht).
    + by apply (ag_owned _ _ Hag _ _ _ Ht').
  - intros k' Hk'. cbn in *. rewrite Hother; [by apply (ag_lua _ _ Hag)|].
    intros ->. by apply (ag_disjoint _ _ Hag _ _ _ Hk' Ht).
  - intros k' Hk'. cbn in Hk'. by apply (ag_lua_key _ _ Hag).
  - intros s k' v' Hk' [(-> & -> & ->)|[_ Ht']]%tracked_remember.
    + by apply (ag_disjoint _ _ Hag _ _ _ Hk' Ht).
    + by apply (ag_disjoint _ _ Hag _ _ _ Hk' Ht').
Qed.

Lemma agree_pool ck st pool : agree ck st → agree (set_pool pool ck) st.
Proof. intros []. by split. Qed.

(** ** Drawing keys *)

Lemma wp_map_order m (Q : history checker → list string → Prop) h :
  (∀ h' l, store h' = store h → l ≡ₚ (map_to_list m).*1 → Q h' l) →
  kwp (map_order m) Q h.
Proof.
  intros HQ. unfold map_order. apply wp_bind. split; [done|]. intros [l Hl] _. apply wp_ret, HQ; [|done].
  by rewrite store_snoc.
Qed.

Lemma elem_of_order (m : kvs) (l : list string) k :
  l ≡ₚ (map_to_list m).*1 → k ∈ l ↔ is_Some (m !! k).
Proof.
  intros Hl. rewrite Hl, list_elem_of_fmap. split.
  - intros ([k' v] & -> & Hin%elem_of_map_to_list). by exists v.
  - intros [v Hv]. exists (k, v). by rewrite elem_of_map_to_list.
Qed.

Lemma length_order (m : kvs) (l : list string) : l ≡ₚ (map_to_list m).*1 → length l = size m.
Proof. intros ->. by rewrite length_fmap, length_map_to_list. Qed.

Lemma wp_chooseSlot (Q : history checker → Z → Prop) h :
  (∀ h' slot, store h' = store h → 0 ≤ slot < slotNumber → Q h' slot) →
  kwp chooseSlotFromNormDist Q h.
Proof.
  intros HQ. unfold chooseSlotFromNormDist. apply wp_bind. split; [done|]. intros x _.
  apply wp_ret, HQ; [by rewrite store_snoc|].
  unfold slotNumber in *. destruct (Z.ltb_spec x 0); [lia|]. destruct (Z.leb_spec 16384 x); lia.
Qed.

Lemma wp_randomGetKey m (Q : history checker → string * string → Prop) h :
  m ≠ ∅ →
  (∀ h' k v, store h' = store h → m !! k = Some v → Q h' (k, v)) →
  kwp (randomGetKey m) Q h.
Proof.
  intros Hm HQ. unfold randomGetKey. apply wp_bind. split; [done|]. intros [r Hr] _.
  destruct (Nat.eqb_spec (size m) 0) as [Hs|Hs]; [by apply map_size_empty_iff in Hs|].
  apply wp_bind, wp_map_order. intros h' l Hst Hl. cbn [proj1_sig].
  destruct (l !! Z.to_nat (r mod Z.of_nat (size m))) as [k|] eqn:Hk.
  - apply list_elem_of_lookup_2 in Hk. apply (elem_of_order m l k Hl) in Hk as [v Hv].
    apply wp_ret. rewrite Hv. apply HQ; [|done]. rewrite Hst. by rewrite store_snoc.
  - apply lookup_ge_None_1 in Hk. rewrite (length_order m l Hl) in Hk.
    pose proof (Z.mod_pos_bound r (Z.of_nat (size m))). lia.
Qed.

Lemma slot_map_tracked ck st slot k v :
  agree ck st → 0 ≤ slot < slotNumber → slot_map ck slot !! k = Some v →
  tracked ck (Z.to_nat slot) k v.
Proof.
  intros Hag Hslot Hk. unfold slot_map in Hk.
  destruct (ck_keys ck !! Z.to_nat slot) as [m|] eqn:Hm; [by exists m|]. done.
Qed.

Lemma slot_map_nonempty ck st slot : agree ck st → 0 ≤ slot < slotNumber → slot_map ck slot ≠ ∅.
Proof.
  intros Hag Hslot. unfold slot_map.
  destruct (ck_keys ck !! Z.to_nat slot) as [m|] eqn:Hm; [by apply (ag_nonempty _ _ Hag _ _ Hm)|].
  apply lookup_ge_None_1 in Hm. rewrite (ag_len _ _ Hag) in Hm. lia.
Qed.

(** What was chosen is what the checker remembers. *)
Definition chosen_ok (ck : kvChecker) (chosen : kvs) : Prop :=
  ∀ k v, chosen !! k = Some v → tracked ck (Z.to_nat (Slot k)) k v.

Lemma tracked_slot ck st slot k v :
  agree ck st → 0 ≤ slot → tracked ck (Z.to_nat slot) k v → Slot k = slot.
Proof. intros Hag Hs Ht. rewrite (ag_slot _ _ Hag _ _ _ Ht). lia. Qed.

Lemma wp_randomChooseKeys ck st n chosen (Q : history checker → kvs → Prop) h :
  agree ck st → chosen_ok ck chosen →
  (∀ h' chosen', store h' = store h → chosen_ok ck chosen' → Q h' chosen') →
  kwp (randomChooseKeys ck n chosen) Q h.
Proof.
  intros Hag. revert chosen h. induction n as [|n IH]; intros chosen h Hok HQ; cbn [randomChooseKeys].
  { by apply wp_ret, HQ. }
  apply wp_bind, wp_chooseSlot. intros h1 slot Hst1 Hslot.
  apply wp_bind, wp_randomGetKey; [by eapply slot_map_nonempty|]. intros h2 k v Hst2 Hk.
  apply IH; [|intros h' chosen' Hst'; apply HQ; congruence].
  intros k' v' [[<- <-]|[_ Hk']]%lookup_insert_Some; [|by apply Hok].
  pose proof (slot_map_tracked _ _ _ _ _ Hag Hslot Hk) as Ht.
  by rewrite (tracked_slot _ _ _ _ _ Hag (proj1 Hslot) Ht).
Qed.

Lemma wp_sameSlot ck st n (Q : history checker → Z * kvs → Prop) h :
  agree ck st →
  (∀ h' slot chosen, store h' = store h → 0 ≤ slot < slotNumber →
     (∀ k v, chosen !! k = Some v → tracked ck (Z.to_nat slot) k v) → Q h' (slot, chosen)) →
  kwp (randomChooseKeysInSameSlot ck n) Q h.
Proof.
  intros Hag HQ. unfold randomChooseKeysInSameSlot. apply wp_bind, wp_chooseSlot.
  intros h1 slot Hst1 Hslot. apply wp_bind, wp_map_order. intros h2 l Hst2 Hl.
  apply wp_ret, HQ; [congruence|done|]. intros k v Hk.
  apply elem_of_list_to_map_2 in Hk. apply list_elem_of_fmap in Hk as (k' & [= -> ->] & Hin).
  apply elem_of_take in Hin as (i & Hin%list_elem_of_lookup_2 & _).
  apply (elem_of_order _ _ _ Hl) in Hin as [v Hv]. rewrite Hv. by eapply slot_map_tracked.
Qed.

(** ** Commands *)

Lemma parseMoved_error e e' :
  (e = redis_Nil ∨ ∃ msg, e = CErr msg) → parseMoved e = Err e' →
  ¬ alarm e' ∧ (e' = redis_Nil → e = redis_Nil).
Proof.
  intros He. unfold parseMoved. destruct (negb _).
  - intros [= <-]. split; [|done]. by destruct He as [->|[msg ->]]; intros [].
  - destruct (split_byte _ _) as [|? [|? [|? [|]]]]; intros Hm; simplify_eq; (split; [by intros []|done]).
Qed.

(** A command through the cluster client: the redirections change nothing. *)
Definition exec_post (cmd : command) (h : history checker)
    (Q : history checker → client_pool * exec_result → Prop) : Prop :=
  (∀ h' b v pool a, store h' = store h → reply_ok cmd (store h) (Ok v) →
     Q (h' ++ [Ev (Σ := checker) (Send b cmd) (Ok v)]) (pool, (Ok v, a))) ∧
  (∀ h' e pool a, store h' = store h → ¬ alarm e →
     (∀ k, cmd = CmdGet k → e = redis_Nil → store h !! k = None) → Q h' (pool, (Err e, a))).

Lemma exec_post_store cmd h h' Q : store h' = store h → exec_post cmd h Q → exec_post cmd h' Q.
Proof. intros Hst [Hok Herr]. split; rewrite Hst; [exact Hok|exact Herr]. Qed.

(** Commands on one key, on keys of one slot, and on the keys of the script. *)
Lemma cmd_ok_one ck st s k v cmd :
  agree ck st → tracked ck s k v → cmd_keys cmd = [k] → cmd_ok id cmd.
Proof.
  intros Hag Ht Hk. split; rewrite Hk.
  - intros k' ->%list_elem_of_singleton. by apply (ag_owned _ _ Hag _ _ _ Ht).
  - by intros k1 k2 ->%list_elem_of_singleton ->%list_elem_of_singleton.
Qed.

Lemma cmd_ok_slot ck st s ks cmd :
  agree ck st → Forall (λ k, ∃ v, tracked ck s k v) ks → cmd_keys cmd = ks → cmd_ok id cmd.
Proof.
  intros Hag Hks Hk. rewrite Forall_forall in Hks. split; rewrite Hk.
  - intros k [v Ht]%Hks. by apply (ag_owned _ _ Hag _ _ _ Ht).
  - intros k1 k2 [v1 Ht1]%Hks [v2 Ht2]%Hks.
    by rewrite (ag_slot _ _ Hag _ _ _ Ht1), (ag_slot _ _ Hag _ _ _ Ht2).
Qed.

Lemma cmd_ok_lua ck st script args : agree ck st → cmd_ok id (CmdEval script (ck_luaKeys ck) args).
Proof.
  intros Hag. split; cbn [cmd_keys].
  - intros k Hk. right. by apply (ag_lua_key _ _ Hag).
  - intros k1 k2 Hk1%(ag_lua_key _ _ Hag) Hk2%(ag_lua_key _ _ Hag).
    destruct Hk1 as (? & ? & ? & ->), Hk2 as (? & ? & ? & ->). by rewrite !Slot_genLuaKey.
Qed.

Lemma wp_exec_loop cmd n first pool c a tried infos Q h :
  cmd_ok id cmd → exec_post cmd h Q → kwp (exec_loop client cmd n first pool c a tried infos) Q h.
Proof.
  intros Hcmd. revert first pool c a tried infos h.
  induction n as [|n IH]; intros first pool c a tried infos h HQ; cbn [exec_loop]; rewrite Hdebug;
    apply wp_bind; (split; [exact Hcmd|]); intros [v|e] Hx; apply wp_ret; cbn [andb]; cbn beta iota;
    try (apply wp_ret, HQ; [done|exact Hx]); destruct Hx as [He Hnil];
    (assert (store (h ++ [Ev (Σ := checker) (Send (client_Addr c) cmd) (Err e)]) = store h) as Hst
       by by rewrite store_snoc);
    (destruct (parseMoved e) as [a'|e'] eqn:Hm;
      [|destruct (parseMoved_error e e' He Hm) as [? Hnil'];
        apply wp_ret, HQ; [done|done|intros k Hk ->; by apply Hnil, Hnil']]);
    apply wp_bind, wp_ret.
  - apply wp_ret, (proj2 HQ); [done|by intros []|done].
  - destruct (getOrCreateClient pool a') as [c' pool']. apply IH. by apply (exec_post_store cmd h).
Qed.

Lemma wp_Exec cmd pool Q h : cmd_ok id cmd → exec_post cmd h Q → kwp (Exec client pool cmd) Q h.
Proof.
  intros Hcmd HQ. unfold Exec. destruct (getOrCreateClient pool _) as [c pool'].
  by apply wp_exec_loop.
Qed.

(** Commands of which only the error matters. *)
Lemma wp_exec_only cmd pool (Q : history checker → client_pool * (option cerror * string) → Prop) h :
  cmd_ok id cmd →
  (∀ h' pool' a, store h' = apply_command cmd (store h) → Q h' (pool', (None, a))) →
  (∀ h' pool' e a, ¬ alarm e → Q h' (pool', (Some e, a))) →
  kwp (exec_only client pool cmd) Q h.
Proof.
  intros Hcmd Hok Herr. unfold exec_only. apply wp_bind, wp_Exec; [done|]. split.
  - intros h' b v pool' a Hst _. apply wp_ret, Hok. rewrite store_snoc. simpl. by rewrite Hst.
  - intros h' e pool' a Hst He _. by apply wp_ret, Herr.
Qed.

Definition get_value (st : kvs) (k : string) : option string := st !! k.

Lemma wp_Get key pool (Q : history checker → client_pool * (result cerror (option string) * string) → Prop) h :
  cmd_ok id (CmdGet key) →
  (∀ h' pool' a, store h' = store h → Q h' (pool', (Ok (store h !! key), a))) →
  (∀ h' pool' e a, ¬ alarm e → Q h' (pool', (Err e, a))) →
  kwp (Get client pool key) Q h.
Proof.
  intros Hcmd Hok Herr. unfold Get. apply wp_bind, wp_Exec; [done|]. split.
  - intros h' b v pool' a Hst (s & -> & Hs). apply wp_bind, wp_ret, wp_ret. rewrite <- Hs.
    apply Hok. rewrite store_snoc. simpl. done.
  - intros h' e pool' a Hst He Hnil.
    destruct e; try (by apply wp_ret, Herr). apply wp_ret. rewrite <- (Hnil key eq_refl eq_refl).
    by apply Hok.
Qed.

Lemma wp_as_values st ks (Q : history checker → list (option string) → Prop) h :
  Q h (get_value st <$> ks) → kwp (as_values (value_of st <$> ks)) Q h.
Proof.
  revert Q h. induction ks as [|k ks IH]; intros Q h HQ; [by apply wp_ret|].
  rewrite fmap_cons. rewrite fmap_cons in HQ. unfold value_of at 1. unfold get_value at 1 in HQ.
  destruct (st !! k) as [s|]; cbn [as_values].
  - apply wp_bind, wp_ret, wp_bind, IH, wp_ret, HQ.
  - apply wp_bind, IH, wp_ret, HQ.
Qed.

(** The two commands that read several keys. *)
Lemma wp_exec_values cmd ks pool
    (Q : history checker → client_pool * (result cerror (list (option string)) * string) → Prop) h :
  cmd = CmdMGet ks ∨ cmd = CmdEval luaMGetScript ks [] → cmd_ok id cmd →
  (∀ h' pool' a, store h' = store h → Q h' (pool', (Ok (get_value (store h) <$> ks), a))) →
  (∀ h' pool' e a, ¬ alarm e → Q h' (pool', (Err e, a))) →
  kwp (exec_values client pool cmd) Q h.
Proof.
  intros Hcmd Hkeys Hok Herr. unfold exec_values. apply wp_bind, wp_Exec; [done|]. split.
  - intros h' b v pool' a Hst Hv.
    assert (v = RList (value_of (store h) <$> ks)) as -> by (destruct Hcmd as [->| ->]; by apply Hv).
    apply wp_bind, wp_as_values, wp_ret, Hok. rewrite store_snoc. by destruct Hcmd as [->| ->].
  - intros h' e pool' a Hst He _. by apply wp_ret, Herr.
Qed.

(** ** The checks *)

(** What every check has to establish: no alarm; and when it goes on, the memory
    agrees with the cluster again. *)
Definition check_post (h : history checker) (r : kvChecker * option cerror) : Prop :=
  match r.2 with Some e => ¬ alarm e | None => agree r.1 (store h) end.

Lemma wp_waitN n k ck h :
  (∀ h', store h' = store h → kwp (k ck) check_post h') → kwp (waitN n k ck) check_post h.
Proof.
  intros Hk. unfold waitN. apply wp_bind. split; [done|]. intros [e|] Hx.
  - apply wp_ret. destruct (Hx e eq_refl) as [msg ->]. by intros [].
  - apply Hk. by rewrite store_snoc.
Qed.

Lemma wp_genNewValue k (Q : history checker → string → Prop) h :
  (∀ h' v, store h' = store h → Q h' v) → kwp (genNewValue k) Q h.
Proof.
  intros HQ. unfold genNewValue. apply wp_bind. split; [done|]. intros t _. apply wp_ret, HQ.
  by rewrite store_snoc.
Qed.

(** [k] is a key of the checker, in its slot. *)
Definition known (ck : kvChecker) (k : string) : Prop := ∃ v, tracked ck (Z.to_nat (Slot k)) k v.

Lemma known_remember ck slot k v k' : known ck k' → known (remember slot k v ck) k'.
Proof. intros [v' Ht]. exact (remember_tracked ck slot k v _ _ _ Ht). Qed.

Lemma wp_set_loop keys ck h :
  agree ck (store h) → Forall (known ck) keys → kwp (set_loop client keys ck) check_post h.
Proof.
  revert ck h. induction keys as [|k keys IH]; intros ck h Hag Hk; cbn [set_loop].
  { by apply wp_ret. }
  apply Forall_cons in Hk as [[v0 Hk] Hks].
  apply wp_bind, wp_genNewValue. intros h1 v Hst1. apply wp_bind, wp_exec_only.
  - by eapply cmd_ok_one.
  - intros h2 pool a Hst2. rewrite Hst1 in Hst2. cbn in Hst2. apply IH.
    + rewrite Hst2. eapply agree_update; [by apply agree_pool|exact Hk| |].
      * by rewrite lookup_insert_eq.
      * intros k' Hne. by rewrite lookup_insert_ne.
    + eapply Forall_impl; [exact Hks|]. intros k' Hk'. by apply known_remember.
  - intros h2 pool e a He. by apply wp_ret.
Qed.

Lemma chosen_known ck chosen l :
  chosen_ok ck chosen → l ≡ₚ (map_to_list chosen).*1 → Forall (known ck) l.
Proof.
  intros Hok Hl. apply Forall_forall. intros k Hk%(elem_of_order _ _ _ Hl).
  destruct Hk as [v Hv]. exists v. by apply Hok.
Qed.

Lemma checkSet_ok ck h : agree ck (store h) → kwp (checkSet client ck) check_post h.
Proof.
  intros Hag. apply wp_waitN. intros h1 Hst1. apply wp_bind.
  eapply wp_randomChooseKeys; [exact Hag|by intros ? ? [=]|]. intros h2 chosen Hst2 Hok.
  apply wp_bind, wp_map_order. intros h3 l Hst3 Hl.
  apply wp_set_loop; [by rewrite Hst3, Hst2, Hst1|by eapply chosen_known].
Qed.

Lemma wp_get_loop chosen keys ck h :
  agree ck (store h) → (∀ k, k ∈ keys → ∃ v s, chosen !! k = Some v ∧ tracked ck s k v) →
  kwp (get_loop client chosen keys ck) check_post h.
Proof.
  revert ck h. induction keys as [|k keys IH]; intros ck h Hag Hk; cbn [get_loop].
  { by apply wp_ret. }
  destruct (Hk k) as (v & s & Hv & Ht); [by left|]. apply wp_bind, wp_Get.
  - by eapply cmd_ok_one.
  - intros h' pool a Hst.
    unfold nil2Empty. rewrite Hv, (ag_value _ _ Hag _ _ _ Ht). cbn [from_option default].
    rewrite String.eqb_refl. cbn [negb]. apply IH; [rewrite Hst; by apply agree_pool|].
    intros k' Hk'. apply Hk. by right.
  - intros h' pool e a He. by apply wp_ret.
Qed.

Lemma checkGet_ok ck h : agree ck (store h) → kwp (checkGet client ck) check_post h.
Proof.
  intros Hag. apply wp_waitN. intros h1 Hst1. apply wp_bind.
  eapply wp_randomChooseKeys; [exact Hag|by intros ? ? [=]|]. intros h2 chosen Hst2 Hok.
  apply wp_bind, wp_map_order. intros h3 l Hst3 Hl.
  apply wp_get_loop; [by rewrite Hst3, Hst2, Hst1|].
  intros k Hk%(elem_of_order _ _ _ Hl). destruct Hk as [v Hv]. eauto.
Qed.

(** *** Several keys of one slot *)

Definition in_slot (ck : kvChecker) (slot : Z) (k : string) : Prop :=
  ∃ v, tracked ck (Z.to_nat slot) k v.

Lemma in_slot_remember ck slot k v k' : in_slot ck slot k' → in_slot (remember slot k v ck) slot k'.
Proof. intros [v' Ht]. exact (remember_tracked ck slot k v _ _ _ Ht). Qed.

Lemma agree_pairs pairs ck st slot :
  agree ck st → Forall (in_slot ck slot) pairs.*1 →
  agree (foldl (λ ck '(k, v), remember slot k v ck) ck pairs)
        (foldl (λ st '(k, v), <[k := v]> st) st pairs).
Proof.
  revert ck st. induction pairs as [|[k v] pairs IH]; intros ck st Hag Hin; [done|].
  cbn in Hin |- *. apply Forall_cons in Hin as [[v0 Hk] Hin]. apply IH.
  - eapply agree_update; [done|exact Hk|by rewrite lookup_insert_eq|].
    intros k' Hne. by rewrite lookup_insert_ne.
  - eapply Forall_impl; [exact Hin|]. intros k' Hk'. by apply in_slot_remember.
Qed.

Lemma agree_deletes keys ck st slot :
  agree ck st → Forall (in_slot ck slot) keys →
  agree (foldl (λ ck k, remember slot k "" ck) ck keys) (foldl (λ st k, delete k st) st keys).
Proof.
  revert ck st. induction keys as [|k keys IH]; intros ck st Hag Hin; [done|].
  cbn. apply Forall_cons in Hin as [[v0 Hk] Hin]. apply IH.
  - eapply agree_update; [done|exact Hk|by rewrite lookup_delete_eq|].
    intros k' Hne. by rewrite lookup_delete_ne.
  - eapply Forall_impl; [exact Hin|]. intros k' Hk'. by apply in_slot_remember.
Qed.

Lemma mset_pairs pairs st :
  mset (concat ((λ '(k, v), [k; v]) <$> pairs)) st = foldl (λ st '(k, v), <[k := v]> st) st pairs.
Proof. revert st. induction pairs as [|[k v] pairs IH]; intros st; [done|]. apply IH. Qed.

Lemma mset_keys_pairs (pairs : list (string * string)) :
  mset_keys (concat ((λ '(k, v), [k; v]) <$> pairs)) = pairs.*1.
Proof. induction pairs as [|[k v] pairs IH]; [done|]. cbn. by rewrite <- IH. Qed.

Lemma wp_new_values keys (Q : history checker → list (string * string) → Prop) h :
  (∀ h' pairs, store h' = store h → pairs.*1 = keys → Q h' pairs) → kwp (new_values keys) Q h.
Proof.
  revert Q h. induction keys as [|k keys IH]; intros Q h HQ; cbn [new_values]; [by apply wp_ret, HQ|].
  apply wp_bind, wp_genNewValue. intros h1 v Hst1. apply wp_bind, IH. intros h2 pairs Hst2 Hp.
  apply wp_ret, HQ; [congruence|]. by rewrite fmap_cons, Hp.
Qed.

Lemma order_in_slot ck slot (chosen : kvs) l :
  (∀ k v, chosen !! k = Some v → tracked ck (Z.to_nat slot) k v) →
  l ≡ₚ (map_to_list chosen).*1 → Forall (in_slot ck slot) l.
Proof.
  intros Hin Hl. apply Forall_forall. intros k Hk%(elem_of_order _ _ _ Hl).
  destruct Hk as [v Hv]. exists v. by apply Hin.
Qed.

Lemma checkMSet_ok ck h : agree ck (store h) → kwp (checkMSet client ck) check_post h.
Proof.
  intros Hag. apply wp_waitN. intros h1 Hst1. apply wp_bind.
  eapply wp_sameSlot; [exact Hag|]. intros h2 slot chosen Hst2 Hslot Hin.
  apply wp_bind, wp_map_order. intros h3 l Hst3 Hl.
  apply wp_bind, wp_new_values. intros h4 pairs Hst4 Hp.
  assert (store h4 = store h) as Hst by congruence.
  pose proof (order_in_slot _ _ _ _ Hin Hl) as Hks. rewrite <- Hp in Hks.
  apply wp_bind, wp_exec_only; [by eapply cmd_ok_slot, mset_keys_pairs| |intros h5 pool e a He; by apply wp_ret].
  intros h5 pool a Hst5. apply wp_ret. unfold check_post. cbn [fst snd].
  rewrite Hst5, Hst. cbn [apply_command]. rewrite mset_pairs. apply agree_pairs.
  - by apply agree_pool.
  - exact Hks.
Qed.

Lemma wp_getKeys (m : kvs) (Q : history checker → list string → Prop) h :
  m ≠ ∅ → (∀ h' l, store h' = store h → l ≡ₚ (map_to_list m).*1 → Q h' l) → kwp (getKeys m) Q h.
Proof.
  intros Hm HQ. unfold getKeys. destruct (Nat.eqb_spec (size m) 0) as [Hs|_]; [|by apply wp_map_order].
  by apply map_size_empty_iff in Hs.
Qed.

Lemma checkDel_ok ck h : agree ck (store h) → kwp (checkDel client ck) check_post h.
Proof.
  intros Hag. apply wp_bind. eapply wp_sameSlot; [exact Hag|]. intros h2 slot chosen Hst2 Hslot Hin.
  destruct (Nat.eqb_spec (size chosen) 0) as [Hs|Hs].
  { apply wp_ret. unfold check_post. cbn [fst snd]. by rewrite Hst2. }
  apply wp_waitN. intros h3 Hst3. apply wp_bind, wp_getKeys; [by intros ->|].
  intros h4 l Hst4 Hl. assert (store h4 = store h) as Hst by congruence.
  pose proof (order_in_slot _ _ _ _ Hin Hl) as Hks.
  apply wp_bind, wp_exec_only; [by eapply cmd_ok_slot| |intros h5 pool e a He; by apply wp_ret].
  intros h5 pool a Hst5. apply wp_ret. unfold check_post. cbn [fst snd].
  rewrite Hst5, Hst. cbn [apply_command]. apply agree_deletes; [by apply agree_pool|].
  exact Hks.
Qed.

(** *** Comparing lists of values *)

Lemma wp_compare_loop st keys expected err (Q : history checker → option cerror → Prop) h :
  (∀ k, k ∈ keys → default "" (st !! k) = expected k) → Q h err →
  kwp (compare_loop keys (get_value st <$> keys) expected err) Q h.
Proof.
  intros Hk. revert err. induction keys as [|k keys IH]; intros err HQ; [by apply wp_ret|].
  rewrite fmap_cons. cbn [compare_loop]. cbv zeta.
  change (nil2Empty (get_value st k)) with (default "" (st !! k)).
  rewrite (Hk k) by by left. rewrite String.eqb_refl. apply IH; [|done].
  intros k' Hk'. apply Hk. by right.
Qed.

Lemma checkMGet_ok ck h : agree ck (store h) → kwp (checkMGet client ck) check_post h.
Proof.
  intros Hag. apply wp_bind. eapply wp_sameSlot; [exact Hag|]. intros h2 slot chosen Hst2 Hslot Hin.
  destruct (Nat.eqb_spec (size chosen) 0) as [Hs|Hs].
  { apply wp_ret. unfold check_post. cbn [fst snd]. by rewrite Hst2. }
  apply wp_waitN. intros h3 Hst3. apply wp_bind, wp_getKeys; [by intros ->|].
  intros h4 l Hst4 Hl. assert (store h4 = store h) as Hst by congruence.
  apply wp_bind. unfold MGet.
  apply (wp_exec_values _ l); [by left| | |intros h5 pool e a He; by apply wp_ret].
  { eapply cmd_ok_slot; [exact Hag|exact (order_in_slot _ _ _ _ Hin Hl)|done]. }
  intros h5 pool a Hst5. rewrite Hst in *. rewrite length_fmap, Nat.eqb_refl. cbn [negb].
  apply wp_bind, wp_compare_loop.
  - intros k Hk%(elem_of_order _ _ _ Hl). destruct Hk as [v Hv]. rewrite Hv.
    by apply (ag_value _ _ Hag _ _ _ (Hin _ _ Hv)).
  - apply wp_ret. unfold check_post. cbn [fst snd]. rewrite Hst5. by apply agree_pool.
Qed.

Lemma checkLuaMGet_ok ck h : agree ck (store h) → kwp (checkLuaMGet client ck) check_post h.
Proof.
  intros Hag. apply wp_waitN. intros h1 Hst1. apply wp_bind. unfold LuaMGet.
  apply (wp_exec_values _ (ck_luaKeys ck)); [by right|by eapply cmd_ok_lua| |intros h5 pool e a He; by apply wp_ret].
  intros h2 pool a Hst2. rewrite Hst1 in *. apply wp_bind, wp_compare_loop.
  - intros k Hk. by apply (ag_lua _ _ Hag).
  - apply wp_ret. unfold check_post. cbn [fst snd]. rewrite Hst2. by apply agree_pool.
Qed.

(** *** The script that sets all the keys *)

Lemma lookup_lua_mset ks v st k :
  foldl (λ st '(k, v), <[k := v]> st) st (zip ks (replicate (length ks) v)) !! k =
    if decide (k ∈ ks) then Some v else (st : kvs) !! k.
Proof.
  revert st. induction ks as [|k0 ks IH]; intros st; cbn.
  - rewrite decide_False; [done|]. apply not_elem_of_nil.
  - rewrite IH. destruct (decide (k ∈ ks)) as [Hin|Hin].
    + by rewrite decide_True by by right.
    + destruct (decide (k = k0)) as [->|Hne].
      * rewrite decide_True by by left. by rewrite lookup_insert_eq.
      * rewrite decide_False by by intros [?|?]%elem_of_cons. by rewrite lookup_insert_ne.
Qed.

Lemma agree_lua ck st v :
  agree ck st →
  agree (set_lua v ck) (foldl (λ st '(k, v), <[k := v]> st) st
                          (zip (ck_luaKeys ck) (replicate (length (ck_luaKeys ck)) v))).
Proof.
  intros Hag. split; try apply Hag.
  - intros s k v' Ht. rewrite lookup_lua_mset. rewrite decide_False.
    + by apply (ag_value _ _ Hag _ _ _ Ht).
    + intros Hin. by apply (ag_disjoint _ _ Hag _ _ _ Hin Ht).
  - intros k Hk. cbn in *. rewrite lookup_lua_mset. by rewrite decide_True.
Qed.

Lemma checkLuaMSet_ok ck h : agree ck (store h) → kwp (checkLuaMSet client ck) check_post h.
Proof.
  intros Hag. apply wp_waitN. intros h1 Hst1. apply wp_bind. split; [done|]. intros now _.
  apply wp_ret, wp_bind. split; [done|]. intros uuid _. apply wp_ret. cbv zeta.
  set (value := _ +:+ _). unfold luaMSet.
  apply wp_bind, wp_exec_only; [by eapply cmd_ok_lua| |intros h2 pool e a He; by apply wp_ret].
  intros h2 pool a Hst2. rewrite !store_snoc in Hst2. cbn [store_step] in Hst2. rewrite Hst1 in Hst2.
  apply wp_ret. unfold check_post. cbn [fst snd]. rewrite Hst2. cbn [apply_command].
  rewrite String.eqb_refl. by apply (agree_lua (set_pool pool ck)), agree_pool.
Qed.

(** *** Any check, any number of times *)

Lemma checkKeyValue_ok ck h : agree ck (store h) → kwp (checkKeyValue client ck) check_post h.
Proof.
  intros Hag. apply wp_bind. split; [done|]. intros r _. apply wp_ret.
  set (h1 := h ++ _). assert (agree ck (store h1)) as Hag1 by (unfold h1; by rewrite store_snoc).
  pose proof (Z.mod_pos_bound (`r) 7 ltac:(lia)) as Hr. revert Hr.
  generalize (`r mod 7) as n. intros n Hn.
  assert (n = 0 ∨ n = 1 ∨ n = 2 ∨ n = 3 ∨ n = 4 ∨ n = 5 ∨ n = 6) as Hcases by lia.
  destruct_or! Hcases; subst n.
  - by apply checkSet_ok.
  - by apply checkMSet_ok.
  - by apply checkLuaMSet_ok.
  - by apply checkGet_ok.
  - by apply checkMGet_ok.
  - by apply checkLuaMGet_ok.
  - by apply checkDel_ok.
Qed.

Lemma loopCheck_ok fuel ck h : agree ck (store h) → kwp (loopCheck client fuel ck) check_post h.
Proof.
  revert ck h. induction fuel as [|fuel IH]; intros ck h Hag; cbn [loopCheck]; [by apply wp_ret|].
  apply wp_bind. split; [done|]. intros done _. apply wp_ret.
  destruct done; [by apply wp_ret; intros []|].
  apply wp_bind. eapply wp_mono; [apply checkKeyValue_ok; by rewrite store_snoc|].
  intros h' [ck' [e|]] Hpost; [by apply wp_ret|]. by apply IH.
Qed.
End sound.

(** ** A new checker *)

Section new_checker.
Context (t id : Z) (tags : list string) (Htags : tags_ok tags).

Definition key_of (i : Z) : string :=
  genKey t id (i mod slotNumber) i (getTag tags (i mod slotNumber)).
Definition add_key (keys : list kvs) (i : Z) : list kvs :=
  alter (λ m, <[key_of i := ""]> m) (Z.to_nat (i mod slotNumber)) keys.

Lemma add_keys_lookup ids keys s :
  foldl add_key keys ids !! s =
    (λ m, foldl (λ m i, <[key_of i := ""]> m) m
            (filter (λ i, Z.to_nat (i mod slotNumber) = s) ids)) <$> keys !! s.
Proof.
  revert keys. induction ids as [|i ids IH]; intros keys; cbn [foldl].
  - by destruct (keys !! s).
  - rewrite IH. unfold add_key at 1. rewrite filter_cons. case_decide as Hi.
    + subst s. rewrite list_lookup_alter_eq. by destruct (keys !! _).
    + by rewrite list_lookup_alter_ne.
Qed.

Lemma foldl_keys_Some (ids : list Z) (m : kvs) k v :
  foldl (λ m i, <[key_of i := ""]> m) m ids !! k = Some v →
  (v = "" ∧ ∃ i, i ∈ ids ∧ k = key_of i) ∨ m !! k = Some v.
Proof.
  revert m. induction ids as [|i ids IH]; intros m; cbn [foldl]; [by right|].
  intros [[-> (j & Hj & ->)]|Hm]%IH.
  - left. split; [done|]. exists j. split; [by right|done].
  - apply lookup_insert_Some in Hm as [[<- <-]|[_ ?]]; [|by right].
    left. split; [done|]. exists i. split; [by left|done].
Qed.

Lemma foldl_keys_nonempty (ids : list Z) (m : kvs) :
  m ≠ ∅ → foldl (λ m i, <[key_of i := ""]> m) m ids ≠ ∅.
Proof.
  revert m. induction ids as [|i ids IH]; intros m Hm; cbn [foldl]; [done|].
  apply IH, insert_non_empty.
Qed.

Lemma new_keys_fold : new_keys t id tags =
  foldl add_key (replicate (Z.to_nat slotNumber) ∅) (seqZ 0 maxKeysNum).
Proof. reflexivity. Qed.

Lemma length_add_keys ids keys : length (foldl add_key keys ids) = length keys.
Proof.
  revert keys. induction ids as [|i ids IH]; intros keys; [done|]. cbn [foldl]. rewrite IH.
  apply length_alter.
Qed.

Lemma new_keys_lookup s m :
  new_keys t id tags !! s = Some m →
  (s < Z.to_nat slotNumber)%nat ∧
  m = foldl (λ m i, <[key_of i := ""]> m) ∅
        (filter (λ i, Z.to_nat (i mod slotNumber) = s) (seqZ 0 maxKeysNum)).
Proof.
  rewrite new_keys_fold, add_keys_lookup. intros Hm.
  destruct (replicate (Z.to_nat slotNumber) ∅ !! s) as [m0|] eqn:Hr; [|done].
  apply lookup_replicate in Hr as [-> Hs]. cbn in Hm. by injection Hm as <-.
Qed.

Lemma new_keys_tracked s m k v :
  new_keys t id tags !! s = Some m → m !! k = Some v →
  v = "" ∧ ∃ i, k = key_of i ∧ Z.of_nat s = i mod slotNumber.
Proof.
  intros [Hs ->]%new_keys_lookup Hk. apply foldl_keys_Some in Hk as [[-> (i & Hi & ->)]|[=]].
  split; [done|]. exists i. split; [done|]. apply list_elem_of_filter in Hi as [<- _].
  rewrite Z2Nat.id; [done|]. apply Z.mod_pos_bound. unfold slotNumber. lia.
Qed.

Lemma new_keys_nonempty s m : new_keys t id tags !! s = Some m → m ≠ ∅.
Proof.
  intros [Hs ->]%new_keys_lookup.
  assert (Z.of_nat s ∈ filter (λ i, Z.to_nat (i mod slotNumber) = s) (seqZ 0 maxKeysNum)) as Hin.
  { apply list_elem_of_filter. unfold maxKeysNum, slotNumber in *. split.
    - rewrite Z.mod_small by lia. lia.
    - apply elem_of_seqZ. lia. }
  destruct (filter _ _) as [|i ids]; [by apply elem_of_nil in Hin|]. cbn [foldl].
  apply foldl_keys_nonempty, insert_non_empty.
Qed.

(** A memory in which every key has its first value and is in the slot it names. *)
Lemma agree_initial (keys : list kvs) pool lua :
  length keys = Z.to_nat slotNumber →
  (∀ s m, keys !! s = Some m → m ≠ ∅) →
  (∀ s m k v, keys !! s = Some m → m !! k = Some v →
     v = "" ∧ ∃ i, k = key_of i ∧ Z.of_nat s = i mod slotNumber) →
  (∀ k, k ∈ lua → ∃ i now, k = genLuaKey t id i now) →
  agree id (MkChecker id pool keys lua "") ∅.
Proof.
  intros Hlen Hne Hkeys Hlua. split; cbn [ck_keys ck_luaKeys ck_luaValue]; [done|done|..].
  - intros s k v (m & Hm & Hk). destruct (Hkeys s m k v Hm Hk) as [_ (i & -> & Hi)].
    unfold key_of. rewrite Hi.
    destruct (Htags (i mod slotNumber)) as (Htag & Htne & Ho & Hc);
      [apply Z.mod_pos_bound; unfold slotNumber; lia|].
    by rewrite Slot_genKey.
  - intros s k v (m & Hm & Hk). rewrite lookup_empty. by destruct (Hkeys s m k v Hm Hk) as [-> _].
  - intros s k v (m & Hm & Hk). destruct (Hkeys s m k v Hm Hk) as [_ (i & -> & _)]. left. eauto.
  - intros k _. by rewrite lookup_empty.
  - intros k Hk. destruct (Hlua k Hk) as (i & now & ->). eauto.
  - intros s k v Hk (m & Hm & Hkv). destruct (Hkeys s m k v Hm Hkv) as [_ (i & -> & _)].
    destruct (Hlua _ Hk) as (j & now & Heq). symmetry in Heq. by apply genLuaKey_distinct in Heq.
Qed.

Lemma agree_new pool lua :
  (∀ k, k ∈ lua → ∃ i now, k = genLuaKey t id i now) →
  agree id (MkChecker id pool (new_keys t id tags) lua "") ∅.
Proof.
  apply agree_initial.
  - rewrite new_keys_fold, length_add_keys. apply length_replicate.
  - exact new_keys_nonempty.
  - exact new_keys_tracked.
Qed.
End new_checker.

Section alarm.
Context (id : Z) (tags : list string) (Htags : tags_ok tags).

Lemma wp_new_lua_keys t ids (Q : history checker → list string → Prop) h :
  (∀ h' l, store ∅ h' = store ∅ h → (∀ k, k ∈ l → ∃ i now, k = genLuaKey t id i now) → Q h' l) →
  wp (cluster ∅ id) (new_lua_keys t id ids) Q h.
Proof.
  revert Q h. induction ids as [|i ids IH]; intros Q h HQ; cbn [new_lua_keys].
  - apply wp_ret, HQ; [done|]. intros k Hk. by apply elem_of_nil in Hk.
  - apply wp_bind. split; [done|]. intros now _. apply wp_ret, wp_bind, IH.
    intros h' l Hst Hl. apply wp_ret, HQ; [by rewrite Hst, store_snoc|].
    intros k [->|Hk]%elem_of_cons; [eauto|by apply Hl].
Qed.

Lemma wp_newKVChecker pool (Q : history checker → kvChecker → Prop) :
  (∀ h ck, agree id ck (store ∅ h) → Q h ck) → wp (cluster ∅ id) (newKVChecker id pool tags) Q [].
Proof.
  intros HQ. unfold newKVChecker. apply wp_bind. split; [done|]. intros t _.
  apply wp_ret, wp_bind, wp_new_lua_keys. intros h l Hst Hl. apply wp_ret, HQ.
  rewrite Hst, store_snoc. by apply agree_new.
Qed.

(** C12. No false alarm: a checker that is made with a tag for every slot and runs any
    number of checks, against a cluster on which its keys are new and that answers
    reads with what it accepted, never panics and never reports an inconsistency,
    whatever keys, values and orders are drawn and however the nodes redirect or
    fail.  When the run ends without an error, what the checker remembers is what
    the cluster holds.  Every command it sends is on keys with its own number, all in
    one slot. *)
Theorem checker_no_false_alarm (client : CheckerClusterClient) (E : env checker) (fuel : nat)
    (pool : client_pool) (Hdebug : debug client = false) (Hcluster : respects (cluster ∅ id) E) :
  ∃ h' ck' err,
    run_from E [] (ck ← newKVChecker id pool tags; loopCheck client fuel ck) =
      (h', Some (ck', err)) ∧
    match err with
    | Some e => ¬ alarm e
    | None => agree id ck' (store ∅ h')
    end ∧
    ∀ address cmd x, Ev (Σ := checker) (Send address cmd) x ∈ h' → cmd_ok id cmd.
Proof.
  assert (wp (cluster ∅ id) (ck ← newKVChecker id pool tags; loopCheck client fuel ck)
            (check_post ∅ id) []) as Hwp.
  { apply wp_bind, wp_newKVChecker. intros h ck Hag. by apply loopCheck_ok. }
  apply (wp_sound _ E) in Hwp as [Hguar Hpost]; [|done].
  destruct (run_from E [] _) as [h' [[ck' err]|]]; [|done].
  exists h', ck', err. split; [done|]. split; [exact Hpost|].
  intros address cmd x Hin. apply list_elem_of_split in Hin as (l1 & l2 & ->).
  destruct Hguar as (t & Ht & Hg). exact (Hg l1 _ l2 (eq_sym Ht)).
Qed.
End alarm.
