(* ===== verification/SlotTags.v ===== *)
(** * Tags for all slots

    [newSlotTags] of KvChecker.v: what the loop over drawn identifiers leaves in its
    array at any time, and when it ends. *)
From S2P Require Import Prelude Prog GoStr Slot ClusterClient KvChecker KvKeys.

(** ** The array *)

Definition filled (tags : list string) : nat := length (filter (λ t, t ≠ "") tags).

Lemma filled_insert tags i tag :
  tags !! i = Some "" → tag ≠ "" → filled (<[i := tag]> tags) = S (filled tags).
Proof.
  unfold filled. intros Hi Htag. revert i Hi.
  induction tags as [|t tags IH]; intros [|i] Hi; simplify_eq/=; rewrite !filter_cons.
  - by rewrite decide_True, decide_False by (done || naive_solver).
  - case_decide; simpl; by rewrite IH.
Qed.

Lemma filled_all tags i : filled tags = length tags → tags !! i ≠ Some "".
Proof.
  unfold filled. revert i. induction tags as [|t tags IH]; intros i; [done|].
  rewrite filter_cons. pose proof (length_filter (λ t, t ≠ "") tags).
  case_decide as Ht; simpl; intros Hlen; [|lia].
  destruct i as [|i]; simpl; [congruence|]. apply IH. lia.
Qed.

Lemma filled_not_all tags : filled tags ≠ length tags → ∃ i : nat, tags !! i = Some "".
Proof.
  unfold filled. induction tags as [|t tags IH]; [done|].
  rewrite filter_cons. case_decide as Ht; simpl; intros Hlen.
  - destruct IH as [i Hi]; [lia|]. by exists (S i).
  - exists 0%nat. simpl. f_equal. by destruct (decide (t = "")).
Qed.

(** ** The loop *)

(** [uuid.NewString()] is hexadecimal digits and dashes, more than six of them. *)
Definition uuid_ok (u : string) : Prop :=
  (6 ≤ String.length u)%nat ∧ str_In "{"%char u = false ∧ str_In "}"%char u = false.

Definition drawing : contract checker := Contract
  (λ (_ : history checker) (o : checker_op), match o return checker_ans o → Prop with
          | UUID => uuid_ok
          | _ => λ _, True
          end)
  (λ _ _, True) False.

(** The identifier that an event drew; [u] was drawn in [h]. *)
Definition draw_of (e : event checker) : option string :=
  match e with
  | Ev o x => match o return checker_ans o → option string with
              | UUID => Some
              | _ => λ _, None
              end x
  end.
Definition drawn (h : history checker) (u : string) : Prop := u ∈ omap draw_of h.

Record tags_inv (h : history checker) (tags : list string) (n : Z) : Prop := {
  ti_len : length tags = Z.to_nat slotNumber;
  ti_count : n = Z.of_nat (filled tags);
  ti_slot (s : nat) tag : tags !! s = Some tag → tag ≠ "" →
    Slot tag = Z.of_nat s ∧ str_In "{"%char tag = false ∧ str_In "}"%char tag = false;
  ti_drawn u : drawn h u → tags !! Z.to_nat (Slot (str_take 6 u)) ≠ Some ""
}.

Lemma str_In_take c k s : str_In c s = false → str_In c (str_take k s) = false.
Proof.
  revert s. induction k as [|k IH]; intros [|d s]; simpl; try done.
  intros [Hd Hs]%orb_false_iff. by rewrite Hd, IH.
Qed.

Lemma tags_inv_step h tags n u :
  uuid_ok u → tags_inv h tags n →
  let '(tags', n') := slot_tags_step tags n (str_take 6 u) in
  tags_inv (h ++ [Ev (Σ := checker) UUID u]) tags' n'.
Proof.
  intros (Hlen & Ho & Hc) [Hl Hn Hs Hd]. set (tag := str_take 6 u).
  assert (tag ≠ "") as Htag by (subst tag; destruct u; simpl in *; [lia|done]).
  assert (∀ v, drawn (h ++ [Ev (Σ := checker) UUID u]) v → drawn h v ∨ v = u) as Hsplit.
  { intros v Hv. unfold drawn in Hv. rewrite omap_app in Hv.
    apply elem_of_app in Hv as [Hv|Hv%list_elem_of_singleton]; [by left|by right]. }
  pose proof (Slot_range tag) as Hrange.
  destruct (lookup_lt_is_Some_2 tags (Z.to_nat (Slot tag))) as [t0 Ht0]; [lia|].
  unfold slot_tags_step. rewrite Ht0. destruct t0 as [|c t0].
  - split.
    + by rewrite length_insert.
    + rewrite (filled_insert _ _ _ Ht0 Htag). lia.
    + intros s tag' [(<- & <- & _)|[_ Hs']]%list_lookup_insert_Some Hne; [|by apply Hs].
      split; [lia|]. subst tag. by split; apply str_In_take.
    + intros v Hv Hnone%list_lookup_insert_Some. destruct Hnone as [(_ & Heq & _)|[Hne Hnone]]; [done|].
      destruct (Hsplit v Hv) as [Hv'| ->]; [by apply (Hd v Hv')|done].
  - split; [done|done|done|]. intros v Hv Hnone.
    destruct (Hsplit v Hv) as [Hv'| ->]; [by apply (Hd v Hv')|]. fold tag in Hnone. congruence.
Qed.

Lemma wp_slot_tags_loop fuel tags n h :
  tags_inv h tags n →
  wp drawing (slot_tags_loop fuel tags n)
    (λ h' r, match r with
             | Some tags' => tags_inv h' tags' slotNumber
             | None => ∃ tags' n', tags_inv h' tags' n' ∧ n' ≠ slotNumber
             end) h.
Proof.
  revert tags n h. induction fuel as [|fuel IH]; intros tags n h Hinv; cbn [slot_tags_loop];
    (destruct (Z.eqb_spec n slotNumber) as [->|Hne]; [by apply wp_ret|]).
  - apply wp_ret. by exists tags, n.
  - apply wp_bind. split; [done|]. intros u Hu. apply wp_ret. pose proof Hu as [Hlen _].
    unfold tag_of. rewrite (proj2 (Nat.leb_le _ _) Hlen).
    pose proof (tags_inv_step h tags n u Hu Hinv) as Hstep.
    destruct (slot_tags_step tags n (str_take 6 u)) as [tags' n']. by apply IH.
Qed.

(** C29. The tags of the checker: with identifiers of hexadecimal digits and dashes the
    loop never panics; the tags it returns are one for each slot, each hashing to its
    slot and free of braces; and it is still running after [fuel] identifiers only
    when there is a slot that none of them falls into. *)
Theorem newSlotTags_spec (E : env checker) (fuel : nat) (HE : respects drawing E) :
  ∃ h r, run E (newSlotTags fuel) = (h, Some r) ∧
    match r with
    | Some tags => length tags = Z.to_nat slotNumber ∧ tags_ok tags
    | None => ∃ slot, 0 ≤ slot < slotNumber ∧ ∀ u, drawn h u → Slot (str_take 6 u) ≠ slot
    end.
Proof.
  assert (tags_inv [] (replicate (Z.to_nat slotNumber) "") 0) as Hinit.
  { split.
    - apply length_replicate.
    - unfold filled. generalize (Z.to_nat slotNumber). intros k. by induction k.
    - intros s tag [-> _]%lookup_replicate. done.
    - intros u Hu. by apply elem_of_nil in Hu. }
  pose proof (wp_slot_tags_loop fuel _ _ _ Hinit) as Hwp.
  apply (wp_sound _ E) in Hwp as [_ Hpost]; [|done]. unfold run, newSlotTags.
  destruct (run_from E [] _) as [h [r|]]; [|done]. exists h, r. split; [done|].
  simpl in Hpost. destruct r as [tags|].
  - destruct Hpost as [Hl Hn Hs _]. split; [done|]. intros s Hrange. unfold getTag.
    destruct (lookup_lt_is_Some_2 tags (Z.to_nat s)) as [tag Htag]; [lia|]. rewrite Htag. simpl.
    assert (tag ≠ "") as Hne.
    { intros ->. apply (filled_all tags (Z.to_nat s)); [lia|done]. }
    destruct (Hs _ _ Htag Hne) as (HS & Ho & Hc). split; [rewrite HS; lia|done].
  - destruct Hpost as (tags & n & [Hl Hn _ Hd] & Hne).
    destruct (filled_not_all tags) as [s Hs]; [unfold slotNumber in *; lia|]. exists (Z.of_nat s).
    pose proof (lookup_lt_Some _ _ _ Hs). split; [lia|].
    intros u Hu Heq. apply (Hd u Hu). by rewrite Heq, Nat2Z.id.
Qed.

(** The first draws of a source that always gives the same identifier. *)
Definition same_uuid : env checker := λ _ o,
  match o return checker_ans o with
  | Send _ _ => Ok RNil
  | CtxDone => false
  | WaitN _ => None
  | RandInt => exist _ 0 (Z.le_refl 0)
  | NormSlot | UnixNano => 0
  | UUID => "123e4567-e89b-12d3-a456-426614174000"
  | MapOrder m => exist _ (map_to_list m).*1 (Permutation_refl _)
  end.

Lemma newSlotTags_spec_witness : respects drawing same_uuid ∧
  ∃ h r, run same_uuid (newSlotTags 3) = (h, Some r) ∧
    match r with
    | Some tags => length tags = Z.to_nat slotNumber ∧ tags_ok tags
    | None => ∃ slot, 0 ≤ slot < slotNumber ∧ ∀ u, drawn h u → Slot (str_take 6 u) ≠ slot
    end.
Proof.
  assert (respects drawing same_uuid) as HE.
  { intros h []; try done. split; [cbn; lia|done]. }
  split; [exact HE|]. exact (newSlotTags_spec same_uuid 3 HE).
Defined.
