(* ===== verification/KvWitness.v ===== *)
(** * A cluster and tags for the checker

    The theorem of KvSound.v applied: a cluster that answers from its store, and a
    tag for each of the 16384 slots, found by running the table of the checksum
    backwards. *)
From S2P Require Import Prelude Prog GoStr Slot ClusterClient KvChecker KvKeys KvSound.

(** ** The table backwards *)

(** Entry [i] of the table; its index by the low byte, one for each byte. *)
Definition entry (i : Z) : Z := nth (Z.to_nat i) crc16tab 0.
Fixpoint find_low (l : Z) (table : list Z) (i : Z) : Z :=
  match table with
  | [] => 0
  | x :: table => if Z.land x 0xff =? l then i else find_low l table (i + 1)
  end.
Definition by_low (l : Z) : Z := find_low l crc16tab 0.
Definition high (i : Z) : Z := Z.shiftr (entry i) 8.

Definition brace (b : Z) : bool := (b =? 123) || (b =? 125).

(** The first bytes of which the entries agree in six bits: at least three are no
    brace, and their entries have different high bytes. *)
Definition first_bytes (x : Z) : list Z :=
  filter (λ a, brace a = false) (by_low <$> [x; x + 64; x + 128; x + 192]).

(** The two bytes that have the checksum of slot [s], up to its two upper bits. *)
Definition last_index (s : Z) : Z := by_low (Z.land s 0xff).
Definition first_class (s : Z) : Z := Z.lxor (Z.shiftr s 8) (high (last_index s)) mod 64.
Definition tag_for (s : Z) : string :=
  let j := last_index s in
  match find (λ a, negb (brace (Z.lxor (high a) j))) (first_bytes (first_class s)) with
  | Some a => String (val_byte a) (String (val_byte (Z.lxor (high a) j)) "")
  | None => ""
  end.

Lemma forall_below (n : nat) (p : Z → bool) s :
  forallb p (seqZ 0 (Z.of_nat n)) = true → 0 ≤ s < Z.of_nat n → p s = true.
Proof.
  rewrite forallb_forall. intros Hall Hs. apply Hall, list_elem_of_In, elem_of_seqZ. lia.
Qed.

Lemma entry_range i : 0 ≤ i < 256 → 0 ≤ entry i < 2 ^ 16.
Proof.
  intros Hi. pose proof (forall_below 256 (λ i, (0 <=? entry i) && (entry i <? 2 ^ 16)) i
    ltac:(vm_compute; reflexivity) Hi) as He. cbn beta in He. lia.
Qed.

Lemma high_range i : 0 ≤ i < 256 → 0 ≤ high i < 2 ^ 8.
Proof.
  intros Hi. pose proof (entry_range i Hi). unfold high. rewrite Z.shiftr_div_pow2 by lia.
  split; [apply Z.div_pos; lia|]. apply Z.div_lt_upper_bound; lia.
Qed.

Lemma by_low_spec l : 0 ≤ l < 256 → 0 ≤ by_low l < 256 ∧ Z.land (entry (by_low l)) 0xff = l.
Proof.
  intros Hl. pose proof (forall_below 256
    (λ l, (0 <=? by_low l) && (by_low l <? 256) && (Z.land (entry (by_low l)) 0xff =? l)) l
    ltac:(vm_compute; reflexivity) Hl) as He. cbn beta in He. lia.
Qed.

Definition class_ok (x : Z) : bool :=
  (3 <=? length (first_bytes x))%nat && bool_decide (NoDup (high <$> first_bytes x))
  && forallb (λ a, (0 <=? a) && (a <? 256) && negb (brace a) && (entry a mod 64 =? x)) (first_bytes x).

Lemma first_bytes_spec x : 0 ≤ x < 64 →
  (3 ≤ length (first_bytes x))%nat ∧ NoDup (high <$> first_bytes x) ∧
  ∀ a, a ∈ first_bytes x → 0 ≤ a < 256 ∧ brace a = false ∧ entry a mod 64 = x.
Proof.
  intros Hx. pose proof (forall_below 64 class_ok x ltac:(vm_compute; reflexivity) Hx) as He.
  apply andb_prop in He as [[Hlen%Nat.leb_le Hnd%bool_decide_eq_true_1]%andb_prop Hall].
  split; [done|]. split; [done|]. intros a Ha%list_elem_of_In.
  rewrite forallb_forall in Hall. specialize (Hall a Ha). destruct (brace a); lia.
Qed.

(** ** Tags *)

(** Three different bytes: one of them is off the two braces. *)
Lemma find_off_braces (f : Z → Z) j (l : list Z) :
  (3 ≤ length l)%nat → NoDup (f <$> l) →
  ∃ a, find (λ a, negb (brace (Z.lxor (f a) j))) l = Some a.
Proof.
  intros Hlen Hnd. destruct (find _ l) as [a|] eqn:Hf; [by exists a|].
  assert (∀ a, a ∈ l → f a = Z.lxor 123 j ∨ f a = Z.lxor 125 j) as Hb.
  { intros a Ha%list_elem_of_In. pose proof (find_none _ _ Hf a Ha) as Hn. cbn beta in Hn.
    unfold brace in Hn. assert (f a = Z.lxor (Z.lxor (f a) j) j) as ->
      by (by rewrite Z.lxor_assoc, Z.lxor_nilpotent, Z.lxor_0_r).
    destruct (Z.eqb_spec (Z.lxor (f a) j) 123) as [->|]; [by left|].
    destruct (Z.eqb_spec (Z.lxor (f a) j) 125) as [->|]; [by right|done]. }
  destruct l as [|a [|b [|c l]]]; simpl in Hlen; try lia.
  rewrite !fmap_cons, !NoDup_cons in Hnd. destruct Hnd as (Ha & Hb' & _).
  rewrite !not_elem_of_cons in Ha. rewrite !not_elem_of_cons in Hb'.
  destruct Ha as (? & ? & _), Hb' as (? & _).
  destruct (Hb a), (Hb b), (Hb c); (congruence || set_solver).
Qed.

Lemma tag_for_bytes s : 0 ≤ s < slotNumber → ∃ a,
  let j := last_index s in
  tag_for s = String (val_byte a) (String (val_byte (Z.lxor (high a) j)) "") ∧
  0 ≤ a < 256 ∧ brace a = false ∧ brace (Z.lxor (high a) j) = false ∧
  entry a mod 64 = first_class s.
Proof.
  intros Hs. unfold tag_for. destruct (first_bytes_spec (first_class s)) as (Hlen & Hnd & Hall).
  { apply Z.mod_pos_bound. lia. }
  destruct (find_off_braces high (last_index s) _ Hlen Hnd) as [a Hf]. rewrite Hf.
  apply find_some in Hf as [Ha%list_elem_of_In Hb]. destruct (Hall a Ha) as (? & ? & ?).
  exists a. split; [done|]. destruct (brace (Z.lxor _ _)); [done|]. auto.
Qed.

Lemma crc_two a b : 0 ≤ a < 256 → 0 ≤ b < 256 →
  crc16sum (String (val_byte a) (String (val_byte b) "")) =
    Z.lxor (shl8 (entry a)) (entry (Z.lxor (high a) b)).
Proof.
  intros Ha Hb. unfold crc16sum. cbn [crc16_loop]. rewrite !byte_val_val by done.
  assert (∀ crc b, crc_step crc b =
    Z.lxor (shl8 crc) (entry (Z.land (Z.lxor (Z.land (Z.shiftr crc 8) 0xff) b) 0xff))) as Hstep by done.
  assert (∀ x, 0 ≤ x < 2 ^ 8 → Z.land x 0xff = x) as Hid
    by (intros x Hx; change 0xff with (Z.ones 8); rewrite Z.land_ones by lia; by apply Z.mod_small).
  assert (crc_step 0 a = entry a) as ->
    by (rewrite Hstep; cbn [Z.shiftr Z.shiftl Z.land]; by rewrite Z.lxor_0_l, Hid).
  rewrite Hstep. fold (high a). rewrite (Hid (high a)) by (by apply high_range).
  rewrite Hid; [done|]. apply lxor_range; [lia|by apply high_range|done].
Qed.

Lemma testbit_mod_eq n x y i : 0 ≤ i < n → x mod 2 ^ n = y mod 2 ^ n → Z.testbit x i = Z.testbit y i.
Proof.
  intros Hi Heq. rewrite <- (Z.mod_pow2_bits_low x n i), <- (Z.mod_pow2_bits_low y n i) by lia.
  by rewrite Heq.
Qed.

Lemma testbit_above n x i : 0 ≤ x < 2 ^ n → 0 ≤ n ≤ i → Z.testbit x i = false.
Proof. intros Hx Hi. rewrite <- (Z.mod_small x (2 ^ n)) by done. apply Z.mod_pow2_bits_high. lia. Qed.

Lemma slot_bits s a : 0 ≤ s < slotNumber →
  entry a mod 64 = first_class s →
  Z.lxor (shl8 (entry a)) (entry (last_index s)) mod slotNumber = s.
Proof.
  intros Hs Ha. set (j := last_index s).
  assert (Z.land (entry j) 0xff = Z.land s 0xff) as Hj.
  { apply by_low_spec. change 0xff with (Z.ones 8). rewrite Z.land_ones by lia. apply Z.mod_pos_bound. lia. }
  change 0xff with (Z.ones 8) in Hj. rewrite !Z.land_ones in Hj by lia.
  change slotNumber with (2 ^ 14) in *. apply Z.bits_inj'. intros n Hn.
  destruct (Z.ltb_spec n 14) as [Hlt|Hge].
  2: { rewrite Z.mod_pow2_bits_high by lia. symmetry. by apply (testbit_above 14). }
  rewrite Z.mod_pow2_bits_low, Z.lxor_spec by lia. unfold shl8.
  change 0xffff with (Z.ones 16). rewrite Z.land_ones, Z.mod_pow2_bits_low by lia.
  destruct (Z.ltb_spec n 8) as [Hlow|Hhigh].
  - rewrite Z.shiftl_spec_low by lia. by apply (testbit_mod_eq 8).
  - rewrite Z.shiftl_spec_high by lia. rewrite (testbit_mod_eq 6 _ (Z.lxor (Z.shiftr s 8) (high j)) (n - 8)) by (done || lia).
    unfold high. rewrite Z.lxor_spec, !Z.shiftr_spec by lia. replace (n - 8 + 8) with n by lia.
    by destruct (Z.testbit s n), (Z.testbit (entry j) n).
Qed.

Lemma brace_In b t : 0 ≤ b < 256 → brace b = false →
  str_In "{"%char t = false → str_In "}"%char t = false →
  str_In "{"%char (String (val_byte b) t) = false ∧ str_In "}"%char (String (val_byte b) t) = false.
Proof.
  intros Hb Hne Ho Hc. cbn [str_In]. rewrite Ho, Hc. unfold brace in Hne.
  assert (∀ c : Ascii.ascii, byte_val c ≠ b → bool_decide (c = val_byte b) = false) as Hd.
  { intros c Hcb. apply bool_decide_false. intros ->. by rewrite byte_val_val in Hcb. }
  split; rewrite Hd; try done.
  - change (byte_val "{"%char) with 123. lia.
  - change (byte_val "}"%char) with 125. lia.
Qed.

Lemma tag_for_ok s : 0 ≤ s < slotNumber →
  Slot (tag_for s) = s ∧ tag_for s ≠ "" ∧
  str_In "{"%char (tag_for s) = false ∧ str_In "}"%char (tag_for s) = false.
Proof.
  intros Hs. destruct (tag_for_bytes s Hs) as (a & Htag & Ha & Hba & Hbb & Hclass).
  cbn zeta in Htag. rewrite Htag. set (j := last_index s) in *.
  assert (0 ≤ j < 256) as Hj.
  { apply by_low_spec. change 0xff with (Z.ones 8). rewrite Z.land_ones by lia. apply Z.mod_pos_bound. lia. }
  assert (0 ≤ Z.lxor (high a) j < 256) as Hb by (apply (lxor_range 8); [lia|by apply high_range|done]).
  destruct (brace_In _ "" Hb Hbb eq_refl eq_refl) as [Ho Hc].
  destruct (brace_In _ _ Ha Hba Ho Hc) as [Ho' Hc']. split; [|done].
  unfold Slot. cbn [String.eqb]. rewrite Key_plain, crc_two by done.
  rewrite <- Z.lxor_assoc, Z.lxor_nilpotent, Z.lxor_0_l. by apply slot_bits.
Qed.

(** ** The tags of a checker *)

Definition tags : list string := tag_for <$> seqZ 0 slotNumber.

Lemma tags_all_ok : tags_ok tags.
Proof.
  intros s Hs. assert (getTag tags s = tag_for s) as ->; [|by apply tag_for_ok].
  unfold getTag, tags. rewrite list_lookup_fmap, lookup_seqZ_lt by lia.
  change (tag_for (0 + Z.of_nat (Z.to_nat s)) = tag_for s). by rewrite Z2Nat.id by lia.
Qed.

(** ** A cluster *)

(** Each command is accepted and answered from the store. *)
Definition honest_reply (cmd : command) (st : kvs) : result cerror rvalue :=
  match cmd with
  | CmdGet k => match st !! k with Some s => Ok (RStr s) | None => Err redis_Nil end
  | CmdMGet ks | CmdEval _ ks _ => Ok (RList (value_of st <$> ks))
  | _ => Ok (RStr "OK")
  end.

Definition honest : env checker := λ h o,
  match o return checker_ans o with
  | Send _ cmd => honest_reply cmd (store ∅ h)
  | CtxDone => false
  | WaitN _ => None
  | RandInt => exist _ 0 (Z.le_refl 0)
  | NormSlot => 8192
  | UnixNano => 0
  | UUID => "uuid"
  | MapOrder m => exist _ (map_to_list m).*1 (Permutation_refl _)
  end.

Lemma honest_respects id : respects (cluster ∅ id) honest.
Proof.
  intros h [a cmd| |n| | | | |m]; try done. cbn. destruct cmd as [k| | | | | |]; cbn; try done.
  destruct (store ∅ h !! k) as [s|] eqn:Hk; [by exists s|]. split; [by left|].
  intros k' [= <-] _. done.
Qed.

Lemma checker_no_false_alarm_witness :
  tags_ok tags ∧ respects (cluster ∅ 1) honest ∧
  ∃ h' ck' err,
    run_from honest [] (ck ← newKVChecker 1 ∅ tags;
      loopCheck (MkClusterClient "127.0.0.1:5299" false) 1000 ck) = (h', Some (ck', err)) ∧
    match err with Some e => ¬ alarm e | None => agree 1 ck' (store ∅ h') end ∧
    ∀ address cmd x, Ev (Σ := checker) (Send address cmd) x ∈ h' → cmd_ok 1 cmd.
Proof.
  split; [exact tags_all_ok|]. split; [exact (honest_respects 1)|].
  exact (checker_no_false_alarm 1 tags tags_all_ok (MkClusterClient "127.0.0.1:5299" false) honest
           1000 ∅ eq_refl (honest_respects 1)).
Defined.
