(* ===== verification/KvService.v ===== *)
(** * The three checkers together (src/checker/pkg/kv.go, [RunKvCheckerService])

    The goroutines of the service on one cluster: their keys are disjoint, so what
    each remembers stays true whatever the others do. *)
From S2P Require Import Prelude Prog GoStr Slot ClusterClient KvChecker KvKeys KvSound Interleave KvWitness.

(** ** The shared cluster *)

(** What the cluster in the state [st] may answer, and its state afterwards. *)
Definition cluster_answer (st : kvs) (o : op checker) : ans checker o → Prop :=
  match o return checker_ans o → Prop with
  | Send _ cmd => reply_ok cmd st
  | WaitN _ => λ x, ∀ e, x = Some e → ∃ msg, e = CErr msg
  | _ => λ _, True
  end.

Abbreviation service_step := (istep (Σ := checker) (A := option cerror) cluster_answer store_step).

(** The part of the store that goroutine [i] owns is what its history says. *)
Definition own_view (i : nat) (st : kvs) (h : history checker) : Prop :=
  ∀ k, owned (Z.of_nat i) k → st !! k = store ∅ h !! k.

Definition no_alarm (err : option cerror) : Prop :=
  match err with Some e => ¬ alarm e | None => True end.

Lemma checkers_separated : separated cluster_answer store_step (λ i, cluster ∅ (Z.of_nat i)) own_view.
Proof.
  split.
  - intros i st h o x Hv Hg Hx. destruct o as [a cmd| | | | | | |]; try done.
    eapply reply_ok_lookup; [|exact Hx]. intros k Hk. apply Hv, (cmd_owned _ _ Hg), Hk.
  - intros i st h o x Hv _ _ k Hk. rewrite store_snoc. destruct o as [a cmd| | | | | | |]; try by apply Hv.
    simpl in x |- *. destruct x; [|by apply Hv]. by apply apply_command_lookup, Hv.
  - intros i j st h h' o x Hne Hv _ Hg _ k Hk. destruct o as [a cmd| | | | | | |]; try by apply Hv.
    simpl in x |- *. destruct x; [|by apply Hv]. rewrite apply_command_other; [by apply Hv|].
    intros Hin. apply (cmd_owned _ _ Hg) in Hin. pose proof (owned_inj _ _ _ Hk Hin). lia.
Qed.

Lemma checker_goroutine_ok startupNode fuel tags id :
  tags_ok tags →
  wp (cluster ∅ id) (checker_goroutine startupNode fuel tags id) (λ _ err, no_alarm err) [].
Proof.
  intros Htags. unfold checker_goroutine. apply wp_bind, wp_newKVChecker; [done|]. intros h ck Hag.
  apply wp_bind. eapply wp_mono; [by apply loopCheck_ok|].
  intros h' [ck' err] Hpost. apply wp_ret. by destruct err.
Qed.

Lemma checker_goroutines_lookup startupNode fuel tags i p :
  checker_goroutines startupNode fuel tags !! i = Some p →
  p = checker_goroutine startupNode fuel tags (Z.of_nat i).
Proof.
  unfold checker_goroutines. rewrite list_lookup_fmap.
  destruct (seqZ 0 checkerNum !! i) as [z|] eqn:Hz; [|done]. apply lookup_seqZ in Hz as [-> _].
  by intros [= <-].
Qed.

(** C13. The checkers do not disturb each other: with a tag for every slot, in every
    interleaving of the three goroutines of the service on a cluster that is empty
    and keeps what it accepted, none of them panics, and none that has stopped
    reports an inconsistency. *)
Theorem checkers_no_false_alarm (startupNode : string) (fuel : nat) (tags : list string)
    (ps : list (chk (option cerror))) (st : kvs) (Htags : tags_ok tags)
    (Hrun : rtc service_step (checker_goroutines startupNode fuel tags, ∅) (ps, st)) :
  length ps = Z.to_nat checkerNum ∧
  ∀ i p, ps !! i = Some p →
    p ≠ Crash ∧ ∀ err, p = Ret err → no_alarm err.
Proof.
  split.
  - assert (∀ c c', rtc service_step c c' → length c'.1 = length c.1) as Hlen.
    { induction 1 as [|c c' c'' [] _ IH]; [done|]. rewrite IH. apply length_insert. }
    pose proof (Hlen _ _ Hrun) as Hl. cbn [fst] in Hl. rewrite Hl. unfold checker_goroutines.
    by rewrite length_fmap, length_seqZ.
  - assert (all_correct (λ i, cluster ∅ (Z.of_nat i)) (λ _ _ err, no_alarm err) own_view (ps, st))
      as Hall.
    { eapply isteps_correct; [exact checkers_separated|exact Hrun|].
      intros i p Hi%checker_goroutines_lookup. exists []. split; [done|]. subst p.
      by apply checker_goroutine_ok. }
    intros i p Hi. split; [intros ->; by apply (correct_crash _ _ _ _ _ Hall Hi)|].
    intros err ->. by destruct (correct_ret _ _ _ _ _ _ Hall Hi) as (h & _ & Hpost).
Qed.

(** The first two goroutines read the clock, in the other order. *)
Lemma checkers_no_false_alarm_witness :
  ∃ ps st, rtc service_step (checker_goroutines "127.0.0.1:5299" 5 tags, ∅) (ps, st) ∧
    length ps = 3%nat ∧
    ∀ i p, ps !! i = Some p → p ≠ Crash ∧ ∀ err, p = Ret err → no_alarm err.
Proof.
  do 2 eexists. match goal with |- ?R ∧ _ => assert R as Hrun end.
  { eapply rtc_l; [eapply (istep_call (Σ := checker) cluster_answer store_step _ _ 1 UnixNano _ 7); [reflexivity|exact I]|].
    eapply rtc_l; [eapply (istep_call (Σ := checker) cluster_answer store_step _ _ 0 UnixNano _ 9); [reflexivity|exact I]|].
    apply rtc_refl. }
  split; [exact Hrun|].
  exact (checkers_no_false_alarm "127.0.0.1:5299" 5 tags _ _ tags_all_ok Hrun).
Defined.
