(* ===== verification/KvMain.v ===== *)
(** * The end of the checker service (src/checker/pkg/kv.go, [RunKvCheckerService])

    When the three goroutines have stopped, the service saves what the recorder holds,
    trying again until all files are written, and then returns or sleeps for ever. *)
From S2P Require Import Prelude Prog RingBuf Monitor.

(** [monitorEnabled] *)
Definition monitor_enabled (monitorBufSize : Z) (monitorAddresses : list string) : bool :=
  (1 <? monitorBufSize) && (0 <? Z.of_nat (length monitorAddresses)).

(** The attempts to dump.  The goroutines of the recorder go on, so each attempt has its
    own [clients], as they are when their lines are read; the loop has no bound, the
    list ends after the attempts looked at.  The answer: whether the loop was left. *)
Fixpoint dump_loop (attempts : list (list monitorClient)) : mon bool :=
  match attempts with
  | [] => mret false
  | clients :: attempts =>
      err ← dump clients;
      match err with
      | None => mret true
      | Some _ => _ ← mcall (Sleep 5); dump_loop attempts
      end
  end.

(** [for { time.Sleep(time.Hour) }], for some hours. *)
Fixpoint sleep_hours (hours : nat) : mon unit :=
  match hours with
  | O => mret ()
  | S hours => _ ← mcall (Sleep 3600); sleep_hours hours
  end.

(** Where the service is: in the loop of the dump, in the last loop, or returned. *)
Inductive service_end := Dumping | Blocked | Returned.
#[export] Instance service_end_eq_dec : EqDecision service_end.
Proof. solve_decision. Defined.

(** [RunKvCheckerService] after [group.Wait]. *)
Definition service_tail (monitorBufSize : Z) (monitorAddresses : list string) (blockOnError : bool)
    (attempts : list (list monitorClient)) (hours : nat) : mon service_end :=
  dumped ← (if monitor_enabled monitorBufSize monitorAddresses then dump_loop attempts else mret true);
  if negb dumped then mret Dumping
  else if negb blockOnError then mret Returned
  else _ ← sleep_hours hours; mret Blocked.

(** * Properties *)

(** The files of the clients, all written. *)
Definition saved (clients : list monitorClient) : history monitor :=
  (λ c, Ev (Σ := monitor) (WriteFile (dump_name c) (dump_content c)) None) <$> clients.

(** An attempt that failed: some files are written, the next is not; then a pause. *)
Definition failed_attempt (clients : list monitorClient) (t : history monitor) : Prop :=
  ∃ written c rest e, clients = written ++ c :: rest ∧
    t = saved written ++ [Ev (Σ := monitor) (WriteFile (dump_name c) (dump_content c)) (Some e);
                          Ev (Σ := monitor) (Sleep 5) ()].

Lemma run_dump (E : env monitor) (clients : list monitorClient) (h : history monitor) :
  run_from E h (dump clients) = (h ++ saved clients, Some None) ∨
  ∃ written c rest e, clients = written ++ c :: rest ∧
    run_from E h (dump clients) =
      (h ++ saved written ++ [Ev (Σ := monitor) (WriteFile (dump_name c) (dump_content c)) (Some e)],
       Some (Some e)).
Proof.
  revert h. induction clients as [|c clients IH]; intros h; cbn [dump].
  - left. simpl. by rewrite app_nil_r.
  - unfold mbind, prog_bind, call. simpl. destruct (E h _) as [e|]; simpl.
    + right. by exists [], c, clients, e.
    + destruct (IH (h ++ [Ev (Σ := monitor) (WriteFile (dump_name c) (dump_content c)) None]))
        as [-> | (written & c' & rest & e & -> & ->)].
      * left. by rewrite <- app_assoc.
      * right. exists (c :: written), c', rest, e. split; [done|]. by rewrite <- app_assoc.
Qed.

Lemma run_sleep_hours (E : env monitor) (hours : nat) (h : history monitor) :
  run_from E h (sleep_hours hours) =
    (h ++ replicate hours (Ev (Σ := monitor) (Sleep 3600) ()), Some ()).
Proof.
  revert h. induction hours as [|hours IH]; intros h; simpl; [by rewrite app_nil_r|].
  unfold mbind, prog_bind, call. simpl. rewrite IH, <- app_assoc. by destruct (E h _).
Qed.

(** The loop fails a number of times, and then all files are written or the attempts
    looked at are over. *)
Lemma run_dump_loop (E : env monitor) (attempts : list (list monitorClient)) (h : history monitor) :
  ∃ failures t, Forall2 failed_attempt (take (length failures) attempts) failures ∧
    ((∃ clients, attempts !! length failures = Some clients ∧ t = saved clients ∧
        run_from E h (dump_loop attempts) = (h ++ concat failures ++ t, Some true)) ∨
     (length failures = length attempts ∧ t = [] ∧
        run_from E h (dump_loop attempts) = (h ++ concat failures ++ t, Some false))).
Proof.
  revert h. induction attempts as [|clients attempts IH]; intros h; cbn [dump_loop].
  - exists [], []. split; [constructor|]. right. simpl. by rewrite app_nil_r.
  - rewrite run_bind.
    destruct (run_dump E clients h) as [-> | (written & c & rest & e & Hc & ->)].
    + exists [], (saved clients). split; [constructor|]. left. by exists clients.
    + unfold mbind, prog_bind, call. simpl. set (h1 := _ ++ [Ev (Σ := monitor) (Sleep 5) _]).
      destruct (IH h1) as (failures & t & Hf & Hend).
      exists ((saved written ++ [Ev (Σ := monitor) (WriteFile (dump_name c) (dump_content c)) (Some e);
                          Ev (Σ := monitor) (Sleep 5) ()]) :: failures), t.
      split; [constructor; [by exists written, c, rest, e|done]|].
      assert (h1 = h ++ saved written ++ [Ev (Σ := monitor) (WriteFile (dump_name c) (dump_content c)) (Some e);
                          Ev (Σ := monitor) (Sleep 5) ()]) as Hh1.
      { unfold h1. destruct (E _ (Sleep 5)). by rewrite <- !app_assoc. }
      clearbody h1. subst h1. rewrite <- !app_assoc in Hend. simpl in *.
      destruct Hend as [(clients' & Hl & Ht & Hrun)|(Hl & Ht & Hrun)]; [left|right].
      * exists clients'. split; [done|]. split; [done|]. rewrite Hrun. by rewrite <- !app_assoc.
      * split; [lia|]. split; [done|]. rewrite Hrun. by rewrite <- !app_assoc.
Qed.

(** C34. The recording is saved before the service ends.  The end of the service never
    panics.  When the recorder is enabled, every attempt to dump either writes the
    file of every client with the lines it holds then, after which nothing more is
    written, or fails at the first file that cannot be written, and is followed by
    a pause of five seconds and another attempt; the service returns, or goes on to
    sleep for ever when it was asked to block, only after an attempt that wrote all
    files.  When the recorder is not enabled it writes nothing. *)
Theorem service_saves (E : env monitor) (h : history monitor) (bufSize : Z) (addresses : list string)
    (block : bool) (attempts : list (list monitorClient)) (hours : nat) :
  ∃ failures written r,
    run_from E h (service_tail bufSize addresses block attempts hours) =
      (h ++ concat failures ++ written ++
         (if decide (r = Blocked) then replicate hours (Ev (Σ := monitor) (Sleep 3600) ()) else []),
       Some r) ∧
    Forall2 failed_attempt (take (length failures) attempts) failures ∧
    match r with
    | Dumping => monitor_enabled bufSize addresses = true ∧ length failures = length attempts ∧ written = []
    | Blocked | Returned =>
        (r = Blocked ↔ block = true) ∧
        if monitor_enabled bufSize addresses then ∃ clients, attempts !! length failures = Some clients ∧ written = saved clients
        else failures = [] ∧ written = []
    end.
Proof.
  unfold service_tail. rewrite run_bind. destruct (monitor_enabled bufSize addresses).
  - destruct (run_dump_loop E attempts h) as (failures & t & Hf & [(clients & Hl & -> & ->)|(Hl & -> & ->)]).
    + exists failures, (saved clients). destruct block; simpl.
      * exists Blocked. rewrite run_bind, run_sleep_hours. simpl. rewrite <- !app_assoc. by split; [|split; [|split; [|exists clients]]].
      * exists Returned. simpl. rewrite app_nil_r. by split; [|split; [|split; [|exists clients]]].
    + exists failures, [], Dumping. simpl. rewrite app_nil_r. by eauto 10.
  - exists [], []. destruct block; simpl.
    + exists Blocked. rewrite run_bind, run_sleep_hours. simpl. split; [done|]. by split; [constructor|].
    + exists Returned. simpl. rewrite app_nil_r. split; [done|]. by split; [constructor|].
Qed.
